(** * Page-load metrics handler: a shallow embedding and its properties

    This development embeds
    [front_end/models/trace/handlers/PageLoadMetricsHandler.ts] and proves
    properties of its streaming phase ([handleEvent]), its finalize phase
    ([finalize]), its lifecycle ([reset], [data]) and its scoring functions.

    Conventions of the embedding:
    - a JavaScript [Map] is an insertion-ordered association list with
      unique keys ([JSMap]); a JavaScript [Set] is an insertion-ordered
      list without duplicates;
    - timestamps and durations are integers ([Z]) counting microseconds,
      as trace events carry them; decimal second constants are rationals;
    - module-level mutable state is a record threaded through a small
      state-and-exception monad; a [throw] keeps the state reached so far;
    - data read from the Meta and Renderer handlers is a parameter. *)

From Stdlib Require Import ZArith QArith List String Bool Lia Permutation Sorted.
From Stdlib Require Import DecimalString.
Import ListNotations.
Local Open Scope string_scope.
Local Open Scope Z_scope.
Local Open Scope list_scope.

Set Implicit Arguments.

(** ** JavaScript [Map] and [Set] *)

Module JSMap.
Section Defs.
Variables K V : Type.
Variable eqb : K -> K -> bool.

Definition t := list (K * V).

Definition empty : t := [].

  (** [map.get(key)] *)
Fixpoint get (k : K) (m : t) : option V :=
    match m with
    | [] => None
    | (k', v) :: m' => if eqb k k' then Some v else get k m'
    end.

  (** [map.set(key, value)]: an existing key keeps its position, a new key
      goes to the end. *)
Fixpoint set (k : K) (v : V) (m : t) : t :=
    match m with
    | [] => [(k, v)]
    | (k', v') :: m' => if eqb k k' then (k, v) :: m' else (k', v') :: set k v m'
    end.

  (** [map.delete(key)] *)
Fixpoint delete (k : K) (m : t) : t :=
    match m with
    | [] => []
    | (k', v') :: m' => if eqb k k' then delete k m' else (k', v') :: delete k m'
    end.

  (** [[...map.values()]] *)
Definition values (m : t) : list V := List.map snd m.

Definition keys (m : t) : list K := List.map fst m.
End Defs.
End JSMap.

Module JSSet.
Section Defs.
Variable A : Type.
Variable eqb : A -> A -> bool.

Definition t := list A.

Definition has (x : A) (s : t) : bool := existsb (eqb x) s.

  (** [set.add(x)] *)
Definition add (x : A) (s : t) : t := if has x s then s else s ++ [x].

  (** [set.delete(x)] *)
Definition delete (x : A) (s : t) : t := filter (fun y => negb (eqb x y)) s.
End Defs.
End JSSet.

(** ** Timing units and conversions *)

Module Timing.
Definition MicroSeconds := Z.
Definition MilliSeconds := Z.
Definition Seconds := Q.

Inductive TimeUnit := MILLISECONDS | SECONDS | MINUTES | NONE.

  (** Modelled from the spec: [Helpers.Timing.millisecondsToMicroseconds]
      is not under src/; the spec has values "converted from milliseconds to
      microseconds". *)
Definition millisecondsToMicroseconds (ms : MilliSeconds) : MicroSeconds := ms * 1000.

  (** Modelled from the spec: [Helpers.Timing.secondsToMicroseconds] is not
      under src/; a decimal number of seconds becomes a rational number of
      microseconds (the spec's thresholds 1.8s, 3.0s, ...). *)
Definition secondsToMicroseconds (s : Seconds) : Q := (s * 1000 * 1000)%Q.

  (** The options object handed to [Helpers.Timing.formatMicrosecondsTime]. *)
Record FormatOptions := {
    format : TimeUnit;
    maximumFractionDigits : nat
  }.
End Timing.
Import Timing.

(** JavaScript [a <= b] between a microsecond value and a threshold obtained
    from a decimal constant. *)
Definition us_le (d : MicroSeconds) (threshold : Q) : bool :=
  Qle_bool (inject_Z d) threshold.

(** ** Classifications and metric names *)

Inductive ScoreClassification := GOOD | OK | BAD | UNCLASSIFIED.

Inductive MetricName := FCP | FP | L | LCP | DCL | TTI | TBT | CLS.

Definition MetricName_eqb (a b : MetricName) : bool :=
  match a, b with
  | FCP, FCP | FP, FP | L, L | LCP, LCP | DCL, DCL | TTI, TTI | TBT, TBT | CLS, CLS => true
  | _, _ => false
  end.

(** ** Metric scorer *)

Definition scoreClassificationForFirstContentfulPaint
    (fcpScoreInMicroseconds : MicroSeconds) : ScoreClassification :=
  let FCP_GOOD_TIMING := secondsToMicroseconds 1.8%Q in
  let FCP_MEDIUM_TIMING := secondsToMicroseconds 3.0%Q in
  let scoreClassification := BAD in
  let scoreClassification :=
    if us_le fcpScoreInMicroseconds FCP_MEDIUM_TIMING then OK else scoreClassification in
  let scoreClassification :=
    if us_le fcpScoreInMicroseconds FCP_GOOD_TIMING then GOOD else scoreClassification in
  scoreClassification.

Definition scoreClassificationForTimeToInteractive
    (ttiTimeInMicroseconds : MicroSeconds) : ScoreClassification :=
  let TTI_GOOD_TIMING := secondsToMicroseconds 3.8%Q in
  let TTI_MEDIUM_TIMING := secondsToMicroseconds 7.3%Q in
  let scoreClassification := BAD in
  let scoreClassification :=
    if us_le ttiTimeInMicroseconds TTI_MEDIUM_TIMING then OK else scoreClassification in
  let scoreClassification :=
    if us_le ttiTimeInMicroseconds TTI_GOOD_TIMING then GOOD else scoreClassification in
  scoreClassification.

Definition scoreClassificationForLargestContentfulPaint
    (lcpTimeInMicroseconds : MicroSeconds) : ScoreClassification :=
  let LCP_GOOD_TIMING := secondsToMicroseconds 2.5%Q in
  let LCP_MEDIUM_TIMING := secondsToMicroseconds 4%Q in
  let scoreClassification := BAD in
  let scoreClassification :=
    if us_le lcpTimeInMicroseconds LCP_MEDIUM_TIMING then OK else scoreClassification in
  let scoreClassification :=
    if us_le lcpTimeInMicroseconds LCP_GOOD_TIMING then GOOD else scoreClassification in
  scoreClassification.

Definition scoreClassificationForDOMContentLoaded
    (_dclTimeInMicroseconds : MicroSeconds) : ScoreClassification :=
  UNCLASSIFIED.

Definition scoreClassificationForTotalBlockingTime
    (tbtTimeInMicroseconds : MicroSeconds) : ScoreClassification :=
  let TBT_GOOD_TIMING := inject_Z (millisecondsToMicroseconds 200) in
  let TBT_MEDIUM_TIMING := inject_Z (millisecondsToMicroseconds 600) in
  let scoreClassification := BAD in
  let scoreClassification :=
    if us_le tbtTimeInMicroseconds TBT_MEDIUM_TIMING then OK else scoreClassification in
  let scoreClassification :=
    if us_le tbtTimeInMicroseconds TBT_GOOD_TIMING then GOOD else scoreClassification in
  scoreClassification.

(** The spec's reading of a scorer: inclusive thresholds, in microseconds. *)
Definition classifyByThresholds (good medium d : Z) : ScoreClassification :=
  if d <=? good then GOOD else if d <=? medium then OK else BAD.

(** ** Trace events *)

(** [event.args.data] of a page-load event; every field may be missing. *)
Record TraceEventArgsData := {
  data_frame : option string;
  data_navigationId : option string;
  data_candidateIndex : option Z
}.

(** [event.args].  [args_frame] is read only on the kinds that carry the
    frame directly, [args_total_blocking_time_ms] (the payload
    [args.args.total_blocking_time_ms]) only on InteractiveTime events. *)
Record TraceEventArgs := {
  args_frame : string;
  args_data : option TraceEventArgsData;
  args_total_blocking_time_ms : MilliSeconds
}.

Record TraceEventData := {
  name : string;
  ts : MicroSeconds;
  pid : Z;
  args : TraceEventArgs
}.

(** A navigation start event of the Meta handler: its timestamp and
    [navigation.args.data?.navigationId]. *)
Record TraceEventNavigationStart := {
  nav_ts : MicroSeconds;
  nav_navigationId : option string
}.

(** Events of a renderer thread: instant events have no duration. *)
Inductive RendererEvent :=
| TraceEventInstant (task_name : string) (task_ts : MicroSeconds)
| TraceEventComplete (task_name : string) (task_ts task_dur : MicroSeconds).

Definition option_eq_dec (A : Type) (dec : forall x y : A, {x = y} + {x <> y})
  (x y : option A) : {x = y} + {x <> y}.
Proof. decide equality. Defined.

Definition TraceEventArgsData_eq_dec (x y : TraceEventArgsData) : {x = y} + {x <> y}.
Proof.
  decide equality; apply option_eq_dec; first [apply string_dec | apply Z.eq_dec].
Defined.

Definition TraceEventArgs_eq_dec (x y : TraceEventArgs) : {x = y} + {x <> y}.
Proof.
  decide equality;
    first [apply Z.eq_dec | apply string_dec
          | apply option_eq_dec; apply TraceEventArgsData_eq_dec].
Defined.

Definition TraceEventData_eq_dec (x y : TraceEventData) : {x = y} + {x <> y}.
Proof.
  decide equality; first [apply Z.eq_dec | apply string_dec | apply TraceEventArgs_eq_dec].
Defined.

(** Identity of event objects, as the [Set] of selected candidates uses it. *)
Definition TraceEventData_eqb (x y : TraceEventData) : bool :=
  if TraceEventData_eq_dec x y then true else false.

(** *** Type guards

    Modelled from the spec: the guards [Types.TraceEvents.isTraceEvent...]
    are not under src/; an event is of a kind when it carries that kind's
    name, the names being those of [MarkerName] plus "InteractiveTime" and
    "LayoutShift". *)

Definition MarkerName : list string :=
  ["MarkDOMContent"; "MarkLoad"; "firstPaint"; "firstContentfulPaint";
   "largestContentfulPaint::Candidate"].

Definition isTraceEventMarkDOMContent (event : TraceEventData) : bool :=
  String.eqb (name event) "MarkDOMContent".
Definition isTraceEventMarkLoad (event : TraceEventData) : bool :=
  String.eqb (name event) "MarkLoad".
Definition isTraceEventFirstPaint (event : TraceEventData) : bool :=
  String.eqb (name event) "firstPaint".
Definition isTraceEventFirstContentfulPaint (event : TraceEventData) : bool :=
  String.eqb (name event) "firstContentfulPaint".
Definition isTraceEventLargestContentfulPaintCandidate (event : TraceEventData) : bool :=
  String.eqb (name event) "largestContentfulPaint::Candidate".
Definition isTraceEventInteractiveTime (event : TraceEventData) : bool :=
  String.eqb (name event) "InteractiveTime".
Definition isTraceEventLayoutShift (event : TraceEventData) : bool :=
  String.eqb (name event) "LayoutShift".

(** Modelled from the spec: [Types.TraceEvents.isTraceEventInstant] is not
    under src/; an instant event is one that bears no duration. *)
Definition isTraceEventInstant (task : RendererEvent) : bool :=
  match task with
  | TraceEventInstant _ _ => true
  | TraceEventComplete _ _ _ => false
  end.

Definition task_name (task : RendererEvent) : string :=
  match task with
  | TraceEventInstant n _ => n
  | TraceEventComplete n _ _ => n
  end.

(** Modelled from the spec: [KnownEventName.RunTask] is not under src/; it
    is the name of the generic run-task events. *)
Definition RunTask : string := "RunTask".

Definition markerTypeGuards : list (TraceEventData -> bool) :=
  [isTraceEventMarkDOMContent; isTraceEventMarkLoad; isTraceEventFirstPaint;
   isTraceEventFirstContentfulPaint; isTraceEventLargestContentfulPaintCandidate].

Definition isTraceEventMarkerEvent (event : TraceEventData) : bool :=
  existsb (fun fn => fn event) markerTypeGuards.

Definition pageLoadEventTypeGuards : list (TraceEventData -> bool) :=
  markerTypeGuards ++ [isTraceEventInteractiveTime].

Definition eventIsPageLoadEvent (event : TraceEventData) : bool :=
  existsb (fun fn => fn event) pageLoadEventTypeGuards.

(** *** Optional chaining and falsiness *)

(** [event.args.data?.field] *)
Definition data_field (A : Type) (field : TraceEventArgsData -> option A)
    (event : TraceEventData) : option A :=
  match args_data (args event) with
  | Some d => field d
  | None => None
  end.

(** [!s] for an optional string: [undefined] and the empty string are falsy. *)
Definition falsy_string (s : option string) : bool :=
  match s with
  | None => true
  | Some s => String.eqb s ""
  end.

(** [!n] for an optional number: [undefined] and [0] are falsy. *)
Definition falsy_number (n : option Z) : bool :=
  match n with
  | None => true
  | Some n => n =? 0
  end.

(** ** Metric scores and the metric table *)

Record MetricScore := {
  score : string;
  metricName : MetricName;
  classification : ScoreClassification;
  event : option TraceEventData;
  navigation : option TraceEventNavigationStart;
  estimated : option bool
}.

(** [metricScore.event], for the places where [event] names an argument. *)
Definition eventOf (metricScore : MetricScore) : option TraceEventData :=
  event metricScore.

Definition Metrics := JSMap.t MetricName MetricScore.
Definition MetricsByNavigation := JSMap.t string Metrics.
Definition MetricTable := JSMap.t string MetricsByNavigation.

Definition sget (V : Type) := @JSMap.get string V String.eqb.
Definition sset (V : Type) := @JSMap.set string V String.eqb.
Definition mget := @JSMap.get MetricName MetricScore MetricName_eqb.
Definition mset := @JSMap.set MetricName MetricScore MetricName_eqb.
Definition mdelete := @JSMap.delete MetricName MetricScore MetricName_eqb.
Definition zget (V : Type) := @JSMap.get Z V Z.eqb.

(** Modelled from the spec: [Platform.MapUtilities.getWithDefault] is not
    under src/; it returns the value stored under [key], and when there is
    none it stores the factory's value under [key] and returns that.  The
    second component is the map after the call. *)
Definition getWithDefault (V : Type) (map : JSMap.t string V) (key : string)
    (defaultValueFactory : unit -> V) : V * JSMap.t string V :=
  match sget key map with
  | Some value => (value, map)
  | None => let value := defaultValueFactory tt in (value, sset key value map)
  end.

(** The metrics stored for a frame and a navigation. *)
Definition lookupMetrics (frameId navigationId : string) (table : MetricTable)
    : option Metrics :=
  match sget frameId table with
  | Some metricsByNavigation => sget navigationId metricsByNavigation
  | None => None
  end.

(** [storeMetricScore] on the table.  The inner maps are objects mutated in
    place, so their new contents stay under the keys they had. *)
Definition storeMetricScoreInTable (frameId navigationId : string)
    (metricScore : MetricScore) (table : MetricTable) : MetricTable :=
  let (metricsByNavigation, table) := getWithDefault table frameId (fun _ => []) in
  let (metrics, metricsByNavigation) :=
    getWithDefault metricsByNavigation navigationId (fun _ => []) in
  let metrics := mdelete (metricName metricScore) metrics in
  let metrics := mset (metricName metricScore) metricScore metrics in
  sset frameId (sset navigationId metrics metricsByNavigation) table.

(** The two [getWithDefault] calls of the candidate branch: they create the
    maps of the frame and of the navigation when those are missing. *)
Definition metricsWithDefault (frameId navigationId : string) (table : MetricTable)
    : Metrics * MetricTable :=
  let (metricsByNavigation, table) := getWithDefault table frameId (fun _ => []) in
  let (metrics, metricsByNavigation) :=
    getWithDefault metricsByNavigation navigationId (fun _ => []) in
  (metrics, sset frameId metricsByNavigation table).

(** ** Handler state *)

Record State := {
  metricScoresByFrameId : MetricTable;
  allMarkerEvents : list TraceEventData;
  pageLoadEventsArray : list TraceEventData;
  selectedLCPCandidateEvents : JSSet.t TraceEventData
}.

Definition with_metricScoresByFrameId (table : MetricTable) (s : State) : State :=
  {| metricScoresByFrameId := table;
     allMarkerEvents := allMarkerEvents s;
     pageLoadEventsArray := pageLoadEventsArray s;
     selectedLCPCandidateEvents := selectedLCPCandidateEvents s |}.

Definition with_allMarkerEvents (l : list TraceEventData) (s : State) : State :=
  {| metricScoresByFrameId := metricScoresByFrameId s;
     allMarkerEvents := l;
     pageLoadEventsArray := pageLoadEventsArray s;
     selectedLCPCandidateEvents := selectedLCPCandidateEvents s |}.

Definition with_pageLoadEventsArray (l : list TraceEventData) (s : State) : State :=
  {| metricScoresByFrameId := metricScoresByFrameId s;
     allMarkerEvents := allMarkerEvents s;
     pageLoadEventsArray := l;
     selectedLCPCandidateEvents := selectedLCPCandidateEvents s |}.

Definition with_selectedLCPCandidateEvents (l : JSSet.t TraceEventData) (s : State)
    : State :=
  {| metricScoresByFrameId := metricScoresByFrameId s;
     allMarkerEvents := allMarkerEvents s;
     pageLoadEventsArray := pageLoadEventsArray s;
     selectedLCPCandidateEvents := l |}.

(** *** Completions and the handler monad *)

Inductive Completion (A : Type) :=
| Normal (a : A)
| Throw (message : string).
Arguments Throw {A} message.

(** A computation on the module state; a thrown error keeps the state that
    was reached. *)
Definition M (A : Type) := State -> Completion A * State.

Definition ret (A : Type) (a : A) : M A := fun s => (Normal a, s).

Definition throw (A : Type) (message : string) : M A := fun s => (Throw message, s).
Arguments throw {A} message.

Definition bind (A B : Type) (m : M A) (k : A -> M B) : M B :=
  fun s =>
    match m s with
    | (Normal a, s') => k a s'
    | (Throw message, s') => (Throw message, s')
    end.

Definition lift (A : Type) (c : Completion A) : M A := fun s => (c, s).

Definition gets (A : Type) (f : State -> A) : M A := fun s => (Normal (f s), s).

Definition modify (f : State -> State) : M unit := fun s => (Normal tt, f s).

Notation "x <- m ;; k" := (bind m (fun x => k))
  (at level 61, m at next level, right associativity).
Notation "m ;;; k" := (bind m (fun _ => k))
  (at level 61, right associativity).

(** [for (const x of l) body(x)] *)
Fixpoint forEach (A : Type) (body : A -> M unit) (l : list A) : M unit :=
  match l with
  | [] => ret tt
  | x :: l' => body x ;;; forEach body l'
  end.

Definition bindC (A B : Type) (c : Completion A) (k : A -> Completion B) : Completion B :=
  match c with
  | Normal a => k a
  | Throw message => Throw message
  end.

(** [l.filter(p)] for a predicate that may throw. *)
Fixpoint filterC (A : Type) (p : A -> Completion bool) (l : list A)
    : Completion (list A) :=
  match l with
  | [] => Normal []
  | x :: l' =>
      bindC (p x) (fun keep =>
      bindC (filterC p l') (fun rest =>
      Normal (if keep then x :: rest else rest)))
  end.

(** [l.sort((a, b) => a.ts - b.ts)]: ascending by timestamp, stable. *)
Fixpoint insertByTs (e : TraceEventData) (l : list TraceEventData) : list TraceEventData :=
  match l with
  | [] => [e]
  | x :: l' => if ts e <=? ts x then e :: l else x :: insertByTs e l'
  end.

Definition sortByTs (l : list TraceEventData) : list TraceEventData :=
  fold_right insertByTs [] l.

(** ** Lifecycle and streaming phase *)

Definition reset : M unit :=
  modify (with_metricScoresByFrameId []) ;;;
  modify (with_pageLoadEventsArray []) ;;;
  modify (with_allMarkerEvents []) ;;;
  modify (with_selectedLCPCandidateEvents []).

Definition handleEvent (event : TraceEventData) : M unit :=
  if negb (eventIsPageLoadEvent event) then ret tt
  else modify (fun s => with_pageLoadEventsArray (pageLoadEventsArray s ++ [event]) s).

Definition storeMetricScore (frameId navigationId : string) (metricScore : MetricScore)
    : M unit :=
  modify (fun s =>
    with_metricScoresByFrameId
      (storeMetricScoreInTable frameId navigationId metricScore (metricScoresByFrameId s)) s).

Record PageLoadMetricsData := {
  data_metricScoresByFrameId : MetricTable;
  data_allMarkerEvents : list TraceEventData
}.

Definition data : M PageLoadMetricsData :=
  gets (fun s =>
    {| data_metricScoresByFrameId := metricScoresByFrameId s;
       data_allMarkerEvents := allMarkerEvents s |}).

Definition deps : list string := ["Meta"; "Renderer"].

(** ** Data of the Meta and Renderer handlers *)

Record TraceWindow := {
  window_min : MicroSeconds;
  window_max : MicroSeconds
}.

Record ProcessData := {
  window : TraceWindow
}.

Definition NavigationsByFrameId := JSMap.t string (JSMap.t string TraceEventNavigationStart).

Record MetaHandlerData := {
  navigationsByNavigationId : JSMap.t string TraceEventNavigationStart;
  navigationsByFrameId : NavigationsByFrameId;
  rendererProcessesByFrame : JSMap.t string (JSMap.t Z ProcessData);
  mainFrameId : string
}.

Record RendererEntryNode := {
  eventIndex : Z
}.

Record RendererTree := {
  nodes : JSMap.t Z RendererEntryNode;
  roots : JSSet.t Z
}.

Record RendererThread := {
  thread_name : option string;
  events : list RendererEvent;
  tree : option RendererTree
}.

Record RendererProcess := {
  threads : JSMap.t Z RendererThread
}.

Record RendererHandlerData := {
  processes : JSMap.t Z RendererProcess
}.

(** A number inside a template string. *)
Definition numberToString (z : Z) : string := NilZero.string_of_int (Z.to_int z).

(** [array[index]]: [undefined] outside the array. *)
Definition array_get (A : Type) (l : list A) (index : Z) : option A :=
  if index <? 0 then None else nth_error l (Z.to_nat index).

Definition isMainThread (thread : RendererThread) : bool :=
  match thread_name thread with
  | Some n => String.eqb n "CrRendererMain"
  | None => false
  end.

Definition LONG_TASK_THRESHOLD : MicroSeconds := millisecondsToMicroseconds 50.

(** One turn of the loop over the roots of the main thread's tree: the new
    value of [tbt], or the error thrown.  Past the test on its name and
    kind the task is a complete event, whose [ts] and [dur] are read. *)
Definition blockingTimeStep (mainThreadEvents : list RendererEvent)
    (mainThreadNodes : JSMap.t Z RendererEntryNode) (fcpTs : MicroSeconds)
    (tbt : MicroSeconds) (rootId : Z) : Completion MicroSeconds :=
  match zget rootId mainThreadNodes with
  | None => Throw ("Node not found for id: " ++ numberToString rootId)
  | Some node =>
      match array_get mainThreadEvents (eventIndex node) with
      | None => Throw ("Event not found for index: " ++ numberToString (eventIndex node))
      | Some task =>
          if negb (String.eqb (task_name task) RunTask) || isTraceEventInstant task
          then Normal tbt
          else
            match task with
            | TraceEventInstant _ _ => Normal tbt
            | TraceEventComplete _ task_ts task_dur =>
                if task_ts + task_dur <? fcpTs then Normal tbt
                else
                  let timeAfterFCP := if task_ts <? fcpTs then fcpTs - task_ts else 0 in
                  let clippedTaskDuration := task_dur - timeAfterFCP in
                  Normal (tbt + (if clippedTaskDuration >? LONG_TASK_THRESHOLD
                                 then clippedTaskDuration - LONG_TASK_THRESHOLD else 0))
            end
      end
  end.

(** [for (const rootId of mainThreadTree.roots) ...] with [tbt] as the
    loop's accumulator. *)
Fixpoint blockingTimeLoop (mainThreadEvents : list RendererEvent)
    (mainThreadNodes : JSMap.t Z RendererEntryNode) (fcpTs : MicroSeconds)
    (tbt : MicroSeconds) (rootIds : list Z) : Completion MicroSeconds :=
  match rootIds with
  | [] => Normal tbt
  | rootId :: rest =>
      bindC (blockingTimeStep mainThreadEvents mainThreadNodes fcpTs tbt rootId)
            (fun tbt => blockingTimeLoop mainThreadEvents mainThreadNodes fcpTs tbt rest)
  end.

(** The entries of the (frame, navigation) nesting, in iteration order. *)
Definition navigationKeys (table : MetricTable) : list (string * string) :=
  flat_map (fun entry : string * MetricsByNavigation =>
              List.map (fun nav : string * Metrics => (fst entry, fst nav)) (snd entry))
           table.

(** [gatherFinalLCPEvents] *)
Definition gatherFinalLCPEvents (table : MetricTable) : list TraceEventData :=
  let dataForAllFrames := JSMap.values table in
  let dataForAllNavigations :=
    flat_map (fun frameData : MetricsByNavigation => JSMap.values frameData) dataForAllFrames in
  flat_map (fun navigationData : Metrics =>
              match mget LCP navigationData with
              | None => []
              | Some lcpInNavigation =>
                  match event lcpInNavigation with
                  | None => []
                  | Some e => [e]
                  end
              end)
           dataForAllNavigations.

Definition secondsFormat : FormatOptions :=
  {| format := SECONDS; maximumFractionDigits := 2 |}.

Definition millisecondsFormat : FormatOptions :=
  {| format := MILLISECONDS; maximumFractionDigits := 2 |}.

(** ** The first FCP of the main frame *)

(** [HandlerData<Handlers>], as far as [getFirstFCPTimestampFromModelData]
    reads it: the data of the Meta handler and of this handler. *)
Record HandlerData := {
  Meta : MetaHandlerData;
  PageLoadMetrics : PageLoadMetricsData
}.

(** [fcpMetric?.event?.ts] *)
Definition fcpTimestampOf (fcpMetric : option MetricScore) : option MicroSeconds :=
  match fcpMetric with
  | Some fcpMetric =>
      match event fcpMetric with
      | Some fcpEvent => Some (ts fcpEvent)
      | None => None
      end
  | None => None
  end.

(** [a < b] where the test is reached with both sides numbers. *)
Definition lt_number (a b : option Z) : bool :=
  match a, b with
  | Some a, Some b => a <? b
  | _, _ => false
  end.

(** One turn of the loop over the navigations of the main frame, with
    [firstFCPEventInTimeline] as the loop's accumulator.  Both tests of
    presence are tests of truthiness. *)
Definition firstFCPStep (firstFCPEventInTimeline : option MicroSeconds) (metrics : Metrics)
    : option MicroSeconds :=
  let fcpMetric := mget FCP metrics in
  let fcpTimestamp := fcpTimestampOf fcpMetric in
  if negb (falsy_number fcpTimestamp) then
    if falsy_number firstFCPEventInTimeline then fcpTimestamp
    else if lt_number fcpTimestamp firstFCPEventInTimeline then fcpTimestamp
    else firstFCPEventInTimeline
  else firstFCPEventInTimeline.

Definition getFirstFCPTimestampFromModelData (model : HandlerData) : option MicroSeconds :=
  let mainFrameID := mainFrameId (Meta model) in
  let metricsForMainFrameByNavigationID :=
    sget mainFrameID (data_metricScoresByFrameId (PageLoadMetrics model)) in
  match metricsForMainFrameByNavigationID with
  | None => None
  | Some metricsForMainFrameByNavigationID =>
      fold_left firstFCPStep (JSMap.values metricsForMainFrameByNavigationID) None
  end.


(** ** The metric table as a store of [Map] objects

    The three levels of the metric table are [Map] objects that refer to
    one another.  This model keeps the objects in a heap, so that a copy of
    the outer map and the handler's own map can share the inner ones. *)

Module Store.

Definition Ref := nat.

Record Heap := {
  (** the per-frame maps: navigation id to the address of a metrics map *)
  frameMaps : list (JSMap.t string Ref);
  (** the per-navigation maps *)
  metricMaps : list Metrics;
  (** the module-level map: frame id to the address of a per-frame map *)
  metricScoresByFrameId : JSMap.t string Ref
}.

Definition emptyHeap : Heap :=
  {| frameMaps := []; metricMaps := []; metricScoresByFrameId := [] |}.

(** Overwrite the object at an address. *)
Fixpoint update (A : Type) (l : list A) (i : nat) (x : A) : list A :=
  match l, i with
  | [], _ => []
  | _ :: l', O => x :: l'
  | y :: l', S i' => y :: update l' i' x
  end.

(** [getWithDefault(metricScoresByFrameId, frameId, () => new Map())]: the
    address of the frame's map, allocated when the frame is new. *)
Definition frameMapWithDefault (frameId : string) (h : Heap) : Ref * Heap :=
  match sget frameId (metricScoresByFrameId h) with
  | Some r => (r, h)
  | None =>
      let r := List.length (frameMaps h) in
      (r, {| frameMaps := frameMaps h ++ [[]];
             metricMaps := metricMaps h;
             metricScoresByFrameId := sset frameId r (metricScoresByFrameId h) |})
  end.

(** [getWithDefault(metricsByNavigation, navigationId, () => new Map())] *)
Definition metricMapWithDefault (frameRef : Ref) (navigationId : string) (h : Heap)
    : Ref * Heap :=
  let metricsByNavigation := nth frameRef (frameMaps h) [] in
  match sget navigationId metricsByNavigation with
  | Some r => (r, h)
  | None =>
      let r := List.length (metricMaps h) in
      (r, {| frameMaps := update (frameMaps h) frameRef (sset navigationId r metricsByNavigation);
             metricMaps := metricMaps h ++ [[]];
             metricScoresByFrameId := metricScoresByFrameId h |})
  end.

Definition storeMetricScore (frameId navigationId : string) (metricScore : MetricScore)
    (h : Heap) : Heap :=
  let (frameRef, h) := frameMapWithDefault frameId h in
  let (metricsRef, h) := metricMapWithDefault frameRef navigationId h in
  let metrics := nth metricsRef (metricMaps h) [] in
  let metrics := mdelete (metricName metricScore) metrics in
  let metrics := mset (metricName metricScore) metricScore metrics in
  {| frameMaps := frameMaps h;
     metricMaps := update (metricMaps h) metricsRef metrics;
     metricScoresByFrameId := metricScoresByFrameId h |}.

(** [metricScoresByFrameId.clear()], the part of [reset] on the table. *)
Definition reset (h : Heap) : Heap :=
  {| frameMaps := frameMaps h;
     metricMaps := metricMaps h;
     metricScoresByFrameId := [] |}.

(** [new Map(metricScoresByFrameId)], the table [data()] returns: a new
    outer map with the entries of the handler's map. *)
Definition data (h : Heap) : JSMap.t string Ref := metricScoresByFrameId h.

(** What is read through the per-frame map at address [r] in heap [h]. *)
Definition navView (h : Heap) (r : Ref) : MetricsByNavigation :=
  List.map (fun nav : string * Ref => (fst nav, nth (snd nav) (metricMaps h) []))
           (nth r (frameMaps h) []).

(** What a holder of an outer map reads through it in heap [h]. *)
Definition view (h : Heap) (outer : JSMap.t string Ref) : MetricTable :=
  List.map (fun frame : string * Ref => (fst frame, navView h (snd frame))) outer.

(** The heap is as the handler builds it: keys are unique, every address
    reachable from the handler's map points at an allocated object, and no
    two entries share an object. *)
Definition wellFormed (h : Heap) : Prop :=
  NoDup (JSMap.keys (metricScoresByFrameId h)) /\
  NoDup (List.map snd (metricScoresByFrameId h)) /\
  (forall f r,
     In (f, r) (metricScoresByFrameId h) ->
     (r < List.length (frameMaps h))%nat /\
     NoDup (JSMap.keys (nth r (frameMaps h) [])) /\
     NoDup (List.map snd (nth r (frameMaps h) [])) /\
     forall n rm, In (n, rm) (nth r (frameMaps h) []) ->
                  (rm < List.length (metricMaps h))%nat) /\
  (forall f1 r1 f2 r2 n1 n2 rm,
     In (f1, r1) (metricScoresByFrameId h) -> In (f2, r2) (metricScoresByFrameId h) ->
     In (n1, rm) (nth r1 (frameMaps h) []) -> In (n2, rm) (nth r2 (frameMaps h) []) ->
     f1 = f2).

(** A sequence of [storeMetricScore] calls. *)
Definition storeScores (scores : list (string * string * MetricScore)) (h : Heap) : Heap :=
  fold_left (fun h x => storeMetricScore (fst (fst x)) (snd (fst x)) (snd x) h) scores h.


End Store.

(** ** Sample traces

    Concrete collaborator data and events on which the handler is run. *)

(** Modelled from the spec: [Helpers.Trace.getNavigationForTraceEvent] is
    not under src/; the spec has it answer "the navigation active for this
    frame at this timestamp".  This instance takes the latest navigation of
    the frame that started at or before the event; the development is
    parametric in the function and uses this instance on sample traces. *)
Definition navigationActiveAt (event : TraceEventData) (frameId : string)
    (navigationsByFrameId : NavigationsByFrameId) : option TraceEventNavigationStart :=
  match sget frameId navigationsByFrameId with
  | None => None
  | Some navigations =>
      fold_left (fun active navigation =>
                   if nav_ts navigation <=? ts event then
                     match active with
                     | Some a => if nav_ts a <=? nav_ts navigation then Some navigation else active
                     | None => Some navigation
                     end
                   else active)
                (JSMap.values navigations) None
  end.

(** A stand-in for [Helpers.Timing.formatMicrosecondsTime] on sample
    traces: the unit and the number of microseconds. *)
Definition plainFormat (time : MicroSeconds) (options : FormatOptions) : string :=
  let digits := NilZero.string_of_int (Z.to_int time) in
  match format options with
  | MILLISECONDS => "ms:" ++ digits
  | SECONDS => "s:" ++ digits
  | MINUTES => "min:" ++ digits
  | NONE => digits
  end.

Definition mkEvent (name : string) (ts : MicroSeconds) (pid : Z) (frame : string)
    (data : option TraceEventArgsData) (tbt : MilliSeconds) : TraceEventData :=
  {| name := name; ts := ts; pid := pid;
     args := {| args_frame := frame; args_data := data;
                args_total_blocking_time_ms := tbt |} |}.

Definition navigationData (navigationId : string) : option TraceEventArgsData :=
  Some {| data_frame := None; data_navigationId := Some navigationId;
          data_candidateIndex := None |}.

Definition candidateData (navigationId : string) (candidateIndex : Z)
    : option TraceEventArgsData :=
  Some {| data_frame := None; data_navigationId := Some navigationId;
          data_candidateIndex := Some candidateIndex |}.

Definition frameData (frameId : string) : option TraceEventArgsData :=
  Some {| data_frame := Some frameId; data_navigationId := None;
          data_candidateIndex := None |}.

Definition sampleNavigation : TraceEventNavigationStart :=
  {| nav_ts := 0; nav_navigationId := Some "NAV1" |}.

Definition sampleWindow : ProcessData :=
  {| window := {| window_min := 0; window_max := 10000000 |} |}.

Definition sampleMeta : MetaHandlerData :=
  {| navigationsByNavigationId := [("NAV1", sampleNavigation)];
     navigationsByFrameId := [("main", [("NAV1", sampleNavigation)])];
     rendererProcessesByFrame := [("main", [(1, sampleWindow)]); ("sub", [(2, sampleWindow)])];
     mainFrameId := "main" |}.

(** A main thread with one 200ms task that starts at 1,050,000us. *)
Definition sampleRenderer : RendererHandlerData :=
  {| processes :=
       [(1, {| threads :=
                 [(10, {| thread_name := Some "CrRendererMain";
                          events := [TraceEventComplete "RunTask" 1050000 200000];
                          tree := Some {| nodes := [(0, {| eventIndex := 0 |})];
                                          roots := [0] |} |})] |})] |}.

Definition emptyRenderer : RendererHandlerData := {| processes := [] |}.

Definition emptyState : State :=
  {| metricScoresByFrameId := []; allMarkerEvents := [];
     pageLoadEventsArray := []; selectedLCPCandidateEvents := [] |}.

Definition sampleFCP : TraceEventData :=
  mkEvent "firstContentfulPaint" 1000000 1 "main" (navigationData "NAV1") 0.

Definition sampleInteractiveTime : TraceEventData :=
  mkEvent "InteractiveTime" 5000000 1 "main" None 120.

Definition sampleCandidate (candidateIndex : Z) (ts : MicroSeconds) : TraceEventData :=
  mkEvent "largestContentfulPaint::Candidate" ts 1 "main"
          (candidateData "NAV1" candidateIndex) 0.

(** An LCP candidate of a navigation the Meta handler filtered out, with
    no candidate index, and the same with candidate index 0. *)
Definition ghostCandidate : TraceEventData :=
  mkEvent "largestContentfulPaint::Candidate" 100 1 "main" (navigationData "GHOST") 0.


(** LCP candidates of the sample navigation without a candidate index, and
    with candidate index 0. *)
Definition candidateWithoutIndex : TraceEventData :=
  mkEvent "largestContentfulPaint::Candidate" 3000 1 "main" (navigationData "NAV1") 0.


(** FCP events: of a filtered-out navigation; of a frame the Meta handler
    does not know, with no navigation id; of the sub-frame. *)
Definition ghostNavigationFCP : TraceEventData :=
  mkEvent "firstContentfulPaint" 100 1 "main" (navigationData "GHOST") 0.

Definition ghostFrameFCP : TraceEventData :=
  mkEvent "firstContentfulPaint" 100 1 "ghost" None 0.

Definition subFrameFCP : TraceEventData :=
  mkEvent "firstContentfulPaint" 1500000 2 "sub" (navigationData "NAV1") 0.

Definition sampleMarkLoad : TraceEventData :=
  mkEvent "MarkLoad" 6000000 1 "" (frameData "main") 0.

(** The state after [reset] and the streaming of the page-load events [l]. *)
Definition buffered (l : list TraceEventData) : State :=
  {| metricScoresByFrameId := []; allMarkerEvents := [];
     pageLoadEventsArray := l; selectedLCPCandidateEvents := [] |}.

Definition sampleFCPScore : MetricScore :=
  {| score := "1.00 s"; metricName := FCP; classification := GOOD;
     event := Some sampleFCP; navigation := Some sampleNavigation; estimated := None |}.



(** A second FCP event of the sample navigation, later than the sample
    InteractiveTime event; and a layout shift, which is no page-load
    event. *)
Definition lateFCP : TraceEventData :=
  mkEvent "firstContentfulPaint" 5500000 1 "main" (navigationData "NAV1") 0.

Definition sampleLayoutShift : TraceEventData :=
  mkEvent "LayoutShift" 2000000 1 "main" None 0.

(** A first paint of the sample navigation, at the timestamp of the sample
    FCP event. *)
Definition sampleFP : TraceEventData :=
  mkEvent "firstPaint" 1000000 1 "main" (navigationData "NAV1") 0.

(** Renderer data in which the process of the sample events has no
    thread at all. *)
Definition threadlessRenderer : RendererHandlerData :=
  {| processes := [(1, {| threads := [] |})] |}.

(** A navigation that bears no id, and Meta data that resolve the sample
    navigation id to it. *)
Definition anonymousNavigation : TraceEventNavigationStart :=
  {| nav_ts := 0; nav_navigationId := None |}.

Definition anonymousMeta : MetaHandlerData :=
  {| navigationsByNavigationId := [("NAV1", anonymousNavigation)];
     navigationsByFrameId := [("main", [("NAV1", anonymousNavigation)])];
     rendererProcessesByFrame := [("main", [(1, sampleWindow)])];
     mainFrameId := "main" |}.

(** A state whose table holds the sample FCP score and nothing else. *)
Definition scoredFCPState : State :=
  {| metricScoresByFrameId := [("main", [("NAV1", [(FCP, sampleFCPScore)])])];
     allMarkerEvents := []; pageLoadEventsArray := []; selectedLCPCandidateEvents := [] |}.

(** A MarkLoad event without frame id, later than the sample FCP event. *)
Definition anonymousMarkLoad : TraceEventData :=
  mkEvent "MarkLoad" 6000000 1 "" None 0.


(** ** Finalize phase *)

Section Handler.

(** [Helpers.Timing.formatMicrosecondsTime], not under src/: a parameter. *)
Variable formatMicrosecondsTime : MicroSeconds -> FormatOptions -> string.

(** [Helpers.Trace.getNavigationForTraceEvent], not under src/: a parameter. *)
Variable getNavigationForTraceEvent :
  TraceEventData -> string -> NavigationsByFrameId -> option TraceEventNavigationStart.

(** [metaHandlerData()] and [rendererHandlerData()] *)
Variable metaHandlerData : MetaHandlerData.
Variable rendererHandlerData : RendererHandlerData.

Definition getFrameIdForPageLoadEvent (event : TraceEventData) : Completion string :=
  if isTraceEventFirstContentfulPaint event || isTraceEventInteractiveTime event ||
     isTraceEventLargestContentfulPaintCandidate event ||
     isTraceEventLayoutShift event || isTraceEventFirstPaint event
  then Normal (args_frame (args event))
  else if isTraceEventMarkDOMContent event || isTraceEventMarkLoad event then
    let frameId := data_field data_frame event in
    match frameId with
    | Some frameId =>
        if String.eqb frameId "" then Throw "MarkDOMContent unexpectedly had no frame ID."
        else Normal frameId
    | None => Throw "MarkDOMContent unexpectedly had no frame ID."
    end
  else Throw "Unexpected event type: [object Object]".

Definition getNavigationForPageLoadEvent (event : TraceEventData)
    : Completion (option TraceEventNavigationStart) :=
  if isTraceEventFirstContentfulPaint event ||
     isTraceEventLargestContentfulPaintCandidate event ||
     isTraceEventFirstPaint event
  then
    let navigationId := data_field data_navigationId event in
    match navigationId with
    | Some navigationId =>
        if String.eqb navigationId "" then Throw "Trace event unexpectedly had no navigation ID."
        else Normal (sget navigationId (navigationsByNavigationId metaHandlerData))
    | None => Throw "Trace event unexpectedly had no navigation ID."
    end
  else if isTraceEventMarkDOMContent event || isTraceEventInteractiveTime event ||
          isTraceEventLayoutShift event || isTraceEventMarkLoad event
  then
    bindC (getFrameIdForPageLoadEvent event) (fun frameId =>
    Normal (getNavigationForTraceEvent event frameId (navigationsByFrameId metaHandlerData)))
  else Throw "Unexpected event type: [object Object]".

(** The branch of [storePageLoadMetricAgainstNavigationId] for a candidate
    of the largest contentful paint. *)
Definition storeLCPCandidate (frameId navigationId : string)
    (navigation : TraceEventNavigationStart) (event : TraceEventData) : M unit :=
  let candidateIndex := data_field data_candidateIndex event in
  match candidateIndex with
  | None => throw "Largest Contenful Paint unexpectedly had no candidateIndex."
  | Some candidateIndex =>
      if candidateIndex =? 0
      then throw "Largest Contenful Paint unexpectedly had no candidateIndex."
      else
        let lcpTime := ts event - nav_ts navigation in
        let lcpScore := formatMicrosecondsTime lcpTime secondsFormat in
        let lcp :=
          {| score := lcpScore; metricName := LCP;
             classification := scoreClassificationForLargestContentfulPaint lcpTime;
             event := Some event; navigation := Some navigation; estimated := None |} in
        metrics <- (fun s =>
                      let (metrics, table) :=
                        metricsWithDefault frameId navigationId (metricScoresByFrameId s) in
                      (Normal metrics, with_metricScoresByFrameId table s)) ;;
        match mget LCP metrics with
        | None =>
            modify (fun s => with_selectedLCPCandidateEvents
                               (JSSet.add TraceEventData_eqb event
                                  (selectedLCPCandidateEvents s)) s) ;;;
            storeMetricScore frameId navigationId lcp
        | Some lastLCPCandidate =>
            match eventOf lastLCPCandidate with
            | None => throw "TypeError: Cannot read properties of undefined (reading 'name')"
            | Some lastLCPCandidateEvent =>
                if negb (isTraceEventLargestContentfulPaintCandidate lastLCPCandidateEvent)
                then ret tt
                else
                  match data_field data_candidateIndex lastLCPCandidateEvent with
                  | None => ret tt
                  | Some lastCandidateIndex =>
                      if lastCandidateIndex =? 0 then ret tt
                      else if lastCandidateIndex <? candidateIndex then
                        modify (fun s => with_selectedLCPCandidateEvents
                                  (JSSet.delete TraceEventData_eqb lastLCPCandidateEvent
                                     (selectedLCPCandidateEvents s)) s) ;;;
                        modify (fun s => with_selectedLCPCandidateEvents
                                  (JSSet.add TraceEventData_eqb event
                                     (selectedLCPCandidateEvents s)) s) ;;;
                        storeMetricScore frameId navigationId lcp
                      else ret tt
                  end
            end
        end
  end.

(** A score whose value is the time elapsed since the navigation started. *)
Definition elapsedScore (metricName : MetricName) (classification : ScoreClassification)
    (navigation : TraceEventNavigationStart) (event : TraceEventData) : MetricScore :=
  {| score := formatMicrosecondsTime (ts event - nav_ts navigation) secondsFormat;
     metricName := metricName;
     classification := classification;
     event := Some event;
     navigation := Some navigation;
     estimated := None |}.

(** The TBT score an InteractiveTime event reports. *)
Definition reportedTBT (navigation : TraceEventNavigationStart) (event : TraceEventData)
    : MetricScore :=
  let tbtValue := millisecondsToMicroseconds (args_total_blocking_time_ms (args event)) in
  {| score := formatMicrosecondsTime tbtValue millisecondsFormat;
     metricName := TBT;
     classification := scoreClassificationForTotalBlockingTime tbtValue;
     event := Some event;
     navigation := Some navigation;
     estimated := None |}.

Definition storePageLoadMetricAgainstNavigationId
    (navigation : TraceEventNavigationStart) (event : TraceEventData) : M unit :=
  let navigationId := nav_navigationId navigation in
  match navigationId with
  | None => throw "Navigation event unexpectedly had no navigation ID."
  | Some navigationId =>
  if String.eqb navigationId "" then throw "Navigation event unexpectedly had no navigation ID."
  else
  frameId <- lift (getFrameIdForPageLoadEvent event) ;;
  match sget frameId (rendererProcessesByFrame metaHandlerData) with
  | None => ret tt
  | Some rendererProcessesInFrame =>
  match zget (pid event) rendererProcessesInFrame with
  | None => ret tt
  | Some processData =>
  let eventBelongsToProcess :=
    (ts event >=? window_min (window processData)) &&
    (ts event <=? window_max (window processData)) in
  if negb eventBelongsToProcess then ret tt
  else if isTraceEventFirstContentfulPaint event then
    let fcpTime := ts event - nav_ts navigation in
    storeMetricScore frameId navigationId
      (elapsedScore FCP (scoreClassificationForFirstContentfulPaint fcpTime) navigation event)
  else if isTraceEventFirstPaint event then
    storeMetricScore frameId navigationId (elapsedScore FP UNCLASSIFIED navigation event)
  else if isTraceEventMarkDOMContent event then
    let dclTime := ts event - nav_ts navigation in
    storeMetricScore frameId navigationId
      (elapsedScore DCL (scoreClassificationForDOMContentLoaded dclTime) navigation event)
  else if isTraceEventInteractiveTime event then
    let ttiValue := ts event - nav_ts navigation in
    storeMetricScore frameId navigationId
      (elapsedScore TTI (scoreClassificationForTimeToInteractive ttiValue) navigation event) ;;;
    storeMetricScore frameId navigationId (reportedTBT navigation event)
  else if isTraceEventMarkLoad event then
    storeMetricScore frameId navigationId (elapsedScore L UNCLASSIFIED navigation event)
  else if isTraceEventLargestContentfulPaintCandidate event then
    storeLCPCandidate frameId navigationId navigation event
  else if isTraceEventLayoutShift event then ret tt
  else throw "Unexpected event type: [object Object]"
  end
  end
  end.

(** The TBT score estimated from the main thread's tasks. *)
Definition estimatedTBT (tbt : MicroSeconds) (navigation : option TraceEventNavigationStart)
    : MetricScore :=
  {| score := formatMicrosecondsTime tbt millisecondsFormat;
     metricName := TBT;
     classification := scoreClassificationForTotalBlockingTime tbt;
     event := None;
     navigation := navigation;
     estimated := Some true |}.

(** The body of the two nested loops of [estimateTotalBlockingTimes].  The
    loops hold the live maps, so a turn reads the metrics as they are when
    it runs. *)
Definition estimateTotalBlockingTime (frameId navigationId : string) : M unit :=
  table <- gets metricScoresByFrameId ;;
  match lookupMetrics frameId navigationId table with
  | None => ret tt
  | Some metrics =>
  let navigationTBT := mget TBT metrics in
  let navigationFCP := mget FCP metrics in
  match navigationTBT, navigationFCP with
  | Some _, _ => ret tt
  | None, None => ret tt
  | None, Some navigationFCP =>
  match event navigationFCP with
  | None => ret tt
  | Some fcpEvent =>
  match zget (pid fcpEvent) (processes rendererHandlerData) with
  | None => ret tt
  | Some renderer =>
  let mainThread := find isMainThread (JSMap.values (threads renderer)) in
  match mainThread with
  | None => throw "Main thread not found."
  | Some mainThread =>
  match tree mainThread with
  | None => throw "Main thread not found."
  | Some mainThreadTree =>
  let mainThreadEvents := events mainThread in
  let mainThreadNodes := nodes mainThreadTree in
  let fcpTs := ts fcpEvent in
  tbt <- lift (blockingTimeLoop mainThreadEvents mainThreadNodes fcpTs 0
                 (roots mainThreadTree)) ;;
  storeMetricScore frameId navigationId (estimatedTBT tbt (navigation navigationFCP))
  end
  end
  end
  end
  end
  end.

Definition estimateTotalBlockingTimes : M unit :=
  table <- gets metricScoresByFrameId ;;
  forEach (fun key : string * string => estimateTotalBlockingTime (fst key) (snd key))
          (navigationKeys table).

(** The body of the loop of [finalize] over the buffered events. *)
Definition attributePageLoadEvent (pageLoadEvent : TraceEventData) : M unit :=
  navigation <- lift (getNavigationForPageLoadEvent pageLoadEvent) ;;
  match navigation with
  | Some navigation => storePageLoadMetricAgainstNavigationId navigation pageLoadEvent
  | None => ret tt
  end.

Definition finalize : M unit :=
  modify (fun s => with_pageLoadEventsArray (sortByTs (pageLoadEventsArray s)) s) ;;;
  pageLoadEvents <- gets pageLoadEventsArray ;;
  forEach attributePageLoadEvent pageLoadEvents ;;;
  estimateTotalBlockingTimes ;;;
  allFinalLCPEvents <- gets (fun s => gatherFinalLCPEvents (metricScoresByFrameId s)) ;;
  let mainFrame := mainFrameId metaHandlerData in
  pageLoadEvents <- gets pageLoadEventsArray ;;
  let allEventsButLCP :=
    filter (fun event => negb (isTraceEventLargestContentfulPaintCandidate event))
           pageLoadEvents in
  let markerEvents := filter isTraceEventMarkerEvent (allFinalLCPEvents ++ allEventsButLCP) in
  mainFrameEvents <-
    lift (filterC (fun event =>
                     bindC (getFrameIdForPageLoadEvent event) (fun frameId =>
                     Normal (String.eqb frameId mainFrame)))
                  markerEvents) ;;
  modify (with_allMarkerEvents (sortByTs mainFrameEvents)).

(** Feeding a trace: [handleEvent] on every event, in order. *)
Definition handleEvents (traceEvents : list TraceEventData) : M unit :=
  forEach handleEvent traceEvents.


(** ** Statements in the words of the specification *)

(** A scorer classifies by inclusive thresholds [good] and [medium]. *)
Definition classifiesBy (good medium : Q) (scorer : MicroSeconds -> ScoreClassification)
    : Prop :=
  forall d : MicroSeconds,
    (scorer d = GOOD <-> (inject_Z d <= good)%Q) /\
    (scorer d = OK <-> (good < inject_Z d)%Q /\ (inject_Z d <= medium)%Q) /\
    (scorer d = BAD <-> (medium < inject_Z d)%Q).

(** The names of the page-load events: the marker names and InteractiveTime. *)
Definition pageLoadEventNames : list string := MarkerName ++ ["InteractiveTime"].

(** The event passed every check that precedes the branch on its kind:
    its navigation resolved and carries an id, its frame and process are
    known to the Meta handler, and its timestamp is in the process window. *)
Definition reachesScoring (e : TraceEventData) (navigation : TraceEventNavigationStart)
    (frameId navigationId : string) : Prop :=
  getNavigationForPageLoadEvent e = Normal (Some navigation) /\
  nav_navigationId navigation = Some navigationId /\ navigationId <> "" /\
  getFrameIdForPageLoadEvent e = Normal frameId /\
  exists rendererProcessesInFrame processData,
    sget frameId (rendererProcessesByFrame metaHandlerData) = Some rendererProcessesInFrame /\
    zget (pid e) rendererProcessesInFrame = Some processData /\
    window_min (window processData) <= ts e <= window_max (window processData).

(** The event carries the identifiers required of its kind: a non-empty
    navigation id on FCP, FP and LCP-candidate events, a non-empty frame id
    in the payload of MarkDOMContent and MarkLoad events. *)
Definition hasRequiredIdentifiers (e : TraceEventData) : bool :=
  (if isTraceEventFirstContentfulPaint e || isTraceEventLargestContentfulPaintCandidate e ||
      isTraceEventFirstPaint e
   then negb (falsy_string (data_field data_navigationId e)) else true) &&
  (if isTraceEventMarkDOMContent e || isTraceEventMarkLoad e
   then negb (falsy_string (data_field data_frame e)) else true).

(** The event names a navigation that the Meta handler's index lacks. *)
Definition navigationFilteredOut (e : TraceEventData) : Prop :=
  (isTraceEventFirstContentfulPaint e = true \/ isTraceEventFirstPaint e = true \/
   isTraceEventLargestContentfulPaintCandidate e = true) /\
  exists navigationId,
    data_field data_navigationId e = Some navigationId /\ navigationId <> "" /\
    sget navigationId (navigationsByNavigationId metaHandlerData) = None.

(** The event's frame, or its process within the frame, is missing from the
    Meta handler's renderer processes. *)
Definition frameOrProcessFilteredOut (e : TraceEventData) : Prop :=
  exists frameId,
    getFrameIdForPageLoadEvent e = Normal frameId /\
    (sget frameId (rendererProcessesByFrame metaHandlerData) = None \/
     exists rendererProcessesInFrame,
       sget frameId (rendererProcessesByFrame metaHandlerData) = Some rendererProcessesInFrame /\
       zget (pid e) rendererProcessesInFrame = None).

(** The event's timestamp is outside the activity window of its process. *)
Definition outsideProcessWindow (e : TraceEventData) : Prop :=
  exists frameId rendererProcessesInFrame processData,
    getFrameIdForPageLoadEvent e = Normal frameId /\
    sget frameId (rendererProcessesByFrame metaHandlerData) = Some rendererProcessesInFrame /\
    zget (pid e) rendererProcessesInFrame = Some processData /\
    (ts e < window_min (window processData) \/ window_max (window processData) < ts e).



(** A computation throws. *)
Definition throws (A : Type) (m : M A) (s : State) : Prop :=
  exists message s', m s = (Throw message, s').

(** The score stored for a frame, a navigation and a metric. *)
Definition scoreAt (frameId navigationId : string) (metricName : MetricName)
    (table : MetricTable) : option MetricScore :=
  match lookupMetrics frameId navigationId table with
  | Some metrics => mget metricName metrics
  | None => None
  end.

(** Keys are unique at the frame level and at the navigation level, as
    they are in a [Map]. *)
Definition uniqueKeys (table : MetricTable) : Prop :=
  NoDup (JSMap.keys table) /\
  Forall (fun entry : string * MetricsByNavigation => NoDup (JSMap.keys (snd entry))) table.

(** What [storePageLoadMetricAgainstNavigationId] does once the event has
    passed the checks that precede the branch on its kind. *)
Definition scoreEvent (frameId navigationId : string)
    (navigation : TraceEventNavigationStart) (e : TraceEventData) : M unit :=
  if isTraceEventFirstContentfulPaint e then
    storeMetricScore frameId navigationId
      (elapsedScore FCP (scoreClassificationForFirstContentfulPaint (ts e - nav_ts navigation))
                    navigation e)
  else if isTraceEventFirstPaint e then
    storeMetricScore frameId navigationId (elapsedScore FP UNCLASSIFIED navigation e)
  else if isTraceEventMarkDOMContent e then
    storeMetricScore frameId navigationId
      (elapsedScore DCL (scoreClassificationForDOMContentLoaded (ts e - nav_ts navigation))
                    navigation e)
  else if isTraceEventInteractiveTime e then
    storeMetricScore frameId navigationId
      (elapsedScore TTI (scoreClassificationForTimeToInteractive (ts e - nav_ts navigation))
                    navigation e) ;;;
    storeMetricScore frameId navigationId (reportedTBT navigation e)
  else if isTraceEventMarkLoad e then
    storeMetricScore frameId navigationId (elapsedScore L UNCLASSIFIED navigation e)
  else if isTraceEventLargestContentfulPaintCandidate e then
    storeLCPCandidate frameId navigationId navigation e
  else if isTraceEventLayoutShift e then ret tt
  else throw "Unexpected event type: [object Object]".

(** The LCP score built from a candidate event. *)
Definition candidateScore (navigation : TraceEventNavigationStart) (e : TraceEventData)
    : MetricScore :=
  {| score := formatMicrosecondsTime (ts e - nav_ts navigation) secondsFormat;
     metricName := LCP;
     classification :=
       scoreClassificationForLargestContentfulPaint (ts e - nav_ts navigation);
     event := Some e;
     navigation := Some navigation;
     estimated := None |}.

(** The scores an event other than an LCP candidate stores once it has
    reached the branch on its kind, in the order they are stored. *)
Definition storedScores (navigation : TraceEventNavigationStart) (e : TraceEventData)
    : list MetricScore :=
  if isTraceEventFirstContentfulPaint e then
    [elapsedScore FCP (scoreClassificationForFirstContentfulPaint (ts e - nav_ts navigation))
                  navigation e]
  else if isTraceEventFirstPaint e then [elapsedScore FP UNCLASSIFIED navigation e]
  else if isTraceEventMarkDOMContent e then
    [elapsedScore DCL (scoreClassificationForDOMContentLoaded (ts e - nav_ts navigation))
                  navigation e]
  else if isTraceEventInteractiveTime e then
    [elapsedScore TTI (scoreClassificationForTimeToInteractive (ts e - nav_ts navigation))
                  navigation e;
     reportedTBT navigation e]
  else if isTraceEventMarkLoad e then [elapsedScore L UNCLASSIFIED navigation e]
  else [].

Definition storeAll (frameId navigationId : string) (scores : list MetricScore)
    (table : MetricTable) : MetricTable :=
  fold_left (fun t sc => storeMetricScoreInTable frameId navigationId sc t) scores table.

(** The event of the LCP score stored for a frame and a navigation. *)
Definition selectedCandidate (frameId navigationId : string) (table : MetricTable)
    (e : TraceEventData) : Prop :=
  exists sc, scoreAt frameId navigationId LCP table = Some sc /\ event sc = Some e.

(** What holds of the LCP scores and of the set of selected candidates
    after the loop of [finalize] has processed the events [done]. *)
Definition candidatesInvariant (done : list TraceEventData) (s : State) : Prop :=
  uniqueKeys (metricScoresByFrameId s) /\
  (forall f n sc,
     scoreAt f n LCP (metricScoresByFrameId s) = Some sc ->
     exists e nav i,
       In e done /\ sc = candidateScore nav e /\
       isTraceEventLargestContentfulPaintCandidate e = true /\
       reachesScoring e nav f n /\
       data_field data_candidateIndex e = Some i /\ i <> 0) /\
  (forall e,
     In e (selectedLCPCandidateEvents s) <->
     exists f n, selectedCandidate f n (metricScoresByFrameId s) e) /\
  (forall e nav f n i,
     In e done -> isTraceEventLargestContentfulPaintCandidate e = true ->
     reachesScoring e nav f n -> data_field data_candidateIndex e = Some i ->
     exists e' i',
       selectedCandidate f n (metricScoresByFrameId s) e' /\
       data_field data_candidateIndex e' = Some i' /\ i <= i').

(** The tasks at the roots of the main thread's call tree. *)
Definition rootTasks (mainThreadEvents : list RendererEvent)
    (mainThreadNodes : JSMap.t Z RendererEntryNode) (rootIds : list Z)
    : list RendererEvent :=
  flat_map (fun rootId =>
              match zget rootId mainThreadNodes with
              | Some node =>
                  match array_get mainThreadEvents (eventIndex node) with
                  | Some task => [task]
                  | None => []
                  end
              | None => []
              end)
           rootIds.

(** The blocking portion of a task after FCP, in the specification's words:
    only a non-instant task named RunTask that does not end before FCP
    counts; its part before FCP is clipped; what exceeds 50ms of the
    clipped duration blocks. *)
Definition blockingPortion (fcpTs : MicroSeconds) (task : RendererEvent) : MicroSeconds :=
  match task with
  | TraceEventInstant _ _ => 0
  | TraceEventComplete task_name task_ts task_dur =>
      if String.eqb task_name "RunTask" && negb (task_ts + task_dur <? fcpTs) then
        let clippedDuration := task_dur - Z.max 0 (fcpTs - task_ts) in
        Z.max 0 (clippedDuration - 50 * 1000)
      else 0
  end.

(** The estimate: the sum of the blocking portions. *)
Definition estimatedBlockingTime (fcpTs : MicroSeconds) (tasks : list RendererEvent)
    : MicroSeconds :=
  fold_right Z.add 0 (List.map (blockingPortion fcpTs) tasks).

(** [tbt] is the estimate derived from the FCP score [fcp]: the blocking
    time, after the FCP event, of the root tasks of the main thread of the
    FCP event's process. *)
Definition estimateFor (fcp : MetricScore) (tbt : MicroSeconds) : Prop :=
  exists fcpEvent renderer mainThread mainThreadTree,
    event fcp = Some fcpEvent /\
    zget (pid fcpEvent) (processes rendererHandlerData) = Some renderer /\
    find isMainThread (JSMap.values (threads renderer)) = Some mainThread /\
    tree mainThread = Some mainThreadTree /\
    tbt = estimatedBlockingTime (ts fcpEvent)
            (rootTasks (events mainThread) (nodes mainThreadTree) (roots mainThreadTree)).

(** An InteractiveTime event among [l] was scored for the frame and the
    navigation. *)
Definition interactiveTimeResolved (l : list TraceEventData) (frameId navigationId : string)
    : Prop :=
  exists e nav,
    In e l /\ isTraceEventInteractiveTime e = true /\
    reachesScoring e nav frameId navigationId.

(** The TBT score is the one an InteractiveTime event among [l] reported. *)
Definition authoritativeTBT (l : list TraceEventData) (frameId navigationId : string)
    (sc : MetricScore) : Prop :=
  exists e nav,
    In e l /\ isTraceEventInteractiveTime e = true /\
    reachesScoring e nav frameId navigationId /\ sc = reportedTBT nav e.

(** The TBT score is an estimate made from the FCP score of the table. *)
Definition synthesizedTBT (table : MetricTable) (frameId navigationId : string)
    (sc : MetricScore) : Prop :=
  exists fcp tbt,
    scoreAt frameId navigationId FCP table = Some fcp /\
    estimateFor fcp tbt /\ sc = estimatedTBT tbt (navigation fcp).

(** What holds of the TBT scores after the loop of [finalize] has processed
    the events [done]. *)
Definition reportedInvariant (done : list TraceEventData) (s : State) : Prop :=
  (forall f n sc,
     scoreAt f n TBT (metricScoresByFrameId s) = Some sc -> authoritativeTBT done f n sc) /\
  (forall f n,
     interactiveTimeResolved done f n -> scoreAt f n TBT (metricScoresByFrameId s) <> None).

(** What holds of the TBT scores while missing ones are estimated. *)
Definition blockingTimeInvariant (l : list TraceEventData) (s : State) : Prop :=
  (forall f n sc,
     scoreAt f n TBT (metricScoresByFrameId s) = Some sc ->
     authoritativeTBT l f n sc \/
     (~ interactiveTimeResolved l f n /\ synthesizedTBT (metricScoresByFrameId s) f n sc)) /\
  (forall f n,
     interactiveTimeResolved l f n -> scoreAt f n TBT (metricScoresByFrameId s) <> None).

(** The event belongs to the main frame of the Meta handler. *)
Definition inMainFrame (e : TraceEventData) : bool :=
  match getFrameIdForPageLoadEvent e with
  | Normal frameId => String.eqb frameId (mainFrameId metaHandlerData)
  | Throw _ => false
  end.

(** Ascending (non-decreasing) by timestamp. *)
Definition ascendingByTs (l : list TraceEventData) : Prop :=
  StronglySorted (fun a b => ts a <= ts b) l.

(** The buffered events that are markers and not LCP candidates. *)
Definition markersButLCP (l : list TraceEventData) : list TraceEventData :=
  filter (fun e => isTraceEventMarkerEvent e &&
                   negb (isTraceEventLargestContentfulPaintCandidate e)) l.

(** The estimation loop has nothing left to do for a frame and a
    navigation: they have a TBT score, or no FCP score to estimate from. *)
Definition estimationSettled (frameId navigationId : string) (s : State) : Prop :=
  scoreAt frameId navigationId TBT (metricScoresByFrameId s) <> None \/
  forall fcp tbt,
    scoreAt frameId navigationId FCP (metricScoresByFrameId s) = Some fcp ->
    ~ estimateFor fcp tbt.

(** The FCP timestamps a holder of the model data can read for the
    navigations of a frame: those of the FCP scores that carry their
    event, a timestamp of 0 apart. *)
Definition fcpTimestamps (metricsByNavigation : MetricsByNavigation) : list MicroSeconds :=
  flat_map (fun metrics : Metrics =>
              match fcpTimestampOf (mget FCP metrics) with
              | Some t => if t =? 0 then [] else [t]
              | None => []
              end)
           (JSMap.values metricsByNavigation).

(** The kind of event a metric is computed from; no page-load event
    gives a cumulative layout shift. *)
Definition guardOf (metricName : MetricName) : TraceEventData -> bool :=
  match metricName with
  | FCP => isTraceEventFirstContentfulPaint
  | FP => isTraceEventFirstPaint
  | L => isTraceEventMarkLoad
  | LCP => isTraceEventLargestContentfulPaintCandidate
  | DCL => isTraceEventMarkDOMContent
  | TTI => isTraceEventInteractiveTime
  | TBT => isTraceEventInteractiveTime
  | CLS => fun _ => false
  end.

(** The score [sc], filed under the metric [k] of a frame and a
    navigation, was computed from an event among [l]: an event of the kind
    of [k] that passed every check, kept in the score with its navigation;
    but for TBT the score reads the time elapsed since the navigation. *)
Definition scoredFrom (l : list TraceEventData) (frameId navigationId : string)
    (k : MetricName) (sc : MetricScore) : Prop :=
  exists e nav,
    In e l /\ guardOf k e = true /\ reachesScoring e nav frameId navigationId /\
    metricName sc = k /\ event sc = Some e /\ navigation sc = Some nav /\
    estimated sc = None /\
    (k <> TBT -> score sc = formatMicrosecondsTime (ts e - nav_ts nav) secondsFormat).

(** Every score of the table was computed from an event among [done]. *)
Definition provenanceInvariant (done : list TraceEventData) (s : State) : Prop :=
  forall f n k sc,
    scoreAt f n k (metricScoresByFrameId s) = Some sc -> scoredFrom done f n k sc.

(** The same once blocking times have been estimated: an estimate is a TBT
    score that bears no event. *)
Definition provenanceOrEstimate (l : list TraceEventData) (s : State) : Prop :=
  forall f n k sc,
    scoreAt f n k (metricScoresByFrameId s) = Some sc ->
    scoredFrom l f n k sc \/
    (k = TBT /\ metricName sc = TBT /\ event sc = None /\ estimated sc = Some true).

(** The timestamps of the events of the scores of a metrics map, in the
    order of the map's entries; a score without its event has none. *)
Definition eventTimestamps (metrics : Metrics) : list MicroSeconds :=
  flat_map (fun entry : MetricName * MetricScore =>
              match event (snd entry) with
              | Some e => [ts e]
              | None => []
              end)
           metrics.

(** In every metrics map of the table the entries come in ascending order
    of timestamp, none later than [bound]. *)
Definition entriesAscending (bound : MicroSeconds) (table : MetricTable) : Prop :=
  forall f n metrics,
    lookupMetrics f n table = Some metrics ->
    StronglySorted Z.le (eventTimestamps metrics) /\
    Forall (fun t => t <= bound) (eventTimestamps metrics).

(** What makes the estimation of a blocking time fail on the data of a
    renderer process, with the error that reports it: no thread named
    CrRendererMain, or one without a tree; a root of the tree that has no
    node; a node whose index is not one of an event of the thread. *)
Inductive rendererFault (renderer : RendererProcess) : string -> Prop :=
| NoMainThread :
    find isMainThread (JSMap.values (threads renderer)) = None ->
    rendererFault renderer "Main thread not found."
| NoMainThreadTree (mainThread : RendererThread) :
    find isMainThread (JSMap.values (threads renderer)) = Some mainThread ->
    tree mainThread = None ->
    rendererFault renderer "Main thread not found."
| NodeNotFound (mainThread : RendererThread) (mainThreadTree : RendererTree) (rootId : Z) :
    find isMainThread (JSMap.values (threads renderer)) = Some mainThread ->
    tree mainThread = Some mainThreadTree ->
    In rootId (roots mainThreadTree) ->
    zget rootId (nodes mainThreadTree) = None ->
    rendererFault renderer ("Node not found for id: " ++ numberToString rootId)
| EventNotFound (mainThread : RendererThread) (mainThreadTree : RendererTree) (rootId : Z)
    (node : RendererEntryNode) :
    find isMainThread (JSMap.values (threads renderer)) = Some mainThread ->
    tree mainThread = Some mainThreadTree ->
    In rootId (roots mainThreadTree) ->
    zget rootId (nodes mainThreadTree) = Some node ->
    array_get (events mainThread) (eventIndex node) = None ->
    rendererFault renderer ("Event not found for index: " ++ numberToString (eventIndex node)).

(** The data of a renderer process is complete: it has a main thread, the
    main thread has a tree, and every root of the tree has a node whose
    index is that of an event of the thread. *)
Definition rendererComplete (renderer : RendererProcess) : Prop :=
  exists mainThread mainThreadTree,
    find isMainThread (JSMap.values (threads renderer)) = Some mainThread /\
    tree mainThread = Some mainThreadTree /\
    forall rootId,
      In rootId (roots mainThreadTree) ->
      exists node task,
        zget rootId (nodes mainThreadTree) = Some node /\
        array_get (events mainThread) (eventIndex node) = Some task.

(** What makes [finalize] fail on the events [l], with the error that
    reports it. *)
Inductive errorCause (l : list TraceEventData) : string -> Prop :=
| MissingNavigationId (e : TraceEventData) :
    In e l ->
    isTraceEventFirstContentfulPaint e = true \/ isTraceEventFirstPaint e = true \/
    isTraceEventLargestContentfulPaintCandidate e = true ->
    falsy_string (data_field data_navigationId e) = true ->
    errorCause l "Trace event unexpectedly had no navigation ID."
| MissingFrameId (e : TraceEventData) :
    In e l ->
    isTraceEventMarkDOMContent e = true \/ isTraceEventMarkLoad e = true ->
    falsy_string (data_field data_frame e) = true ->
    errorCause l "MarkDOMContent unexpectedly had no frame ID."
| NavigationWithoutId (e : TraceEventData) (nav : TraceEventNavigationStart) :
    In e l ->
    getNavigationForPageLoadEvent e = Normal (Some nav) ->
    falsy_string (nav_navigationId nav) = true ->
    errorCause l "Navigation event unexpectedly had no navigation ID."
| MissingCandidateIndex (e : TraceEventData) (nav : TraceEventNavigationStart)
    (frameId navigationId : string) :
    In e l ->
    isTraceEventLargestContentfulPaintCandidate e = true ->
    reachesScoring e nav frameId navigationId ->
    falsy_number (data_field data_candidateIndex e) = true ->
    errorCause l "Largest Contenful Paint unexpectedly had no candidateIndex."
| FaultyRenderer (e : TraceEventData) (nav : TraceEventNavigationStart)
    (frameId navigationId : string) (renderer : RendererProcess) (message : string) :
    In e l ->
    isTraceEventFirstContentfulPaint e = true ->
    reachesScoring e nav frameId navigationId ->
    zget (pid e) (processes rendererHandlerData) = Some renderer ->
    rendererFault renderer message ->
    errorCause l message.

(** The events [l] give [finalize] no reason to fail: each carries the
    identifiers required of its kind, a candidate carries an index other
    than 0, a navigation that resolves carries an id, and the data of the
    renderer process of an FCP event is complete. *)
Definition wellFormedTrace (l : list TraceEventData) : Prop :=
  forall e,
    In e l ->
    hasRequiredIdentifiers e = true /\
    (isTraceEventLargestContentfulPaintCandidate e = true ->
     falsy_number (data_field data_candidateIndex e) = false) /\
    (forall nav,
       getNavigationForPageLoadEvent e = Normal (Some nav) ->
       falsy_string (nav_navigationId nav) = false) /\
    (isTraceEventFirstContentfulPaint e = true ->
     forall renderer,
       zget (pid e) (processes rendererHandlerData) = Some renderer ->
       rendererComplete renderer).

(** The order of the classifications from best to worst. *)
Definition rank (c : ScoreClassification) : Z :=
  match c with
  | GOOD => 0
  | OK => 1
  | BAD => 2
  | UNCLASSIFIED => 3
  end.

(** Every root of a tree leads, through its node, to an event. *)
Definition rootsResolve (mainThreadEvents : list RendererEvent)
    (mainThreadNodes : JSMap.t Z RendererEntryNode) (rootIds : list Z) : Prop :=
  forall rootId,
    In rootId rootIds ->
    exists node task,
      zget rootId mainThreadNodes = Some node /\
      array_get mainThreadEvents (eventIndex node) = Some task.

(** A TTI score and a TBT score of a navigation that come from one
    InteractiveTime event among [l]. *)
Definition interactivePair (l : list TraceEventData) (frameId navigationId : string)
    (tti tbt : MetricScore) : Prop :=
  exists e nav,
    In e l /\ isTraceEventInteractiveTime e = true /\
    reachesScoring e nav frameId navigationId /\
    tti = elapsedScore TTI (scoreClassificationForTimeToInteractive (ts e - nav_ts nav)) nav e /\
    tbt = reportedTBT nav e.

(** The TTI and TBT scores of every navigation go together; a TBT score
    alone is an estimate. *)
Definition pairOrEstimate (l : list TraceEventData) (s : State) : Prop :=
  forall f n,
    match scoreAt f n TTI (metricScoresByFrameId s),
          scoreAt f n TBT (metricScoresByFrameId s) with
    | Some tti, Some tbt => interactivePair l f n tti tbt
    | None, Some tbt => estimated tbt = Some true /\ event tbt = None
    | Some _, None => False
    | None, None => True
    end.

(** The same before blocking times are estimated. *)
Definition pairInvariant (done : list TraceEventData) (s : State) : Prop :=
  pairOrEstimate done s /\
  forall f n,
    scoreAt f n TTI (metricScoresByFrameId s) = None ->
    scoreAt f n TBT (metricScoresByFrameId s) = None.

(** Later events win: an event among [done] of the kind of a metric other
    than LCP that passed every check has left, for its frame and its
    navigation, a score of that metric whose event is not earlier. *)
Definition latestWins (done : list TraceEventData) (s : State) : Prop :=
  forall e nav f n k,
    In e done -> k <> LCP -> guardOf k e = true -> reachesScoring e nav f n ->
    exists sc e',
      scoreAt f n k (metricScoresByFrameId s) = Some sc /\ event sc = Some e' /\
      ts e <= ts e'.

(** Among candidates of one index the earlier wins: a candidate among
    [done] that passed every check has a lower index than the selected
    candidate of its frame and navigation, or the same index and a
    timestamp that is not earlier. *)
Definition earliestOfIndex (done : list TraceEventData) (s : State) : Prop :=
  forall f n e' i' e nav i,
    selectedCandidate f n (metricScoresByFrameId s) e' ->
    data_field data_candidateIndex e' = Some i' ->
    In e done -> isTraceEventLargestContentfulPaintCandidate e = true ->
    reachesScoring e nav f n -> data_field data_candidateIndex e = Some i ->
    i < i' \/ (i = i' /\ ts e' <= ts e).

(** The table has no empty map, no navigation filed under an empty id and
    no frame that the Meta handler does not know. *)
Definition tableInhabited (table : MetricTable) : Prop :=
  (forall f metricsByNavigation,
     sget f table = Some metricsByNavigation -> metricsByNavigation <> []) /\
  (forall f n metrics,
     lookupMetrics f n table = Some metrics ->
     metrics <> [] /\ n <> "" /\ sget f (rendererProcessesByFrame metaHandlerData) <> None).


(** * Properties *)

(** ** Metric scorer *)

Lemma us_le_Z (d t : Z) (q : Q) :
  (q == inject_Z t)%Q -> us_le d q = (d <=? t).
Proof.
  intros Hq. unfold us_le.
  destruct (Z.leb_spec d t) as [Hle | Hgt].
  - apply Qle_bool_iff. rewrite Hq. now rewrite <- Zle_Qle.
  - destruct (Qle_bool (inject_Z d) q) eqn:E; [| reflexivity].
    apply Qle_bool_iff in E. rewrite Hq in E. rewrite <- Zle_Qle in E. lia.
Qed.

Ltac thresholds good medium :=
  match goal with
  | |- context [us_le ?d ?qg] =>
      match goal with
      | |- context [if us_le d ?qm then OK else _] =>
          rewrite (@us_le_Z d good qg), (@us_le_Z d medium qm) by reflexivity;
          unfold classifyByThresholds;
          destruct (Z.leb_spec d good), (Z.leb_spec d medium); try reflexivity; lia
      end
  end.

Lemma scoreFCP_spec d :
  scoreClassificationForFirstContentfulPaint d = classifyByThresholds 1800000 3000000 d.
Proof. unfold scoreClassificationForFirstContentfulPaint. thresholds 1800000 3000000. Qed.

Lemma scoreTTI_spec d :
  scoreClassificationForTimeToInteractive d = classifyByThresholds 3800000 7300000 d.
Proof. unfold scoreClassificationForTimeToInteractive. thresholds 3800000 7300000. Qed.

Lemma scoreLCP_spec d :
  scoreClassificationForLargestContentfulPaint d = classifyByThresholds 2500000 4000000 d.
Proof. unfold scoreClassificationForLargestContentfulPaint. thresholds 2500000 4000000. Qed.

Lemma scoreTBT_spec d :
  scoreClassificationForTotalBlockingTime d = classifyByThresholds 200000 600000 d.
Proof. unfold scoreClassificationForTotalBlockingTime. thresholds 200000 600000. Qed.

Lemma classifiesBy_thresholds (good medium : Z) (gq mq : Q)
    (scorer : MicroSeconds -> ScoreClassification) :
  (gq == inject_Z good)%Q -> (mq == inject_Z medium)%Q -> good <= medium ->
  (forall d, scorer d = classifyByThresholds good medium d) ->
  classifiesBy gq mq scorer.
Proof.
  intros Hg Hm Hle Hs d. rewrite Hs, Hg, Hm. unfold classifyByThresholds.
  rewrite <- !Zle_Qle, <- !Zlt_Qlt.
  destruct (Z.leb_spec d good), (Z.leb_spec d medium);
    repeat split; intros; try discriminate; try lia; try reflexivity.
Qed.

(** C3: every scorer classifies its duration against fixed inclusive
    thresholds (GOOD up to the good threshold, OK up to the medium one, BAD
    beyond), the thresholds being FCP 1.8s/3.0s, TTI 3.8s/7.3s,
    LCP 2.5s/4.0s and TBT 200ms/600ms; FCP is GOOD at exactly 1.8s, OK at
    1.800001s and at 3.0s, BAD at 3.000001s; the DOM-content-loaded scorer
    answers UNCLASSIFIED on every input.  The scorers are functions of the
    duration alone. *)
Theorem C3_score_classification :
  classifiesBy (secondsToMicroseconds 1.8%Q) (secondsToMicroseconds 3.0%Q)
               scoreClassificationForFirstContentfulPaint /\
  classifiesBy (secondsToMicroseconds 3.8%Q) (secondsToMicroseconds 7.3%Q)
               scoreClassificationForTimeToInteractive /\
  classifiesBy (secondsToMicroseconds 2.5%Q) (secondsToMicroseconds 4.0%Q)
               scoreClassificationForLargestContentfulPaint /\
  classifiesBy (inject_Z (millisecondsToMicroseconds 200))
               (inject_Z (millisecondsToMicroseconds 600))
               scoreClassificationForTotalBlockingTime /\
  scoreClassificationForFirstContentfulPaint 1800000 = GOOD /\
  scoreClassificationForFirstContentfulPaint 1800001 = OK /\
  scoreClassificationForFirstContentfulPaint 3000000 = OK /\
  scoreClassificationForFirstContentfulPaint 3000001 = BAD /\
  (forall d, scoreClassificationForDOMContentLoaded d = UNCLASSIFIED).
Proof.
  split; [| split; [| split; [| split]]].
  - apply (@classifiesBy_thresholds 1800000 3000000);
      [reflexivity | reflexivity | lia | apply scoreFCP_spec].
  - apply (@classifiesBy_thresholds 3800000 7300000);
      [reflexivity | reflexivity | lia | apply scoreTTI_spec].
  - apply (@classifiesBy_thresholds 2500000 4000000);
      [reflexivity | reflexivity | lia | apply scoreLCP_spec].
  - apply (@classifiesBy_thresholds 200000 600000);
      [reflexivity | reflexivity | lia | apply scoreTBT_spec].
  - repeat split.
Qed.

(** ** Streaming phase and lifecycle *)

Lemma with_pageLoadEventsArray_same (s : State) :
  with_pageLoadEventsArray (pageLoadEventsArray s) s = s.
Proof. destruct s; reflexivity. Qed.

Lemma eventIsPageLoadEvent_names (e : TraceEventData) :
  eventIsPageLoadEvent e = true <-> In (name e) pageLoadEventNames.
Proof using.
  clear.
  unfold eventIsPageLoadEvent, pageLoadEventTypeGuards, markerTypeGuards, pageLoadEventNames,
    MarkerName, isTraceEventMarkDOMContent, isTraceEventMarkLoad, isTraceEventFirstPaint,
    isTraceEventFirstContentfulPaint, isTraceEventLargestContentfulPaintCandidate,
    isTraceEventInteractiveTime.
  cbn [app existsb In]. rewrite !orb_true_iff, !String.eqb_eq.
  intuition congruence.
Qed.

Lemma isTraceEventMarkerEvent_names (e : TraceEventData) :
  isTraceEventMarkerEvent e = true <-> In (name e) MarkerName.
Proof using.
  clear.
  unfold isTraceEventMarkerEvent, markerTypeGuards, MarkerName,
    isTraceEventMarkDOMContent, isTraceEventMarkLoad, isTraceEventFirstPaint,
    isTraceEventFirstContentfulPaint, isTraceEventLargestContentfulPaintCandidate.
  cbn [existsb In]. rewrite !orb_true_iff, !String.eqb_eq.
  intuition congruence.
Qed.

Lemma handleEvents_buffer (traceEvents : list TraceEventData) (s : State) :
  handleEvents traceEvents s =
  (Normal tt,
   with_pageLoadEventsArray (pageLoadEventsArray s ++ filter eventIsPageLoadEvent traceEvents) s).
Proof.
  revert s. induction traceEvents as [| e l IH]; intros s; cbn [handleEvents forEach filter].
  - rewrite app_nil_r, with_pageLoadEventsArray_same. reflexivity.
  - unfold bind, handleEvent. destruct (eventIsPageLoadEvent e); cbn [negb].
    + unfold modify. fold (handleEvents l). rewrite IH. cbn.
      rewrite <- app_assoc. reflexivity.
    + unfold ret. fold (handleEvents l). apply IH.
Qed.

(** C7: [handleEvent] appends the event, unmodified, to the end of the
    buffer exactly when the event satisfies the page-load-event predicate,
    that is when it carries one of the five marker names or is an
    InteractiveTime event; on every other event, LayoutShift events
    included, it changes nothing; so after a sequence of calls the buffer
    holds, after what it held, the page-load events in arrival order. *)
Theorem C7_handleEvent_buffers_page_load_events :
  (forall e s, eventIsPageLoadEvent e = true ->
     handleEvent e s =
     (Normal tt, with_pageLoadEventsArray (pageLoadEventsArray s ++ [e]) s)) /\
  (forall e s, eventIsPageLoadEvent e = false -> handleEvent e s = (Normal tt, s)) /\
  (forall e, eventIsPageLoadEvent e = true <->
     In (name e) ["MarkDOMContent"; "MarkLoad"; "firstPaint"; "firstContentfulPaint";
                  "largestContentfulPaint::Candidate"; "InteractiveTime"]) /\
  (forall e s, isTraceEventLayoutShift e = true -> handleEvent e s = (Normal tt, s)) /\
  (forall traceEvents s,
     handleEvents traceEvents s =
     (Normal tt,
      with_pageLoadEventsArray
        (pageLoadEventsArray s ++ filter eventIsPageLoadEvent traceEvents) s)).
Proof using.
  clear.
  split; [| split; [| split; [| split]]].
  - intros e s H. unfold handleEvent. rewrite H. reflexivity.
  - intros e s H. unfold handleEvent. rewrite H. reflexivity.
  - intros e. apply eventIsPageLoadEvent_names.
  - intros e s H. unfold handleEvent.
    assert (Hn : eventIsPageLoadEvent e = false).
    { destruct (eventIsPageLoadEvent e) eqn:E; [| reflexivity].
      apply eventIsPageLoadEvent_names in E.
      unfold isTraceEventLayoutShift in H. apply String.eqb_eq in H.
      rewrite H in E. cbn in E. intuition discriminate. }
    rewrite Hn. reflexivity.
  - apply handleEvents_buffer.
Qed.

(** C8: [reset] clears the four pieces of accumulation state (the metric
    table, the buffered events, the marker list, the set of selected LCP
    candidates); after [reset], no event, [finalize] and [data], the metric
    table and the marker sequence are empty. *)
Theorem C8_reset_clears_state :
  (forall s, reset s = (Normal tt, emptyState)) /\
  (forall s,
     metricScoresByFrameId (snd (reset s)) = [] /\
     pageLoadEventsArray (snd (reset s)) = [] /\
     allMarkerEvents (snd (reset s)) = [] /\
     selectedLCPCandidateEvents (snd (reset s)) = []) /\
  (forall s,
     (reset ;;; handleEvents [] ;;; finalize ;;; data) s =
     (Normal {| data_metricScoresByFrameId := []; data_allMarkerEvents := [] |},
      emptyState)).
Proof.
  split; [| split]; intros s; try reflexivity.
  repeat split.
Qed.

(** ** Attribution of one event: fatal errors and silent drops *)

(** Decide the guards on an event whose name is known. *)
Ltac decide_guards :=
  repeat match goal with
  | |- context [String.eqb ?a ?b] =>
      let v := eval vm_compute in (String.eqb a b) in
      match v with
      | true => change (String.eqb a b) with true
      | false => change (String.eqb a b) with false
      end
  end.

Ltac unfold_guards :=
  unfold isTraceEventMarkDOMContent, isTraceEventMarkLoad, isTraceEventFirstPaint,
    isTraceEventFirstContentfulPaint, isTraceEventLargestContentfulPaintCandidate,
    isTraceEventInteractiveTime, isTraceEventLayoutShift in *.

(** From [H : guard e = true], rewrite every guard on [e] to its value. *)
Ltac known_kind H :=
  unfold_guards; apply String.eqb_eq in H; rewrite ?H; decide_guards;
  cbn [orb andb negb].

Lemma kind_cases (e : TraceEventData) :
  eventIsPageLoadEvent e = true ->
  isTraceEventMarkDOMContent e = true \/ isTraceEventMarkLoad e = true \/
  isTraceEventFirstPaint e = true \/ isTraceEventFirstContentfulPaint e = true \/
  isTraceEventLargestContentfulPaintCandidate e = true \/
  isTraceEventInteractiveTime e = true.
Proof using.
  clear.
  unfold eventIsPageLoadEvent, pageLoadEventTypeGuards, markerTypeGuards.
  cbn [app existsb]. rewrite !orb_true_iff. intuition discriminate.
Qed.

Lemma missing_navigationId_throws (e : TraceEventData) (s : State) :
  isTraceEventFirstContentfulPaint e = true \/ isTraceEventFirstPaint e = true \/
  isTraceEventLargestContentfulPaintCandidate e = true ->
  falsy_string (data_field data_navigationId e) = true ->
  attributePageLoadEvent e s = (Throw "Trace event unexpectedly had no navigation ID.", s).
Proof.
  intros Hk Hf. unfold attributePageLoadEvent, getNavigationForPageLoadEvent, bind, lift.
  destruct Hk as [Hk | [Hk | Hk]]; known_kind Hk;
    (destruct (data_field data_navigationId e) as [n |]; [cbn in Hf; rewrite Hf |]; reflexivity).
Qed.

Lemma missing_frame_throws (e : TraceEventData) (s : State) :
  isTraceEventMarkDOMContent e = true \/ isTraceEventMarkLoad e = true ->
  falsy_string (data_field data_frame e) = true ->
  attributePageLoadEvent e s = (Throw "MarkDOMContent unexpectedly had no frame ID.", s).
Proof.
  intros Hk Hf.
  unfold attributePageLoadEvent, getNavigationForPageLoadEvent, getFrameIdForPageLoadEvent,
    bind, lift, bindC.
  destruct Hk as [Hk | Hk]; known_kind Hk;
    (destruct (data_field data_frame e) as [n |]; [cbn in Hf; rewrite Hf |]; reflexivity).
Qed.

Lemma missing_candidateIndex_throws (e : TraceEventData) (s : State)
    (navigation : TraceEventNavigationStart) (frameId navigationId : string) :
  isTraceEventLargestContentfulPaintCandidate e = true ->
  falsy_number (data_field data_candidateIndex e) = true ->
  reachesScoring e navigation frameId navigationId ->
  attributePageLoadEvent e s =
  (Throw "Largest Contenful Paint unexpectedly had no candidateIndex.", s).
Proof.
  intros Hk Hf (Hnav & Hid & Hne & Hfr & procs & pd & Hp & Hpd & Hw).
  unfold attributePageLoadEvent, bind, lift. rewrite Hnav.
  unfold storePageLoadMetricAgainstNavigationId. rewrite Hid.
  apply String.eqb_neq in Hne. rewrite Hne.
  unfold bind, lift. rewrite Hfr, Hp, Hpd.
  replace (ts e >=? window_min (window pd)) with true by (symmetry; apply Z.geb_le; lia).
  replace (ts e <=? window_max (window pd)) with true by (symmetry; apply Z.leb_le; lia).
  cbn [andb negb].
  unfold storeLCPCandidate.
  known_kind Hk.
  destruct (data_field data_candidateIndex e) as [i |]; [cbn in Hf; rewrite Hf |]; reflexivity.
Qed.

Lemma insertByTs_perm (e : TraceEventData) (l : list TraceEventData) :
  Permutation (insertByTs e l) (e :: l).
Proof.
  induction l as [| x l IH]; cbn [insertByTs]; [reflexivity |].
  destruct (ts e <=? ts x); [reflexivity |].
  rewrite IH. apply perm_swap.
Qed.

Lemma sortByTs_perm (l : list TraceEventData) : Permutation (sortByTs l) l.
Proof.
  induction l as [| x l IH]; cbn [sortByTs fold_right]; [reflexivity |].
  fold (sortByTs l). rewrite insertByTs_perm. now constructor.
Qed.

Lemma sortByTs_In (e : TraceEventData) (l : list TraceEventData) :
  In e (sortByTs l) <-> In e l.
Proof.
  split; apply Permutation_in; [| symmetry]; apply sortByTs_perm.
Qed.

Lemma forEach_throws (A : Type) (body : A -> M unit) (l : list A) (x : A) :
  In x l -> (forall s, throws (body x) s) -> forall s, throws (forEach body l) s.
Proof.
  intros Hin Hx. induction l as [| y l IH]; [contradiction |].
  intros s. cbn [forEach]. unfold throws, bind.
  destruct Hin as [-> | Hin].
  - destruct (Hx s) as (msg & s' & ->). eauto.
  - destruct (body y s) as [[[] | msg] s1]; [apply (IH Hin) | eauto].
Qed.

Lemma finalize_throws (e : TraceEventData) (s : State) :
  In e (pageLoadEventsArray s) ->
  (forall s', throws (attributePageLoadEvent e) s') ->
  throws finalize s.
Proof.
  intros Hin Hthrow. unfold finalize, throws, bind at 1 2 3, modify, gets.
  cbn [pageLoadEventsArray with_pageLoadEventsArray].
  destruct (@forEach_throws _ attributePageLoadEvent (sortByTs (pageLoadEventsArray s)) e)
    with (s := with_pageLoadEventsArray (sortByTs (pageLoadEventsArray s)) s)
    as (msg & s' & ->); eauto.
  now apply sortByTs_In.
Qed.

(** The events that throw for want of an identifier, and [finalize] on a
    buffer that holds one. *)
Lemma absent_identifier_throws :
  (forall e s,
     isTraceEventFirstContentfulPaint e = true \/ isTraceEventFirstPaint e = true \/
     isTraceEventLargestContentfulPaintCandidate e = true ->
     data_field data_navigationId e = None ->
     attributePageLoadEvent e s =
     (Throw "Trace event unexpectedly had no navigation ID.", s)) /\
  (forall e s,
     isTraceEventMarkDOMContent e = true \/ isTraceEventMarkLoad e = true ->
     data_field data_frame e = None ->
     attributePageLoadEvent e s =
     (Throw "MarkDOMContent unexpectedly had no frame ID.", s)) /\
  (forall e s navigation frameId navigationId,
     isTraceEventLargestContentfulPaintCandidate e = true ->
     data_field data_candidateIndex e = None ->
     reachesScoring e navigation frameId navigationId ->
     attributePageLoadEvent e s =
     (Throw "Largest Contenful Paint unexpectedly had no candidateIndex.", s)) /\
  (forall e s,
     In e (pageLoadEventsArray s) ->
     ((isTraceEventFirstContentfulPaint e = true \/ isTraceEventFirstPaint e = true \/
       isTraceEventLargestContentfulPaintCandidate e = true) /\
      data_field data_navigationId e = None) \/
     ((isTraceEventMarkDOMContent e = true \/ isTraceEventMarkLoad e = true) /\
      data_field data_frame e = None) \/
     (isTraceEventLargestContentfulPaintCandidate e = true /\
      data_field data_candidateIndex e = None /\
      exists navigation frameId navigationId,
        reachesScoring e navigation frameId navigationId) ->
     throws finalize s).
Proof.
  split; [| split; [| split]].
  - intros e s Hk Hn. apply missing_navigationId_throws; [assumption |]. now rewrite Hn.
  - intros e s Hk Hn. apply missing_frame_throws; [assumption |]. now rewrite Hn.
  - intros e s nav f n Hk Hn. apply missing_candidateIndex_throws; [assumption |].
    now rewrite Hn.
  - intros e s Hin H. apply finalize_throws with (e := e); [assumption |]. intros s'. unfold throws.
    destruct H as [[Hk Hn] | [[Hk Hn] | (Hk & Hn & nav & f & n & Hr)]].
    + rewrite missing_navigationId_throws; [eauto | assumption | now rewrite Hn].
    + rewrite missing_frame_throws; [eauto | assumption | now rewrite Hn].
    + rewrite (@missing_candidateIndex_throws e s' nav f n); [eauto | assumption | | assumption].
      now rewrite Hn.
Qed.



Lemma resolution_total (e : TraceEventData) :
  eventIsPageLoadEvent e = true -> hasRequiredIdentifiers e = true ->
  (exists navigation, getNavigationForPageLoadEvent e = Normal navigation) /\
  (exists frameId, getFrameIdForPageLoadEvent e = Normal frameId).
Proof.
  intros Hpl Hid. apply kind_cases in Hpl.
  unfold hasRequiredIdentifiers in Hid.
  unfold getNavigationForPageLoadEvent, getFrameIdForPageLoadEvent, bindC.
  revert Hid.
  destruct Hpl as [Hk | [Hk | [Hk | [Hk | [Hk | Hk]]]]];
    known_kind Hk; intros Hid;
    try rewrite andb_true_r in Hid;
    try (destruct (data_field data_navigationId e) as [n |]; [| discriminate Hid];
         cbn in Hid; apply negb_true_iff in Hid; rewrite Hid);
    try (destruct (data_field data_frame e) as [f |]; [| discriminate Hid];
         cbn in Hid; apply negb_true_iff in Hid; rewrite Hid);
    split; eauto.
Qed.

Lemma silently_dropped (e : TraceEventData) (s : State) :
  eventIsPageLoadEvent e = true ->
  hasRequiredIdentifiers e = true ->
  (forall navigation,
     getNavigationForPageLoadEvent e = Normal (Some navigation) ->
     falsy_string (nav_navigationId navigation) = false) ->
  navigationFilteredOut e \/ frameOrProcessFilteredOut e \/ outsideProcessWindow e ->
  attributePageLoadEvent e s = (Normal tt, s).
Proof.
  intros Hpl Hid Hnavid Hdrop.
  destruct (resolution_total e Hpl Hid) as [[onav Hnav] [frameId Hfr]].
  unfold attributePageLoadEvent, bind, lift. rewrite Hnav.
  destruct onav as [nav |]; [| reflexivity].
  specialize (Hnavid nav Hnav).
  unfold storePageLoadMetricAgainstNavigationId.
  destruct (nav_navigationId nav) as [navId |]; [| discriminate Hnavid].
  cbn in Hnavid. rewrite Hnavid. unfold bind, lift. rewrite Hfr.
  destruct Hdrop as [[Hk (n & Hn & Hne & Hget)] | [(f & Hf & Hd) | (f & procs & pd & Hf & Hp & Hpd & Hw)]].
  - exfalso. revert Hnav. unfold getNavigationForPageLoadEvent.
    apply String.eqb_neq in Hne.
    destruct Hk as [Hk | [Hk | Hk]]; rewrite Hk, ?orb_true_r; cbn [orb];
      rewrite Hn, Hne, Hget; discriminate.
  - rewrite Hfr in Hf. injection Hf as <-.
    destruct Hd as [-> | (procs & -> & ->)]; reflexivity.
  - rewrite Hfr in Hf. injection Hf as <-. rewrite Hp, Hpd.
    replace ((ts e >=? window_min (window pd)) && (ts e <=? window_max (window pd)))
      with false; [reflexivity |].
    symmetry. apply andb_false_iff.
    destruct Hw; [left; rewrite Z.geb_leb; apply Z.leb_gt | right; apply Z.leb_gt]; assumption.
Qed.

Lemma reaches_window (e : TraceEventData) (pd : ProcessData) :
  window_min (window pd) <= ts e <= window_max (window pd) ->
  negb ((ts e >=? window_min (window pd)) && (ts e <=? window_max (window pd))) = false.
Proof.
  intros Hw.
  replace (ts e >=? window_min (window pd)) with true by (symmetry; apply Z.geb_le; lia).
  replace (ts e <=? window_max (window pd)) with true by (symmetry; apply Z.leb_le; lia).
  reflexivity.
Qed.

(** An event that reaches the branch on its kind runs that branch. *)
Lemma attribute_reaches (e : TraceEventData) (s : State)
    (navigation : TraceEventNavigationStart) (frameId navigationId : string) :
  reachesScoring e navigation frameId navigationId ->
  attributePageLoadEvent e s = scoreEvent frameId navigationId navigation e s.
Proof.
  intros (Hnav & Hid & Hne & Hfr & procs & pd & Hp & Hpd & Hw).
  unfold attributePageLoadEvent, bind, lift. rewrite Hnav.
  unfold storePageLoadMetricAgainstNavigationId. rewrite Hid.
  apply String.eqb_neq in Hne. rewrite Hne.
  unfold bind, lift. rewrite Hfr, Hp, Hpd, (reaches_window e pd Hw). reflexivity.
Qed.

(** C6, as amended: an event that carries the identifiers required of its
    kind, and whose resolved navigation (if any) carries a navigation id,
    is dropped silently, with no score stored and no error, when its
    navigation id is not in the Meta handler's navigation index, or its
    frame or process is not among the Meta handler's renderer processes, or
    its timestamp is outside its process's window; the window's bounds are
    inclusive, an event at a bound being scored; in particular an FCP event
    that names a filtered-out navigation changes nothing and does not
    throw. *)
Theorem C6_filtered_events_are_dropped :
  (forall e s,
     eventIsPageLoadEvent e = true ->
     hasRequiredIdentifiers e = true ->
     (forall navigation,
        getNavigationForPageLoadEvent e = Normal (Some navigation) ->
        falsy_string (nav_navigationId navigation) = false) ->
     navigationFilteredOut e \/ frameOrProcessFilteredOut e \/ outsideProcessWindow e ->
     attributePageLoadEvent e s = (Normal tt, s)) /\
  (forall e s navigationId,
     isTraceEventFirstContentfulPaint e = true ->
     data_field data_navigationId e = Some navigationId -> navigationId <> "" ->
     sget navigationId (navigationsByNavigationId metaHandlerData) = None ->
     attributePageLoadEvent e s = (Normal tt, s)) /\
  (forall e s navigation frameId navigationId,
     isTraceEventFirstContentfulPaint e = true ->
     reachesScoring e navigation frameId navigationId ->
     attributePageLoadEvent e s =
     (Normal tt,
      with_metricScoresByFrameId
        (storeMetricScoreInTable frameId navigationId
           (elapsedScore FCP
              (scoreClassificationForFirstContentfulPaint (ts e - nav_ts navigation))
              navigation e)
           (metricScoresByFrameId s)) s)).
Proof.
  split; [| split].
  - apply silently_dropped.
  - intros e s n Hk Hn Hne Hget.
    unfold attributePageLoadEvent, getNavigationForPageLoadEvent, bind, lift.
    rewrite Hk, Hn. apply String.eqb_neq in Hne. rewrite Hne, Hget. reflexivity.
  - intros e s nav f n Hk Hr. rewrite (attribute_reaches s Hr). unfold scoreEvent.
    rewrite Hk. reflexivity.
Qed.

(** ** Facts about maps and the metric table *)

Section JSMapFacts.

Variables K V : Type.
Variable eqb : K -> K -> bool.
Hypothesis eqb_eq : forall a b, eqb a b = true <-> a = b.

Lemma eqb_refl_K (a : K) : eqb a a = true.
Proof. now apply eqb_eq. Qed.

Lemma eqb_neq_K (a b : K) : a <> b -> eqb a b = false.
Proof.
  intros Hne. destruct (eqb a b) eqn:E; [| reflexivity]. apply eqb_eq in E. contradiction.
Qed.

Lemma get_set_same (k : K) (v : V) (m : JSMap.t K V) :
  JSMap.get eqb k (JSMap.set eqb k v m) = Some v.
Proof.
  induction m as [| [k' v'] m IH]; cbn.
  - now rewrite eqb_refl_K.
  - destruct (eqb k k') eqn:E; cbn; [now rewrite eqb_refl_K | now rewrite E].
Qed.

Lemma get_set_other (k k' : K) (v : V) (m : JSMap.t K V) :
  k' <> k -> JSMap.get eqb k' (JSMap.set eqb k v m) = JSMap.get eqb k' m.
Proof.
  intros Hne. induction m as [| [k0 v0] m IH]; cbn.
  - now rewrite eqb_neq_K.
  - destruct (eqb k k0) eqn:E; cbn.
    + apply eqb_eq in E. subst k0. now rewrite eqb_neq_K.
    + now rewrite IH.
Qed.

Lemma get_delete_same (k : K) (m : JSMap.t K V) :
  JSMap.get eqb k (JSMap.delete eqb k m) = None.
Proof.
  induction m as [| [k0 v0] m IH]; cbn; [reflexivity |].
  destruct (eqb k k0) eqn:E; cbn; [assumption | now rewrite E].
Qed.

Lemma get_delete_other (k k' : K) (m : JSMap.t K V) :
  k' <> k -> JSMap.get eqb k' (JSMap.delete eqb k m) = JSMap.get eqb k' m.
Proof.
  intros Hne. induction m as [| [k0 v0] m IH]; cbn; [reflexivity |].
  destruct (eqb k k0) eqn:E; cbn.
  - apply eqb_eq in E. subst k0. now rewrite eqb_neq_K.
  - now rewrite IH.
Qed.

Lemma keys_set (k : K) (v : V) (m : JSMap.t K V) :
  JSMap.keys (JSMap.set eqb k v m) =
  match JSMap.get eqb k m with
  | Some _ => JSMap.keys m
  | None => JSMap.keys m ++ [k]
  end.
Proof.
  induction m as [| [k0 v0] m IH]; cbn; [reflexivity |].
  destruct (eqb k k0) eqn:E; cbn.
  - apply eqb_eq in E. now subst.
  - fold (JSMap.keys (JSMap.set eqb k v m)). rewrite IH.
    now destruct (JSMap.get eqb k m).
Qed.

Lemma get_None_keys (k : K) (m : JSMap.t K V) :
  JSMap.get eqb k m = None <-> ~ In k (JSMap.keys m).
Proof.
  induction m as [| [k0 v0] m IH]; cbn; [tauto |].
  destruct (eqb k k0) eqn:E.
  - apply eqb_eq in E. subst. split; [discriminate | tauto].
  - rewrite IH. split; [| tauto]. intros Hn [-> | Hin]; [| tauto].
    now rewrite eqb_refl_K in E.
Qed.

Lemma NoDup_keys_set (k : K) (v : V) (m : JSMap.t K V) :
  NoDup (JSMap.keys m) -> NoDup (JSMap.keys (JSMap.set eqb k v m)).
Proof.
  intros Hnd. rewrite keys_set. destruct (JSMap.get eqb k m) eqn:E; [assumption |].
  apply get_None_keys in E.
  apply NoDup_rev in Hnd. rewrite <- (rev_involutive (JSMap.keys m ++ [k])).
  apply NoDup_rev. rewrite rev_app_distr. cbn. constructor; [| assumption].
  now rewrite <- in_rev.
Qed.

(** With unique keys, the entries are what [get] finds. *)
Lemma In_get (k : K) (v : V) (m : JSMap.t K V) :
  NoDup (JSMap.keys m) -> (In (k, v) m <-> JSMap.get eqb k m = Some v).
Proof.
  induction m as [| [k0 v0] m IH]; cbn; [split; [tauto | discriminate] |].
  intros Hnd. inversion Hnd as [| ? ? Hnotin Hnd']; subst.
  destruct (eqb k k0) eqn:E.
  - apply eqb_eq in E. subst k0. split.
    + intros [Heq | Hin]; [congruence |].
      exfalso. apply Hnotin. change k with (fst (k, v)). now apply in_map.
    + intros [= ->]. now left.
  - rewrite <- (IH Hnd'). split; [| tauto].
    intros [[= -> ->] | Hin]; [now rewrite eqb_refl_K in E | assumption].
Qed.

Lemma set_In_inv (k k' : K) (v v' : V) (m : JSMap.t K V) :
  In (k', v') (JSMap.set eqb k v m) -> (k' = k /\ v' = v) \/ In (k', v') m.
Proof.
  induction m as [| [k0 v0] m IH]; cbn.
  - intros [[= <- <-] | []]. now left.
  - destruct (eqb k k0); cbn.
    + intros [[= <- <-] | Hin]; [now left | now right; right].
    + intros [Heq | Hin]; [now right; left |]. destruct (IH Hin); [now left | now right; right].
Qed.

End JSMapFacts.

Lemma MetricName_eqb_eq (a b : MetricName) : MetricName_eqb a b = true <-> a = b.
Proof. destruct a, b; cbn; split; intros; congruence. Qed.

Ltac map_simpl :=
  repeat first
    [ rewrite (get_set_same _ String.eqb_eq)
    | rewrite (get_set_other _ String.eqb_eq) by congruence
    | rewrite String.eqb_refl
    | progress cbn [JSMap.get JSMap.set fst snd andb] ].

Lemma lookupMetrics_store (f n f' n' : string) (sc : MetricScore) (t : MetricTable) :
  lookupMetrics f' n' (storeMetricScoreInTable f n sc t) =
  if String.eqb f' f && String.eqb n' n
  then Some (mset (metricName sc) sc
               (mdelete (metricName sc)
                  (match lookupMetrics f n t with Some m => m | None => [] end)))
  else lookupMetrics f' n' t.
Proof.
  unfold storeMetricScoreInTable, lookupMetrics, getWithDefault, sget, sset.
  destruct (JSMap.get String.eqb f t) as [byNav |] eqn:Ef;
    [destruct (JSMap.get String.eqb n byNav) as [m |] eqn:En |];
    destruct (String.eqb_spec f' f) as [-> | Hf];
    destruct (String.eqb_spec n' n) as [-> | Hn];
    map_simpl; rewrite ?Ef, ?En; map_simpl; try reflexivity.
  all: destruct (String.eqb_spec n' n); [congruence | reflexivity].
Qed.

Lemma mget_store (k name : MetricName) (sc : MetricScore) (m : Metrics) :
  mget k (mset name sc (mdelete name m)) =
  if MetricName_eqb k name then Some sc else mget k m.
Proof.
  unfold mget, mset, mdelete.
  destruct (MetricName_eqb k name) eqn:E.
  - apply MetricName_eqb_eq in E. subst. apply (get_set_same _ MetricName_eqb_eq).
  - assert (k <> name) by (intros ->; now rewrite (proj2 (MetricName_eqb_eq _ _)) in E).
    rewrite (get_set_other _ MetricName_eqb_eq), (get_delete_other _ MetricName_eqb_eq);
      trivial.
Qed.

Lemma scoreAt_store (f n f' n' : string) (k : MetricName) (sc : MetricScore)
    (t : MetricTable) :
  scoreAt f' n' k (storeMetricScoreInTable f n sc t) =
  if String.eqb f' f && String.eqb n' n && MetricName_eqb k (metricName sc)
  then Some sc else scoreAt f' n' k t.
Proof.
  unfold scoreAt. rewrite lookupMetrics_store.
  destruct (String.eqb_spec f' f) as [-> | Hf]; cbn [andb]; [| reflexivity].
  destruct (String.eqb_spec n' n) as [-> | Hn]; cbn [andb]; [| reflexivity].
  rewrite mget_store. destruct (MetricName_eqb k (metricName sc)); [reflexivity |].
  now destruct (lookupMetrics f n t).
Qed.

Lemma metricsWithDefault_fst (f n : string) (t : MetricTable) :
  fst (metricsWithDefault f n t) =
  match lookupMetrics f n t with Some m => m | None => [] end.
Proof.
  unfold metricsWithDefault, lookupMetrics, getWithDefault.
  destruct (sget f t) as [byNav |]; cbn.
  - now destruct (sget n byNav).
  - reflexivity.
Qed.

Lemma scoreAt_metricsWithDefault (f n f' n' : string) (k : MetricName) (t : MetricTable) :
  scoreAt f' n' k (snd (metricsWithDefault f n t)) = scoreAt f' n' k t.
Proof.
  unfold scoreAt, metricsWithDefault, lookupMetrics, getWithDefault, sget, sset.
  destruct (JSMap.get String.eqb f t) as [byNav |] eqn:Ef;
    [destruct (JSMap.get String.eqb n byNav) as [m |] eqn:En |];
    destruct (String.eqb_spec f' f) as [-> | Hf];
    destruct (String.eqb_spec n' n) as [-> | Hn];
    map_simpl; rewrite ?Ef, ?En; map_simpl; try reflexivity.
  all: destruct (String.eqb_spec n' n); [congruence | reflexivity].
Qed.

Lemma sget_In (V : Type) (k : string) (v : V) (m : JSMap.t string V) :
  sget k m = Some v -> In (k, v) m.
Proof.
  unfold sget. induction m as [| [k0 v0] m IH]; cbn; [discriminate |].
  destruct (String.eqb_spec k k0) as [-> | Hne].
  - intros [= ->]. now left.
  - intros H. right. now apply IH.
Qed.

Lemma Forall_sset (V : Type) (P : string * V -> Prop) (k : string) (v : V)
    (m : JSMap.t string V) :
  Forall P m -> P (k, v) -> Forall P (sset k v m).
Proof.
  intros Hm Hkv. apply Forall_forall. intros [k' v'] Hin.
  apply set_In_inv in Hin. destruct Hin as [[-> ->] | Hin]; [assumption |].
  now apply (proj1 (Forall_forall P m) Hm).
Qed.

Lemma uniqueKeys_nil : uniqueKeys [].
Proof. split; constructor. Qed.

Lemma uniqueKeys_lookup (f : string) (byNav : MetricsByNavigation) (t : MetricTable) :
  uniqueKeys t -> sget f t = Some byNav -> NoDup (JSMap.keys byNav).
Proof.
  intros [_ Hall] Hget. apply sget_In in Hget.
  apply (proj1 (Forall_forall _ t) Hall (f, byNav) Hget).
Qed.

Lemma uniqueKeys_store (f n : string) (sc : MetricScore) (t : MetricTable) :
  uniqueKeys t -> uniqueKeys (storeMetricScoreInTable f n sc t).
Proof.
  intros Hu. pose proof Hu as [Hnd Hall].
  unfold storeMetricScoreInTable, getWithDefault.
  destruct (sget f t) as [byNav |] eqn:Ef.
  - pose proof (@uniqueKeys_lookup f byNav t Hu Ef) as Hb.
    destruct (sget n byNav) as [m |] eqn:En; (split; [now apply NoDup_keys_set; auto using String.eqb_eq |]);
      apply Forall_sset; try assumption; cbn [snd]; unfold sset;
      repeat (apply NoDup_keys_set; [apply String.eqb_eq |]); assumption.
  - split.
    + unfold sset. repeat (apply NoDup_keys_set; [apply String.eqb_eq |]). assumption.
    + repeat (apply Forall_sset); try assumption; cbn [snd]; unfold sset;
        repeat (apply NoDup_keys_set; [apply String.eqb_eq |]); constructor.
Qed.

Lemma uniqueKeys_metricsWithDefault (f n : string) (t : MetricTable) :
  uniqueKeys t -> uniqueKeys (snd (metricsWithDefault f n t)).
Proof.
  intros Hu. pose proof Hu as [Hnd Hall].
  unfold metricsWithDefault, getWithDefault.
  destruct (sget f t) as [byNav |] eqn:Ef.
  - pose proof (@uniqueKeys_lookup f byNav t Hu Ef) as Hb.
    destruct (sget n byNav) as [m |] eqn:En; cbn [snd];
      (split; [unfold sset; now apply NoDup_keys_set; auto using String.eqb_eq |]);
      apply Forall_sset; try assumption; cbn [snd]; unfold sset;
      repeat (apply NoDup_keys_set; [apply String.eqb_eq |]); assumption.
  - cbn [snd]. split.
    + unfold sset. repeat (apply NoDup_keys_set; [apply String.eqb_eq |]). assumption.
    + repeat (apply Forall_sset); try assumption; cbn [snd]; unfold sset;
        repeat (apply NoDup_keys_set; [apply String.eqb_eq |]); constructor.
Qed.

Lemma In_values (V : Type) (v : V) (m : JSMap.t string V) :
  NoDup (JSMap.keys m) -> (In v (JSMap.values m) <-> exists k, sget k m = Some v).
Proof.
  intros Hnd. unfold JSMap.values. rewrite in_map_iff. split.
  - intros ([k v'] & Hv & Hin). cbn in Hv. subst v'. exists k.
    now apply (@In_get _ _ String.eqb String.eqb_eq).
  - intros (k & Hget). exists (k, v). split; [reflexivity |]. now apply sget_In.
Qed.

(** The final LCP events are the events of the LCP scores in the table. *)
Lemma gatherFinalLCPEvents_In (e : TraceEventData) (t : MetricTable) :
  uniqueKeys t ->
  (In e (gatherFinalLCPEvents t) <->
   exists f n sc, scoreAt f n LCP t = Some sc /\ event sc = Some e).
Proof.
  intros Hu. pose proof Hu as [Hnd Hall].
  unfold gatherFinalLCPEvents, scoreAt, lookupMetrics. rewrite in_flat_map. split.
  - intros (navData & Hin & He). apply in_flat_map in Hin. destruct Hin as (byNav & Hb & Hn).
    apply (In_values _ _ Hnd) in Hb. destruct Hb as (f & Hf).
    apply (In_values _ _ (@uniqueKeys_lookup f byNav t Hu Hf)) in Hn. destruct Hn as (n & Hn).
    destruct (mget LCP navData) as [sc |] eqn:Esc; [| contradiction].
    destruct (event sc) as [e' |] eqn:Eev; [| contradiction].
    destruct He as [-> | []]. exists f, n, sc. now rewrite Hf, Hn.
  - intros (f & n & sc & Hsc & Hev).
    destruct (sget f t) as [byNav |] eqn:Hf; [| discriminate].
    destruct (sget n byNav) as [navData |] eqn:Hn; [| discriminate].
    exists navData. split.
    + apply in_flat_map. exists byNav. split.
      * apply (In_values _ _ Hnd). eauto.
      * apply (In_values _ _ (@uniqueKeys_lookup f byNav t Hu Hf)). eauto.
    + rewrite Hsc, Hev. now left.
Qed.

(** ** Reasoning about handler computations *)

Lemma bind_normal (A B : Type) (m : M A) (k : A -> M B) (s s' : State) (b : B) :
  bind m k s = (Normal b, s') ->
  exists a s1, m s = (Normal a, s1) /\ k a s1 = (Normal b, s').
Proof.
  unfold bind. destruct (m s) as [[a | msg] s1]; [eauto | discriminate].
Qed.

Lemma forEach_invariant (A : Type) (body : A -> M unit) (P : list A -> State -> Prop)
    (l : list A) :
  (forall done x s s', In x l -> P done s -> body x s = (Normal tt, s') -> P (done ++ [x]) s') ->
  forall s s', P [] s -> forEach body l s = (Normal tt, s') -> P l s'.
Proof.
  intros Hstep.
  assert (H : forall rest done s s',
             (forall x, In x rest -> In x l) -> P done s ->
             forEach body rest s = (Normal tt, s') -> P (done ++ rest) s').
  { induction rest as [| x rest IH]; intros done s s' Hsub HP Hrun; cbn [forEach] in Hrun.
    - injection Hrun as <-. now rewrite app_nil_r.
    - apply bind_normal in Hrun. destruct Hrun as ([] & s1 & Hx & Hrest).
      replace (done ++ x :: rest) with ((done ++ [x]) ++ rest) by now rewrite <- app_assoc.
      apply (IH _ s1); [intros y Hy; apply Hsub; now right | | assumption].
      apply (Hstep done x s s1); [apply Hsub; now left | assumption | assumption]. }
  intros s s' HP Hrun. apply (H l [] s s'); auto.
Qed.

(** A state property kept by every turn is kept by the loop. *)
Lemma forEach_preserves (A : Type) (body : A -> M unit) (P : State -> Prop) (l : list A) :
  (forall x s s', In x l -> P s -> body x s = (Normal tt, s') -> P s') ->
  forall s s', P s -> forEach body l s = (Normal tt, s') -> P s'.
Proof.
  intros Hstep s s' HP Hrun.
  apply (@forEach_invariant A body (fun _ => P) l) with (s := s); eauto.
Qed.

Lemma set_get_same (V : Type) (k : string) (v : V) (m : JSMap.t string V) :
  sget k m = Some v -> sset k v m = m.
Proof.
  unfold sget, sset. induction m as [| [k0 v0] m IH]; cbn; [discriminate |].
  destruct (String.eqb_spec k k0) as [-> | Hne].
  - now intros [= ->].
  - intros H. now rewrite IH.
Qed.

Lemma with_metricScoresByFrameId_same (s : State) :
  with_metricScoresByFrameId (metricScoresByFrameId s) s = s.
Proof. destruct s; reflexivity. Qed.

Lemma metricsWithDefault_present (f n : string) (t : MetricTable) (m : Metrics) :
  lookupMetrics f n t = Some m -> metricsWithDefault f n t = (m, t).
Proof.
  unfold lookupMetrics, metricsWithDefault, getWithDefault.
  destruct (sget f t) as [byNav |] eqn:Ef; [| discriminate].
  intros En. rewrite En. now rewrite set_get_same.
Qed.

(** How a run of [attributePageLoadEvent] that returns can have gone:
    the event was dropped, or it was scored. *)
Lemma attribute_normal (e : TraceEventData) (s s' : State) :
  attributePageLoadEvent e s = (Normal tt, s') ->
  (s' = s /\ forall nav f n, ~ reachesScoring e nav f n) \/
  (exists nav f n, reachesScoring e nav f n /\ scoreEvent f n nav e s = (Normal tt, s')).
Proof.
  intros Hrun.
  destruct (getNavigationForPageLoadEvent e) as [[nav |] | msg] eqn:Hnav.
  2: { left. unfold attributePageLoadEvent, bind, lift in Hrun. rewrite Hnav in Hrun.
       injection Hrun as <-. split; [reflexivity |].
       intros nav f n (H & _). congruence. }
  2: { unfold attributePageLoadEvent, bind, lift in Hrun. now rewrite Hnav in Hrun. }
  pose proof Hrun as Hrun0.
  unfold attributePageLoadEvent, bind, lift in Hrun. rewrite Hnav in Hrun.
  unfold storePageLoadMetricAgainstNavigationId in Hrun.
  destruct (nav_navigationId nav) as [n |] eqn:Hid; [| discriminate].
  destruct (String.eqb_spec n "") as [-> | Hne]; [discriminate |].
  unfold bind, lift in Hrun.
  destruct (getFrameIdForPageLoadEvent e) as [f | msg] eqn:Hfr; [| discriminate].
  destruct (sget f (rendererProcessesByFrame metaHandlerData)) as [procs |] eqn:Hp.
  2: { left. injection Hrun as <-. split; [reflexivity |].
       intros nav' f' n' (_ & _ & _ & Hf' & procs & pd & Hp' & _). congruence. }
  destruct (zget (pid e) procs) as [pd |] eqn:Hpd.
  2: { left. injection Hrun as <-. split; [reflexivity |].
       intros nav' f' n' (_ & _ & _ & Hf' & procs' & pd & Hp' & Hpd' & _). congruence. }
  destruct (negb ((ts e >=? window_min (window pd)) && (ts e <=? window_max (window pd))))
    eqn:Hw.
  { left. injection Hrun as <-. split; [reflexivity |].
    intros nav' f' n' (_ & _ & _ & Hf' & procs' & pd' & Hp' & Hpd' & Hw').
    assert (f' = f) by congruence. subst f'.
    assert (procs' = procs) by congruence. subst procs'.
    assert (pd' = pd) by congruence. subst pd'.
    rewrite (reaches_window e pd Hw') in Hw. discriminate. }
  right. exists nav, f, n.
  assert (Hr : reachesScoring e nav f n).
  { repeat split; try assumption. exists procs, pd. repeat split; try assumption.
    - apply negb_false_iff, andb_true_iff in Hw. destruct Hw as [Hw _].
      apply Z.geb_le in Hw. lia.
    - apply negb_false_iff, andb_true_iff in Hw. destruct Hw as [_ Hw].
      now apply Z.leb_le in Hw. }
  split; [assumption |]. now rewrite <- (attribute_reaches s Hr).
Qed.

(** Reaching the scoring branch determines the navigation, the frame and
    the navigation id. *)
Lemma reachesScoring_functional (e : TraceEventData)
    (nav nav' : TraceEventNavigationStart) (f f' n n' : string) :
  reachesScoring e nav f n -> reachesScoring e nav' f' n' ->
  nav' = nav /\ f' = f /\ n' = n.
Proof.
  intros (H1 & H2 & _ & H3 & _) (H1' & H2' & _ & H3' & _).
  assert (nav' = nav) by congruence. subst. repeat split; congruence.
Qed.

(** ** Selection of the LCP candidate *)

Lemma TraceEventData_eqb_eq (a b : TraceEventData) :
  TraceEventData_eqb a b = true <-> a = b.
Proof.
  unfold TraceEventData_eqb. destruct (TraceEventData_eq_dec a b); split; congruence.
Qed.

Lemma JSSet_add_In (x e : TraceEventData) (l : JSSet.t TraceEventData) :
  In x (JSSet.add TraceEventData_eqb e l) <-> x = e \/ In x l.
Proof.
  unfold JSSet.add, JSSet.has. destruct (existsb (TraceEventData_eqb e) l) eqn:E.
  - split; [tauto |]. intros [-> | H]; [| assumption].
    apply existsb_exists in E. destruct E as (y & Hy & Heq).
    apply TraceEventData_eqb_eq in Heq. now subst.
  - rewrite in_app_iff. cbn. intuition congruence.
Qed.

Lemma JSSet_delete_In (x e : TraceEventData) (l : JSSet.t TraceEventData) :
  In x (JSSet.delete TraceEventData_eqb e l) <-> x <> e /\ In x l.
Proof.
  unfold JSSet.delete. rewrite filter_In, negb_true_iff.
  split; intros [H1 H2]; split; try assumption.
  - intros ->. now rewrite (proj2 (TraceEventData_eqb_eq e e)) in H2.
  - destruct (TraceEventData_eqb e x) eqn:E; [| reflexivity].
    apply TraceEventData_eqb_eq in E. congruence.
Qed.

Lemma sset_sset (V : Type) (k : string) (v v' : V) (m : JSMap.t string V) :
  sset k v (sset k v' m) = sset k v m.
Proof.
  unfold sset. induction m as [| [k0 v0] m IH]; cbn.
  - now rewrite String.eqb_refl.
  - destruct (String.eqb k k0) eqn:E; cbn.
    + now rewrite String.eqb_refl.
    + now rewrite E, IH.
Qed.

Lemma store_after_default (f n : string) (sc : MetricScore) (t : MetricTable) :
  storeMetricScoreInTable f n sc (snd (metricsWithDefault f n t)) =
  storeMetricScoreInTable f n sc t.
Proof.
  unfold storeMetricScoreInTable, metricsWithDefault, getWithDefault.
  destruct (sget f t) as [byNav |] eqn:Ef.
  - destruct (sget n byNav) as [m |] eqn:En; cbn [snd].
    + pose proof (@set_get_same _ f byNav t Ef) as Hsame.
      unfold sget, sset, MetricTable, MetricsByNavigation, Metrics in *.
      rewrite Hsame, Ef, En. reflexivity.
    + pose proof sset_sset as Hss.
      unfold sget, sset, MetricTable, MetricsByNavigation, Metrics in *.
      map_simpl. now rewrite !Hss.
  - cbn [snd]. pose proof sset_sset as Hss.
    unfold sget, sset, MetricTable, MetricsByNavigation, Metrics in *.
    map_simpl. now rewrite ?Hss.
Qed.

(** The state after a candidate has been stored for a frame and navigation. *)
Lemma storeLCPCandidate_first (f n : string) (nav : TraceEventNavigationStart)
    (e : TraceEventData) (s : State) (i : Z) :
  data_field data_candidateIndex e = Some i -> i <> 0 ->
  scoreAt f n LCP (metricScoresByFrameId s) = None ->
  storeLCPCandidate f n nav e s =
  (Normal tt,
   with_metricScoresByFrameId
     (storeMetricScoreInTable f n (candidateScore nav e) (metricScoresByFrameId s))
     (with_selectedLCPCandidateEvents
        (JSSet.add TraceEventData_eqb e (selectedLCPCandidateEvents s)) s)).
Proof.
  intros Hi Hne Hnone. unfold storeLCPCandidate. rewrite Hi.
  apply Z.eqb_neq in Hne. rewrite Hne. unfold bind at 1.
  pose proof (metricsWithDefault_fst f n (metricScoresByFrameId s)) as Hfst.
  destruct (metricsWithDefault f n (metricScoresByFrameId s)) as [metrics t1] eqn:Ed.
  cbn [fst] in Hfst.
  assert (Hm : mget LCP metrics = None).
  { rewrite Hfst. unfold scoreAt in Hnone.
    now destruct (lookupMetrics f n (metricScoresByFrameId s)). }
  rewrite Hm. unfold bind, modify, storeMetricScore.
  cbn [metricScoresByFrameId with_metricScoresByFrameId with_selectedLCPCandidateEvents
       selectedLCPCandidateEvents pageLoadEventsArray allMarkerEvents].
  unfold with_metricScoresByFrameId, with_selectedLCPCandidateEvents.
  cbn [metricScoresByFrameId selectedLCPCandidateEvents pageLoadEventsArray allMarkerEvents].
  unfold modify.
  cbn [metricScoresByFrameId selectedLCPCandidateEvents pageLoadEventsArray allMarkerEvents].
  replace t1 with (snd (metricsWithDefault f n (metricScoresByFrameId s))) by now rewrite Ed.
  rewrite store_after_default. reflexivity.
Qed.

Lemma storeLCPCandidate_next (f n : string) (nav : TraceEventNavigationStart)
    (e e0 : TraceEventData) (s : State) (i i0 : Z) (last : MetricScore) :
  data_field data_candidateIndex e = Some i -> i <> 0 ->
  scoreAt f n LCP (metricScoresByFrameId s) = Some last ->
  event last = Some e0 ->
  isTraceEventLargestContentfulPaintCandidate e0 = true ->
  data_field data_candidateIndex e0 = Some i0 -> i0 <> 0 ->
  storeLCPCandidate f n nav e s =
  if i0 <? i then
    (Normal tt,
     with_metricScoresByFrameId
       (storeMetricScoreInTable f n (candidateScore nav e) (metricScoresByFrameId s))
       (with_selectedLCPCandidateEvents
          (JSSet.add TraceEventData_eqb e
             (JSSet.delete TraceEventData_eqb e0 (selectedLCPCandidateEvents s))) s))
  else (Normal tt, s).
Proof.
  intros Hi Hne Hlast He0 Hk0 Hi0 Hne0. unfold storeLCPCandidate. rewrite Hi.
  apply Z.eqb_neq in Hne. rewrite Hne. unfold bind at 1.
  assert (Hl : exists m, lookupMetrics f n (metricScoresByFrameId s) = Some m /\
                         mget LCP m = Some last).
  { unfold scoreAt in Hlast.
    destruct (lookupMetrics f n (metricScoresByFrameId s)) as [m |]; [eauto | discriminate]. }
  destruct Hl as (m & Hm & Hget).
  rewrite (metricsWithDefault_present _ _ _ Hm), Hget.
  unfold eventOf. rewrite He0, Hk0, Hi0. apply Z.eqb_neq in Hne0. rewrite Hne0.
  cbn [negb]. rewrite with_metricScoresByFrameId_same.
  destruct (i0 <? i); reflexivity.
Qed.

Lemma scoreEvent_other (f n : string) (nav : TraceEventNavigationStart)
    (e : TraceEventData) (s s' : State) :
  isTraceEventLargestContentfulPaintCandidate e = false ->
  scoreEvent f n nav e s = (Normal tt, s') ->
  s' = with_metricScoresByFrameId
         (storeAll f n (storedScores nav e) (metricScoresByFrameId s)) s.
Proof.
  intros Hk. unfold scoreEvent, storedScores, storeAll. rewrite Hk.
  destruct (isTraceEventFirstContentfulPaint e); [now intros [= <-] |].
  destruct (isTraceEventFirstPaint e); [now intros [= <-] |].
  destruct (isTraceEventMarkDOMContent e); [now intros [= <-] |].
  destruct (isTraceEventInteractiveTime e); [now intros [= <-] |].
  destruct (isTraceEventMarkLoad e); [now intros [= <-] |].
  destruct (isTraceEventLayoutShift e); [| discriminate].
  intros [= <-]. cbn. now rewrite with_metricScoresByFrameId_same.
Qed.

Lemma storedScores_names (nav : TraceEventNavigationStart) (e : TraceEventData)
    (sc : MetricScore) :
  In sc (storedScores nav e) ->
  metricName sc <> LCP /\
  (metricName sc = TBT -> isTraceEventInteractiveTime e = true /\ sc = reportedTBT nav e).
Proof.
  unfold storedScores.
  destruct (isTraceEventFirstContentfulPaint e) eqn:E1;
    [intros [<- | []]; split; [discriminate | discriminate] |].
  destruct (isTraceEventFirstPaint e) eqn:E2;
    [intros [<- | []]; split; [discriminate | discriminate] |].
  destruct (isTraceEventMarkDOMContent e) eqn:E3;
    [intros [<- | []]; split; [discriminate | discriminate] |].
  destruct (isTraceEventInteractiveTime e) eqn:E4.
  { intros [<- | [<- | []]]; split; try discriminate. now split. }
  destruct (isTraceEventMarkLoad e) eqn:E5;
    [intros [<- | []]; split; [discriminate | discriminate] |].
  intros [].
Qed.

Lemma uniqueKeys_storeAll (f n : string) (scs : list MetricScore) (t : MetricTable) :
  uniqueKeys t -> uniqueKeys (storeAll f n scs t).
Proof.
  unfold storeAll. revert t. induction scs as [| sc scs IH]; intros t Hu; cbn; [assumption |].
  apply IH. now apply uniqueKeys_store.
Qed.

Lemma scoreAt_storeAll_other (f n f' n' : string) (k : MetricName)
    (scs : list MetricScore) (t : MetricTable) :
  (forall sc, In sc scs -> metricName sc <> k) ->
  scoreAt f' n' k (storeAll f n scs t) = scoreAt f' n' k t.
Proof.
  unfold storeAll. revert t. induction scs as [| sc scs IH]; intros t Hn; cbn; [reflexivity |].
  rewrite IH by (intros sc' Hin; apply Hn; now right).
  rewrite scoreAt_store.
  destruct (MetricName_eqb k (metricName sc)) eqn:E.
  - apply MetricName_eqb_eq in E. exfalso. apply (Hn sc); [now left | congruence].
  - now rewrite andb_false_r.
Qed.

Lemma candidatesInvariant_step (done : list TraceEventData) (x : TraceEventData)
    (s s' : State) :
  candidatesInvariant done s ->
  attributePageLoadEvent x s = (Normal tt, s') ->
  candidatesInvariant (done ++ [x]) s'.
Proof.
  intros (Hu & Hsc & Hsel & Hmax) Hrun.
  apply attribute_normal in Hrun.
  destruct Hrun as [[-> Hnot] | (nav & f & n & Hr & Hrun)].
  { (* dropped *)
    split; [assumption |]. split; [| split; [assumption |]].
    - intros f n sc H. destruct (Hsc f n sc H) as (e & nv & i & Hin & Hrest).
      exists e, nv, i. split; [apply in_or_app; now left | assumption].
    - intros e nv f n i Hin Hk Hr Hi. apply in_app_or in Hin.
      destruct Hin as [Hin | [<- | []]]; [eauto | exfalso; eapply Hnot; eauto]. }
  destruct (isTraceEventLargestContentfulPaintCandidate x) eqn:Hk.
  2: { (* another kind: the LCP scores and the set are untouched *)
    apply scoreEvent_other in Hrun; [| assumption]. subst s'.
    assert (Hsame : forall f' n',
              scoreAt f' n' LCP (storeAll f n (storedScores nav x) (metricScoresByFrameId s)) =
              scoreAt f' n' LCP (metricScoresByFrameId s)).
    { intros f' n'. apply scoreAt_storeAll_other.
      intros sc Hin. now apply (storedScores_names nav x). }
    cbn [metricScoresByFrameId with_metricScoresByFrameId selectedLCPCandidateEvents].
    split; [now apply uniqueKeys_storeAll |]. split; [| split].
    - intros f' n' sc. rewrite Hsame. intros H.
      destruct (Hsc f' n' sc H) as (e & nv & i & Hin & Hrest).
      exists e, nv, i. split; [apply in_or_app; now left | assumption].
    - intros e. rewrite Hsel. unfold selectedCandidate.
      split; intros (f' & n' & sc & H1 & H2); exists f', n', sc;
        (split; [| assumption]); [now rewrite Hsame | now rewrite <- Hsame].
    - intros e nv f' n' i Hin Hke Hre Hi. apply in_app_or in Hin.
      destruct Hin as [Hin | [<- | []]]; [| congruence].
      destruct (Hmax e nv f' n' i Hin Hke Hre Hi) as (e' & i' & (sc & H1 & H2) & H3).
      exists e', i'. split; [| assumption]. exists sc. now rewrite Hsame. }
  (* an LCP candidate *)
  unfold scoreEvent in Hrun. pose proof Hk as Hk'. revert Hrun. known_kind Hk. intros Hrun.
  destruct (data_field data_candidateIndex x) as [i |] eqn:Hi;
    [| unfold storeLCPCandidate in Hrun; rewrite Hi in Hrun; discriminate].
  destruct (Z.eq_dec i 0) as [-> | Hne];
    [unfold storeLCPCandidate in Hrun; rewrite Hi in Hrun; discriminate |].
  assert (Hstored :
    forall s1,
      s1 = with_metricScoresByFrameId
             (storeMetricScoreInTable f n (candidateScore nav x) (metricScoresByFrameId s))
             s1 ->
      (forall e, In e (selectedLCPCandidateEvents s1) <->
                 e = x \/ (In e (selectedLCPCandidateEvents s) /\
                           ~ selectedCandidate f n (metricScoresByFrameId s) e)) ->
      (forall e' i', selectedCandidate f n (metricScoresByFrameId s) e' ->
                     data_field data_candidateIndex e' = Some i' -> i' <= i) ->
      candidatesInvariant (done ++ [x]) s1).
  { intros s1 Ht Hs1 Hle. rewrite Ht.
    cbn [metricScoresByFrameId with_metricScoresByFrameId selectedLCPCandidateEvents].
    assert (Hat : forall f' n',
              scoreAt f' n' LCP
                (storeMetricScoreInTable f n (candidateScore nav x) (metricScoresByFrameId s)) =
              if String.eqb f' f && String.eqb n' n then Some (candidateScore nav x)
              else scoreAt f' n' LCP (metricScoresByFrameId s)).
    { intros f' n'. rewrite scoreAt_store. cbn [candidateScore metricName MetricName_eqb].
      now rewrite andb_true_r. }
    split; [now apply uniqueKeys_store |]. split; [| split].
    - intros f' n' sc. rewrite Hat.
      destruct (String.eqb_spec f' f) as [-> | Hf]; cbn [andb];
        [destruct (String.eqb_spec n' n) as [-> | Hn] |].
      + intros [= <-]. exists x, nav, i.
        split; [apply in_or_app; right; now left |].
        split; [reflexivity |]. split; [exact Hk' |]. split; [exact Hr |].
        split; assumption.
      + intros H. destruct (Hsc f n' sc H) as (e & nv & j & Hin & Hrest).
        exists e, nv, j. split; [apply in_or_app; now left | assumption].
      + intros H. destruct (Hsc f' n' sc H) as (e & nv & j & Hin & Hrest).
        exists e, nv, j. split; [apply in_or_app; now left | assumption].
    - intros e. rewrite Hs1. unfold selectedCandidate. split.
      + intros [-> | [Hin Hnot]].
        * exists f, n, (candidateScore nav x). rewrite Hat, !String.eqb_refl. now split.
        * apply Hsel in Hin. destruct Hin as (f' & n' & sc & H1 & H2).
          exists f', n', sc. split; [| assumption]. rewrite Hat.
          destruct (String.eqb_spec f' f) as [-> | Hf]; cbn [andb]; [| assumption].
          destruct (String.eqb_spec n' n) as [-> | Hn]; [| assumption].
          exfalso. apply Hnot. now exists sc.
      + intros (f' & n' & sc & H1 & H2). rewrite Hat in H1.
        destruct (String.eqb f' f && String.eqb n' n) eqn:Efn.
        * injection H1 as <-. cbn in H2. injection H2 as <-. now left.
        * right. split; [apply Hsel; exists f', n', sc; now split |].
          intros (sc0 & H3 & H4).
          destruct (Hsc f' n' sc H1) as (e1 & nv1 & j1 & _ & -> & _ & Hr1 & _).
          destruct (Hsc f n sc0 H3) as (e0 & nv0 & j0 & _ & -> & _ & Hr0 & _).
          cbn in H2, H4. assert (e1 = e0) by congruence. subst e1.
          destruct (reachesScoring_functional Hr0 Hr1) as (_ & -> & ->).
          now rewrite !String.eqb_refl in Efn.
    - intros e nv f' n' j Hin Hke Hre Hj. apply in_app_or in Hin.
      destruct Hin as [Hin | [<- | []]].
      + destruct (Hmax e nv f' n' j Hin Hke Hre Hj) as (e' & i' & (sc & H1 & H2) & H3 & H4).
        destruct (String.eqb f' f && String.eqb n' n) eqn:Efn.
        * apply andb_true_iff in Efn. destruct Efn as [Ef En].
          apply String.eqb_eq in Ef, En. subst f' n'.
          exists x, i. split; [| split; [assumption |]].
          -- exists (candidateScore nav x). rewrite Hat, !String.eqb_refl. now split.
          -- specialize (Hle e' i' (ex_intro _ sc (conj H1 H2)) H3). lia.
        * exists e', i'. split; [| now split]. exists sc. now rewrite Hat, Efn.
      + destruct (reachesScoring_functional Hr Hre) as (-> & -> & ->).
        exists x, i. split; [| split; [congruence | ]].
        * exists (candidateScore nav x). rewrite Hat, !String.eqb_refl. now split.
        * assert (j = i) by congruence. lia. }
  destruct (scoreAt f n LCP (metricScoresByFrameId s)) as [last |] eqn:Hlast.
  - destruct (Hsc f n last Hlast) as (e0 & nv0 & i0 & Hin0 & -> & Hk0 & Hr0 & Hi0 & Hne0).
    rewrite (@storeLCPCandidate_next f n nav x e0 s i i0 (candidateScore nv0 e0))
      in Hrun by (try assumption; reflexivity).
    destruct (Z.ltb_spec i0 i) as [Hlt | Hge]; injection Hrun as <-.
    + apply Hstored.
      * reflexivity.
      * intros e. cbn [selectedLCPCandidateEvents with_metricScoresByFrameId
                       with_selectedLCPCandidateEvents].
        rewrite JSSet_add_In, JSSet_delete_In. unfold selectedCandidate.
        rewrite Hlast. split.
        -- intros [-> | [Hneq Hin]]; [now left | right]. split; [assumption |].
           intros (sc & [= <-] & H2). cbn in H2. congruence.
        -- intros [-> | [Hin Hnot]]; [now left | right]. split; [| assumption].
           intros ->. apply Hnot. eexists. split; reflexivity.
      * unfold selectedCandidate. rewrite Hlast. intros e' i' (sc & [= <-] & H2) H3.
        cbn in H2. assert (e' = e0) by congruence. subst e'.
        assert (i' = i0) by congruence. lia.
    + (* discarded *)
      split; [assumption |]. split; [| split; [assumption |]].
      * intros f' n' sc H. destruct (Hsc f' n' sc H) as (e & nv & j & Hin & Hrest).
        exists e, nv, j. split; [apply in_or_app; now left | assumption].
      * intros e nv f' n' j Hin Hke Hre Hj. apply in_app_or in Hin.
        destruct Hin as [Hin | [<- | []]]; [eauto |].
        destruct (reachesScoring_functional Hr Hre) as (-> & -> & ->).
        exists e0, i0. split; [| split; [assumption |]].
        -- exists (candidateScore nv0 e0). now split.
        -- assert (j = i) by congruence. lia.
  - rewrite (@storeLCPCandidate_first f n nav x s i) in Hrun by assumption.
    injection Hrun as <-. apply Hstored.
    + reflexivity.
    + intros e. cbn [selectedLCPCandidateEvents with_metricScoresByFrameId
                     with_selectedLCPCandidateEvents].
      rewrite JSSet_add_In. unfold selectedCandidate. rewrite Hlast. split.
      * intros [-> | Hin]; [now left | right]. split; [assumption |].
        intros (sc & H1 & _). discriminate.
      * intros [-> | [Hin _]]; [now left | now right].
    + unfold selectedCandidate. rewrite Hlast. intros e' i' (sc & H1 & _). discriminate.
Qed.

(** The candidate branch touches the table and the set only, and in the
    table only the LCP score of its frame and navigation. *)
Lemma storeLCPCandidate_normal (f n : string) (nav : TraceEventNavigationStart)
    (x : TraceEventData) (s s' : State) :
  storeLCPCandidate f n nav x s = (Normal tt, s') ->
  exists T S,
    s' = with_metricScoresByFrameId T (with_selectedLCPCandidateEvents S s) /\
    (T = snd (metricsWithDefault f n (metricScoresByFrameId s)) \/
     T = storeMetricScoreInTable f n (candidateScore nav x)
           (snd (metricsWithDefault f n (metricScoresByFrameId s)))).
Proof.
  unfold storeLCPCandidate.
  destruct (data_field data_candidateIndex x) as [i |]; [| discriminate].
  destruct (i =? 0); [discriminate |].
  unfold bind at 1.
  destruct (metricsWithDefault f n (metricScoresByFrameId s)) as [metrics t1].
  cbn [snd].
  destruct (mget LCP metrics) as [last |].
  - destruct (eventOf last) as [e0 |]; [| discriminate].
    destruct (negb (isTraceEventLargestContentfulPaintCandidate e0)).
    { intros [= <-]. exists t1, (selectedLCPCandidateEvents s). split; [| now left].
      destruct s; reflexivity. }
    destruct (data_field data_candidateIndex e0) as [i0 |].
    2: { intros [= <-]. exists t1, (selectedLCPCandidateEvents s). split; [| now left].
         destruct s; reflexivity. }
    destruct (i0 =? 0).
    { intros [= <-]. exists t1, (selectedLCPCandidateEvents s). split; [| now left].
      destruct s; reflexivity. }
    destruct (i0 <? i).
    + intros [= <-]. eexists _, _. split; [| right; reflexivity]. reflexivity.
    + intros [= <-]. exists t1, (selectedLCPCandidateEvents s). split; [| now left].
      destruct s; reflexivity.
  - intros [= <-]. eexists _, _. split; [| right; reflexivity]. reflexivity.
Qed.

Lemma storeLCPCandidate_scoreAt (f n f' n' : string) (nav : TraceEventNavigationStart)
    (x : TraceEventData) (s s' : State) (k : MetricName) :
  storeLCPCandidate f n nav x s = (Normal tt, s') -> k <> LCP ->
  scoreAt f' n' k (metricScoresByFrameId s') = scoreAt f' n' k (metricScoresByFrameId s).
Proof.
  intros Hrun Hk. apply storeLCPCandidate_normal in Hrun.
  destruct Hrun as (T & S & -> & [-> | ->]); cbn [metricScoresByFrameId with_metricScoresByFrameId].
  - apply scoreAt_metricsWithDefault.
  - rewrite scoreAt_store, scoreAt_metricsWithDefault.
    cbn [candidateScore metricName].
    destruct k; try contradiction; cbn [MetricName_eqb]; now rewrite andb_false_r.
Qed.

(** The loops of [finalize] leave the buffer alone. *)
Lemma attribute_buffer (x : TraceEventData) (s s' : State) :
  attributePageLoadEvent x s = (Normal tt, s') ->
  pageLoadEventsArray s' = pageLoadEventsArray s.
Proof.
  intros Hrun. apply attribute_normal in Hrun.
  destruct Hrun as [[-> _] | (nav & f & n & Hr & Hrun)]; [reflexivity |].
  destruct (isTraceEventLargestContentfulPaintCandidate x) eqn:Hk.
  - unfold scoreEvent in Hrun. revert Hrun. known_kind Hk. intros Hrun.
    apply storeLCPCandidate_normal in Hrun. destruct Hrun as (T & S & -> & _). reflexivity.
  - apply scoreEvent_other in Hrun; [| assumption]. now subst.
Qed.

(** ** Estimation of the total blocking time *)

Lemma blockingTimeStep_spec (evs : list RendererEvent) (nds : JSMap.t Z RendererEntryNode)
    (fcpTs tbt v : MicroSeconds) (rootId : Z) :
  blockingTimeStep evs nds fcpTs tbt rootId = Normal v ->
  v = tbt + estimatedBlockingTime fcpTs (rootTasks evs nds [rootId]).
Proof.
  unfold blockingTimeStep, rootTasks, estimatedBlockingTime. cbn [flat_map].
  destruct (zget rootId nds) as [node |]; [| discriminate].
  destruct (array_get evs (eventIndex node)) as [task |]; [| discriminate].
  destruct task as [tn tts | tn tts tdur];
    cbn [app List.map fold_right blockingPortion task_name isTraceEventInstant];
    [rewrite orb_true_r; intros [= <-]; lia |].
  unfold RunTask, LONG_TASK_THRESHOLD, millisecondsToMicroseconds.
  destruct (String.eqb tn "RunTask"); cbn [negb andb orb]; [| intros [= <-]; lia].
  destruct (Z.ltb_spec (tts + tdur) fcpTs); cbn [negb]; [intros [= <-]; lia |].
  intros [= <-].
  destruct (Z.ltb_spec tts fcpTs);
    match goal with |- context [?a >? ?b] => destruct (Z.gtb_spec a b) end; lia.
Qed.

Lemma rootTasks_cons (evs : list RendererEvent) (nds : JSMap.t Z RendererEntryNode)
    (rootId : Z) (rest : list Z) :
  rootTasks evs nds (rootId :: rest) = rootTasks evs nds [rootId] ++ rootTasks evs nds rest.
Proof. unfold rootTasks. cbn [flat_map]. now rewrite app_nil_r. Qed.

Lemma estimatedBlockingTime_app (fcpTs : MicroSeconds) (l1 l2 : list RendererEvent) :
  estimatedBlockingTime fcpTs (l1 ++ l2) =
  estimatedBlockingTime fcpTs l1 + estimatedBlockingTime fcpTs l2.
Proof.
  unfold estimatedBlockingTime. induction l1 as [| t l1 IH]; cbn; [reflexivity |].
  cbn in IH. rewrite IH. lia.
Qed.

(** The loop over the roots computes the sum the specification describes. *)
Lemma blockingTimeLoop_spec (evs : list RendererEvent) (nds : JSMap.t Z RendererEntryNode)
    (fcpTs : MicroSeconds) (rootIds : list Z) (tbt v : MicroSeconds) :
  blockingTimeLoop evs nds fcpTs tbt rootIds = Normal v ->
  v = tbt + estimatedBlockingTime fcpTs (rootTasks evs nds rootIds).
Proof.
  revert tbt. induction rootIds as [| r rest IH]; intros tbt; cbn [blockingTimeLoop].
  - intros [= <-]. cbn. lia.
  - unfold bindC. destruct (blockingTimeStep evs nds fcpTs tbt r) as [v1 | msg] eqn:E;
      [| discriminate].
    intros Hrest. apply IH in Hrest. apply blockingTimeStep_spec in E.
    rewrite rootTasks_cons, estimatedBlockingTime_app. lia.
Qed.

(** A turn of the estimation loop does nothing, or stores an estimate where
    there was an FCP score and no TBT score. *)
Lemma estimate_step (f n : string) (s s' : State) :
  estimateTotalBlockingTime f n s = (Normal tt, s') ->
  s' = s \/
  exists fcp tbt,
    scoreAt f n TBT (metricScoresByFrameId s) = None /\
    scoreAt f n FCP (metricScoresByFrameId s) = Some fcp /\
    estimateFor fcp tbt /\
    s' = with_metricScoresByFrameId
           (storeMetricScoreInTable f n (estimatedTBT tbt (navigation fcp))
              (metricScoresByFrameId s)) s.
Proof.
  unfold estimateTotalBlockingTime, bind at 1, gets, scoreAt.
  destruct (lookupMetrics f n (metricScoresByFrameId s)) as [metrics |];
    [| intros [= <-]; now left].
  destruct (mget TBT metrics) as [tbt0 |]; [intros [= <-]; now left |].
  destruct (mget FCP metrics) as [fcp |]; [| intros [= <-]; now left].
  destruct (event fcp) as [fcpEvent |] eqn:Hev; [| intros [= <-]; now left].
  destruct (zget (pid fcpEvent) (processes rendererHandlerData)) as [renderer |] eqn:Hp;
    [| intros [= <-]; now left].
  destruct (find isMainThread (JSMap.values (threads renderer))) as [mainThread |] eqn:Hm;
    [| discriminate].
  destruct (tree mainThread) as [mainThreadTree |] eqn:Ht; [| discriminate].
  unfold bind, lift.
  destruct (blockingTimeLoop _ _ _ _ _) as [tbt | msg] eqn:Hloop; [| discriminate].
  intros [= <-]. right. exists fcp, tbt. repeat split.
  exists fcpEvent, renderer, mainThread, mainThreadTree. repeat split; try assumption.
  apply blockingTimeLoop_spec in Hloop. lia.
Qed.

Lemma estimates_buffer (s s' : State) :
  estimateTotalBlockingTimes s = (Normal tt, s') ->
  pageLoadEventsArray s' = pageLoadEventsArray s /\
  selectedLCPCandidateEvents s' = selectedLCPCandidateEvents s.
Proof.
  unfold estimateTotalBlockingTimes, bind at 1, gets.
  apply (@forEach_preserves _ _
           (fun s1 => pageLoadEventsArray s1 = pageLoadEventsArray s /\
                      selectedLCPCandidateEvents s1 = selectedLCPCandidateEvents s));
    [| now split].
  intros [f n] s1 s2 _ [H1 H2] Hstep. apply estimate_step in Hstep.
  destruct Hstep as [-> | (fcp & tbt & _ & _ & _ & ->)]; now split.
Qed.

Lemma estimates_candidates (done : list TraceEventData) (s s' : State) :
  candidatesInvariant done s ->
  estimateTotalBlockingTimes s = (Normal tt, s') ->
  candidatesInvariant done s'.
Proof.
  intros Hinv. unfold estimateTotalBlockingTimes, bind at 1, gets.
  apply (@forEach_preserves _ _ (candidatesInvariant done)); [| assumption].
  intros [f n] s1 s2 _ (Hu & Hsc & Hsel & Hmax) Hstep. apply estimate_step in Hstep.
  destruct Hstep as [-> | (fcp & tbt & _ & _ & _ & ->)]; 
    [exact (conj Hu (conj Hsc (conj Hsel Hmax))) |].
  cbn [fst snd metricScoresByFrameId with_metricScoresByFrameId selectedLCPCandidateEvents].
  assert (Hsame : forall f' n',
            scoreAt f' n' LCP
              (storeMetricScoreInTable f n (estimatedTBT tbt (navigation fcp))
                 (metricScoresByFrameId s1)) =
            scoreAt f' n' LCP (metricScoresByFrameId s1)).
  { intros f' n'. rewrite scoreAt_store. cbn. now rewrite andb_false_r. }
  split; [now apply uniqueKeys_store |]. split; [| split].
  - intros f' n' sc. rewrite Hsame. apply Hsc.
  - intros e. rewrite Hsel. unfold selectedCandidate.
    split; intros (f' & n' & sc & H1 & H2); exists f', n', sc;
      (split; [| assumption]); [now rewrite Hsame | now rewrite <- Hsame].
  - intros e nv f' n' i Hin Hke Hre Hi.
    destruct (Hmax e nv f' n' i Hin Hke Hre Hi) as (e' & i' & (sc & H1 & H2) & H3).
    exists e', i'. split; [| assumption]. exists sc. now rewrite Hsame.
Qed.

Lemma filterC_normal (A : Type) (p : A -> Completion bool) (l r : list A) :
  filterC p l = Normal r ->
  r = filter (fun x => match p x with Normal b => b | Throw _ => false end) l /\
  forall x, In x l -> exists b, p x = Normal b.
Proof.
  revert r. induction l as [| x l IH]; intros r; cbn [filterC filter].
  - intros [= <-]. split; [reflexivity | intros x []].
  - unfold bindC. destruct (p x) as [b | msg] eqn:E; [| discriminate].
    destruct (filterC p l) as [rest | msg]; [| discriminate].
    intros [= <-]. destruct (IH rest eq_refl) as [-> Hall]. split; [reflexivity |].
    intros y [<- | Hin]; eauto.
Qed.

(** The steps of a [finalize] that returns. *)
Lemma finalize_normal (s s' : State) :
  finalize s = (Normal tt, s') ->
  exists s1 s2 mainFrameEvents,
    forEach attributePageLoadEvent (sortByTs (pageLoadEventsArray s))
      (with_pageLoadEventsArray (sortByTs (pageLoadEventsArray s)) s) = (Normal tt, s1) /\
    estimateTotalBlockingTimes s1 = (Normal tt, s2) /\
    pageLoadEventsArray s2 = sortByTs (pageLoadEventsArray s) /\
    filterC (fun event =>
               bindC (getFrameIdForPageLoadEvent event) (fun frameId =>
               Normal (String.eqb frameId (mainFrameId metaHandlerData))))
            (filter isTraceEventMarkerEvent
               (gatherFinalLCPEvents (metricScoresByFrameId s2) ++
                filter (fun event => negb (isTraceEventLargestContentfulPaintCandidate event))
                       (pageLoadEventsArray s2))) = Normal mainFrameEvents /\
    s' = with_allMarkerEvents (sortByTs mainFrameEvents) s2.
Proof.
  unfold finalize. intros Hrun.
  apply bind_normal in Hrun. destruct Hrun as ([] & s0 & H0 & Hrun).
  unfold modify in H0. injection H0 as <-.
  apply bind_normal in Hrun. destruct Hrun as (evs & s0' & H0 & Hrun).
  unfold gets in H0. injection H0 as <- <-.
  cbn [pageLoadEventsArray with_pageLoadEventsArray] in Hrun.
  apply bind_normal in Hrun. destruct Hrun as ([] & s1 & H1 & Hrun).
  apply bind_normal in Hrun. destruct Hrun as ([] & s2 & H2 & Hrun).
  apply bind_normal in Hrun. destruct Hrun as (lcps & s2' & H3 & Hrun).
  unfold gets in H3. injection H3 as <- <-.
  apply bind_normal in Hrun. destruct Hrun as (evs2 & s2' & H3 & Hrun).
  unfold gets in H3. injection H3 as <- <-.
  apply bind_normal in Hrun. destruct Hrun as (mains & s2' & H3 & Hrun).
  unfold lift in H3. injection H3 as H3 <-.
  unfold modify in Hrun. injection Hrun as <-.
  exists s1, s2, mains. repeat split; try assumption.
  destruct (estimates_buffer _ H2) as [-> _].
  assert (Hb : pageLoadEventsArray s1 =
               pageLoadEventsArray
                 (with_pageLoadEventsArray (sortByTs (pageLoadEventsArray s)) s)).
  { revert H1. apply (@forEach_preserves _ attributePageLoadEvent
             (fun s1 => pageLoadEventsArray s1 =
                        pageLoadEventsArray
                          (with_pageLoadEventsArray (sortByTs (pageLoadEventsArray s)) s)));
      [| reflexivity].
    intros x sa sb _ Ha Hstep. rewrite <- Ha. now apply attribute_buffer with (x := x). }
  rewrite Hb. reflexivity.
Qed.

Lemma candidatesInvariant_fresh (s : State) :
  metricScoresByFrameId s = [] -> selectedLCPCandidateEvents s = [] ->
  candidatesInvariant [] s.
Proof.
  intros Ht Hs. unfold candidatesInvariant, selectedCandidate. rewrite Ht, Hs.
  split; [apply uniqueKeys_nil |]. split; [| split].
  - intros f n sc H. discriminate.
  - intros e. split; [intros [] | intros (f & n & sc & H & _); discriminate].
  - intros e nav f n i [].
Qed.

(** After a [finalize] that returns, the LCP scores and the set of selected
    candidates are as the invariant says, for the whole buffer. *)
Lemma finalize_candidates (s s' : State) :
  metricScoresByFrameId s = [] -> selectedLCPCandidateEvents s = [] ->
  finalize s = (Normal tt, s') ->
  candidatesInvariant (sortByTs (pageLoadEventsArray s)) s'.
Proof.
  intros Ht Hs Hrun. apply finalize_normal in Hrun.
  destruct Hrun as (s1 & s2 & mains & Hloop & Hest & _ & _ & ->).
  assert (H1 : candidatesInvariant (sortByTs (pageLoadEventsArray s)) s1).
  { revert Hloop. apply forEach_invariant.
    - intros done x sa sb _. apply candidatesInvariant_step.
    - now apply candidatesInvariant_fresh. }
  pose proof (estimates_candidates H1 Hest) as H2.
  exact H2.
Qed.

(** C2: an LCP candidate is stored when its frame and navigation have no
    LCP score yet; when they have one, the new candidate replaces it, in
    the table and in the set of selected candidates, exactly when its
    candidate index is strictly greater, and is discarded otherwise.  So
    after [finalize] the set holds exactly the events of the LCP scores of
    the table, each a buffered candidate of its frame and navigation whose
    index no buffered candidate of that frame and navigation exceeds; with
    candidates of indices 1, 2 and 3 for one navigation the stored LCP
    score is that of the candidate of index 3, the only member of the set. *)
Theorem C2_lcp_candidate_selection :
  (forall f n nav e s i,
     data_field data_candidateIndex e = Some i -> i <> 0 ->
     scoreAt f n LCP (metricScoresByFrameId s) = None ->
     storeLCPCandidate f n nav e s =
     (Normal tt,
      with_metricScoresByFrameId
        (storeMetricScoreInTable f n (candidateScore nav e) (metricScoresByFrameId s))
        (with_selectedLCPCandidateEvents
           (JSSet.add TraceEventData_eqb e (selectedLCPCandidateEvents s)) s))) /\
  (forall f n nav e e0 s i i0 last,
     data_field data_candidateIndex e = Some i -> i <> 0 ->
     scoreAt f n LCP (metricScoresByFrameId s) = Some last ->
     event last = Some e0 ->
     isTraceEventLargestContentfulPaintCandidate e0 = true ->
     data_field data_candidateIndex e0 = Some i0 -> i0 <> 0 ->
     storeLCPCandidate f n nav e s =
     if i0 <? i then
       (Normal tt,
        with_metricScoresByFrameId
          (storeMetricScoreInTable f n (candidateScore nav e) (metricScoresByFrameId s))
          (with_selectedLCPCandidateEvents
             (JSSet.add TraceEventData_eqb e
                (JSSet.delete TraceEventData_eqb e0 (selectedLCPCandidateEvents s))) s))
     else (Normal tt, s)) /\
  (forall s s',
     metricScoresByFrameId s = [] -> selectedLCPCandidateEvents s = [] ->
     finalize s = (Normal tt, s') ->
     (forall e,
        In e (selectedLCPCandidateEvents s') <->
        exists f n, selectedCandidate f n (metricScoresByFrameId s') e) /\
     (forall e,
        In e (selectedLCPCandidateEvents s') <->
        In e (gatherFinalLCPEvents (metricScoresByFrameId s'))) /\
     (forall f n e,
        selectedCandidate f n (metricScoresByFrameId s') e ->
        In e (pageLoadEventsArray s) /\
        isTraceEventLargestContentfulPaintCandidate e = true /\
        exists nav, reachesScoring e nav f n) /\
     (forall e nav f n i,
        In e (pageLoadEventsArray s) ->
        isTraceEventLargestContentfulPaintCandidate e = true ->
        reachesScoring e nav f n -> data_field data_candidateIndex e = Some i ->
        exists e' i',
          selectedCandidate f n (metricScoresByFrameId s') e' /\
          data_field data_candidateIndex e' = Some i' /\ i <= i')) /\
  (forall s s' e1 e2 e3 nav1 nav2 nav3 f n,
     metricScoresByFrameId s = [] -> selectedLCPCandidateEvents s = [] ->
     Permutation (pageLoadEventsArray s) [e1; e2; e3] ->
     isTraceEventLargestContentfulPaintCandidate e1 = true ->
     isTraceEventLargestContentfulPaintCandidate e2 = true ->
     isTraceEventLargestContentfulPaintCandidate e3 = true ->
     reachesScoring e1 nav1 f n -> reachesScoring e2 nav2 f n ->
     reachesScoring e3 nav3 f n ->
     data_field data_candidateIndex e1 = Some 1 ->
     data_field data_candidateIndex e2 = Some 2 ->
     data_field data_candidateIndex e3 = Some 3 ->
     finalize s = (Normal tt, s') ->
     scoreAt f n LCP (metricScoresByFrameId s') = Some (candidateScore nav3 e3) /\
     (forall e, In e (selectedLCPCandidateEvents s') <-> e = e3)).
Proof.
  split; [| split; [| split]].
  - intros f n nav e s i Hi Hne Hnone. now apply storeLCPCandidate_first with (i := i).
  - intros f n nav e e0 s i i0 last Hi Hne Hlast He0 Hk0 Hi0 Hne0.
    now apply storeLCPCandidate_next with (last := last).
  - intros s s' Ht Hs Hrun.
    destruct (@finalize_candidates s s' Ht Hs Hrun) as (Hu & Hsc & Hsel & Hmax).
    split; [assumption |]. split; [| split].
    + intros e. rewrite Hsel, (gatherFinalLCPEvents_In e Hu). unfold selectedCandidate.
      split; intros (f & n & sc & H); eauto.
    + intros f n e (sc & H1 & H2).
      destruct (Hsc f n sc H1) as (e0 & nv & i & Hin & -> & Hk & Hr & _).
      cbn in H2. injection H2 as <-. apply (proj1 (sortByTs_In _ _)) in Hin.
      split; [assumption |]. split; [assumption |]. now exists nv.
    + intros e nav f n i Hin. apply Hmax. now apply sortByTs_In.
  - intros s s' e1 e2 e3 nav1 nav2 nav3 f n Ht Hs Hperm Hk1 Hk2 Hk3 Hr1 Hr2 Hr3
      Hi1 Hi2 Hi3 Hrun.
    destruct (@finalize_candidates s s' Ht Hs Hrun) as (Hu & Hsc & Hsel & Hmax).
    assert (Hbuf : forall e, In e (sortByTs (pageLoadEventsArray s)) ->
                             e = e1 \/ e = e2 \/ e = e3).
    { intros e Hin. apply (proj1 (sortByTs_In _ _)) in Hin.
      apply (Permutation_in _ Hperm) in Hin. cbn in Hin. intuition congruence. }
    assert (Hin3 : In e3 (sortByTs (pageLoadEventsArray s))).
    { apply sortByTs_In. apply (Permutation_in _ (Permutation_sym Hperm)).
      cbn. tauto. }
    assert (Hstored : scoreAt f n LCP (metricScoresByFrameId s') =
                      Some (candidateScore nav3 e3)).
    { destruct (Hmax e3 nav3 f n 3 Hin3 Hk3 Hr3 Hi3) as (e' & i' & (sc & H1 & H2) & H3 & H4).
      destruct (Hsc f n sc H1) as (e0 & nv & i & Hin & -> & _ & Hr & _).
      cbn in H2. injection H2 as ->.
      destruct (Hbuf e' Hin) as [-> | [-> | ->]];
        [assert (i' = 1) by congruence; lia | assert (i' = 2) by congruence; lia |].
      destruct (reachesScoring_functional Hr3 Hr) as (-> & _). assumption. }
    split; [assumption |].
    intros e. rewrite Hsel. unfold selectedCandidate. split.
    + intros (f' & n' & sc & H1 & H2).
      destruct (Hsc f' n' sc H1) as (e0 & nv & i & Hin & -> & _ & Hr & _).
      cbn in H2. injection H2 as ->.
      assert (Hfn : f' = f /\ n' = n).
      { destruct (Hbuf e Hin) as [-> | [-> | ->]].
        - destruct (reachesScoring_functional Hr1 Hr) as (_ & -> & ->). now split.
        - destruct (reachesScoring_functional Hr2 Hr) as (_ & -> & ->). now split.
        - destruct (reachesScoring_functional Hr3 Hr) as (_ & -> & ->). now split. }
      destruct Hfn as [-> ->]. rewrite Hstored in H1. now injection H1.
    + intros ->. exists f, n, (candidateScore nav3 e3). now split.
Qed.

(** ** Marker assembly *)

Lemma insertByTs_sorted (e : TraceEventData) (l : list TraceEventData) :
  ascendingByTs l -> ascendingByTs (insertByTs e l).
Proof.
  unfold ascendingByTs. induction l as [| x l IH]; intros Hs; cbn [insertByTs].
  - constructor; constructor.
  - inversion Hs as [| ? ? Hs' Hall]; subst.
    destruct (Z.leb_spec (ts e) (ts x)) as [Hle | Hgt].
    + constructor; [assumption |]. constructor; [assumption |].
      eapply Forall_impl; [| exact Hall]. intros y Hy. cbn in Hy. lia.
    + constructor; [now apply IH |].
      apply Forall_forall. intros y Hin.
      apply (Permutation_in _ (insertByTs_perm e l)) in Hin.
      destruct Hin as [<- | Hin]; [lia |].
      now apply (proj1 (Forall_forall _ l) Hall).
Qed.

Lemma sortByTs_sorted (l : list TraceEventData) : ascendingByTs (sortByTs l).
Proof.
  induction l as [| x l IH]; cbn [sortByTs fold_right]; [constructor |].
  now apply insertByTs_sorted.
Qed.

Lemma filter_perm (A : Type) (p : A -> bool) (l l' : list A) :
  Permutation l l' -> Permutation (filter p l) (filter p l').
Proof.
  induction 1 as [| x l l' Hp IH | x y l | l l' l'' H1 IH1 H2 IH2]; cbn [filter].
  - constructor.
  - destruct (p x); [now constructor | assumption].
  - destruct (p x), (p y); try reflexivity. apply perm_swap.
  - now transitivity (filter p l').
Qed.

Lemma filter_filter (A : Type) (p q : A -> bool) (l : list A) :
  filter p (filter q l) = filter (fun x => p x && q x) l.
Proof.
  induction l as [| x l IH]; cbn [filter]; [reflexivity |].
  destruct (q x); cbn [filter]; rewrite ?andb_true_r, ?andb_false_r;
    [destruct (p x) |]; now rewrite IH.
Qed.

Lemma filter_id (A : Type) (p : A -> bool) (l : list A) :
  (forall x, In x l -> p x = true) -> filter p l = l.
Proof.
  intros H. apply forallb_filter_id. apply forallb_forall. exact H.
Qed.

Lemma LCP_is_marker (e : TraceEventData) :
  isTraceEventLargestContentfulPaintCandidate e = true -> isTraceEventMarkerEvent e = true.
Proof.
  intros H. unfold isTraceEventMarkerEvent, markerTypeGuards. cbn [existsb].
  rewrite H. now rewrite !orb_true_r.
Qed.

Lemma InteractiveTime_not_marker (e : TraceEventData) :
  isTraceEventMarkerEvent e = true -> isTraceEventInteractiveTime e = false.
Proof using.
  clear.
  intros H. apply isTraceEventMarkerEvent_names in H.
  unfold isTraceEventInteractiveTime. apply String.eqb_neq. intros Hn.
  rewrite Hn in H. cbn in H. intuition discriminate.
Qed.

Lemma inMainFrame_true (e : TraceEventData) :
  inMainFrame e = true <->
  getFrameIdForPageLoadEvent e = Normal (mainFrameId metaHandlerData).
Proof.
  unfold inMainFrame. destruct (getFrameIdForPageLoadEvent e) as [f | msg].
  - rewrite String.eqb_eq. split; congruence.
  - split; discriminate.
Qed.

(** The marker list that a returning [finalize] stores. *)
Lemma finalize_markers (s s' : State) :
  metricScoresByFrameId s = [] -> selectedLCPCandidateEvents s = [] ->
  finalize s = (Normal tt, s') ->
  allMarkerEvents s' =
  sortByTs (filter inMainFrame
              (gatherFinalLCPEvents (metricScoresByFrameId s') ++
               markersButLCP (sortByTs (pageLoadEventsArray s)))).
Proof.
  intros Ht Hs Hrun.
  destruct (@finalize_candidates s s' Ht Hs Hrun) as (Hu & Hsc & _ & _).
  apply finalize_normal in Hrun.
  destruct Hrun as (s1 & s2 & mains & _ & _ & Hbuf & Hfilter & ->).
  cbn [allMarkerEvents with_allMarkerEvents metricScoresByFrameId] in *.
  apply filterC_normal in Hfilter. destruct Hfilter as [-> _]. f_equal.
  rewrite Hbuf, filter_app.
  rewrite (@filter_id _ isTraceEventMarkerEvent (gatherFinalLCPEvents _)).
  - unfold markersButLCP. rewrite filter_filter.
    apply filter_ext. intros e. unfold inMainFrame, bindC.
    now destruct (getFrameIdForPageLoadEvent e).
  - intros e Hin. apply (gatherFinalLCPEvents_In e Hu) in Hin.
    destruct Hin as (f & n & sc & H1 & H2).
    destruct (Hsc f n sc H1) as (e0 & nv & i & _ & -> & Hk & _).
    cbn in H2. injection H2 as <-. now apply LCP_is_marker.
Qed.

(** The marker sequence after [finalize], in terms of the events that
    [gatherFinalLCPEvents] reads from the table. *)
Lemma finalize_marker_assembly (s s' : State) :
  metricScoresByFrameId s = [] -> selectedLCPCandidateEvents s = [] ->
  finalize s = (Normal tt, s') ->
  let finalLCPEvents := gatherFinalLCPEvents (metricScoresByFrameId s') in
  allMarkerEvents s' =
    sortByTs (filter inMainFrame
                (finalLCPEvents ++ markersButLCP (sortByTs (pageLoadEventsArray s)))) /\
  Permutation (allMarkerEvents s')
    (filter inMainFrame (finalLCPEvents ++ markersButLCP (pageLoadEventsArray s))) /\
  ascendingByTs (allMarkerEvents s') /\
  (forall e,
     In e (allMarkerEvents s') <->
     (In e finalLCPEvents \/
      (In e (pageLoadEventsArray s) /\ isTraceEventMarkerEvent e = true /\
       isTraceEventLargestContentfulPaintCandidate e = false)) /\
     getFrameIdForPageLoadEvent e = Normal (mainFrameId metaHandlerData)) /\
  (forall e,
     In e (allMarkerEvents s') ->
     isTraceEventLargestContentfulPaintCandidate e = true ->
     In e (selectedLCPCandidateEvents s') /\ In e finalLCPEvents) /\
  (forall e, In e (allMarkerEvents s') -> isTraceEventInteractiveTime e = false) /\
  (forall e,
     In e (allMarkerEvents s') ->
     getFrameIdForPageLoadEvent e = Normal (mainFrameId metaHandlerData)).
Proof.
  intros Ht Hs Hrun finalLCPEvents.
  pose proof (@finalize_markers s s' Ht Hs Hrun) as Hm. fold finalLCPEvents in Hm.
  destruct (@finalize_candidates s s' Ht Hs Hrun) as (Hu & Hsc & Hsel & _).
  assert (Hperm : Permutation (allMarkerEvents s')
            (filter inMainFrame (finalLCPEvents ++ markersButLCP (pageLoadEventsArray s)))).
  { rewrite Hm, sortByTs_perm. apply filter_perm, Permutation_app_head.
    unfold markersButLCP. apply filter_perm, sortByTs_perm. }
  assert (Hin : forall e,
     In e (allMarkerEvents s') <->
     (In e finalLCPEvents \/
      (In e (pageLoadEventsArray s) /\ isTraceEventMarkerEvent e = true /\
       isTraceEventLargestContentfulPaintCandidate e = false)) /\
     getFrameIdForPageLoadEvent e = Normal (mainFrameId metaHandlerData)).
  { intros e. split.
    - intros H. apply (Permutation_in _ Hperm) in H.
      apply filter_In in H. destruct H as [H Hmain].
      split; [| now apply inMainFrame_true].
      apply in_app_or in H. destruct H as [H | H]; [now left | right].
      unfold markersButLCP in H. apply filter_In in H. destruct H as [H Hk].
      apply andb_true_iff in Hk. destruct Hk as [Hk1 Hk2].
      apply negb_true_iff in Hk2. auto.
    - intros [H Hmain]. apply (Permutation_in _ (Permutation_sym Hperm)).
      apply filter_In. split; [| now apply inMainFrame_true].
      apply in_or_app. destruct H as [H | (H & Hk1 & Hk2)]; [now left | right].
      unfold markersButLCP. apply filter_In. split; [assumption |].
      now rewrite Hk1, Hk2. }
  split; [assumption |]. split; [assumption |].
  split; [rewrite Hm; apply sortByTs_sorted |].
  split; [assumption |]. split; [| split].
  - intros e He Hk. apply Hin in He. destruct He as [[He | (_ & _ & Hn)] _]; [| congruence].
    split; [| assumption]. apply Hsel.
    apply (gatherFinalLCPEvents_In e Hu) in He. destruct He as (f & n & sc & H1 & H2).
    exists f, n, sc. now split.
  - intros e He. apply Hin in He. destruct He as [[He | (_ & Hk & _)] _].
    + apply (gatherFinalLCPEvents_In e Hu) in He. destruct He as (f & n & sc & H1 & H2).
      destruct (Hsc f n sc H1) as (e0 & nv & i & _ & -> & Hk & _).
      cbn in H2. injection H2 as <-.
      now apply InteractiveTime_not_marker, LCP_is_marker.
    + now apply InteractiveTime_not_marker.
  - intros e He. now apply Hin in He.
Qed.

(** ** Total blocking time: reported or estimated *)

Lemma scoreAt_TBT_stored (f n f' n' : string) (nav : TraceEventNavigationStart)
    (x : TraceEventData) (t : MetricTable) :
  scoreAt f' n' TBT (storeAll f n (storedScores nav x) t) =
  if isTraceEventInteractiveTime x && (String.eqb f' f && String.eqb n' n)
  then Some (reportedTBT nav x) else scoreAt f' n' TBT t.
Proof.
  destruct (isTraceEventInteractiveTime x) eqn:Hk; cbn [andb].
  - unfold storedScores. known_kind Hk.
    unfold storeAll. cbn [fold_left]. rewrite !scoreAt_store.
    cbn [reportedTBT elapsedScore metricName MetricName_eqb].
    rewrite andb_true_r, andb_false_r. reflexivity.
  - apply scoreAt_storeAll_other. intros sc Hin Hname.
    destruct (storedScores_names nav x sc Hin) as [_ H]. destruct (H Hname). congruence.
Qed.

Lemma authoritativeTBT_more (done : list TraceEventData) (x : TraceEventData)
    (f n : string) (sc : MetricScore) :
  authoritativeTBT done f n sc -> authoritativeTBT (done ++ [x]) f n sc.
Proof.
  intros (e & nav & Hin & H). exists e, nav. split; [apply in_or_app; now left | assumption].
Qed.

Lemma reportedInvariant_step (done : list TraceEventData) (x : TraceEventData)
    (s s' : State) :
  reportedInvariant done s ->
  attributePageLoadEvent x s = (Normal tt, s') ->
  reportedInvariant (done ++ [x]) s'.
Proof.
  intros (Hsc & Hres) Hrun.
  assert (Hsplit : forall f n,
            interactiveTimeResolved (done ++ [x]) f n ->
            interactiveTimeResolved done f n \/
            (isTraceEventInteractiveTime x = true /\ exists nav, reachesScoring x nav f n)).
  { intros f n (e & nav & Hin & Hk & Hr). apply in_app_or in Hin.
    destruct Hin as [Hin | [<- | []]]; [left; now exists e, nav | right; eauto]. }
  apply attribute_normal in Hrun.
  destruct Hrun as [[-> Hnot] | (nav & f & n & Hr & Hrun)].
  { split.
    - intros f n sc H. apply authoritativeTBT_more. now apply Hsc.
    - intros f n H. destruct (Hsplit f n H) as [H' | (_ & nv & Hr)]; [now apply Hres |].
      exfalso. eapply Hnot; eauto. }
  destruct (isTraceEventLargestContentfulPaintCandidate x) eqn:Hk.
  - assert (Hnot : isTraceEventInteractiveTime x = false).
    { apply InteractiveTime_not_marker. now apply LCP_is_marker. }
    unfold scoreEvent in Hrun. revert Hrun. pose proof Hk as Hk'. known_kind Hk'.
    intros Hrun.
    assert (Hsame : forall f' n',
              scoreAt f' n' TBT (metricScoresByFrameId s') =
              scoreAt f' n' TBT (metricScoresByFrameId s)).
    { intros f' n'. apply storeLCPCandidate_scoreAt with (f := f) (n := n) (nav := nav) (x := x);
        [assumption | discriminate]. }
    split.
    + intros f' n' sc. rewrite Hsame. intros H. apply authoritativeTBT_more. now apply Hsc.
    + intros f' n' H. rewrite Hsame.
      destruct (Hsplit f' n' H) as [H' | (Hkx & _)]; [now apply Hres | congruence].
  - apply scoreEvent_other in Hrun; [| assumption]. subst s'.
    split; cbn [metricScoresByFrameId with_metricScoresByFrameId].
    + intros f' n' sc. rewrite scoreAt_TBT_stored.
      destruct (isTraceEventInteractiveTime x && (String.eqb f' f && String.eqb n' n)) eqn:E.
      * intros [= <-]. apply andb_true_iff in E. destruct E as [Hkx E].
        apply andb_true_iff in E. destruct E as [Ef En].
        apply String.eqb_eq in Ef, En. subst f' n'.
        exists x, nav. split; [apply in_or_app; right; now left |].
        split; [assumption |]. split; [assumption | reflexivity].
      * intros H. apply authoritativeTBT_more. now apply Hsc.
    + intros f' n' H. rewrite scoreAt_TBT_stored.
      destruct (isTraceEventInteractiveTime x && (String.eqb f' f && String.eqb n' n)) eqn:E;
        [discriminate |].
      destruct (Hsplit f' n' H) as [H' | (Hkx & nv & Hr')]; [now apply Hres |].
      destruct (reachesScoring_functional Hr Hr') as (_ & -> & ->).
      now rewrite Hkx, !String.eqb_refl in E.
Qed.

Lemma blockingTimeInvariant_step (l : list TraceEventData) (f n : string) (s s' : State) :
  blockingTimeInvariant l s ->
  estimateTotalBlockingTime f n s = (Normal tt, s') ->
  blockingTimeInvariant l s'.
Proof.
  intros (Hsc & Hres) Hstep. apply estimate_step in Hstep.
  destruct Hstep as [-> | (fcp & tbt & Hnone & Hfcp & Hest & ->)]; [now split |].
  assert (Hfcp' : forall f' n',
            scoreAt f' n' FCP
              (storeMetricScoreInTable f n (estimatedTBT tbt (navigation fcp))
                 (metricScoresByFrameId s)) =
            scoreAt f' n' FCP (metricScoresByFrameId s)).
  { intros f' n'. rewrite scoreAt_store. cbn. now rewrite andb_false_r. }
  assert (Htbt : forall f' n',
            scoreAt f' n' TBT
              (storeMetricScoreInTable f n (estimatedTBT tbt (navigation fcp))
                 (metricScoresByFrameId s)) =
            if String.eqb f' f && String.eqb n' n
            then Some (estimatedTBT tbt (navigation fcp))
            else scoreAt f' n' TBT (metricScoresByFrameId s)).
  { intros f' n'. rewrite scoreAt_store. cbn. now rewrite andb_true_r. }
  split; cbn [metricScoresByFrameId with_metricScoresByFrameId].
  - intros f' n' sc. rewrite Htbt.
    destruct (String.eqb f' f && String.eqb n' n) eqn:E.
    + apply andb_true_iff in E. destruct E as [Ef En].
      apply String.eqb_eq in Ef, En. subst f' n'.
      intros [= <-]. right. split.
      * intros H. now apply Hres in H.
      * exists fcp, tbt. rewrite Hfcp'. now repeat split.
    + intros H. destruct (Hsc f' n' sc H) as [Ha | (Hno & fcp' & tbt' & H1 & H2 & H3)];
        [now left | right].
      split; [assumption |]. exists fcp', tbt'. rewrite Hfcp'. now repeat split.
  - intros f' n' H. rewrite Htbt.
    destruct (String.eqb f' f && String.eqb n' n); [discriminate | now apply Hres].
Qed.

(** After a [finalize] that returns from an empty table, every TBT score
    was reported by an InteractiveTime event of the buffer or estimated. *)
Lemma finalize_blockingTime (s s' : State) :
  metricScoresByFrameId s = [] ->
  finalize s = (Normal tt, s') ->
  blockingTimeInvariant (pageLoadEventsArray s) s'.
Proof.
  intros Ht Hrun. apply finalize_normal in Hrun.
  destruct Hrun as (s1 & s2 & mains & Hloop & Hest & _ & _ & ->).
  assert (H1 : reportedInvariant (sortByTs (pageLoadEventsArray s)) s1).
  { revert Hloop. apply forEach_invariant.
    - intros done x sa sb _. apply reportedInvariant_step.
    - split.
      + intros f n sc. cbn [metricScoresByFrameId with_pageLoadEventsArray].
        rewrite Ht. discriminate.
      + intros f n (e & nav & [] & _). }
  assert (H2 : blockingTimeInvariant (sortByTs (pageLoadEventsArray s)) s2).
  { revert Hest. unfold estimateTotalBlockingTimes, bind at 1, gets.
    apply forEach_preserves.
    - intros [f n] sa sb _. apply blockingTimeInvariant_step.
    - destruct H1 as [Ha Hb]. split; [| assumption]. intros f n sc H. left. now apply Ha. }
  destruct H2 as [Ha Hb].
  assert (Hauth : forall f n sc,
            authoritativeTBT (sortByTs (pageLoadEventsArray s)) f n sc ->
            authoritativeTBT (pageLoadEventsArray s) f n sc).
  { intros f n sc (e & nav & Hin & H). exists e, nav.
    split; [now apply (proj1 (sortByTs_In _ _)) | assumption]. }
  assert (Hres : forall f n,
            interactiveTimeResolved (pageLoadEventsArray s) f n <->
            interactiveTimeResolved (sortByTs (pageLoadEventsArray s)) f n).
  { intros f n. split; intros (e & nav & Hin & H); exists e, nav;
      (split; [now apply sortByTs_In | assumption]). }
  split; cbn [metricScoresByFrameId with_allMarkerEvents].
  - intros f n sc H. destruct (Ha f n sc H) as [H' | [Hno H']]; [left; now apply Hauth |].
    right. split; [now rewrite Hres | assumption].
  - intros f n H. apply Hb. now apply Hres.
Qed.

Lemma estimate_step_settles (f n : string) (s s' : State) :
  estimateTotalBlockingTime f n s = (Normal tt, s') -> estimationSettled f n s'.
Proof.
  unfold estimationSettled, estimateTotalBlockingTime, bind at 1, gets, scoreAt.
  destruct (lookupMetrics f n (metricScoresByFrameId s)) as [metrics |] eqn:Hm.
  2: { intros [= <-]. right. rewrite Hm. discriminate. }
  destruct (mget TBT metrics) as [tbt0 |] eqn:Htbt.
  { intros [= <-]. left. rewrite Hm, Htbt. discriminate. }
  destruct (mget FCP metrics) as [fcp |] eqn:Hfcp.
  2: { intros [= <-]. right. rewrite Hm, Hfcp. discriminate. }
  destruct (event fcp) as [fcpEvent |] eqn:Hev.
  2: { intros [= <-]. right. rewrite Hm, Hfcp.
       intros fcp' tbt [= <-] (e & r & mt & tr & He & _). congruence. }
  destruct (zget (pid fcpEvent) (processes rendererHandlerData)) as [renderer |] eqn:Hp.
  2: { intros [= <-]. right. rewrite Hm, Hfcp.
       intros fcp' tbt [= <-] (e & r & mt & tr & He & Hr & _).
       rewrite Hev in He. injection He as <-. congruence. }
  destruct (find isMainThread (JSMap.values (threads renderer))) as [mainThread |];
    [| discriminate].
  destruct (tree mainThread) as [mainThreadTree |]; [| discriminate].
  unfold bind, lift.
  destruct (blockingTimeLoop _ _ _ _ _) as [tbt | msg]; [| discriminate].
  unfold storeMetricScore, modify. intros [= <-]. left.
  cbn [metricScoresByFrameId with_metricScoresByFrameId].
  fold (scoreAt f n TBT
          (storeMetricScoreInTable f n (estimatedTBT tbt (navigation fcp))
             (metricScoresByFrameId s))).
  rewrite scoreAt_store. cbn. rewrite !String.eqb_refl. discriminate.
Qed.

Lemma estimationSettled_step (f n f' n' : string) (s s' : State) :
  estimationSettled f' n' s ->
  estimateTotalBlockingTime f n s = (Normal tt, s') ->
  estimationSettled f' n' s'.
Proof.
  intros Hset Hstep. apply estimate_step in Hstep.
  destruct Hstep as [-> | (fcp & tbt & _ & _ & _ & ->)]; [assumption |].
  unfold estimationSettled in *. cbn [metricScoresByFrameId with_metricScoresByFrameId].
  rewrite !scoreAt_store. cbn [estimatedTBT metricName MetricName_eqb].
  rewrite andb_true_r, andb_false_r.
  destruct (String.eqb f' f && String.eqb n' n); [left; discriminate | assumption].
Qed.

Lemma navigationKeys_In (f n : string) (m : Metrics) (t : MetricTable) :
  lookupMetrics f n t = Some m -> In (f, n) (navigationKeys t).
Proof.
  unfold lookupMetrics, navigationKeys. intros H.
  destruct (sget f t) as [byNav |] eqn:Ef; [| discriminate].
  apply sget_In in Ef, H. apply in_flat_map. exists (f, byNav). split; [assumption |].
  cbn [fst snd]. apply in_map_iff. exists (n, m). now split.
Qed.

(** The estimation loop settles every frame and navigation of the table. *)
Lemma estimates_settle (s s' : State) (f n : string) (m : Metrics) :
  estimateTotalBlockingTimes s = (Normal tt, s') ->
  lookupMetrics f n (metricScoresByFrameId s) = Some m ->
  estimationSettled f n s'.
Proof.
  unfold estimateTotalBlockingTimes, bind at 1, gets. intros Hrun Hm.
  apply navigationKeys_In in Hm.
  assert (H : forall key, In key (navigationKeys (metricScoresByFrameId s)) ->
                          estimationSettled (fst key) (snd key) s').
  { revert Hrun.
    apply (@forEach_invariant _ _
             (fun done st => forall key, In key done ->
                                         estimationSettled (fst key) (snd key) st)).
    - intros done key sa sb _ Hdone Hstep key' Hin. apply in_app_or in Hin.
      destruct Hin as [Hin | [<- | []]].
      + eapply estimationSettled_step; [now apply Hdone | exact Hstep].
      + now apply estimate_step_settles with (s := sa).
    - intros key []. }
  exact (H (f, n) Hm).
Qed.

Lemma estimates_FCP (s s' : State) (f n : string) :
  estimateTotalBlockingTimes s = (Normal tt, s') ->
  scoreAt f n FCP (metricScoresByFrameId s') = scoreAt f n FCP (metricScoresByFrameId s).
Proof.
  unfold estimateTotalBlockingTimes, bind at 1, gets.
  apply (@forEach_preserves _ _
           (fun st => scoreAt f n FCP (metricScoresByFrameId st) =
                      scoreAt f n FCP (metricScoresByFrameId s))); [| reflexivity].
  intros [f' n'] sa sb _ Ha Hstep. apply estimate_step in Hstep.
  destruct Hstep as [-> | (fcp & tbt & _ & _ & _ & ->)]; [assumption |].
  cbn [metricScoresByFrameId with_metricScoresByFrameId].
  rewrite scoreAt_store. cbn. now rewrite andb_false_r.
Qed.

Lemma estimateFor_functional (fcp : MetricScore) (tbt tbt' : MicroSeconds) :
  estimateFor fcp tbt -> estimateFor fcp tbt' -> tbt' = tbt.
Proof.
  intros (e & r & mt & tr & He & Hr & Hm & Ht & ->)
         (e' & r' & mt' & tr' & He' & Hr' & Hm' & Ht' & ->).
  assert (e' = e) by congruence. subst e'.
  assert (r' = r) by congruence. subst r'.
  assert (mt' = mt) by congruence. subst mt'.
  assert (tr' = tr) by congruence. subst tr'. reflexivity.
Qed.

(** The TBT score of a frame and a navigation after [finalize]: the one an
    InteractiveTime event reported, whenever one resolved; or else an
    estimate made from the FCP score, whenever the FCP score has one. *)
Lemma finalize_total_blocking_time (s s' : State) :
  metricScoresByFrameId s = [] ->
  finalize s = (Normal tt, s') ->
  (forall f n sc,
     scoreAt f n TBT (metricScoresByFrameId s') = Some sc ->
     (exists e nav,
        In e (pageLoadEventsArray s) /\ isTraceEventInteractiveTime e = true /\
        reachesScoring e nav f n /\
        sc = reportedTBT nav e /\
        score sc =
          formatMicrosecondsTime
            (millisecondsToMicroseconds (args_total_blocking_time_ms (args e)))
            millisecondsFormat /\
        estimated sc = None) \/
     (~ interactiveTimeResolved (pageLoadEventsArray s) f n /\
      exists fcp tbt,
        scoreAt f n FCP (metricScoresByFrameId s') = Some fcp /\
        estimateFor fcp tbt /\
        sc = estimatedTBT tbt (navigation fcp) /\
        score sc = formatMicrosecondsTime tbt millisecondsFormat /\
        estimated sc = Some true)) /\
  (forall f n,
     interactiveTimeResolved (pageLoadEventsArray s) f n ->
     exists sc,
       scoreAt f n TBT (metricScoresByFrameId s') = Some sc /\
       authoritativeTBT (pageLoadEventsArray s) f n sc /\ estimated sc = None) /\
  (forall f n fcp tbt,
     ~ interactiveTimeResolved (pageLoadEventsArray s) f n ->
     scoreAt f n FCP (metricScoresByFrameId s') = Some fcp ->
     estimateFor fcp tbt ->
     scoreAt f n TBT (metricScoresByFrameId s') = Some (estimatedTBT tbt (navigation fcp))).
Proof.
  intros Ht Hrun.
  destruct (@finalize_blockingTime s s' Ht Hrun) as [Hsc Hres].
  split; [| split].
  - intros f n sc H. destruct (Hsc f n sc H) as [(e & nav & Hin & Hk & Hr & ->) | [Hno Hsyn]].
    + left. exists e, nav.
      split; [assumption |]. split; [assumption |]. split; [assumption |].
      split; [reflexivity |]. split; reflexivity.
    + right. split; [assumption |]. destruct Hsyn as (fcp & tbt & H1 & H2 & ->).
      exists fcp, tbt.
      split; [assumption |]. split; [assumption |]. split; [reflexivity |].
      split; reflexivity.
  - intros f n H. pose proof (Hres f n H) as Hsome.
    destruct (scoreAt f n TBT (metricScoresByFrameId s')) as [sc |] eqn:E; [| congruence].
    exists sc. split; [reflexivity |].
    destruct (Hsc f n sc E) as [Ha | [Hno _]]; [| contradiction].
    split; [assumption |]. destruct Ha as (e & nav & _ & _ & _ & ->). reflexivity.
  - intros f n fcp tbt Hno Hfcp Hest.
    pose proof Hrun as Hrun'. apply finalize_normal in Hrun'.
    destruct Hrun' as (s1 & s2 & mains & _ & Hloop & _ & _ & ->).
    cbn [metricScoresByFrameId with_allMarkerEvents] in *.
    assert (Hm : exists m, lookupMetrics f n (metricScoresByFrameId s1) = Some m).
    { rewrite (@estimates_FCP s1 s2 f n Hloop) in Hfcp. unfold scoreAt in Hfcp.
      destruct (lookupMetrics f n (metricScoresByFrameId s1)) as [m |]; [eauto | discriminate]. }
    destruct Hm as (m & Hm).
    destruct (@estimates_settle s1 s2 f n m Hloop Hm) as [Hsome | Hnone].
    + destruct (scoreAt f n TBT (metricScoresByFrameId s2)) as [sc |] eqn:E; [| congruence].
      destruct (Hsc f n sc E) as [(e & nav & Hin & Hk & Hr & _) | [_ Hsyn]].
      * exfalso. apply Hno. now exists e, nav.
      * destruct Hsyn as (fcp' & tbt' & H1 & H2 & ->).
        assert (fcp' = fcp) by congruence. subst fcp'.
        now rewrite (@estimateFor_functional fcp tbt tbt' Hest H2).
    + exfalso. exact (Hnone fcp tbt Hfcp Hest).
Qed.

(** ** The snapshot returned by [data] *)

Lemma update_length (A : Type) (l : list A) (i : nat) (x : A) :
  List.length (Store.update l i x) = List.length l.
Proof.
  revert i. induction l as [| y l IH]; intros [| i]; cbn; try reflexivity. now rewrite IH.
Qed.

Lemma nth_update_other (A : Type) (l : list A) (i j : nat) (x d : A) :
  i <> j -> nth j (Store.update l i x) d = nth j l d.
Proof.
  revert i j. induction l as [| y l IH]; intros [| i] [| j] Hne; cbn;
    try reflexivity; try contradiction.
  apply IH. congruence.
Qed.

Lemma nth_update_same (A : Type) (l : list A) (i : nat) (x d : A) :
  (i < List.length l)%nat -> nth i (Store.update l i x) d = x.
Proof.
  revert i. induction l as [| y l IH]; intros [| i] Hlt; cbn in *; try lia; [reflexivity |].
  apply IH. lia.
Qed.



Lemma sget_map_entries (V W : Type) (g : string * V -> W) (k : string)
    (m : JSMap.t string V) :
  sget k (List.map (fun e => (fst e, g e)) m) =
  match sget k m with
  | Some v => Some (g (k, v))
  | None => None
  end.
Proof.
  unfold sget. induction m as [| [k0 v0] m IH]; cbn; [reflexivity |].
  destruct (String.eqb_spec k k0) as [-> | Hne]; [reflexivity | assumption].
Qed.

Lemma sset_absent (V : Type) (k : string) (v : V) (m : JSMap.t string V) :
  sget k m = None -> sset k v m = m ++ [(k, v)].
Proof.
  unfold sget, sset. induction m as [| [k0 v0] m IH]; cbn; [reflexivity |].
  destruct (String.eqb k k0); [discriminate |]. intros H. now rewrite IH.
Qed.

Lemma sset_map_present (V W : Type) (g : string * V -> W) (k : string) (x : W)
    (m : JSMap.t string V) :
  NoDup (JSMap.keys m) -> sget k m <> None ->
  sset k x (List.map (fun e => (fst e, g e)) m) =
  List.map (fun e => (fst e, if String.eqb (fst e) k then x else g e)) m.
Proof.
  unfold sget, sset. induction m as [| [k0 v0] m IH]; cbn; [congruence |].
  intros Hnd Hsome. inversion Hnd as [| ? ? Hnotin Hnd']; subst.
  destruct (String.eqb_spec k k0) as [-> | Hne].
  - rewrite String.eqb_refl. f_equal. apply map_ext_in. intros [k1 v1] Hin. cbn [fst].
    destruct (String.eqb_spec k1 k0) as [-> | _]; [| reflexivity].
    exfalso. apply Hnotin. change k0 with (fst (k0, v1)). now apply in_map.
  - destruct (String.eqb_spec k0 k) as [-> | _]; [congruence |].
    cbn [fst]. f_equal. now apply IH.
Qed.

Lemma In_sget (V : Type) (k : string) (v : V) (m : JSMap.t string V) :
  NoDup (JSMap.keys m) -> In (k, v) m -> sget k m = Some v.
Proof. intros Hnd Hin. now apply (@In_get _ _ String.eqb String.eqb_eq). Qed.

Lemma In_refs (k : string) (r : Store.Ref) (m : JSMap.t string Store.Ref) :
  In (k, r) m -> In r (List.map snd m).
Proof. intros H. change r with (snd (k, r)). now apply in_map. Qed.

(** Two entries of a map with distinct addresses and the same address are
    the same entry. *)
Lemma same_ref_same_key (k k' : string) (r : Store.Ref) (m : JSMap.t string Store.Ref) :
  NoDup (List.map snd m) -> In (k, r) m -> In (k', r) m -> k' = k.
Proof.
  induction m as [| [k0 r0] m IH]; cbn; [contradiction |].
  intros Hnd H1 H2. inversion Hnd as [| ? ? Hnotin Hnd']; subst.
  destruct H1 as [E1 | H1], H2 as [E2 | H2].
  - congruence.
  - injection E1 as -> ->. exfalso. apply Hnotin. now apply In_refs with (k := k').
  - injection E2 as -> ->. exfalso. apply Hnotin. now apply In_refs with (k := k).
  - now apply IH.
Qed.

(** The value of a store on the heap, read through the handler's map, is
    the store on the table: the table model follows the objects. *)
Lemma view_store (f n : string) (sc : MetricScore) (h : Store.Heap) :
  Store.wellFormed h ->
  Store.view (Store.storeMetricScore f n sc h)
             (Store.metricScoresByFrameId (Store.storeMetricScore f n sc h)) =
  storeMetricScoreInTable f n sc (Store.view h (Store.metricScoresByFrameId h)).
Proof.
  intros (Hkeys & Hrefs & Hreach & Hshare).
  unfold storeMetricScoreInTable, getWithDefault.
  unfold Store.view at 2 3 4. rewrite sget_map_entries.
  unfold Store.storeMetricScore, Store.frameMapWithDefault.
  destruct (sget f (Store.metricScoresByFrameId h)) as [rf |] eqn:Ef.
  - (* the frame has a map *)
    pose proof (sget_In _ _ Ef) as Hf.
    destruct (Hreach f rf Hf) as (Hrf & Hnkeys & Hnrefs & Hrm).
    cbn [snd]. unfold Store.navView at 1 2. rewrite sget_map_entries.
    unfold Store.metricMapWithDefault.
    destruct (sget n (nth rf (Store.frameMaps h) [])) as [rm |] eqn:En.
    + (* the navigation has a map *)
      pose proof (sget_In _ _ En) as Hn. pose proof (Hrm n rm Hn) as Hlt.
      cbn [Store.frameMaps Store.metricMaps Store.metricScoresByFrameId snd].
      rewrite sset_map_present by (try assumption; congruence).
      rewrite sset_map_present by (try assumption; congruence).
      unfold Store.view. apply map_ext_in. intros [f' r] Hin. cbn [fst snd]. f_equal.
      unfold Store.navView. cbn [Store.frameMaps Store.metricMaps].
      destruct (String.eqb_spec f' f) as [-> | Hne].
      * assert (r = rf) by (pose proof (@In_sget _ _ _ _ Hkeys Hin); congruence). subst r.
        apply map_ext_in. intros [n' rm'] Hin'. cbn [fst snd]. f_equal.
        destruct (String.eqb_spec n' n) as [-> | Hne'].
        -- assert (rm' = rm) by (pose proof (@In_sget _ _ _ _ Hnkeys Hin'); congruence). subst rm'.
           now apply nth_update_same.
        -- apply nth_update_other. intros <-. apply Hne'.
           now apply (@same_ref_same_key n n' rm _ Hnrefs).
      * apply map_ext_in. intros [n' rm'] Hin'. cbn [fst snd]. f_equal.
        apply nth_update_other. intros <-. apply Hne.
        now apply (Hshare f' r f rf n' n rm).
    + (* the navigation is new *)
      cbn [Store.frameMaps Store.metricMaps Store.metricScoresByFrameId snd].
      rewrite nth_middle with (l' := []).
      rewrite sset_sset.
      rewrite sset_map_present by (try assumption; congruence).
      unfold Store.view. apply map_ext_in. intros [f' r] Hin. cbn [fst snd]. f_equal.
      unfold Store.navView. cbn [Store.frameMaps Store.metricMaps].
      destruct (Hreach f' r Hin) as (Hr & _ & _ & Hrm').
      destruct (String.eqb_spec f' f) as [-> | Hne].
      * assert (r = rf) by (pose proof (@In_sget _ _ _ _ Hkeys Hin); congruence). subst r.
        rewrite nth_update_same by assumption.
        rewrite (@sset_absent _ _ _ _ En), map_app. cbn [List.map fst snd].
        rewrite nth_update_same by (rewrite length_app; cbn; lia).
        assert (Hnone : sget n (Store.navView h rf) = None).
        { unfold Store.navView. rewrite sget_map_entries. now rewrite En. }
        fold (Store.navView h rf).
        rewrite (@sset_absent _ _ _ _ Hnone).
        unfold Store.navView. f_equal. apply map_ext_in. intros [n' rm'] Hin'. cbn [fst snd]. f_equal.
        pose proof (Hrm n' rm' Hin') as Hlt.
        rewrite nth_update_other by lia. now apply app_nth1.
      * assert (r <> rf).
        { intros ->. apply Hne. now apply (@same_ref_same_key f f' rf _ Hrefs). }
        rewrite nth_update_other by congruence.
        apply map_ext_in. intros [n' rm'] Hin'. cbn [fst snd]. f_equal.
        pose proof (Hrm' n' rm' Hin') as Hlt.
        rewrite nth_update_other by lia. now apply app_nth1.
  - (* the frame is new *)
    cbn [snd]. unfold Store.metricMapWithDefault.
    cbn [Store.frameMaps Store.metricMaps Store.metricScoresByFrameId].
    rewrite nth_middle with (l' := []). cbn [sget JSMap.get].
    cbn [Store.frameMaps Store.metricMaps Store.metricScoresByFrameId].
    rewrite nth_middle with (l' := []).
    rewrite sset_sset.
    rewrite (@sset_absent _ _ _ _ Ef).
    assert (Hnone : sget f (Store.view h (Store.metricScoresByFrameId h)) = None).
    { unfold Store.view. rewrite sget_map_entries. now rewrite Ef. }
    fold (Store.view h (Store.metricScoresByFrameId h)).
    rewrite (@sset_absent _ _ _ _ Hnone).
    unfold Store.view. rewrite map_app. cbn [List.map fst snd]. f_equal.
    + apply map_ext_in. intros [f' r] Hin. cbn [fst snd]. f_equal.
      unfold Store.navView. cbn [Store.frameMaps Store.metricMaps].
      destruct (Hreach f' r Hin) as (Hr & _ & _ & Hrm').
      rewrite nth_update_other by lia. rewrite app_nth1 by assumption.
      apply map_ext_in. intros [n' rm'] Hin'. cbn [fst snd]. f_equal.
      pose proof (Hrm' n' rm' Hin') as Hlt.
      rewrite nth_update_other by lia. now apply app_nth1.
    + unfold Store.navView. cbn [Store.frameMaps Store.metricMaps].
      rewrite nth_update_same by (rewrite length_app; cbn; lia).
      cbn [List.map fst snd sset JSMap.set]. rewrite String.eqb_refl.
      rewrite nth_update_same by (rewrite length_app; cbn; lia). reflexivity.
Qed.

Lemma NoDup_snoc (A : Type) (l : list A) (x : A) :
  NoDup l -> ~ In x l -> NoDup (l ++ [x]).
Proof.
  intros Hnd Hnotin. apply NoDup_rev in Hnd.
  rewrite <- (rev_involutive (l ++ [x])). apply NoDup_rev. rewrite rev_app_distr. cbn.
  constructor; [| assumption]. now rewrite <- in_rev.
Qed.

(** Storing a score keeps the heap well formed. *)
Lemma wellFormed_store (f n : string) (sc : MetricScore) (h : Store.Heap) :
  Store.wellFormed h -> Store.wellFormed (Store.storeMetricScore f n sc h).
Proof.
  intros (Hkeys & Hrefs & Hreach & Hshare).
  unfold Store.storeMetricScore, Store.frameMapWithDefault.
  destruct (sget f (Store.metricScoresByFrameId h)) as [rf |] eqn:Ef.
  - pose proof (sget_In _ _ Ef) as Hf.
    destruct (Hreach f rf Hf) as (Hrf & Hnkeys & Hnrefs & Hrm).
    unfold Store.metricMapWithDefault.
    destruct (sget n (nth rf (Store.frameMaps h) [])) as [rm |] eqn:En;
      unfold Store.wellFormed;
      cbn [Store.frameMaps Store.metricMaps Store.metricScoresByFrameId].
    + (* only the contents of a metrics map change *)
      split; [assumption |]. split; [assumption |]. split; [| assumption].
      intros f' r Hin. destruct (Hreach f' r Hin) as (H1 & H2 & H3 & H4).
      repeat split; try assumption. intros n' rm' Hin'. rewrite update_length. eauto.
    + (* a metrics map is added to the frame's map *)
      rewrite nth_middle with (l' := []).
      assert (Hnew : forall r, nth r (Store.update (Store.frameMaps h) rf
                                        (sset n (List.length (Store.metricMaps h))
                                              (nth rf (Store.frameMaps h) []))) [] =
                               if Nat.eqb r rf
                               then nth rf (Store.frameMaps h) [] ++
                                    [(n, List.length (Store.metricMaps h))]
                               else nth r (Store.frameMaps h) []).
      { intros r. destruct (Nat.eqb_spec r rf) as [-> | Hne].
        - rewrite nth_update_same by assumption. now apply sset_absent.
        - apply nth_update_other. congruence. }
      assert (Hfresh : forall f' r n' rm',
                In (f', r) (Store.metricScoresByFrameId h) ->
                In (n', rm') (nth r (Store.frameMaps h) []) ->
                rm' <> List.length (Store.metricMaps h)).
      { intros f' r n' rm' Hin Hin'. destruct (Hreach f' r Hin) as (_ & _ & _ & H4).
        pose proof (H4 n' rm' Hin'). lia. }
      split; [assumption |]. split; [assumption |]. split.
      * intros f' r Hin. destruct (Hreach f' r Hin) as (H1 & H2 & H3 & H4).
        rewrite !update_length, length_app, Hnew. cbn [List.length].
        split; [assumption |].
        destruct (Nat.eqb_spec r rf) as [-> | Hne].
        -- split; [| split].
           ++ unfold JSMap.keys. rewrite map_app. cbn [List.map fst].
              apply NoDup_snoc; [assumption |].
              now apply (proj1 (@get_None_keys _ _ String.eqb String.eqb_eq n _)).
           ++ rewrite map_app. cbn [List.map snd]. apply NoDup_snoc; [assumption |].
              intros Hx. apply in_map_iff in Hx. destruct Hx as ([n' rm'] & Heq & Hx).
              cbn in Heq. subst rm'. now apply (Hfresh f rf n' _ Hf Hx).
           ++ intros n' rm' Hx. apply in_app_or in Hx.
              destruct Hx as [Hx | [[= <- <-] | []]]; [| lia].
              pose proof (H4 n' rm' Hx). lia.
        -- split; [assumption |]. split; [assumption |].
           intros n' rm' Hx. pose proof (H4 n' rm' Hx). lia.
      * intros f1 r1 f2 r2 n1 n2 rm Hin1 Hin2. rewrite !Hnew.
        assert (Hold : forall f' r n' rm',
                  In (f', r) (Store.metricScoresByFrameId h) ->
                  In (n', rm') (if Nat.eqb r rf
                                then nth rf (Store.frameMaps h) [] ++
                                     [(n, List.length (Store.metricMaps h))]
                                else nth r (Store.frameMaps h) []) ->
                  In (n', rm') (nth r (Store.frameMaps h) []) \/
                  (f' = f /\ rm' = List.length (Store.metricMaps h))).
        { intros f' r n' rm' Hin Hx. destruct (Nat.eqb_spec r rf) as [-> | Hne]; [| now left].
          apply in_app_or in Hx. destruct Hx as [Hx | [[= <- <-] | []]]; [now left | right].
          split; [| reflexivity]. now apply (@same_ref_same_key f f' rf _ Hrefs). }
        intros Hx1 Hx2.
        destruct (Hold f1 r1 n1 rm Hin1 Hx1) as [Ho1 | [Hf1 Hr1]],
                 (Hold f2 r2 n2 rm Hin2 Hx2) as [Ho2 | [Hf2 Hr2]].
        -- now apply (Hshare f1 r1 f2 r2 n1 n2 rm).
        -- exfalso. now apply (Hfresh f1 r1 n1 rm Hin1 Ho1).
        -- exfalso. now apply (Hfresh f2 r2 n2 rm Hin2 Ho2).
        -- congruence.
  - (* a map is added for the frame *)
    unfold Store.metricMapWithDefault.
    cbn [Store.frameMaps Store.metricMaps Store.metricScoresByFrameId].
    rewrite nth_middle with (l' := []). cbn [sget JSMap.get].
    unfold Store.wellFormed.
    cbn [Store.frameMaps Store.metricMaps Store.metricScoresByFrameId].
    rewrite nth_middle with (l' := []).
    assert (Hbound : forall f' r, In (f', r) (Store.metricScoresByFrameId h) ->
                                  (r < List.length (Store.frameMaps h))%nat).
    { intros f' r Hin. now destruct (Hreach f' r Hin). }
    assert (Hnew : forall r, nth r (Store.update (Store.frameMaps h ++ [[]])
                                      (List.length (Store.frameMaps h))
                                      (sset n (List.length (Store.metricMaps h)) [])) [] =
                             if Nat.eqb r (List.length (Store.frameMaps h))
                             then [(n, List.length (Store.metricMaps h))]
                             else nth r (Store.frameMaps h) []).
    { intros r. destruct (Nat.eqb_spec r (List.length (Store.frameMaps h))) as [-> | Hne].
      - rewrite nth_update_same by (rewrite length_app; cbn; lia). reflexivity.
      - rewrite nth_update_other by congruence.
        destruct (Nat.lt_ge_cases r (List.length (Store.frameMaps h))) as [Hlt | Hge].
        + now apply app_nth1.
        + rewrite !nth_overflow; [reflexivity | lia | rewrite length_app; cbn; lia]. }
    assert (Hentries : forall f' r,
              In (f', r) (sset f (List.length (Store.frameMaps h))
                               (Store.metricScoresByFrameId h)) ->
              In (f', r) (Store.metricScoresByFrameId h) \/
              (f' = f /\ r = List.length (Store.frameMaps h))).
    { intros f' r Hin. rewrite (@sset_absent _ _ _ _ Ef) in Hin. apply in_app_or in Hin.
      destruct Hin as [Hin | [[= <- <-] | []]]; [now left | now right]. }
    split; [unfold sset; now apply NoDup_keys_set; [apply String.eqb_eq |] |].
    split.
    { rewrite (@sset_absent _ _ _ _ Ef), map_app. cbn [List.map snd].
      apply NoDup_snoc; [assumption |]. intros Hx. apply in_map_iff in Hx.
      destruct Hx as ([f' r] & Heq & Hx). cbn in Heq. subst r.
      pose proof (Hbound f' _ Hx). lia. }
    split.
    + intros f' r Hin. rewrite !update_length, !length_app, Hnew. cbn [List.length].
      destruct (Hentries f' r Hin) as [Hold | [-> ->]].
      * pose proof (Hbound f' r Hold) as Hlt.
        destruct (Nat.eqb_spec r (List.length (Store.frameMaps h))) as [-> | _]; [lia |].
        destruct (Hreach f' r Hold) as (H1 & H2 & H3 & H4).
        split; [lia |]. split; [assumption |]. split; [assumption |].
        intros n' rm' Hx. pose proof (H4 n' rm' Hx). lia.
      * rewrite Nat.eqb_refl. split; [lia |].
        split; [repeat constructor; cbn; tauto |].
        split; [repeat constructor; cbn; tauto |].
        intros n' rm' [[= <- <-] | []]. lia.
    + intros f1 r1 f2 r2 n1 n2 rm Hin1 Hin2. rewrite !Hnew.
      assert (Hold : forall f' r n' rm',
                In (f', r) (sset f (List.length (Store.frameMaps h))
                                 (Store.metricScoresByFrameId h)) ->
                In (n', rm') (if Nat.eqb r (List.length (Store.frameMaps h))
                              then [(n, List.length (Store.metricMaps h))]
                              else nth r (Store.frameMaps h) []) ->
                (In (f', r) (Store.metricScoresByFrameId h) /\
                 In (n', rm') (nth r (Store.frameMaps h) []) /\
                 (rm' < List.length (Store.metricMaps h))%nat) \/
                (f' = f /\ rm' = List.length (Store.metricMaps h))).
      { intros f' r n' rm' Hin Hx. destruct (Hentries f' r Hin) as [Hold | [-> ->]].
        - pose proof (Hbound f' r Hold) as Hlt.
          destruct (Nat.eqb_spec r (List.length (Store.frameMaps h))) as [-> | _]; [lia |].
          left. split; [assumption |]. split; [assumption |].
          destruct (Hreach f' r Hold) as (_ & _ & _ & H4). now apply (H4 n').
        - rewrite Nat.eqb_refl in Hx. destruct Hx as [[= <- <-] | []]. now right. }
      intros Hx1 Hx2.
      destruct (Hold f1 r1 n1 rm Hin1 Hx1) as [(Ha1 & Hb1 & Hc1) | [Hf1 Hr1]],
               (Hold f2 r2 n2 rm Hin2 Hx2) as [(Ha2 & Hb2 & Hc2) | [Hf2 Hr2]];
        try lia; try congruence.
      now apply (Hshare f1 r1 f2 r2 n1 n2 rm).
Qed.






Lemma wellFormed_empty : Store.wellFormed Store.emptyHeap.
Proof.
  unfold Store.wellFormed. cbn. repeat split; try constructor; intros; contradiction.
Qed.

(** Along any sequence of stores from the empty heap, the handler's table
    in the heap reads as the table of the handler state. *)
Lemma table_follows_heap (scores : list (string * string * MetricScore)) :
  Store.view (Store.storeScores scores Store.emptyHeap)
             (Store.metricScoresByFrameId (Store.storeScores scores Store.emptyHeap)) =
  fold_left (fun t x => storeMetricScoreInTable (fst (fst x)) (snd (fst x)) (snd x) t)
            scores [].
Proof.
  assert (Hgen : forall h, Store.wellFormed h ->
            Store.view (Store.storeScores scores h)
                       (Store.metricScoresByFrameId (Store.storeScores scores h)) =
            fold_left (fun t x => storeMetricScoreInTable (fst (fst x)) (snd (fst x)) (snd x) t)
                      scores (Store.view h (Store.metricScoresByFrameId h))).
  { unfold Store.storeScores.
    induction scores as [| [[f n] sc] scores IH]; intros h Hwf; cbn [fold_left fst snd];
      [reflexivity |].
    rewrite IH by now apply wellFormed_store. now rewrite view_store. }
  apply (Hgen Store.emptyHeap wellFormed_empty).
Qed.


(** ** The first FCP of the main frame *)

Lemma firstFCPStep_fold (l : list Metrics) (acc : option MicroSeconds) :
  acc <> Some 0 ->
  let timestamps :=
    flat_map (fun metrics : Metrics =>
                match fcpTimestampOf (mget FCP metrics) with
                | Some t => if t =? 0 then [] else [t]
                | None => []
                end) l in
  match fold_left firstFCPStep l acc with
  | Some t =>
      t <> 0 /\ (acc = Some t \/ In t timestamps) /\
      (forall a, acc = Some a -> t <= a) /\ (forall t', In t' timestamps -> t <= t')
  | None => acc = None /\ timestamps = []
  end.
Proof using.
  clear. revert acc. induction l as [| metrics l IH]; intros acc Hacc; cbn [fold_left flat_map].
  - destruct acc as [a |].
    + split; [intros ->; now apply Hacc |]. split; [now left |].
      split; [intros ? [= <-]; lia | intros ? []].
    + split; reflexivity.
  - unfold firstFCPStep at 2.
    destruct (fcpTimestampOf (mget FCP metrics)) as [t |]; cbn [falsy_number negb].
    2: { apply IH. exact Hacc. }
    destruct (Z.eqb_spec t 0) as [-> | Ht]; cbn [negb app].
    { apply IH. exact Hacc. }
    destruct acc as [a |]; cbn [falsy_number lt_number].
    + destruct (Z.eqb_spec a 0) as [-> | Ha]; [now contradict Hacc |].
      destruct (Z.ltb_spec t a) as [Hlt | Hge].
      * specialize (IH (Some t)).
        destruct (fold_left firstFCPStep l (Some t)) as [r |].
        -- destruct IH as (Hr & Hin & Hle & Hmin); [intros [= ?]; lia |].
           split; [exact Hr |]. split.
           ++ right. destruct Hin as [[= ->] | Hin]; [now left | right; exact Hin].
           ++ specialize (Hle t eq_refl). split.
              ** intros ? [= <-]. lia.
              ** intros t' [<- | Hin']; [lia | now apply Hmin].
        -- destruct IH as [IH _]; [congruence | discriminate IH].
      * specialize (IH (Some a)).
        destruct (fold_left firstFCPStep l (Some a)) as [r |].
        -- destruct IH as (Hr & Hin & Hle & Hmin); [intros [= ?]; lia |].
           split; [exact Hr |]. split.
           ++ destruct Hin as [Hin | Hin]; [now left | right; right; exact Hin].
           ++ specialize (Hle a eq_refl). split.
              ** intros ? [= <-]. lia.
              ** intros t' [<- | Hin']; [lia | now apply Hmin].
        -- destruct IH as [IH _]; [congruence | discriminate IH].
    + specialize (IH (Some t)).
      destruct (fold_left firstFCPStep l (Some t)) as [r |].
      * destruct IH as (Hr & Hin & Hle & Hmin); [intros [= ?]; lia |].
        split; [exact Hr |]. split.
        -- right. destruct Hin as [[= ->] | Hin]; [now left | right; exact Hin].
        -- specialize (Hle t eq_refl). split.
           ++ intros ? [=].
           ++ intros t' [<- | Hin']; [lia | now apply Hmin].
      * destruct IH as [IH _]; [congruence | discriminate IH].
Qed.

Lemma getFirstFCP_fold (model : HandlerData) :
  match sget (mainFrameId (Meta model)) (data_metricScoresByFrameId (PageLoadMetrics model)) with
  | None => getFirstFCPTimestampFromModelData model = None
  | Some metricsByNavigation =>
      match getFirstFCPTimestampFromModelData model with
      | Some t =>
          t <> 0 /\ In t (fcpTimestamps metricsByNavigation) /\
          forall t', In t' (fcpTimestamps metricsByNavigation) -> t <= t'
      | None => fcpTimestamps metricsByNavigation = []
      end
  end.
Proof using.
  clear. unfold getFirstFCPTimestampFromModelData.
  destruct (sget (mainFrameId (Meta model))
              (data_metricScoresByFrameId (PageLoadMetrics model))) as [byNav |];
    [| reflexivity].
  pose proof (@firstFCPStep_fold (JSMap.values byNav) None) as H.
  cbv zeta in H. fold (fcpTimestamps byNav) in H.
  destruct (fold_left firstFCPStep (JSMap.values byNav) None) as [r |].
  - destruct H as (Hr & Hin & _ & Hmin); [discriminate |].
    destruct Hin as [[=] | Hin]. now repeat split.
  - destruct H as [_ Hnil]; [discriminate | exact Hnil].
Qed.

(** X1: [getFirstFCPTimestampFromModelData] returns the least of the FCP
    timestamps stored for the navigations of the main frame, where a score
    without its event and a timestamp of 0 do not count; it returns null
    exactly when the main frame has no entry in the table or no timestamp
    counts; it never returns 0. *)
Theorem X1_first_FCP_is_the_least_timestamp (model : HandlerData) :
  let table := data_metricScoresByFrameId (PageLoadMetrics model) in
  let mainFrameID := mainFrameId (Meta model) in
  (forall t,
     getFirstFCPTimestampFromModelData model = Some t <->
     exists metricsByNavigation,
       sget mainFrameID table = Some metricsByNavigation /\
       In t (fcpTimestamps metricsByNavigation) /\
       forall t', In t' (fcpTimestamps metricsByNavigation) -> t <= t') /\
  (getFirstFCPTimestampFromModelData model = None <->
   sget mainFrameID table = None \/
   exists metricsByNavigation,
     sget mainFrameID table = Some metricsByNavigation /\
     fcpTimestamps metricsByNavigation = []) /\
  getFirstFCPTimestampFromModelData model <> Some 0.
Proof using.
  clear. intros table mainFrameID. pose proof (getFirstFCP_fold model) as H.
  fold table in H. fold mainFrameID in H.
  destruct (sget mainFrameID table) as [byNav |] eqn:Hget.
  2: { rewrite H. split; [| split].
       - intros t. split; [discriminate | intros (? & [=] & _)].
       - split; [now left | reflexivity].
       - discriminate. }
  destruct (getFirstFCPTimestampFromModelData model) as [r |].
  - destruct H as (Hr & Hin & Hmin).
    split; [| split].
    + intros t. split.
      * intros [= <-]. exists byNav. split; [reflexivity |]. split; assumption.
      * intros (byNav' & [= <-] & Hin' & Hmin').
        f_equal. specialize (Hmin _ Hin'). specialize (Hmin' _ Hin). lia.
    + split; [discriminate |].
      intros [[=] | (byNav' & [= <-] & Hnil)]. rewrite Hnil in Hin. destruct Hin.
    + intros [= ->]. now apply Hr.
  - split; [| split].
    + intros t. split; [discriminate |].
      intros (byNav' & [= <-] & Hin' & _). rewrite H in Hin'. destruct Hin'.
    + split; [| reflexivity]. intros _. right. exists byNav. split; [reflexivity | assumption].
    + discriminate.
Qed.

(** ** Order of the entries of a metrics map *)

Lemma mdelete_filter (k : MetricName) (m : Metrics) :
  mdelete k m = filter (fun entry => negb (MetricName_eqb k (fst entry))) m.
Proof using.
  clear. unfold mdelete. induction m as [| [k' v] m IH]; cbn; [reflexivity |].
  destruct (MetricName_eqb k k'); cbn; [assumption | now rewrite IH].
Qed.

Lemma mset_absent (k : MetricName) (sc : MetricScore) (m : Metrics) :
  mget k m = None -> mset k sc m = m ++ [(k, sc)].
Proof using.
  clear. unfold mget, mset. induction m as [| [k' v] m IH]; cbn; [reflexivity |].
  destruct (MetricName_eqb k k'); [discriminate |]. intros H. now rewrite IH.
Qed.

Lemma mset_mdelete (k : MetricName) (sc : MetricScore) (m : Metrics) :
  mset k sc (mdelete k m) = mdelete k m ++ [(k, sc)].
Proof using.
  clear. apply mset_absent. unfold mget, mdelete. apply get_delete_same.
Qed.

Lemma keys_sset (V : Type) (k : string) (v : V) (m : JSMap.t string V) :
  JSMap.keys (sset k v m) =
  match sget k m with
  | Some _ => JSMap.keys m
  | None => JSMap.keys m ++ [k]
  end.
Proof using. clear. unfold sset, sget. apply (keys_set _ String.eqb_eq). Qed.

Lemma sget_sset_same (V : Type) (k : string) (v : V) (m : JSMap.t string V) :
  sget k (sset k v m) = Some v.
Proof using. clear. unfold sget, sset. apply (get_set_same _ String.eqb_eq). Qed.

Lemma mdelete_keys (k : MetricName) (m : Metrics) :
  NoDup (JSMap.keys m) -> NoDup (JSMap.keys (mdelete k m)) /\ ~ In k (JSMap.keys (mdelete k m)).
Proof using.
  clear. unfold mdelete. induction m as [| [k' v] m IH]; cbn.
  - intros _. split; [constructor | intros []].
  - intros Hnd. inversion Hnd as [| ? ? Hnotin Hnd']; subst.
    destruct (IH Hnd') as [IH1 IH2].
    destruct (MetricName_eqb k k') eqn:E; [now split |].
    cbn. split.
    + constructor; [| assumption]. intros Hin. apply Hnotin.
      clear - Hin. induction m as [| [k0 v0] m IHm]; cbn in *; [assumption |].
      destruct (MetricName_eqb k k0); cbn in *; [right; now apply IHm |].
      destruct Hin as [<- | Hin]; [now left | right; now apply IHm].
    + intros [-> | Hin]; [| now apply IH2].
      now rewrite (proj2 (MetricName_eqb_eq k k) eq_refl) in E.
Qed.

(** X3: [storeMetricScore] always returns; in the metrics map of the frame
    and the navigation the stored score becomes the last entry, after the
    entries of the other metric names in the order they had; the metrics
    maps of every other frame or navigation are as they were; a frame keeps
    its place among the frames, a new frame goes last; and metric names
    stay unique in the map. *)
Theorem X3_stored_score_becomes_the_last_entry (frameId navigationId : string)
    (metricScore : MetricScore) (s : State) :
  let s' := snd (storeMetricScore frameId navigationId metricScore s) in
  let before :=
    match lookupMetrics frameId navigationId (metricScoresByFrameId s) with
    | Some metrics => metrics
    | None => []
    end in
  let after :=
    filter (fun entry => negb (MetricName_eqb (metricName metricScore) (fst entry))) before
    ++ [(metricName metricScore, metricScore)] in
  fst (storeMetricScore frameId navigationId metricScore s) = Normal tt /\
  lookupMetrics frameId navigationId (metricScoresByFrameId s') = Some after /\
  (forall f n,
     (f, n) <> (frameId, navigationId) ->
     lookupMetrics f n (metricScoresByFrameId s') = lookupMetrics f n (metricScoresByFrameId s)) /\
  JSMap.keys (metricScoresByFrameId s') =
    match sget frameId (metricScoresByFrameId s) with
    | Some _ => JSMap.keys (metricScoresByFrameId s)
    | None => JSMap.keys (metricScoresByFrameId s) ++ [frameId]
    end /\
  (NoDup (JSMap.keys before) -> NoDup (JSMap.keys after)) /\
  allMarkerEvents s' = allMarkerEvents s /\
  pageLoadEventsArray s' = pageLoadEventsArray s /\
  selectedLCPCandidateEvents s' = selectedLCPCandidateEvents s.
Proof using.
  clear. intros s' before after. subst s'. unfold storeMetricScore, modify.
  cbn [fst snd metricScoresByFrameId with_metricScoresByFrameId allMarkerEvents
       pageLoadEventsArray selectedLCPCandidateEvents].
  split; [reflexivity |]. split; [| split; [| split; [| split; [| now repeat split]]]].
  - rewrite lookupMetrics_store, !String.eqb_refl. cbn [andb].
    fold before. rewrite mset_mdelete, mdelete_filter. reflexivity.
  - intros f n Hne. rewrite lookupMetrics_store.
    destruct (String.eqb_spec f frameId) as [-> | Hf]; [| reflexivity].
    destruct (String.eqb_spec n navigationId) as [-> | Hn]; [congruence | reflexivity].
  - unfold storeMetricScoreInTable, getWithDefault.
    destruct (sget frameId (metricScoresByFrameId s)) as [byNav |] eqn:Ef.
    + destruct (sget navigationId byNav); rewrite keys_sset;
        unfold sget, MetricTable, MetricsByNavigation, Metrics in *; rewrite Ef; reflexivity.
    + cbn [sget JSMap.get]. rewrite keys_sset, sget_sset_same, keys_sset.
      unfold sget, MetricTable, MetricsByNavigation, Metrics in *. rewrite Ef. reflexivity.
  - intros Hnd. subst after. rewrite <- mdelete_filter.
    destruct (@mdelete_keys (metricName metricScore) before Hnd) as [H1 H2].
    unfold JSMap.keys in *. rewrite map_app. cbn [List.map fst].
    apply NoDup_snoc; assumption.
Qed.

(** ** Where the scores of the table come from *)

Lemma scoredFrom_incl (l l' : list TraceEventData) (f n : string) (k : MetricName)
    (sc : MetricScore) :
  (forall e, In e l -> In e l') -> scoredFrom l f n k sc -> scoredFrom l' f n k sc.
Proof.
  intros Hincl (e & nav & Hin & H). exists e, nav. split; [now apply Hincl | assumption].
Qed.

Lemma storedScores_provenance (nav : TraceEventNavigationStart) (x : TraceEventData)
    (f n : string) (sc : MetricScore) :
  reachesScoring x nav f n ->
  In sc (storedScores nav x) -> scoredFrom [x] f n (metricName sc) sc.
Proof.
  intros Hr. unfold storedScores.
  assert (Hgen : forall k c,
            guardOf k x = true -> k <> TBT ->
            scoredFrom [x] f n (metricName (elapsedScore k c nav x)) (elapsedScore k c nav x)).
  { intros k c Hg Hk. exists x, nav. cbn [elapsedScore metricName eventOf event navigation
                                           estimated score].
    split; [now left |]. split; [exact Hg |]. split; [exact Hr |]. repeat split. }
  destruct (isTraceEventFirstContentfulPaint x) eqn:E1;
    [intros [<- | []]; apply Hgen; [exact E1 | discriminate] |].
  destruct (isTraceEventFirstPaint x) eqn:E2;
    [intros [<- | []]; apply Hgen; [exact E2 | discriminate] |].
  destruct (isTraceEventMarkDOMContent x) eqn:E3;
    [intros [<- | []]; apply Hgen; [exact E3 | discriminate] |].
  destruct (isTraceEventInteractiveTime x) eqn:E4.
  { intros [<- | [<- | []]]; [apply Hgen; [exact E4 | discriminate] |].
    exists x, nav. cbn [reportedTBT metricName event navigation estimated score].
    split; [now left |]. split; [exact E4 |]. split; [exact Hr |].
    repeat split. intros H. now contradict H. }
  destruct (isTraceEventMarkLoad x) eqn:E5;
    [intros [<- | []]; apply Hgen; [exact E5 | discriminate] |].
  intros [].
Qed.

Lemma scoreAt_storeAll_inv (f n f' n' : string) (k : MetricName) (scs : list MetricScore)
    (t : MetricTable) (sc : MetricScore) :
  scoreAt f' n' k (storeAll f n scs t) = Some sc ->
  (In sc scs /\ f' = f /\ n' = n /\ metricName sc = k) \/ scoreAt f' n' k t = Some sc.
Proof using.
  clear. unfold storeAll. revert t. induction scs as [| sc0 scs IH]; intros t; cbn [fold_left].
  - now right.
  - intros H. destruct (IH _ H) as [(Hin & Hf & Hn & Hk) | H'].
    + left. split; [now right | now repeat split].
    + rewrite scoreAt_store in H'.
      destruct (String.eqb_spec f' f) as [-> | Hf]; cbn [andb] in H'; [| now right].
      destruct (String.eqb_spec n' n) as [-> | Hn]; cbn [andb] in H'; [| now right].
      destruct (MetricName_eqb k (metricName sc0)) eqn:E; [| now right].
      apply MetricName_eqb_eq in E. injection H' as <-.
      left. split; [now left | now repeat split].
Qed.

Lemma provenanceInvariant_step (done : list TraceEventData) (x : TraceEventData)
    (s s' : State) :
  provenanceInvariant done s ->
  attributePageLoadEvent x s = (Normal tt, s') ->
  provenanceInvariant (done ++ [x]) s'.
Proof.
  intros Hinv Hrun.
  assert (Hold : forall f n k sc,
            scoreAt f n k (metricScoresByFrameId s) = Some sc ->
            scoredFrom (done ++ [x]) f n k sc).
  { intros f n k sc H. apply scoredFrom_incl with (l := done);
      [intros e He; apply in_or_app; now left | now apply Hinv]. }
  assert (Hnew : forall f n k sc, scoredFrom [x] f n k sc -> scoredFrom (done ++ [x]) f n k sc).
  { intros f n k sc. apply scoredFrom_incl. intros e He. apply in_or_app. now right. }
  apply attribute_normal in Hrun.
  destruct Hrun as [[-> _] | (nav & f & n & Hr & Hrun)]; [exact Hold |].
  destruct (isTraceEventLargestContentfulPaintCandidate x) eqn:Hk.
  - unfold scoreEvent in Hrun. revert Hrun. pose proof Hk as Hk'. known_kind Hk'.
    intros Hrun. apply storeLCPCandidate_normal in Hrun.
    destruct Hrun as (T & S & -> & [-> | ->]);
      intros f' n' k sc; cbn [metricScoresByFrameId with_metricScoresByFrameId].
    + rewrite scoreAt_metricsWithDefault. apply Hold.
    + rewrite scoreAt_store, scoreAt_metricsWithDefault.
      destruct (String.eqb_spec f' f) as [-> | Hf]; cbn [andb]; [| apply Hold].
      destruct (String.eqb_spec n' n) as [-> | Hn]; cbn [andb]; [| apply Hold].
      cbn [candidateScore metricName].
      destruct (MetricName_eqb k LCP) eqn:E; [| apply Hold].
      apply MetricName_eqb_eq in E. subst k. intros [= <-]. apply Hnew.
      exists x, nav. cbn [candidateScore metricName event navigation estimated score guardOf].
      split; [now left |]. split.
      { unfold isTraceEventLargestContentfulPaintCandidate. now apply String.eqb_eq. }
      split; [exact Hr |]. repeat split.
  - apply scoreEvent_other in Hrun; [| assumption]. subst s'.
    intros f' n' k sc. cbn [metricScoresByFrameId with_metricScoresByFrameId]. intros H.
    apply scoreAt_storeAll_inv in H.
    destruct H as [(Hin & -> & -> & <-) | H]; [| now apply Hold].
    apply Hnew. now apply storedScores_provenance with (nav := nav).
Qed.

Lemma provenanceOrEstimate_step (l : list TraceEventData) (f n : string) (s s' : State) :
  provenanceOrEstimate l s ->
  estimateTotalBlockingTime f n s = (Normal tt, s') ->
  provenanceOrEstimate l s'.
Proof.
  intros Hinv Hstep. apply estimate_step in Hstep.
  destruct Hstep as [-> | (fcp & tbt & _ & _ & _ & ->)]; [assumption |].
  intros f' n' k sc. cbn [metricScoresByFrameId with_metricScoresByFrameId].
  rewrite scoreAt_store.
  destruct (String.eqb_spec f' f) as [-> | Hf]; cbn [andb]; [| apply Hinv].
  destruct (String.eqb_spec n' n) as [-> | Hn]; cbn [andb]; [| apply Hinv].
  cbn [estimatedTBT metricName].
  destruct (MetricName_eqb k TBT) eqn:E; [| apply Hinv].
  apply MetricName_eqb_eq in E. subst k. intros [= <-]. right. now repeat split.
Qed.

(** After a [finalize] that returns from an empty table, every score was
    computed from an event of the buffer or is an estimate. *)
Lemma finalize_provenance (s s' : State) :
  metricScoresByFrameId s = [] ->
  finalize s = (Normal tt, s') ->
  provenanceOrEstimate (pageLoadEventsArray s) s'.
Proof.
  intros Ht Hrun. apply finalize_normal in Hrun.
  destruct Hrun as (s1 & s2 & mains & Hloop & Hest & _ & _ & ->).
  assert (H1 : provenanceInvariant (sortByTs (pageLoadEventsArray s)) s1).
  { revert Hloop. apply forEach_invariant.
    - intros done x sa sb _. apply provenanceInvariant_step.
    - intros f n k sc. cbn [metricScoresByFrameId with_pageLoadEventsArray].
      rewrite Ht. discriminate. }
  assert (H2 : provenanceOrEstimate (sortByTs (pageLoadEventsArray s)) s2).
  { revert Hest. unfold estimateTotalBlockingTimes, bind at 1, gets.
    apply forEach_preserves.
    - intros [f n] sa sb _. apply provenanceOrEstimate_step.
    - intros f n k sc H. left. now apply H1. }
  intros f n k sc. cbn [metricScoresByFrameId with_allMarkerEvents]. intros H.
  destruct (H2 f n k sc H) as [H' | H']; [left | now right].
  apply scoredFrom_incl with (l := sortByTs (pageLoadEventsArray s)); [| assumption].
  intros e. apply sortByTs_In.
Qed.

(** X4: after a [finalize] that returns from an empty table, every score
    of the table is filed under its own metric name, which is never CLS,
    and either was computed from a buffered event of the kind of its metric
    that passed every check (the score keeps that event and its navigation,
    is not marked as estimated and, but for TBT, reads the time elapsed
    between the navigation and the event), or is a TBT estimate, which
    bears no event. *)
Theorem X4_every_score_has_a_source (s s' : State) :
  metricScoresByFrameId s = [] ->
  finalize s = (Normal tt, s') ->
  forall frameId navigationId k sc,
    scoreAt frameId navigationId k (metricScoresByFrameId s') = Some sc ->
    metricName sc = k /\ k <> CLS /\
    ((exists e nav,
        In e (pageLoadEventsArray s) /\ guardOf k e = true /\
        reachesScoring e nav frameId navigationId /\
        event sc = Some e /\ navigation sc = Some nav /\ estimated sc = None /\
        (k <> TBT -> score sc = formatMicrosecondsTime (ts e - nav_ts nav) secondsFormat)) \/
     (k = TBT /\ event sc = None /\ estimated sc = Some true)).
Proof.
  intros Ht Hrun f n k sc H.
  destruct (@finalize_provenance s s' Ht Hrun f n k sc H)
    as [(e & nav & Hin & Hg & Hr & Hname & He & Hnav & Hest & Hscore) | (-> & Hname & He & Hest)].
  - split; [assumption |]. split; [intros ->; discriminate Hg |].
    left. exists e, nav. split; [assumption |]. split; [assumption |].
    split; [assumption |]. now repeat split.
  - split; [assumption |]. split; [discriminate |]. right. now repeat split.
Qed.

(** ** The first FCP after [finalize] *)

Lemma attribute_uniqueKeys (x : TraceEventData) (s s' : State) :
  uniqueKeys (metricScoresByFrameId s) ->
  attributePageLoadEvent x s = (Normal tt, s') ->
  uniqueKeys (metricScoresByFrameId s').
Proof.
  intros Hu Hrun. apply attribute_normal in Hrun.
  destruct Hrun as [[-> _] | (nav & f & n & Hr & Hrun)]; [assumption |].
  destruct (isTraceEventLargestContentfulPaintCandidate x) eqn:Hk.
  - unfold scoreEvent in Hrun. revert Hrun. pose proof Hk as Hk'. known_kind Hk'.
    intros Hrun. apply storeLCPCandidate_normal in Hrun.
    destruct Hrun as (T & S & -> & [-> | ->]);
      cbn [metricScoresByFrameId with_metricScoresByFrameId].
    + now apply uniqueKeys_metricsWithDefault.
    + apply uniqueKeys_store. now apply uniqueKeys_metricsWithDefault.
  - apply scoreEvent_other in Hrun; [| assumption]. subst s'.
    cbn [metricScoresByFrameId with_metricScoresByFrameId]. now apply uniqueKeys_storeAll.
Qed.

Lemma finalize_uniqueKeys (s s' : State) :
  uniqueKeys (metricScoresByFrameId s) ->
  finalize s = (Normal tt, s') ->
  uniqueKeys (metricScoresByFrameId s').
Proof.
  intros Hu Hrun. apply finalize_normal in Hrun.
  destruct Hrun as (s1 & s2 & mains & Hloop & Hest & _ & _ & ->).
  cbn [metricScoresByFrameId with_allMarkerEvents].
  assert (H1 : uniqueKeys (metricScoresByFrameId s1)).
  { revert Hloop. apply forEach_preserves with (P := fun s => uniqueKeys (metricScoresByFrameId s)).
    - intros x sa sb _. apply attribute_uniqueKeys.
    - exact Hu. }
  revert Hest. unfold estimateTotalBlockingTimes, bind at 1, gets.
  apply forEach_preserves with (P := fun s => uniqueKeys (metricScoresByFrameId s)).
  - intros [f n] sa sb _ Hua Hstep. apply estimate_step in Hstep.
    destruct Hstep as [-> | (fcp & tbt & _ & _ & _ & ->)]; [assumption |].
    cbn [metricScoresByFrameId with_metricScoresByFrameId]. now apply uniqueKeys_store.
  - exact H1.
Qed.

Lemma fcpTimestamps_In (t : MicroSeconds) (metricsByNavigation : MetricsByNavigation) :
  NoDup (JSMap.keys metricsByNavigation) ->
  (In t (fcpTimestamps metricsByNavigation) <->
   t <> 0 /\
   exists n metrics sc e,
     sget n metricsByNavigation = Some metrics /\ mget FCP metrics = Some sc /\
     event sc = Some e /\ ts e = t).
Proof using.
  clear. intros Hnd. unfold fcpTimestamps. rewrite in_flat_map. split.
  - intros (metrics & Hin & Ht). apply (@In_values _ metrics metricsByNavigation Hnd) in Hin.
    destruct Hin as (n & Hn).
    unfold fcpTimestampOf in Ht.
    destruct (mget FCP metrics) as [sc |] eqn:Hsc; [| destruct Ht].
    destruct (event sc) as [e |] eqn:He; [| destruct Ht].
    destruct (Z.eqb_spec (ts e) 0) as [Hz | Hz]; [destruct Ht |].
    destruct Ht as [<- | []]. split; [assumption |]. now exists n, metrics, sc, e.
  - intros (Ht & n & metrics & sc & e & Hn & Hsc & He & <-).
    exists metrics. split; [apply (@In_values _ metrics metricsByNavigation Hnd); now exists n |].
    unfold fcpTimestampOf. rewrite Hsc, He.
    destruct (Z.eqb_spec (ts e) 0) as [Hz | Hz]; [contradiction | now left].
Qed.

(** X2: after a [finalize] that returns from an empty table, what
    [getFirstFCPTimestampFromModelData] reads from the data of the handler
    is the timestamp, other than 0, of a buffered FCP event of the main
    frame that passed every check; and it is no later than any FCP stored
    for a navigation of the main frame whose timestamp is not 0, for which
    the function does return a timestamp. *)
Theorem X2_first_FCP_after_finalize (s s' : State) (d : PageLoadMetricsData) :
  metricScoresByFrameId s = [] ->
  finalize s = (Normal tt, s') ->
  fst (data s') = Normal d ->
  let model := {| Meta := metaHandlerData; PageLoadMetrics := d |} in
  let mainFrame := mainFrameId metaHandlerData in
  (forall t,
     getFirstFCPTimestampFromModelData model = Some t ->
     t <> 0 /\
     exists e nav navigationId,
       In e (pageLoadEventsArray s) /\ isTraceEventFirstContentfulPaint e = true /\
       args_frame (args e) = mainFrame /\
       reachesScoring e nav mainFrame navigationId /\ ts e = t) /\
  (forall navigationId sc e,
     scoreAt mainFrame navigationId FCP (metricScoresByFrameId s') = Some sc ->
     event sc = Some e -> ts e <> 0 ->
     exists t, getFirstFCPTimestampFromModelData model = Some t /\ t <= ts e).
Proof.
  intros Ht Hrun Hd model mainFrame.
  assert (Hu : uniqueKeys (metricScoresByFrameId s')).
  { apply (@finalize_uniqueKeys s s'); [rewrite Ht; apply uniqueKeys_nil | assumption]. }
  assert (Htable : data_metricScoresByFrameId (PageLoadMetrics model) = metricScoresByFrameId s').
  { unfold data, gets in Hd. cbn in Hd. injection Hd as <-. reflexivity. }
  pose proof (getFirstFCP_fold model) as Hfold. rewrite Htable in Hfold.
  change (mainFrameId (Meta model)) with mainFrame in Hfold.
  split.
  - intros t Hres.
    destruct (sget mainFrame (metricScoresByFrameId s')) as [byNav |] eqn:Hget;
      [| congruence].
    rewrite Hres in Hfold. destruct Hfold as (Hnz & Hin & _).
    pose proof (@uniqueKeys_lookup _ _ _ Hu Hget) as Hnd.
    apply (@fcpTimestamps_In t byNav Hnd) in Hin.
    destruct Hin as (_ & n & metrics & sc & e & Hn & Hsc & He & Hts).
    split; [assumption |].
    assert (Hat : scoreAt mainFrame n FCP (metricScoresByFrameId s') = Some sc).
    { unfold scoreAt, lookupMetrics. rewrite Hget, Hn. exact Hsc. }
    destruct (@finalize_provenance s s' Ht Hrun mainFrame n FCP sc Hat)
      as [(e' & nav & Hin & Hg & Hr & _ & He' & _) | (Hk & _)]; [| discriminate Hk].
    assert (e' = e) by congruence. subst e'.
    exists e, nav, n. split; [assumption |]. split; [exact Hg |].
    split; [| now split].
    destruct Hr as (_ & _ & _ & Hf & _). unfold getFrameIdForPageLoadEvent in Hf.
    cbn [guardOf] in Hg. rewrite Hg in Hf. cbn [orb] in Hf. congruence.
  - intros n sc e Hat He Hnz.
    unfold scoreAt, lookupMetrics in Hat.
    destruct (sget mainFrame (metricScoresByFrameId s')) as [byNav |] eqn:Hget;
      [| discriminate].
    destruct (sget n byNav) as [metrics |] eqn:Hn; [| discriminate].
    pose proof (@uniqueKeys_lookup _ _ _ Hu Hget) as Hnd.
    assert (Hin : In (ts e) (fcpTimestamps byNav)).
    { apply (@fcpTimestamps_In (ts e) byNav Hnd). split; [assumption |].
      now exists n, metrics, sc, e. }
    destruct (getFirstFCPTimestampFromModelData model) as [t |].
    + exists t. split; [reflexivity |]. destruct Hfold as (_ & _ & Hmin). now apply Hmin.
    + rewrite Hfold in Hin. destruct Hin.
Qed.

(** ** Entries of a metrics map in ascending order of timestamp *)

Lemma eventTimestamps_app (m1 m2 : Metrics) :
  eventTimestamps (m1 ++ m2) = eventTimestamps m1 ++ eventTimestamps m2.
Proof using. clear. unfold eventTimestamps. apply flat_map_app. Qed.

Lemma eventTimestamps_mdelete (k : MetricName) (m : Metrics) (P : Z -> Prop) :
  (Forall P (eventTimestamps m) -> Forall P (eventTimestamps (mdelete k m))) /\
  (StronglySorted Z.le (eventTimestamps m) ->
   StronglySorted Z.le (eventTimestamps (mdelete k m))).
Proof using.
  clear. revert P. unfold mdelete.
  induction m as [| [k' sc] m IH]; intros P; cbn [JSMap.delete]; [now split |].
  change (eventTimestamps ((k', sc) :: m))
    with (match event sc with Some e => [ts e] | None => [] end ++ eventTimestamps m).
  destruct (MetricName_eqb k k').
  - split.
    + intros H. apply Forall_app in H. now apply (IH P).
    + intros H. destruct (event sc); cbn [app] in H; [| now apply (IH P)].
      inversion H; subst. now apply (IH P).
  - change (eventTimestamps ((k', sc) :: JSMap.delete MetricName_eqb k m))
      with (match event sc with Some e => [ts e] | None => [] end ++
            eventTimestamps (JSMap.delete MetricName_eqb k m)).
    split.
    + intros H. apply Forall_app in H. destruct H as [H1 H2].
      apply Forall_app. split; [assumption | now apply (IH P)].
    + intros H. destruct (event sc); cbn [app] in *; [| now apply (IH P)].
      inversion H as [| ? ? Hs Hf]; subst. constructor; [now apply (IH P) |].
      now apply (IH (fun b => ts t <= b)).
Qed.

Lemma StronglySorted_snoc (l : list Z) (b x : Z) :
  StronglySorted Z.le l -> Forall (fun t => t <= b) l -> b <= x ->
  StronglySorted Z.le (l ++ [x]).
Proof using.
  clear. induction l as [| a l IH]; intros Hs Hf Hb; cbn [app].
  - constructor; constructor.
  - inversion Hs as [| ? ? Hs' Ha]; subst. inversion Hf as [| ? ? Hab Hf']; subst.
    constructor; [now apply IH |].
    apply Forall_app. split; [assumption |]. constructor; [lia | constructor].
Qed.

Lemma entriesAscending_store (b b' : MicroSeconds) (f n : string) (sc : MetricScore)
    (t : MetricTable) :
  entriesAscending b t -> b <= b' ->
  (forall e, event sc = Some e -> b <= ts e <= b') ->
  entriesAscending b' (storeMetricScoreInTable f n sc t).
Proof using.
  clear. intros Hinv Hb Hsc f' n' metrics. rewrite lookupMetrics_store.
  assert (Hold : forall m, lookupMetrics f' n' t = Some m ->
            StronglySorted Z.le (eventTimestamps m) /\
            Forall (fun x => x <= b') (eventTimestamps m)).
  { intros m Hm. destruct (Hinv _ _ _ Hm) as [H1 H2]. split; [assumption |].
    eapply Forall_impl; [| exact H2]. cbn. intros; lia. }
  destruct (String.eqb_spec f' f) as [-> | Hf]; cbn [andb]; [| apply Hold].
  destruct (String.eqb_spec n' n) as [-> | Hn]; cbn [andb]; [| apply Hold].
  intros [= <-]. rewrite mset_mdelete, eventTimestamps_app.
  set (m0 := match lookupMetrics f n t with Some m => m | None => [] end).
  assert (H0 : StronglySorted Z.le (eventTimestamps m0) /\
               Forall (fun x => x <= b) (eventTimestamps m0)).
  { subst m0. destruct (lookupMetrics f n t) as [m |] eqn:Hm; [now apply (Hinv f n) |].
    split; constructor. }
  destruct H0 as [Hs Hf].
  apply (eventTimestamps_mdelete (metricName sc) m0 (fun x => x <= b)) in Hf.
  apply (eventTimestamps_mdelete (metricName sc) m0 (fun x => x <= b)) in Hs.
  cbn [eventTimestamps flat_map snd]. rewrite app_nil_r.
  destruct (event sc) as [e |] eqn:He.
  - destruct (Hsc e eq_refl) as [H1 H2]. split.
    + now apply StronglySorted_snoc with (b := b).
    + apply Forall_app. split; [| constructor; [assumption | constructor]].
      eapply Forall_impl; [| exact Hf]. cbn. intros; lia.
  - rewrite app_nil_r. split; [assumption |].
    eapply Forall_impl; [| exact Hf]. cbn. intros; lia.
Qed.

Lemma lookupMetrics_metricsWithDefault (f n f' n' : string) (t : MetricTable) :
  lookupMetrics f' n' (snd (metricsWithDefault f n t)) =
  if String.eqb f' f && String.eqb n' n
  then Some (match lookupMetrics f n t with Some m => m | None => [] end)
  else lookupMetrics f' n' t.
Proof using.
  clear. unfold metricsWithDefault, lookupMetrics, getWithDefault, sget, sset.
  destruct (JSMap.get String.eqb f t) as [byNav |] eqn:Ef;
    [destruct (JSMap.get String.eqb n byNav) as [m |] eqn:En |];
    destruct (String.eqb_spec f' f) as [-> | Hf];
    destruct (String.eqb_spec n' n) as [-> | Hn];
    map_simpl; rewrite ?Ef, ?En; map_simpl; try reflexivity.
  all: destruct (String.eqb_spec n' n); [congruence | reflexivity].
Qed.

Lemma entriesAscending_metricsWithDefault (b : MicroSeconds) (f n : string) (t : MetricTable) :
  entriesAscending b t -> entriesAscending b (snd (metricsWithDefault f n t)).
Proof using.
  clear. intros Hinv f' n' metrics. rewrite lookupMetrics_metricsWithDefault.
  destruct (String.eqb f' f && String.eqb n' n); [| apply Hinv].
  intros [= <-]. destruct (lookupMetrics f n t) as [m |] eqn:Hm; [now apply (Hinv f n) |].
  split; constructor.
Qed.

Lemma storedScores_event (nav : TraceEventNavigationStart) (x : TraceEventData)
    (sc : MetricScore) :
  In sc (storedScores nav x) -> event sc = Some x.
Proof.
  unfold storedScores.
  destruct (isTraceEventFirstContentfulPaint x); [now intros [<- | []] |].
  destruct (isTraceEventFirstPaint x); [now intros [<- | []] |].
  destruct (isTraceEventMarkDOMContent x); [now intros [<- | []] |].
  destruct (isTraceEventInteractiveTime x); [now intros [<- | [<- | []]] |].
  destruct (isTraceEventMarkLoad x); [now intros [<- | []] |].
  intros [].
Qed.

Lemma entriesAscending_storeAll (b : MicroSeconds) (x : TraceEventData) (f n : string)
    (scs : list MetricScore) (t : MetricTable) :
  entriesAscending b t -> b <= ts x ->
  (forall sc, In sc scs -> event sc = Some x) ->
  entriesAscending (ts x) (storeAll f n scs t).
Proof using.
  clear. unfold storeAll. revert b t.
  induction scs as [| sc scs IH]; intros b t Hinv Hb Hev; cbn [fold_left].
  - intros f' n' m Hm. destruct (Hinv _ _ _ Hm) as [H1 H2]. split; [assumption |].
    eapply Forall_impl; [| exact H2]. cbn. intros; lia.
  - apply (IH (ts x)); [| lia | intros sc' Hin; apply Hev; now right].
    apply entriesAscending_store with (b := b); [assumption | assumption |].
    intros e He. rewrite (Hev sc (or_introl eq_refl)) in He. injection He as <-. lia.
Qed.

Lemma entriesAscending_step (b : MicroSeconds) (x : TraceEventData) (s s' : State) :
  entriesAscending b (metricScoresByFrameId s) -> b <= ts x ->
  attributePageLoadEvent x s = (Normal tt, s') ->
  entriesAscending (ts x) (metricScoresByFrameId s').
Proof.
  intros Hinv Hb Hrun.
  assert (Hweak : forall t, entriesAscending b t -> entriesAscending (ts x) t).
  { intros t Ht f n m Hm. destruct (Ht _ _ _ Hm) as [H1 H2]. split; [assumption |].
    eapply Forall_impl; [| exact H2]. cbn. intros; lia. }
  apply attribute_normal in Hrun.
  destruct Hrun as [[-> _] | (nav & f & n & Hr & Hrun)]; [now apply Hweak |].
  destruct (isTraceEventLargestContentfulPaintCandidate x) eqn:Hk.
  - unfold scoreEvent in Hrun. revert Hrun. pose proof Hk as Hk'. known_kind Hk'.
    intros Hrun. apply storeLCPCandidate_normal in Hrun.
    destruct Hrun as (T & S & -> & [-> | ->]);
      cbn [metricScoresByFrameId with_metricScoresByFrameId].
    + apply Hweak. now apply entriesAscending_metricsWithDefault.
    + apply entriesAscending_store with (b := b);
        [now apply entriesAscending_metricsWithDefault | assumption |].
      cbn [candidateScore event]. intros e [= <-]. lia.
  - apply scoreEvent_other in Hrun; [| assumption]. subst s'.
    cbn [metricScoresByFrameId with_metricScoresByFrameId].
    apply entriesAscending_storeAll with (b := b); [assumption | assumption |].
    apply storedScores_event.
Qed.

Lemma entriesAscending_loop (l : list TraceEventData) (b : MicroSeconds) (s s' : State) :
  ascendingByTs l -> (forall x, In x l -> b <= ts x) ->
  entriesAscending b (metricScoresByFrameId s) ->
  forEach attributePageLoadEvent l s = (Normal tt, s') ->
  exists b', entriesAscending b' (metricScoresByFrameId s').
Proof.
  revert b s. induction l as [| x l IH]; intros b s Hsorted Hb Hinv Hrun; cbn [forEach] in Hrun.
  - injection Hrun as <-. now exists b.
  - apply bind_normal in Hrun. destruct Hrun as ([] & s1 & Hx & Hrest).
    inversion Hsorted as [| ? ? Hsorted' Hle]; subst.
    apply (IH (ts x) s1); [assumption | | | assumption].
    + intros y Hy. rewrite Forall_forall in Hle. now apply Hle.
    + apply entriesAscending_step with (b := b) (s := s);
        [assumption | apply Hb; now left | assumption].
Qed.

Lemma finalize_entriesAscending (s s' : State) :
  metricScoresByFrameId s = [] ->
  finalize s = (Normal tt, s') ->
  exists b, entriesAscending b (metricScoresByFrameId s').
Proof.
  intros Ht Hrun. apply finalize_normal in Hrun.
  destruct Hrun as (s1 & s2 & mains & Hloop & Hest & _ & _ & ->).
  cbn [metricScoresByFrameId with_allMarkerEvents].
  assert (H1 : exists b, entriesAscending b (metricScoresByFrameId s1)).
  { set (l := sortByTs (pageLoadEventsArray s)) in *.
    set (b := match l with [] => 0 | x :: _ => ts x end).
    apply entriesAscending_loop with (l := l) (b := b) (s := with_pageLoadEventsArray l s).
    - apply sortByTs_sorted.
    - pose proof (sortByTs_sorted (pageLoadEventsArray s)) as Hs. fold l in Hs.
      subst b. destruct l as [| x0 l0]; [intros ? [] |].
      inversion Hs as [| ? ? _ Hle]; subst. rewrite Forall_forall in Hle.
      intros x [<- | Hin]; [lia | now apply Hle].
    - cbn [metricScoresByFrameId with_pageLoadEventsArray]. rewrite Ht.
      intros f n m. discriminate.
    - exact Hloop. }
  revert Hest. unfold estimateTotalBlockingTimes, bind at 1, gets.
  apply forEach_preserves
    with (P := fun s => exists b, entriesAscending b (metricScoresByFrameId s)).
  - intros [f n] sa sb _ [b Hb] Hstep. apply estimate_step in Hstep.
    destruct Hstep as [-> | (fcp & tbt & _ & _ & _ & ->)]; [now exists b |].
    exists b. cbn [metricScoresByFrameId with_metricScoresByFrameId].
    apply entriesAscending_store with (b := b); [assumption | lia |].
    cbn [estimatedTBT event]. discriminate.
  - exact H1.
Qed.

(** X5: after a [finalize] that returns from an empty table, the entries
    of every metrics map come in ascending order of the timestamps of
    their events, estimates (which bear no event) apart: deleting a metric
    before it is set again keeps the maps in the order of the timeline. *)
Theorem X5_metrics_entries_ascend_by_timestamp (s s' : State) :
  metricScoresByFrameId s = [] ->
  finalize s = (Normal tt, s') ->
  forall frameId navigationId metrics,
    lookupMetrics frameId navigationId (metricScoresByFrameId s') = Some metrics ->
    StronglySorted Z.le (eventTimestamps metrics).
Proof.
  intros Ht Hrun f n metrics Hm.
  destruct (@finalize_entriesAscending s s' Ht Hrun) as [b Hb].
  now apply (Hb f n metrics).
Qed.

(** ** The sort of the buffer *)

Lemma insertByTs_stable (t : MicroSeconds) (e : TraceEventData) (l : list TraceEventData) :
  filter (fun x => ts x =? t) (insertByTs e l) = filter (fun x => ts x =? t) (e :: l).
Proof using.
  clear. induction l as [| x l IH]; cbn [insertByTs]; [reflexivity |].
  destruct (Z.leb_spec (ts e) (ts x)) as [Hle | Hgt]; [reflexivity |].
  cbn [filter] in *. rewrite IH.
  destruct (Z.eqb_spec (ts x) t) as [Hx | Hx]; destruct (Z.eqb_spec (ts e) t) as [He | He];
    try reflexivity.
  lia.
Qed.

Lemma sortByTs_stable (t : MicroSeconds) (l : list TraceEventData) :
  filter (fun x => ts x =? t) (sortByTs l) = filter (fun x => ts x =? t) l.
Proof using.
  clear. induction l as [| x l IH]; cbn [sortByTs fold_right]; [reflexivity |].
  fold (sortByTs l). rewrite insertByTs_stable. cbn [filter]. now rewrite IH.
Qed.

Lemma insertByTs_sorted_head (e : TraceEventData) (l : list TraceEventData) :
  Forall (fun x => ts e <= ts x) l -> insertByTs e l = e :: l.
Proof using.
  clear. destruct l as [| x l]; cbn [insertByTs]; [reflexivity |].
  intros H. inversion H; subst. destruct (Z.leb_spec (ts e) (ts x)); [reflexivity | lia].
Qed.

Lemma sortByTs_sorted_id (l : list TraceEventData) : ascendingByTs l -> sortByTs l = l.
Proof using.
  clear. induction l as [| x l IH]; cbn [sortByTs fold_right]; [reflexivity |].
  intros H. inversion H; subst. fold (sortByTs l). rewrite IH by assumption.
  now apply insertByTs_sorted_head.
Qed.

(** X6: a [finalize] that returns has sorted the buffer in place: the
    buffer holds the events it held, in ascending order of timestamp, the
    events of one timestamp in the order they arrived in; sorting it again
    changes nothing; and a buffer that was in ascending order is as it
    was. *)
Theorem X6_finalize_sorts_the_buffer (s s' : State) :
  finalize s = (Normal tt, s') ->
  pageLoadEventsArray s' = sortByTs (pageLoadEventsArray s) /\
  Permutation (pageLoadEventsArray s') (pageLoadEventsArray s) /\
  ascendingByTs (pageLoadEventsArray s') /\
  (forall t,
     filter (fun e => ts e =? t) (pageLoadEventsArray s') =
     filter (fun e => ts e =? t) (pageLoadEventsArray s)) /\
  sortByTs (pageLoadEventsArray s') = pageLoadEventsArray s' /\
  (ascendingByTs (pageLoadEventsArray s) -> pageLoadEventsArray s' = pageLoadEventsArray s).
Proof.
  intros Hrun. apply finalize_normal in Hrun.
  destruct Hrun as (s1 & s2 & mains & _ & _ & Hb & _ & ->).
  cbn [pageLoadEventsArray with_allMarkerEvents]. rewrite Hb.
  split; [reflexivity |]. split; [apply sortByTs_perm |]. split; [apply sortByTs_sorted |].
  split; [intros t; apply sortByTs_stable |].
  split; [apply sortByTs_sorted_id, sortByTs_sorted | apply sortByTs_sorted_id].
Qed.

Lemma strictly_ascending (l : list TraceEventData) :
  ascendingByTs l -> NoDup (List.map ts l) ->
  StronglySorted (fun a b => ts a < ts b) l.
Proof using.
  clear. induction l as [| x l IH]; intros Hs Hnd; [constructor |].
  inversion Hs as [| ? ? Hs' Hle]; subst. cbn [List.map] in Hnd.
  inversion Hnd as [| ? ? Hnotin Hnd']; subst.
  constructor; [now apply IH |].
  rewrite Forall_forall in *. intros y Hy. specialize (Hle y Hy).
  assert (ts x <> ts y); [| lia].
  intros Heq. apply Hnotin. rewrite Heq. now apply in_map.
Qed.

Lemma strictly_ascending_unique (l1 l2 : list TraceEventData) :
  StronglySorted (fun a b => ts a < ts b) l1 ->
  StronglySorted (fun a b => ts a < ts b) l2 ->
  Permutation l1 l2 -> l1 = l2.
Proof using.
  clear. revert l2. induction l1 as [| a l1 IH]; intros l2 H1 H2 Hp.
  - apply Permutation_nil in Hp. now subst.
  - destruct l2 as [| b l2]; [symmetry in Hp; now apply Permutation_nil in Hp |].
    inversion H1 as [| ? ? H1' Ha]; subst. inversion H2 as [| ? ? H2' Hb]; subst.
    rewrite Forall_forall in Ha, Hb.
    assert (a = b).
    { assert (Hina : In a (b :: l2)) by (eapply Permutation_in; [exact Hp | now left]).
      assert (Hinb : In b (a :: l1))
        by (eapply Permutation_in; [symmetry; exact Hp | now left]).
      destruct Hina as [-> | Hina]; [reflexivity |].
      destruct Hinb as [-> | Hinb]; [reflexivity |].
      specialize (Ha _ Hinb). specialize (Hb _ Hina). lia. }
    subst b. f_equal. apply IH; [assumption | assumption |].
    now apply Permutation_cons_inv in Hp.
Qed.

Lemma sortByTs_arrival_order (l l' : list TraceEventData) :
  Permutation l l' -> NoDup (List.map ts l) -> sortByTs l = sortByTs l'.
Proof using.
  clear. intros Hp Hnd. apply strictly_ascending_unique.
  - apply strictly_ascending; [apply sortByTs_sorted |].
    eapply Permutation_NoDup; [| exact Hnd].
    apply Permutation_map. symmetry. apply sortByTs_perm.
  - apply strictly_ascending; [apply sortByTs_sorted |].
    eapply Permutation_NoDup; [| exact Hnd].
    apply Permutation_map. rewrite sortByTs_perm. exact Hp.
  - rewrite !sortByTs_perm. exact Hp.
Qed.

Lemma finalize_reads_sorted_buffer (l l' : list TraceEventData) (s : State) :
  sortByTs l = sortByTs l' ->
  finalize (with_pageLoadEventsArray l s) = finalize (with_pageLoadEventsArray l' s).
Proof.
  intros Heq. unfold finalize, bind at 1, modify.
  cbn [pageLoadEventsArray with_pageLoadEventsArray]. rewrite Heq.
  unfold with_pageLoadEventsArray at 1 3. cbn. unfold bind at 1. symmetry. unfold bind at 1.
  reflexivity.
Qed.

Lemma run_from_reset (traceEvents : list TraceEventData) (s : State) :
  (reset ;;; handleEvents traceEvents ;;; finalize ;;; data) s =
  (finalize ;;; data)
    (with_pageLoadEventsArray (filter eventIsPageLoadEvent traceEvents) emptyState).
Proof.
  unfold bind at 1. change (reset s) with (Normal tt, emptyState). cbv iota beta.
  unfold bind at 1. rewrite handleEvents_buffer. reflexivity.
Qed.

Lemma ascending_same_timestamps (l1 l2 : list TraceEventData) :
  ascendingByTs l1 -> ascendingByTs l2 ->
  (forall t, filter (fun x => ts x =? t) l1 = filter (fun x => ts x =? t) l2) ->
  l1 = l2.
Proof using.
  clear. revert l2. induction l1 as [| a l1 IH]; intros l2 H1 H2 H.
  - destruct l2 as [| b l2]; [reflexivity |].
    specialize (H (ts b)). cbn [filter] in H. rewrite Z.eqb_refl in H. discriminate H.
  - destruct l2 as [| b l2].
    { specialize (H (ts a)). cbn [filter] in H. rewrite Z.eqb_refl in H. discriminate H. }
    inversion H1 as [| ? ? H1' Ha]; subst. inversion H2 as [| ? ? H2' Hb]; subst.
    rewrite Forall_forall in Ha, Hb.
    assert (Hts : ts a = ts b).
    { destruct (Z.eq_dec (ts a) (ts b)) as [Heq | Hne]; [assumption | exfalso].
      pose proof (H (ts a)) as Hta. pose proof (H (ts b)) as Htb.
      cbn [filter] in Hta, Htb. rewrite Z.eqb_refl in Hta, Htb.
      destruct (Z.eqb_spec (ts b) (ts a)) as [Heq | _]; [now apply Hne |].
      destruct (Z.eqb_spec (ts a) (ts b)) as [Heq | _]; [now apply Hne |].
      assert (Hina : In a l2).
      { apply (proj1 (filter_In (fun x => ts x =? ts a) a l2)). rewrite <- Hta. now left. }
      assert (Hinb : In b l1).
      { apply (proj1 (filter_In (fun x => ts x =? ts b) b l1)). rewrite Htb. now left. }
      specialize (Ha _ Hinb). specialize (Hb _ Hina). lia. }
    assert (Hab : a = b).
    { specialize (H (ts a)). cbn [filter] in H. rewrite <- Hts, Z.eqb_refl in H.
      now injection H. }
    subst b. f_equal. apply IH; [assumption | assumption |].
    intros t. specialize (H t). cbn [filter] in H.
    destruct (ts a =? t); [now injection H | assumption].
Qed.

Lemma sortByTs_same_timestamps (l l' : list TraceEventData) :
  (forall t, filter (fun x => ts x =? t) l = filter (fun x => ts x =? t) l') ->
  sortByTs l = sortByTs l'.
Proof using.
  clear. intros H. apply ascending_same_timestamps; try apply sortByTs_sorted.
  intros t. rewrite !sortByTs_stable. apply H.
Qed.

(** X7: the outcome of a whole run (reset, the events of the trace one by
    one, finalize, data) is the same completion, the same data and the
    same final state for two traces, whatever the handler held before each
    run, in each of three cases: the traces have the same page-load events
    in the same order, whatever their other events; the page-load events
    of every one timestamp are the same in both traces and arrive in the
    same order, however events of different timestamps are interleaved;
    the page-load events of one trace are those of the other in another
    order and their timestamps are distinct. *)
Theorem X7_outcome_is_independent_of_arrival_order :
  (forall (traceEvents traceEvents' : list TraceEventData) (s s' : State),
     filter eventIsPageLoadEvent traceEvents = filter eventIsPageLoadEvent traceEvents' ->
     (reset ;;; handleEvents traceEvents ;;; finalize ;;; data) s =
     (reset ;;; handleEvents traceEvents' ;;; finalize ;;; data) s') /\
  (forall (traceEvents traceEvents' : list TraceEventData) (s s' : State),
     (forall t,
        filter (fun e => ts e =? t) (filter eventIsPageLoadEvent traceEvents) =
        filter (fun e => ts e =? t) (filter eventIsPageLoadEvent traceEvents')) ->
     (reset ;;; handleEvents traceEvents ;;; finalize ;;; data) s =
     (reset ;;; handleEvents traceEvents' ;;; finalize ;;; data) s') /\
  (forall (traceEvents traceEvents' : list TraceEventData) (s s' : State),
     Permutation (filter eventIsPageLoadEvent traceEvents)
                 (filter eventIsPageLoadEvent traceEvents') ->
     NoDup (List.map ts (filter eventIsPageLoadEvent traceEvents)) ->
     (reset ;;; handleEvents traceEvents ;;; finalize ;;; data) s =
     (reset ;;; handleEvents traceEvents' ;;; finalize ;;; data) s').
Proof.
  assert (Hsorted : forall (traceEvents traceEvents' : list TraceEventData) (s s' : State),
            sortByTs (filter eventIsPageLoadEvent traceEvents) =
            sortByTs (filter eventIsPageLoadEvent traceEvents') ->
            (reset ;;; handleEvents traceEvents ;;; finalize ;;; data) s =
            (reset ;;; handleEvents traceEvents' ;;; finalize ;;; data) s').
  { intros l l' s s' Heq. rewrite !run_from_reset. unfold bind.
    rewrite (@finalize_reads_sorted_buffer _ (filter eventIsPageLoadEvent l') emptyState Heq).
    reflexivity. }
  split; [| split].
  - intros l l' s s' Heq. apply Hsorted. now rewrite Heq.
  - intros l l' s s' Heq. apply Hsorted. now apply sortByTs_same_timestamps.
  - intros l l' s s' Hp Hnd. apply Hsorted. now apply sortByTs_arrival_order.
Qed.

(** ** The errors of [finalize] *)

Lemma bind_throw (A B : Type) (m : M A) (k : A -> M B) (s s' : State) (msg : string) :
  bind m k s = (Throw msg, s') ->
  m s = (Throw msg, s') \/
  exists a s1, m s = (Normal a, s1) /\ k a s1 = (Throw msg, s').
Proof using.
  clear. unfold bind. destruct (m s) as [[a | msg0] s1]; [right; eauto |].
  intros [= <- <-]. now left.
Qed.

Lemma forEach_throw (A : Type) (body : A -> M unit) (l : list A) (s s' : State)
    (msg : string) :
  forEach body l s = (Throw msg, s') ->
  exists done x rest s1,
    l = done ++ x :: rest /\ forEach body done s = (Normal tt, s1) /\
    body x s1 = (Throw msg, s').
Proof using.
  clear. revert s. induction l as [| y l IH]; intros s; cbn [forEach].
  - unfold ret. discriminate.
  - intros H. apply bind_throw in H. destruct H as [H | ([] & s1 & Hy & Hrest)].
    + exists [], y, l, s. split; [reflexivity |]. split; [reflexivity | assumption].
    + destruct (IH _ Hrest) as (done & x & rest & s2 & -> & Hdone & Hx).
      exists (y :: done), x, rest, s2. split; [reflexivity |]. split; [| assumption].
      cbn [forEach]. unfold bind. rewrite Hy. exact Hdone.
Qed.

Lemma filterC_throw (A : Type) (p : A -> Completion bool) (l : list A) (msg : string) :
  filterC p l = Throw msg -> exists x, In x l /\ p x = Throw msg.
Proof using.
  clear. induction l as [| x l IH]; cbn [filterC]; [discriminate |].
  unfold bindC. destruct (p x) as [b | msg0] eqn:E.
  - destruct (filterC p l) as [rest | msg1]; [discriminate |].
    intros [= <-]. destruct (IH eq_refl) as (y & Hy & Hp). exists y.
    split; [now right | assumption].
  - intros [= <-]. exists x. split; [now left | assumption].
Qed.

Lemma getFrameId_throw (e : TraceEventData) (msg : string) :
  eventIsPageLoadEvent e = true ->
  getFrameIdForPageLoadEvent e = Throw msg ->
  (isTraceEventMarkDOMContent e = true \/ isTraceEventMarkLoad e = true) /\
  falsy_string (data_field data_frame e) = true /\
  msg = "MarkDOMContent unexpectedly had no frame ID.".
Proof using.
  clear. intros Hpl. apply kind_cases in Hpl. unfold getFrameIdForPageLoadEvent.
  destruct Hpl as [Hk | [Hk | [Hk | [Hk | [Hk | Hk]]]]]; known_kind Hk;
    try discriminate;
    (destruct (data_field data_frame e) as [frameId |]; cbn [falsy_string];
     [destruct (String.eqb frameId "") |]; [| discriminate |]);
    intros [= <-]; (split; [tauto |]); split; reflexivity.
Qed.

Lemma getNavigation_throw (e : TraceEventData) (msg : string) :
  eventIsPageLoadEvent e = true ->
  getNavigationForPageLoadEvent e = Throw msg ->
  ((isTraceEventFirstContentfulPaint e = true \/ isTraceEventFirstPaint e = true \/
    isTraceEventLargestContentfulPaintCandidate e = true) /\
   falsy_string (data_field data_navigationId e) = true /\
   msg = "Trace event unexpectedly had no navigation ID.") \/
  ((isTraceEventMarkDOMContent e = true \/ isTraceEventMarkLoad e = true) /\
   falsy_string (data_field data_frame e) = true /\
   msg = "MarkDOMContent unexpectedly had no frame ID.").
Proof.
  intros Hpl Hthrow.
  destruct (isTraceEventFirstContentfulPaint e || isTraceEventLargestContentfulPaintCandidate e ||
            isTraceEventFirstPaint e) eqn:Hk.
  - left. unfold getNavigationForPageLoadEvent in Hthrow. rewrite Hk in Hthrow.
    split.
    { apply orb_true_iff in Hk. destruct Hk as [Hk | Hk]; [| tauto].
      apply orb_true_iff in Hk. tauto. }
    destruct (data_field data_navigationId e) as [n |]; cbn [falsy_string].
    + destruct (String.eqb n ""); [| discriminate]. injection Hthrow as <-. now split.
    + injection Hthrow as <-. now split.
  - right. unfold getNavigationForPageLoadEvent in Hthrow. rewrite Hk in Hthrow.
    destruct (isTraceEventMarkDOMContent e || isTraceEventInteractiveTime e ||
              isTraceEventLayoutShift e || isTraceEventMarkLoad e) eqn:Hk2.
    + unfold bindC in Hthrow.
      destruct (getFrameIdForPageLoadEvent e) as [f | msg0] eqn:Hf; [discriminate |].
      injection Hthrow as <-. now apply getFrameId_throw.
    + exfalso. apply kind_cases in Hpl. revert Hk Hk2.
      destruct Hpl as [H | [H | [H | [H | [H | H]]]]]; known_kind H; discriminate.
Qed.

Lemma scoreEvent_throw (f n : string) (nav : TraceEventNavigationStart) (e : TraceEventData)
    (s s' : State) (msg : string) :
  eventIsPageLoadEvent e = true ->
  scoreEvent f n nav e s = (Throw msg, s') ->
  isTraceEventLargestContentfulPaintCandidate e = true /\
  ((falsy_number (data_field data_candidateIndex e) = true /\
    msg = "Largest Contenful Paint unexpectedly had no candidateIndex.") \/
   exists last, scoreAt f n LCP (metricScoresByFrameId s) = Some last /\ event last = None).
Proof.
  intros Hpl. apply kind_cases in Hpl. unfold scoreEvent.
  destruct Hpl as [Hk | [Hk | [Hk | [Hk | [Hk | Hk]]]]]; known_kind Hk;
    try (unfold storeMetricScore, modify, bind; discriminate).
  split; [reflexivity |]. revert H. unfold storeLCPCandidate.
  destruct (data_field data_candidateIndex e) as [i |]; cbn [falsy_number];
    [| intros [= <- <-]; now left].
  destruct (i =? 0); [intros [= <- <-]; now left |].
  unfold bind at 1.
  pose proof (metricsWithDefault_fst f n (metricScoresByFrameId s)) as Hfst.
  destruct (metricsWithDefault f n (metricScoresByFrameId s)) as [metrics table] eqn:Hmwd.
  cbn [fst] in Hfst.
  destruct (mget LCP metrics) as [last |] eqn:Hlast;
    [| unfold storeMetricScore, modify, bind; discriminate].
  destruct (eventOf last) as [lastEvent |] eqn:Hev.
  - destruct (negb (isTraceEventLargestContentfulPaintCandidate lastEvent));
      [unfold ret; discriminate |].
    destruct (data_field data_candidateIndex lastEvent) as [i0 |]; [| unfold ret; discriminate].
    destruct (i0 =? 0); [unfold ret; discriminate |].
    destruct (i0 <? i); [| unfold ret; discriminate].
    unfold storeMetricScore, modify, bind. discriminate.
  - intros _. right. exists last. split; [| exact Hev].
    unfold scoreAt. destruct (lookupMetrics f n (metricScoresByFrameId s)) as [m |].
    + subst m. exact Hlast.
    + subst metrics. discriminate Hlast.
Qed.

Lemma attribute_throw (e : TraceEventData) (s s' : State) (msg : string) :
  attributePageLoadEvent e s = (Throw msg, s') ->
  getNavigationForPageLoadEvent e = Throw msg \/
  (exists nav,
     getNavigationForPageLoadEvent e = Normal (Some nav) /\
     falsy_string (nav_navigationId nav) = true /\
     msg = "Navigation event unexpectedly had no navigation ID.") \/
  getFrameIdForPageLoadEvent e = Throw msg \/
  exists nav f n, reachesScoring e nav f n /\ scoreEvent f n nav e s = (Throw msg, s').
Proof.
  intros Hrun.
  destruct (getNavigationForPageLoadEvent e) as [[nav |] | msg0] eqn:Hnav.
  2: { unfold attributePageLoadEvent, bind, lift in Hrun. rewrite Hnav in Hrun.
       discriminate. }
  2: { left. unfold attributePageLoadEvent, bind, lift in Hrun. rewrite Hnav in Hrun.
       now injection Hrun as <- _. }
  right.
  pose proof Hrun as Hrun0.
  unfold attributePageLoadEvent, bind, lift in Hrun. rewrite Hnav in Hrun.
  unfold storePageLoadMetricAgainstNavigationId in Hrun.
  destruct (nav_navigationId nav) as [n |] eqn:Hid.
  2: { left. exists nav. split; [reflexivity |]. rewrite Hid.
       injection Hrun as <- _. now split. }
  destruct (String.eqb_spec n "") as [-> | Hne].
  { left. exists nav. split; [reflexivity |]. rewrite Hid.
    injection Hrun as <- _. now split. }
  right. unfold bind, lift in Hrun.
  destruct (getFrameIdForPageLoadEvent e) as [f | msg0] eqn:Hfr;
    [| left; now injection Hrun as <- _].
  right.
  destruct (sget f (rendererProcessesByFrame metaHandlerData)) as [procs |] eqn:Hp;
    [| discriminate].
  destruct (zget (pid e) procs) as [pd |] eqn:Hpd; [| discriminate].
  destruct (negb ((ts e >=? window_min (window pd)) && (ts e <=? window_max (window pd))))
    eqn:Hw; [discriminate |].
  exists nav, f, n.
  assert (Hr : reachesScoring e nav f n).
  { split; [assumption |]. split; [assumption |]. split; [assumption |].
    split; [assumption |].
    exists procs, pd. split; [assumption |]. split; [assumption |].
    apply negb_false_iff, andb_true_iff in Hw. destruct Hw as [Hw1 Hw2].
    apply Z.geb_le in Hw1. apply Z.leb_le in Hw2. lia. }
  split; [assumption |]. now rewrite <- (attribute_reaches s Hr).
Qed.

Lemma blockingTimeLoop_throw (evs : list RendererEvent) (nds : JSMap.t Z RendererEntryNode)
    (fcpTs tbt : MicroSeconds) (rootIds : list Z) (msg : string) :
  blockingTimeLoop evs nds fcpTs tbt rootIds = Throw msg ->
  exists rootId,
    In rootId rootIds /\
    ((zget rootId nds = None /\
      msg = ("Node not found for id: " ++ numberToString rootId)%string) \/
     exists node,
       zget rootId nds = Some node /\ array_get evs (eventIndex node) = None /\
       msg = ("Event not found for index: " ++ numberToString (eventIndex node))%string).
Proof using.
  clear. revert tbt. induction rootIds as [| rootId rest IH]; intros tbt;
    cbn [blockingTimeLoop]; [discriminate |].
  unfold bindC. destruct (blockingTimeStep evs nds fcpTs tbt rootId) as [tbt' | msg0] eqn:Hstep.
  - intros H. destruct (IH _ H) as (r & Hin & Hr). exists r. split; [now right | assumption].
  - intros [= <-]. exists rootId. split; [now left |].
    unfold blockingTimeStep in Hstep.
    destruct (zget rootId nds) as [node |]; [| injection Hstep as <-; now left].
    right. exists node. split; [reflexivity |].
    destruct (array_get evs (eventIndex node)) as [task |];
      [| injection Hstep as <-; now split].
    exfalso.
    destruct (negb (String.eqb (task_name task) RunTask) || isTraceEventInstant task);
      [discriminate |].
    destruct task as [nm t0 | nm t0 d0]; [discriminate |].
    destruct (t0 + d0 <? fcpTs); discriminate.
Qed.

Lemma estimate_throw (f n : string) (s s' : State) (msg : string) :
  estimateTotalBlockingTime f n s = (Throw msg, s') ->
  exists fcp fcpEvent renderer,
    scoreAt f n FCP (metricScoresByFrameId s) = Some fcp /\
    event fcp = Some fcpEvent /\
    zget (pid fcpEvent) (processes rendererHandlerData) = Some renderer /\
    rendererFault renderer msg.
Proof.
  unfold estimateTotalBlockingTime, bind at 1, gets, scoreAt.
  destruct (lookupMetrics f n (metricScoresByFrameId s)) as [metrics |];
    [| unfold ret; discriminate].
  destruct (mget TBT metrics) as [tbt0 |]; [unfold ret; discriminate |].
  destruct (mget FCP metrics) as [fcp |]; [| unfold ret; discriminate].
  destruct (event fcp) as [fcpEvent |] eqn:Hev; [| unfold ret; discriminate].
  destruct (zget (pid fcpEvent) (processes rendererHandlerData)) as [renderer |] eqn:Hp;
    [| unfold ret; discriminate].
  intros Hrun. exists fcp, fcpEvent, renderer.
  split; [reflexivity |]. split; [assumption |]. split; [assumption |].
  destruct (find isMainThread (JSMap.values (threads renderer))) as [mainThread |] eqn:Hm.
  2: { injection Hrun as <- _. now apply NoMainThread. }
  destruct (tree mainThread) as [mainThreadTree |] eqn:Ht.
  2: { injection Hrun as <- _. now apply NoMainThreadTree with (mainThread := mainThread). }
  unfold bind, lift in Hrun.
  destruct (blockingTimeLoop _ _ _ _ _) as [tbt | msg0] eqn:Hloop;
    [unfold storeMetricScore, modify in Hrun; discriminate |].
  injection Hrun as <- _. apply blockingTimeLoop_throw in Hloop.
  destruct Hloop as (rootId & Hin & [[Hnode ->] | (node & Hnode & Hevent & ->)]).
  - now apply NodeNotFound with (mainThread := mainThread) (mainThreadTree := mainThreadTree).
  - now apply EventNotFound with (mainThread := mainThread) (mainThreadTree := mainThreadTree)
                                 (rootId := rootId).
Qed.

Lemma attribution_invariants (l : list TraceEventData) (s s1 : State) :
  metricScoresByFrameId s = [] ->
  forEach attributePageLoadEvent l s = (Normal tt, s1) ->
  provenanceInvariant l s1 /\ uniqueKeys (metricScoresByFrameId s1) /\
  pageLoadEventsArray s1 = pageLoadEventsArray s.
Proof.
  intros Ht Hloop. split; [| split].
  - revert Hloop. apply forEach_invariant.
    + intros done x sa sb _. apply provenanceInvariant_step.
    + intros f n k sc. rewrite Ht. discriminate.
  - revert Hloop.
    apply forEach_preserves with (P := fun s => uniqueKeys (metricScoresByFrameId s)).
    + intros x sa sb _. apply attribute_uniqueKeys.
    + rewrite Ht. apply uniqueKeys_nil.
  - revert Hloop.
    apply forEach_preserves with (P := fun s1 => pageLoadEventsArray s1 = pageLoadEventsArray s);
      [| reflexivity].
    intros x sa sb _ Ha Hstep. rewrite <- Ha. now apply attribute_buffer with (x := x).
Qed.

Lemma estimation_invariants (l : list TraceEventData) (keys : list (string * string))
    (s1 s2 : State) :
  provenanceOrEstimate l s1 -> uniqueKeys (metricScoresByFrameId s1) ->
  forEach (fun key : string * string => estimateTotalBlockingTime (fst key) (snd key))
          keys s1 = (Normal tt, s2) ->
  provenanceOrEstimate l s2 /\ uniqueKeys (metricScoresByFrameId s2) /\
  pageLoadEventsArray s2 = pageLoadEventsArray s1.
Proof.
  intros Hp Hu.
  apply forEach_preserves
    with (P := fun s2 => provenanceOrEstimate l s2 /\ uniqueKeys (metricScoresByFrameId s2) /\
                         pageLoadEventsArray s2 = pageLoadEventsArray s1);
    [| split; [exact Hp | split; [exact Hu | reflexivity]]].
  intros [f n] sa sb _ (Ha & Hb & Hc) Hstep. split; [| split].
  - now apply provenanceOrEstimate_step with (f := f) (n := n) (s := sa).
  - apply estimate_step in Hstep.
    destruct Hstep as [-> | (fcp & tbt & _ & _ & _ & ->)]; [assumption |].
    cbn [metricScoresByFrameId with_metricScoresByFrameId]. now apply uniqueKeys_store.
  - apply estimate_step in Hstep.
    destruct Hstep as [-> | (fcp & tbt & _ & _ & _ & ->)]; assumption.
Qed.

Lemma provenanceInvariant_weaken (l : list TraceEventData) (s : State) :
  provenanceInvariant l s -> provenanceOrEstimate l s.
Proof. intros H f n k sc Hsc. left. now apply H. Qed.

Lemma sublist_In (A : Type) (done rest : list A) (x y : A) :
  In y (done ++ [x]) -> In y (done ++ x :: rest).
Proof using.
  clear. intros H. apply in_app_or in H. apply in_or_app.
  destruct H as [H | [<- | []]]; [now left | right; now left].
Qed.

(** The reasons a [finalize] run from an empty table on a buffer of
    page-load events can fail for. *)
Lemma finalize_error (s s' : State) (msg : string) :
  metricScoresByFrameId s = [] ->
  (forall e, In e (pageLoadEventsArray s) -> eventIsPageLoadEvent e = true) ->
  finalize s = (Throw msg, s') ->
  errorCause (pageLoadEventsArray s) msg.
Proof.
  intros Ht Hpl Hrun. unfold finalize in Hrun.
  set (l := sortByTs (pageLoadEventsArray s)) in *.
  assert (Hin : forall e, In e l -> In e (pageLoadEventsArray s))
    by (intros e; apply sortByTs_In).
  apply bind_throw in Hrun. destruct Hrun as [Hrun | ([] & s0 & H0 & Hrun)]; [discriminate |].
  unfold modify in H0. injection H0 as <-.
  apply bind_throw in Hrun. destruct Hrun as [Hrun | (evs & s0' & H0 & Hrun)]; [discriminate |].
  unfold gets in H0. injection H0 as <- <-.
  cbn [pageLoadEventsArray with_pageLoadEventsArray] in Hrun. fold l in Hrun.
  set (s0 := with_pageLoadEventsArray l s) in *.
  assert (Ht0 : metricScoresByFrameId s0 = []) by exact Ht.
  apply bind_throw in Hrun. destruct Hrun as [Hrun | ([] & s1 & H1 & Hrun)].
  { (* the attribution loop *)
    apply forEach_throw in Hrun.
    destruct Hrun as (done & x & rest & sd & Hl & Hdone & Hx).
    destruct (@attribution_invariants done s0 sd Ht0 Hdone) as (Hprov & _ & _).
    assert (Hxin : In x (pageLoadEventsArray s)).
    { apply Hin. rewrite Hl. apply in_or_app. right. now left. }
    pose proof (Hpl x Hxin) as Hxpl.
    apply attribute_throw in Hx.
    destruct Hx as [Hx | [(nav & Hnav & Hid & ->) | [Hx | (nav & f & n & Hr & Hx)]]].
    - apply getNavigation_throw in Hx; [| assumption].
      destruct Hx as [(Hk & Hid & ->) | (Hk & Hid & ->)].
      + now apply MissingNavigationId with (e := x).
      + now apply MissingFrameId with (e := x).
    - now apply NavigationWithoutId with (e := x) (nav := nav).
    - apply getFrameId_throw in Hx; [| assumption].
      destruct Hx as (Hk & Hid & ->). now apply MissingFrameId with (e := x).
    - apply scoreEvent_throw in Hx; [| assumption].
      destruct Hx as (Hk & [(Hidx & ->) | (last & Hlast & Hnone)]).
      + now apply MissingCandidateIndex with (e := x) (nav := nav) (frameId := f)
                                             (navigationId := n).
      + exfalso. destruct (Hprov f n LCP last Hlast) as (e' & nav' & _ & _ & _ & _ & He' & _).
        congruence. }
  destruct (@attribution_invariants l s0 s1 Ht0 H1) as (Hprov & Hu & Hbuf).
  apply bind_throw in Hrun. destruct Hrun as [Hrun | ([] & s2 & H2 & Hrun)].
  { (* the estimation loop *)
    unfold estimateTotalBlockingTimes, bind at 1, gets in Hrun.
    apply forEach_throw in Hrun.
    destruct Hrun as (done & [f n] & rest & sd & Hl & Hdone & Hx).
    destruct (@estimation_invariants l done s1 sd (provenanceInvariant_weaken Hprov) Hu Hdone)
      as (Hprov' & _ & _).
    cbn [fst snd] in Hx. apply estimate_throw in Hx.
    destruct Hx as (fcp & fcpEvent & renderer & Hfcp & Hev & Hproc & Hfault).
    destruct (Hprov' f n FCP fcp Hfcp)
      as [(e & nav & He & Hg & Hr & _ & He' & _) | (Hk & _)]; [| discriminate Hk].
    assert (e = fcpEvent) by congruence. subst e.
    apply FaultyRenderer with (e := fcpEvent) (nav := nav) (frameId := f) (navigationId := n)
                              (renderer := renderer);
      [now apply Hin | exact Hg | assumption | assumption | assumption]. }
  unfold estimateTotalBlockingTimes, bind at 1, gets in H2.
  destruct (@estimation_invariants l _ s1 s2 (provenanceInvariant_weaken Hprov) Hu H2)
    as (Hprov2 & Hu2 & Hbuf2).
  apply bind_throw in Hrun. destruct Hrun as [Hrun | (lcps & s2' & H3 & Hrun)]; [discriminate |].
  unfold gets in H3. injection H3 as <- <-.
  apply bind_throw in Hrun. destruct Hrun as [Hrun | (evs2 & s2' & H3 & Hrun)]; [discriminate |].
  unfold gets in H3. injection H3 as <- <-.
  apply bind_throw in Hrun. destruct Hrun as [Hrun | (mains & s2' & H3 & Hrun)];
    [| discriminate].
  unfold lift in Hrun. injection Hrun as Hrun _.
  apply filterC_throw in Hrun. destruct Hrun as (x & Hx & Hthrow).
  apply filter_In in Hx. destruct Hx as [Hx Hmarker].
  unfold bindC in Hthrow.
  destruct (getFrameIdForPageLoadEvent x) as [fr | msg0] eqn:Hfr; [discriminate |].
  injection Hthrow as <-.
  assert (Hxin : In x (pageLoadEventsArray s)).
  { apply in_app_or in Hx. destruct Hx as [Hx | Hx].
    - apply (gatherFinalLCPEvents_In x Hu2) in Hx. destruct Hx as (f & n & sc & Hsc & Hev).
      destruct (Hprov2 f n LCP sc Hsc) as [(e & nav & He & _ & _ & _ & He' & _) | (Hk & _)];
        [| discriminate Hk].
      assert (e = x) by congruence. subst e. now apply Hin.
    - apply filter_In in Hx. destruct Hx as [Hx _]. rewrite Hbuf2, Hbuf in Hx.
      now apply Hin. }
  apply getFrameId_throw in Hfr; [| now apply Hpl].
  destruct Hfr as (Hk & Hid & ->). now apply MissingFrameId with (e := x).
Qed.

Lemma rendererFault_incomplete (renderer : RendererProcess) (msg : string) :
  rendererFault renderer msg -> ~ rendererComplete renderer.
Proof using.
  clear. intros Hfault (mt & tr & Hm & Ht & Hroots).
  destruct Hfault as [H | mt' H H' | mt' tr' r H H' Hin Hnode | mt' tr' r node H H' Hin Hnode Hev];
    try congruence.
  - assert (mt' = mt) by congruence. subst mt'. assert (tr' = tr) by congruence. subst tr'.
    destruct (Hroots r Hin) as (node & task & Hn & _). congruence.
  - assert (mt' = mt) by congruence. subst mt'. assert (tr' = tr) by congruence. subst tr'.
    destruct (Hroots r Hin) as (node' & task & Hn & He). congruence.
Qed.

Lemma errorCause_message (l : list TraceEventData) (msg : string) :
  errorCause l msg ->
  msg <> "Unexpected event type: [object Object]" /\
  msg <> "TypeError: Cannot read properties of undefined (reading 'name')".
Proof.
  intros [e _ _ _ | e _ _ _ | e nav _ _ _ | e nav f n _ _ _ _ | e nav f n renderer m _ _ _ _ Hf];
    try (split; discriminate).
  destruct Hf; split; cbn; discriminate.
Qed.

Lemma run_to_finalize (traceEvents : list TraceEventData) (s : State) :
  (reset ;;; handleEvents traceEvents ;;; finalize) s =
  finalize (with_pageLoadEventsArray (filter eventIsPageLoadEvent traceEvents) emptyState).
Proof.
  unfold bind at 1. change (reset s) with (Normal tt, emptyState). cbv iota beta.
  unfold bind at 1. rewrite handleEvents_buffer. reflexivity.
Qed.

(** X8: when a whole run (reset, the events of the trace, finalize) fails,
    the error names its cause among the page-load events of the trace: an
    FCP, FP or LCP-candidate event without navigation id; a MarkDOMContent
    or MarkLoad event without frame id; an event whose navigation has no
    id; a candidate that passed every check and has no index; or an FCP
    event that was scored and whose renderer process has no main thread,
    no tree for it, a root without node or a node without event.  The run
    never fails with the error of an unexpected kind of event, and never
    on reading the event of a stored LCP score. *)
Theorem X8_every_error_of_a_run_has_a_cause (traceEvents : list TraceEventData)
    (s s' : State) (msg : string) :
  (reset ;;; handleEvents traceEvents ;;; finalize) s = (Throw msg, s') ->
  errorCause (filter eventIsPageLoadEvent traceEvents) msg /\
  msg <> "Unexpected event type: [object Object]" /\
  msg <> "TypeError: Cannot read properties of undefined (reading 'name')".
Proof.
  rewrite run_to_finalize. intros Hrun.
  assert (Hcause : errorCause (filter eventIsPageLoadEvent traceEvents) msg).
  { apply (@finalize_error
             (with_pageLoadEventsArray (filter eventIsPageLoadEvent traceEvents) emptyState)
             s' msg); [reflexivity | | exact Hrun].
    cbn [pageLoadEventsArray with_pageLoadEventsArray]. intros e He.
    now apply filter_In in He. }
  split; [exact Hcause |].
  now apply errorCause_message with (l := filter eventIsPageLoadEvent traceEvents).
Qed.

Lemma wellFormedTrace_no_error (l : list TraceEventData) (msg : string) :
  wellFormedTrace l -> ~ errorCause l msg.
Proof.
  intros Hwf Hcause.
  destruct Hcause as [e Hin Hk Hid | e Hin Hk Hid | e nav Hin Hnav Hid
                     | e nav f n Hin Hk Hr Hidx | e nav f n renderer m Hin Hk Hr Hp Hf];
    destruct (Hwf e Hin) as (Hreq & Hidx' & Hnavid & Hrend).
  - unfold hasRequiredIdentifiers in Hreq. apply andb_true_iff in Hreq. destruct Hreq as [Hreq _].
    assert (Hg : isTraceEventFirstContentfulPaint e ||
                 isTraceEventLargestContentfulPaintCandidate e ||
                 isTraceEventFirstPaint e = true).
    { destruct Hk as [-> | [-> | ->]]; rewrite ?orb_true_r; reflexivity. }
    rewrite Hg, Hid in Hreq. discriminate.
  - unfold hasRequiredIdentifiers in Hreq. apply andb_true_iff in Hreq. destruct Hreq as [_ Hreq].
    assert (Hg : isTraceEventMarkDOMContent e || isTraceEventMarkLoad e = true).
    { destruct Hk as [-> | ->]; rewrite ?orb_true_r; reflexivity. }
    rewrite Hg, Hid in Hreq. discriminate.
  - rewrite (Hnavid nav Hnav) in Hid. discriminate.
  - rewrite (Hidx' Hk) in Hidx. discriminate.
  - apply (rendererFault_incomplete Hf). now apply Hrend.
Qed.

(** X9: a whole run returns when the page-load events of the trace are
    well formed: each carries the identifiers required of its kind, each
    candidate an index other than 0, each navigation that resolves an id,
    and the renderer process of each FCP event has a main thread with a
    tree whose roots all lead to events.  The data returned is then the
    table and the markers of the final state, whose buffer holds the
    page-load events of the trace in ascending order. *)
Theorem X9_a_run_on_a_well_formed_trace_returns (traceEvents : list TraceEventData)
    (s : State) :
  wellFormedTrace (filter eventIsPageLoadEvent traceEvents) ->
  exists d s',
    (reset ;;; handleEvents traceEvents ;;; finalize ;;; data) s = (Normal d, s') /\
    data_metricScoresByFrameId d = metricScoresByFrameId s' /\
    data_allMarkerEvents d = allMarkerEvents s' /\
    pageLoadEventsArray s' = sortByTs (filter eventIsPageLoadEvent traceEvents).
Proof.
  intros Hwf. rewrite run_from_reset. unfold bind.
  destruct (finalize (with_pageLoadEventsArray (filter eventIsPageLoadEvent traceEvents)
                        emptyState)) as [[[] | msg] s'] eqn:Hrun.
  - exists {| data_metricScoresByFrameId := metricScoresByFrameId s';
              data_allMarkerEvents := allMarkerEvents s' |}, s'.
    split; [reflexivity |]. split; [reflexivity |]. split; [reflexivity |].
    apply finalize_normal in Hrun.
    destruct Hrun as (s1 & s2 & mains & _ & _ & Hb & _ & ->). exact Hb.
  - exfalso. apply (@wellFormedTrace_no_error _ msg Hwf).
    apply (@finalize_error
             (with_pageLoadEventsArray (filter eventIsPageLoadEvent traceEvents) emptyState)
             s' msg); [reflexivity | | exact Hrun].
    cbn [pageLoadEventsArray with_pageLoadEventsArray]. intros e He.
    now apply filter_In in He.
Qed.

(** ** Estimation: errors and bounds *)

Lemma blockingTimeStep_normal (evs : list RendererEvent) (nds : JSMap.t Z RendererEntryNode)
    (fcpTs tbt : MicroSeconds) (rootId : Z) :
  (exists v, blockingTimeStep evs nds fcpTs tbt rootId = Normal v) <->
  exists node task, zget rootId nds = Some node /\ array_get evs (eventIndex node) = Some task.
Proof using.
  clear. unfold blockingTimeStep. split.
  - intros [v H]. destruct (zget rootId nds) as [node |]; [| discriminate].
    destruct (array_get evs (eventIndex node)) as [task |] eqn:Htask; [| discriminate].
    now exists node, task.
  - intros (node & task & -> & ->).
    destruct (negb (String.eqb (task_name task) RunTask) || isTraceEventInstant task);
      [now eexists |].
    destruct task as [nm t0 | nm t0 d0]; [now eexists |].
    destruct (t0 + d0 <? fcpTs); now eexists.
Qed.

Lemma blockingTimeLoop_normal (evs : list RendererEvent) (nds : JSMap.t Z RendererEntryNode)
    (fcpTs tbt : MicroSeconds) (rootIds : list Z) :
  (exists v, blockingTimeLoop evs nds fcpTs tbt rootIds = Normal v) <->
  rootsResolve evs nds rootIds.
Proof using.
  clear. unfold rootsResolve. revert tbt.
  induction rootIds as [| rootId rest IH]; intros tbt; cbn [blockingTimeLoop].
  - split; [intros _ r [] | intros _; now eexists].
  - unfold bindC. split.
    + intros [v H].
      destruct (blockingTimeStep evs nds fcpTs tbt rootId) as [tbt' |] eqn:Hstep;
        [| discriminate].
      intros r [<- | Hin].
      * apply (blockingTimeStep_normal evs nds fcpTs tbt rootId). now exists tbt'.
      * apply (proj1 (IH tbt')); [now exists v | assumption].
    + intros Hall.
      destruct (proj2 (blockingTimeStep_normal evs nds fcpTs tbt rootId)
                  (Hall rootId (or_introl eq_refl))) as [tbt' ->].
      apply IH. intros r Hr. apply Hall. now right.
Qed.

Lemma blockingPortion_bounds (fcpTs : MicroSeconds) (task : RendererEvent) :
  0 <= blockingPortion fcpTs task /\
  (match task with
   | TraceEventInstant _ _ => True
   | TraceEventComplete _ _ task_dur => task_dur <= LONG_TASK_THRESHOLD
   end -> blockingPortion fcpTs task = 0).
Proof using.
  clear. unfold blockingPortion, LONG_TASK_THRESHOLD, millisecondsToMicroseconds.
  destruct task as [nm t0 | nm t0 d0]; [split; [lia | reflexivity] |].
  destruct (String.eqb nm "RunTask" && negb (t0 + d0 <? fcpTs)); [| split; [lia | reflexivity]].
  split; lia.
Qed.

Lemma estimatedBlockingTime_bounds (fcpTs : MicroSeconds) (tasks : list RendererEvent) :
  0 <= estimatedBlockingTime fcpTs tasks /\
  (Forall (fun task => match task with
                       | TraceEventInstant _ _ => True
                       | TraceEventComplete _ _ task_dur => task_dur <= LONG_TASK_THRESHOLD
                       end) tasks ->
   estimatedBlockingTime fcpTs tasks = 0).
Proof using.
  clear. unfold estimatedBlockingTime.
  induction tasks as [| task tasks [IH1 IH2]]; cbn [List.map fold_right];
    [split; [lia | reflexivity] |].
  destruct (blockingPortion_bounds fcpTs task) as [H1 H2].
  split; [lia |]. intros H. inversion H; subst. rewrite H2, IH2 by assumption. reflexivity.
Qed.

(** X10: the loop over the roots of the main thread's tree returns exactly
    when every root has a node whose index is that of an event of the
    thread, and otherwise throws at the first root that has none.  When it
    returns, the blocking time it has accumulated never decreases, so an
    estimate, which starts from 0, is never negative; and when no task at a
    root lasts longer than 50ms it has accumulated nothing. *)
Theorem X10_blocking_time_loop (mainThreadEvents : list RendererEvent)
    (mainThreadNodes : JSMap.t Z RendererEntryNode) (fcpTs tbt : MicroSeconds)
    (rootIds : list Z) :
  ((exists v, blockingTimeLoop mainThreadEvents mainThreadNodes fcpTs tbt rootIds = Normal v) <->
   rootsResolve mainThreadEvents mainThreadNodes rootIds) /\
  (forall msg,
     blockingTimeLoop mainThreadEvents mainThreadNodes fcpTs tbt rootIds = Throw msg ->
     exists rootId,
       In rootId rootIds /\
       ((zget rootId mainThreadNodes = None /\
         msg = ("Node not found for id: " ++ numberToString rootId)%string) \/
        exists node,
          zget rootId mainThreadNodes = Some node /\
          array_get mainThreadEvents (eventIndex node) = None /\
          msg = ("Event not found for index: " ++ numberToString (eventIndex node))%string)) /\
  (forall v,
     blockingTimeLoop mainThreadEvents mainThreadNodes fcpTs tbt rootIds = Normal v ->
     tbt <= v /\
     (Forall (fun task => match task with
                          | TraceEventInstant _ _ => True
                          | TraceEventComplete _ _ task_dur => task_dur <= LONG_TASK_THRESHOLD
                          end)
             (rootTasks mainThreadEvents mainThreadNodes rootIds) ->
      v = tbt)).
Proof using.
  clear. split; [apply blockingTimeLoop_normal |].
  split; [intros msg; apply blockingTimeLoop_throw |].
  intros v Hv. apply blockingTimeLoop_spec in Hv. subst v.
  destruct (estimatedBlockingTime_bounds fcpTs
              (rootTasks mainThreadEvents mainThreadNodes rootIds)) as [H1 H2].
  split; [lia |]. intros H. rewrite (H2 H). lia.
Qed.

Lemma estimate_incomplete_throws (f n : string) (s : State) (fcp : MetricScore)
    (fcpEvent : TraceEventData) (renderer : RendererProcess) :
  scoreAt f n TBT (metricScoresByFrameId s) = None ->
  scoreAt f n FCP (metricScoresByFrameId s) = Some fcp ->
  event fcp = Some fcpEvent ->
  zget (pid fcpEvent) (processes rendererHandlerData) = Some renderer ->
  ~ rendererComplete renderer ->
  exists msg, estimateTotalBlockingTime f n s = (Throw msg, s) /\ rendererFault renderer msg.
Proof.
  unfold scoreAt. intros Htbt Hfcp Hev Hp Hinc.
  unfold estimateTotalBlockingTime, bind at 1, gets.
  destruct (lookupMetrics f n (metricScoresByFrameId s)) as [metrics |]; [| discriminate].
  rewrite Htbt, Hfcp, Hev, Hp.
  destruct (find isMainThread (JSMap.values (threads renderer))) as [mainThread |] eqn:Hm.
  2: { eexists. split; [reflexivity |]. now apply NoMainThread. }
  destruct (tree mainThread) as [mainThreadTree |] eqn:Ht.
  2: { eexists. split; [reflexivity |].
       now apply NoMainThreadTree with (mainThread := mainThread). }
  unfold bind, lift.
  destruct (blockingTimeLoop (events mainThread) (nodes mainThreadTree) (ts fcpEvent) 0
              (roots mainThreadTree)) as [tbt | msg] eqn:Hloop.
  - exfalso. apply Hinc. exists mainThread, mainThreadTree.
    split; [assumption |]. split; [assumption |].
    apply (blockingTimeLoop_normal (events mainThread) (nodes mainThreadTree) (ts fcpEvent) 0).
    now exists tbt.
  - exists msg. split; [reflexivity |]. apply blockingTimeLoop_throw in Hloop.
    destruct Hloop as (rootId & Hin & [[Hnode ->] | (node & Hnode & Hevent & ->)]).
    + now apply NodeNotFound with (mainThread := mainThread) (mainThreadTree := mainThreadTree).
    + now apply EventNotFound with (mainThread := mainThread) (mainThreadTree := mainThreadTree)
                                   (rootId := rootId).
Qed.

Lemma scoreAt_store_other (f n f' n' : string) (k : MetricName) (sc : MetricScore)
    (t : MetricTable) :
  (f', n') <> (f, n) ->
  scoreAt f n k (storeMetricScoreInTable f' n' sc t) = scoreAt f n k t.
Proof using.
  clear. intros Hne. rewrite scoreAt_store.
  destruct (String.eqb_spec f f') as [-> | Hf]; [| reflexivity].
  destruct (String.eqb_spec n n') as [-> | Hn]; [congruence | reflexivity].
Qed.

Lemma estimates_throw_at (f n : string) (fcp : MetricScore) (fcpEvent : TraceEventData)
    (renderer : RendererProcess) (keys : list (string * string)) (s : State) :
  event fcp = Some fcpEvent ->
  zget (pid fcpEvent) (processes rendererHandlerData) = Some renderer ->
  ~ rendererComplete renderer ->
  In (f, n) keys ->
  scoreAt f n TBT (metricScoresByFrameId s) = None ->
  scoreAt f n FCP (metricScoresByFrameId s) = Some fcp ->
  throws (forEach (fun key : string * string =>
                     estimateTotalBlockingTime (fst key) (snd key)) keys) s.
Proof.
  intros Hev Hp Hinc. revert s.
  induction keys as [| [f' n'] keys IH]; intros s Hin Htbt Hfcp; [destruct Hin |].
  cbn [forEach]. unfold throws, bind. cbn [fst snd].
  assert (Hdec : (f', n') = (f, n) \/ (f', n') <> (f, n)).
  { destruct (String.eqb_spec f' f) as [-> | Hf]; [| right; congruence].
    destruct (String.eqb_spec n' n) as [-> | Hn]; [now left | right; congruence]. }
  destruct Hdec as [[= -> ->] | Hne].
  - destruct (@estimate_incomplete_throws f n s fcp fcpEvent renderer Htbt Hfcp Hev Hp Hinc)
      as (msg & -> & _). eauto.
  - assert (Hin' : In (f, n) keys) by (destruct Hin as [Heq | Hin]; [congruence | assumption]).
    destruct (estimateTotalBlockingTime f' n' s) as [[[] | msg] s1] eqn:Hstep; [| eauto].
    apply estimate_step in Hstep.
    destruct Hstep as [-> | (fcp' & tbt & _ & _ & _ & ->)]; [now apply IH |].
    apply IH; [assumption | |]; cbn [metricScoresByFrameId with_metricScoresByFrameId];
      rewrite scoreAt_store_other by assumption; assumption.
Qed.

(** X11: a navigation that has an FCP score and no TBT score makes
    [estimateTotalBlockingTimes] throw when the renderer process of the FCP
    event is known but its data is not complete; the turn of the loop for
    that navigation throws the error of the fault and leaves the state as
    it was; with no thread named CrRendererMain, or no tree for it, the
    error is that the main thread was not found. *)
Theorem X11_incomplete_renderer_data_is_fatal (frameId navigationId : string) (s : State)
    (fcp : MetricScore) (fcpEvent : TraceEventData) (renderer : RendererProcess) :
  scoreAt frameId navigationId TBT (metricScoresByFrameId s) = None ->
  scoreAt frameId navigationId FCP (metricScoresByFrameId s) = Some fcp ->
  event fcp = Some fcpEvent ->
  zget (pid fcpEvent) (processes rendererHandlerData) = Some renderer ->
  ~ rendererComplete renderer ->
  (exists msg,
     estimateTotalBlockingTime frameId navigationId s = (Throw msg, s) /\
     rendererFault renderer msg) /\
  throws estimateTotalBlockingTimes s /\
  ((forall mainThread,
      find isMainThread (JSMap.values (threads renderer)) = Some mainThread ->
      tree mainThread = None) ->
   estimateTotalBlockingTime frameId navigationId s = (Throw "Main thread not found.", s)).
Proof.
  intros Htbt Hfcp Hev Hp Hinc. split; [| split].
  - now apply estimate_incomplete_throws with (fcp := fcp) (fcpEvent := fcpEvent).
  - unfold estimateTotalBlockingTimes, throws, bind at 1, gets.
    apply estimates_throw_at with (f := frameId) (n := navigationId) (fcp := fcp)
                                  (fcpEvent := fcpEvent) (renderer := renderer);
      try assumption.
    unfold scoreAt in Hfcp.
    destruct (lookupMetrics frameId navigationId (metricScoresByFrameId s)) as [m |] eqn:Hm;
      [| discriminate].
    now apply navigationKeys_In with (m := m).
  - intros Hno. unfold scoreAt in Htbt, Hfcp.
    unfold estimateTotalBlockingTime, bind at 1, gets.
    destruct (lookupMetrics frameId navigationId (metricScoresByFrameId s)) as [metrics |];
      [| discriminate].
    rewrite Htbt, Hfcp, Hev, Hp.
    destruct (find isMainThread (JSMap.values (threads renderer))) as [mainThread |] eqn:Hm;
      [| reflexivity].
    now rewrite (Hno mainThread eq_refl).
Qed.

(** ** A navigation without id *)

(** X12: a navigation that bears no id, or an empty one, is fatal before
    anything else is looked at: whatever the event, its frame, its process
    and its timestamp, [storePageLoadMetricAgainstNavigationId] throws and
    leaves the state as it was, and so does the attribution of an event
    that resolves to such a navigation; a buffer that holds such an event
    makes [finalize] throw. *)
Theorem X12_navigation_without_id_is_fatal (navigation : TraceEventNavigationStart) :
  falsy_string (nav_navigationId navigation) = true ->
  (forall event s,
     storePageLoadMetricAgainstNavigationId navigation event s =
     (Throw "Navigation event unexpectedly had no navigation ID.", s)) /\
  (forall event s,
     getNavigationForPageLoadEvent event = Normal (Some navigation) ->
     attributePageLoadEvent event s =
     (Throw "Navigation event unexpectedly had no navigation ID.", s)) /\
  (forall event s,
     getNavigationForPageLoadEvent event = Normal (Some navigation) ->
     In event (pageLoadEventsArray s) ->
     throws finalize s).
Proof.
  intros Hid.
  assert (H1 : forall event s,
            storePageLoadMetricAgainstNavigationId navigation event s =
            (Throw "Navigation event unexpectedly had no navigation ID.", s)).
  { intros event s. unfold storePageLoadMetricAgainstNavigationId.
    destruct (nav_navigationId navigation) as [n |]; [| reflexivity].
    cbn [falsy_string] in Hid. now rewrite Hid. }
  assert (H2 : forall event s,
            getNavigationForPageLoadEvent event = Normal (Some navigation) ->
            attributePageLoadEvent event s =
            (Throw "Navigation event unexpectedly had no navigation ID.", s)).
  { intros event s Hnav. unfold attributePageLoadEvent, bind, lift. rewrite Hnav. apply H1. }
  split; [exact H1 |]. split; [exact H2 |].
  intros event s Hnav Hin. apply finalize_throws with (e := event); [assumption |].
  intros s0. unfold throws. rewrite (H2 event s0 Hnav). eauto.
Qed.

(** ** Monotonicity of the scorers *)

Lemma classifyByThresholds_monotone (good medium d d' : Z) :
  good <= medium -> d <= d' ->
  rank (classifyByThresholds good medium d) <= rank (classifyByThresholds good medium d') /\
  classifyByThresholds good medium d <> UNCLASSIFIED.
Proof using.
  clear. intros Hgm Hd. unfold classifyByThresholds.
  destruct (Z.leb_spec d good), (Z.leb_spec d medium), (Z.leb_spec d' good),
    (Z.leb_spec d' medium); cbn [rank]; split; try lia; discriminate.
Qed.

(** X13: the scorers of FCP, TTI, LCP and TBT are monotone: a longer time
    never gets a better classification; and they never answer
    UNCLASSIFIED, which is what the scorer of DCL always answers. *)
Theorem X13_scorers_are_monotone (d d' : MicroSeconds) :
  d <= d' ->
  (rank (scoreClassificationForFirstContentfulPaint d) <=
   rank (scoreClassificationForFirstContentfulPaint d') /\
   scoreClassificationForFirstContentfulPaint d <> UNCLASSIFIED) /\
  (rank (scoreClassificationForTimeToInteractive d) <=
   rank (scoreClassificationForTimeToInteractive d') /\
   scoreClassificationForTimeToInteractive d <> UNCLASSIFIED) /\
  (rank (scoreClassificationForLargestContentfulPaint d) <=
   rank (scoreClassificationForLargestContentfulPaint d') /\
   scoreClassificationForLargestContentfulPaint d <> UNCLASSIFIED) /\
  (rank (scoreClassificationForTotalBlockingTime d) <=
   rank (scoreClassificationForTotalBlockingTime d') /\
   scoreClassificationForTotalBlockingTime d <> UNCLASSIFIED) /\
  scoreClassificationForDOMContentLoaded d = scoreClassificationForDOMContentLoaded d'.
Proof using.
  clear. intros Hd. rewrite !scoreFCP_spec, !scoreTTI_spec, !scoreLCP_spec, !scoreTBT_spec.
  repeat split; try reflexivity; try (apply classifyByThresholds_monotone; lia);
    apply (@classifyByThresholds_monotone _ _ d d); lia.
Qed.

(** ** TTI and TBT go together *)

Lemma scoreAt_TTI_stored (f n f' n' : string) (nav : TraceEventNavigationStart)
    (x : TraceEventData) (t : MetricTable) :
  scoreAt f' n' TTI (storeAll f n (storedScores nav x) t) =
  if isTraceEventInteractiveTime x && (String.eqb f' f && String.eqb n' n)
  then Some (elapsedScore TTI (scoreClassificationForTimeToInteractive (ts x - nav_ts nav))
                          nav x)
  else scoreAt f' n' TTI t.
Proof.
  destruct (isTraceEventInteractiveTime x) eqn:Hk; cbn [andb].
  - unfold storedScores. known_kind Hk.
    unfold storeAll. cbn [fold_left]. rewrite !scoreAt_store.
    cbn [reportedTBT elapsedScore metricName MetricName_eqb].
    rewrite andb_true_r, andb_false_r. reflexivity.
  - apply scoreAt_storeAll_other. intros sc Hin Hname. revert Hin. unfold storedScores.
    destruct (isTraceEventFirstContentfulPaint x);
      [intros [<- | []]; discriminate Hname |].
    destruct (isTraceEventFirstPaint x); [intros [<- | []]; discriminate Hname |].
    destruct (isTraceEventMarkDOMContent x); [intros [<- | []]; discriminate Hname |].
    rewrite Hk.
    destruct (isTraceEventMarkLoad x); [intros [<- | []]; discriminate Hname | intros []].
Qed.

Lemma interactivePair_incl (l l' : list TraceEventData) (f n : string)
    (tti tbt : MetricScore) :
  (forall e, In e l -> In e l') -> interactivePair l f n tti tbt ->
  interactivePair l' f n tti tbt.
Proof.
  intros Hincl (e & nav & Hin & H). exists e, nav. split; [now apply Hincl | assumption].
Qed.

Lemma pairOrEstimate_incl (l l' : list TraceEventData) (s : State) :
  (forall e, In e l -> In e l') -> pairOrEstimate l s -> pairOrEstimate l' s.
Proof.
  intros Hincl H f n. specialize (H f n).
  destruct (scoreAt f n TTI (metricScoresByFrameId s)) as [tti |];
    destruct (scoreAt f n TBT (metricScoresByFrameId s)) as [tbt |]; try assumption.
  now apply interactivePair_incl with (l := l).
Qed.

Lemma pairInvariant_step (done : list TraceEventData) (x : TraceEventData) (s s' : State) :
  pairInvariant done s ->
  attributePageLoadEvent x s = (Normal tt, s') ->
  pairInvariant (done ++ [x]) s'.
Proof.
  intros [Hpair Hnone] Hrun.
  assert (Hold : pairOrEstimate (done ++ [x]) s).
  { apply pairOrEstimate_incl with (l := done); [| assumption].
    intros e He. apply in_or_app. now left. }
  apply attribute_normal in Hrun.
  destruct Hrun as [[-> _] | (nav & f & n & Hr & Hrun)]; [now split |].
  destruct (isTraceEventLargestContentfulPaintCandidate x) eqn:Hk.
  - unfold scoreEvent in Hrun. revert Hrun. pose proof Hk as Hk'. known_kind Hk'.
    intros Hrun.
    assert (Hsame : forall k f' n', k <> LCP ->
              scoreAt f' n' k (metricScoresByFrameId s') =
              scoreAt f' n' k (metricScoresByFrameId s)).
    { intros k f' n' Hne.
      now apply storeLCPCandidate_scoreAt with (f := f) (n := n) (nav := nav) (x := x). }
    split.
    + intros f' n'. rewrite !Hsame by discriminate. apply Hold.
    + intros f' n'. rewrite !Hsame by discriminate. apply Hnone.
  - apply scoreEvent_other in Hrun; [| assumption]. subst s'.
    split; intros f' n'; cbn [metricScoresByFrameId with_metricScoresByFrameId];
      rewrite scoreAt_TTI_stored, scoreAt_TBT_stored;
      destruct (isTraceEventInteractiveTime x && (String.eqb f' f && String.eqb n' n)) eqn:E;
      try apply Hold; try apply Hnone; try discriminate.
    apply andb_true_iff in E. destruct E as [Hkx E].
    apply andb_true_iff in E. destruct E as [Ef En].
    apply String.eqb_eq in Ef, En. subst f' n'.
    exists x, nav. split; [apply in_or_app; right; now left |].
    split; [assumption |]. split; [assumption |]. split; reflexivity.
Qed.

Lemma pairOrEstimate_step (l : list TraceEventData) (f n : string) (s s' : State) :
  pairOrEstimate l s ->
  estimateTotalBlockingTime f n s = (Normal tt, s') ->
  pairOrEstimate l s'.
Proof.
  intros Hinv Hstep. apply estimate_step in Hstep.
  destruct Hstep as [-> | (fcp & tbt & Hnone & _ & _ & ->)]; [assumption |].
  intros f' n'. cbn [metricScoresByFrameId with_metricScoresByFrameId].
  rewrite !scoreAt_store. cbn [estimatedTBT metricName MetricName_eqb].
  rewrite andb_false_r, andb_true_r. specialize (Hinv f' n').
  destruct (String.eqb_spec f' f) as [-> | Hf]; cbn [andb]; [| exact Hinv].
  destruct (String.eqb_spec n' n) as [-> | Hn]; cbn [andb]; [| exact Hinv].
  rewrite Hnone in Hinv.
  destruct (scoreAt f n TTI (metricScoresByFrameId s)); [destruct Hinv | now split].
Qed.

Lemma finalize_pairs (s s' : State) :
  metricScoresByFrameId s = [] ->
  finalize s = (Normal tt, s') ->
  pairOrEstimate (pageLoadEventsArray s) s'.
Proof.
  intros Ht Hrun. apply finalize_normal in Hrun.
  destruct Hrun as (s1 & s2 & mains & Hloop & Hest & _ & _ & ->).
  assert (H1 : pairInvariant (sortByTs (pageLoadEventsArray s)) s1).
  { revert Hloop. apply forEach_invariant.
    - intros done x sa sb _. apply pairInvariant_step.
    - split; intros f n; cbn [metricScoresByFrameId with_pageLoadEventsArray];
        rewrite Ht; cbn; trivial. }
  assert (H2 : pairOrEstimate (sortByTs (pageLoadEventsArray s)) s2).
  { revert Hest. unfold estimateTotalBlockingTimes, bind at 1, gets.
    apply forEach_preserves.
    - intros [f n] sa sb _. apply pairOrEstimate_step.
    - exact (proj1 H1). }
  apply pairOrEstimate_incl with (l := sortByTs (pageLoadEventsArray s)).
  - intros e. apply sortByTs_In.
  - exact H2.
Qed.

(** X14: after a [finalize] that returns from an empty table, the TTI
    score and the reported TBT score of a navigation go together: a
    navigation that has a TTI score has a TBT score, both computed from one
    buffered InteractiveTime event that passed every check; a TBT score of
    a navigation without TTI score is an estimate; and a TBT score that is
    not marked as estimated comes with a TTI score that bears the same
    event. *)
Theorem X14_TTI_and_reported_TBT_go_together (s s' : State) :
  metricScoresByFrameId s = [] ->
  finalize s = (Normal tt, s') ->
  forall frameId navigationId,
    (forall tti,
       scoreAt frameId navigationId TTI (metricScoresByFrameId s') = Some tti ->
       exists tbt e nav,
         scoreAt frameId navigationId TBT (metricScoresByFrameId s') = Some tbt /\
         In e (pageLoadEventsArray s) /\ isTraceEventInteractiveTime e = true /\
         reachesScoring e nav frameId navigationId /\
         tti = elapsedScore TTI (scoreClassificationForTimeToInteractive (ts e - nav_ts nav))
                            nav e /\
         tbt = reportedTBT nav e) /\
    (forall tbt,
       scoreAt frameId navigationId TBT (metricScoresByFrameId s') = Some tbt ->
       scoreAt frameId navigationId TTI (metricScoresByFrameId s') = None ->
       estimated tbt = Some true /\ event tbt = None) /\
    (forall tbt,
       scoreAt frameId navigationId TBT (metricScoresByFrameId s') = Some tbt ->
       estimated tbt = None ->
       exists tti,
         scoreAt frameId navigationId TTI (metricScoresByFrameId s') = Some tti /\
         event tti = event tbt).
Proof.
  intros Ht Hrun f n. pose proof (@finalize_pairs s s' Ht Hrun f n) as H.
  destruct (scoreAt f n TTI (metricScoresByFrameId s')) as [tti |];
    destruct (scoreAt f n TBT (metricScoresByFrameId s')) as [tbt |];
    try destruct H.
  - destruct H as (nav & Hin & Hk & Hr & -> & ->). rename x into e.
    split; [| split].
    + intros tti' [= <-]. exists (reportedTBT nav e), e, nav.
      split; [reflexivity |]. split; [assumption |]. split; [assumption |].
      split; [assumption |]. split; reflexivity.
    + intros tbt' _ [=].
    + intros tbt' [= <-] _. eexists. split; reflexivity.
  - split; [| split].
    + intros tti' [=].
    + intros tbt' [= <-] _. now split.
    + intros tbt' [= <-] He. congruence.
  - split; [| split]; intros ? [=].
Qed.

(** ** The state a failed [finalize] leaves *)

Lemma forEach_any (A : Type) (body : A -> M unit) (P : State -> Prop) (l : list A) :
  (forall x s c s', P s -> body x s = (c, s') -> P s') ->
  forall s c s', P s -> forEach body l s = (c, s') -> P s'.
Proof using.
  clear. intros Hstep. induction l as [| x l IH]; intros s c s' HP; cbn [forEach].
  - unfold ret. now intros [= <- <-].
  - unfold bind. destruct (body x s) as [[[] | msg] s1] eqn:Hx.
    + apply IH. now apply (Hstep x s (Normal tt) s1).
    + intros [= <- <-]. now apply (Hstep x s (Throw msg) s1).
Qed.

Lemma storeLCPCandidate_frame (f n : string) (nav : TraceEventNavigationStart)
    (x : TraceEventData) (s s' : State) (c : Completion unit) :
  storeLCPCandidate f n nav x s = (c, s') ->
  pageLoadEventsArray s' = pageLoadEventsArray s /\ allMarkerEvents s' = allMarkerEvents s.
Proof.
  unfold storeLCPCandidate.
  destruct (data_field data_candidateIndex x) as [i |]; [| now intros [= <- <-]].
  destruct (i =? 0); [now intros [= <- <-] |].
  unfold bind at 1.
  destruct (metricsWithDefault f n (metricScoresByFrameId s)) as [metrics t1].
  destruct (mget LCP metrics) as [last |].
  - destruct (eventOf last) as [e0 |]; [| now intros [= <- <-]].
    destruct (negb (isTraceEventLargestContentfulPaintCandidate e0)); [now intros [= <- <-] |].
    destruct (data_field data_candidateIndex e0) as [i0 |]; [| now intros [= <- <-]].
    destruct (i0 =? 0); [now intros [= <- <-] |].
    destruct (i0 <? i); now intros [= <- <-].
  - now intros [= <- <-].
Qed.

Lemma attribute_frame (x : TraceEventData) (s s' : State) (c : Completion unit) :
  attributePageLoadEvent x s = (c, s') ->
  pageLoadEventsArray s' = pageLoadEventsArray s /\ allMarkerEvents s' = allMarkerEvents s.
Proof.
  unfold attributePageLoadEvent, bind, lift.
  destruct (getNavigationForPageLoadEvent x) as [[nav |] | msg];
    [| now intros [= <- <-] | now intros [= <- <-]].
  unfold storePageLoadMetricAgainstNavigationId.
  destruct (nav_navigationId nav) as [n |]; [| now intros [= <- <-]].
  destruct (String.eqb n ""); [now intros [= <- <-] |].
  unfold bind, lift.
  destruct (getFrameIdForPageLoadEvent x) as [f | msg]; [| now intros [= <- <-]].
  destruct (sget f (rendererProcessesByFrame metaHandlerData)) as [procs |];
    [| now intros [= <- <-]].
  destruct (zget (pid x) procs) as [pd |]; [| now intros [= <- <-]].
  destruct (negb ((ts x >=? window_min (window pd)) && (ts x <=? window_max (window pd))));
    [now intros [= <- <-] |].
  destruct (isTraceEventFirstContentfulPaint x); [now intros [= <- <-] |].
  destruct (isTraceEventFirstPaint x); [now intros [= <- <-] |].
  destruct (isTraceEventMarkDOMContent x); [now intros [= <- <-] |].
  destruct (isTraceEventInteractiveTime x); [now intros [= <- <-] |].
  destruct (isTraceEventMarkLoad x); [now intros [= <- <-] |].
  destruct (isTraceEventLargestContentfulPaintCandidate x); [apply storeLCPCandidate_frame |].
  destruct (isTraceEventLayoutShift x); now intros [= <- <-].
Qed.

Lemma estimate_frame (f n : string) (s s' : State) (c : Completion unit) :
  estimateTotalBlockingTime f n s = (c, s') ->
  pageLoadEventsArray s' = pageLoadEventsArray s /\ allMarkerEvents s' = allMarkerEvents s.
Proof.
  unfold estimateTotalBlockingTime, bind at 1, gets.
  destruct (lookupMetrics f n (metricScoresByFrameId s)) as [metrics |];
    [| now intros [= <- <-]].
  destruct (mget TBT metrics) as [tbt0 |]; [now intros [= <- <-] |].
  destruct (mget FCP metrics) as [fcp |]; [| now intros [= <- <-]].
  destruct (event fcp) as [fcpEvent |]; [| now intros [= <- <-]].
  destruct (zget (pid fcpEvent) (processes rendererHandlerData)) as [renderer |];
    [| now intros [= <- <-]].
  destruct (find isMainThread (JSMap.values (threads renderer))) as [mainThread |];
    [| now intros [= <- <-]].
  destruct (tree mainThread) as [mainThreadTree |]; [| now intros [= <- <-]].
  unfold bind, lift.
  destruct (blockingTimeLoop _ _ _ _ _) as [tbt | msg]; now intros [= <- <-].
Qed.

(** X15: a [finalize] that fails has sorted the buffer and has not yet
    touched the list of markers: [allMarkerEvents] is as it was before the
    call, whatever the table has received in the meantime. *)
Theorem X15_failed_finalize_keeps_the_markers (s s' : State) (msg : string) :
  finalize s = (Throw msg, s') ->
  allMarkerEvents s' = allMarkerEvents s /\
  pageLoadEventsArray s' = sortByTs (pageLoadEventsArray s) /\
  Permutation (pageLoadEventsArray s') (pageLoadEventsArray s).
Proof.
  intros Hrun.
  assert (H : pageLoadEventsArray s' = sortByTs (pageLoadEventsArray s) /\
              allMarkerEvents s' = allMarkerEvents s).
  { unfold finalize in Hrun.
    apply bind_throw in Hrun. destruct Hrun as [Hrun | ([] & s0 & H0 & Hrun)]; [discriminate |].
    unfold modify in H0. injection H0 as <-.
    apply bind_throw in Hrun. destruct Hrun as [Hrun | (evs & s0' & H0 & Hrun)]; [discriminate |].
    unfold gets in H0. injection H0 as <- <-.
    cbn [pageLoadEventsArray with_pageLoadEventsArray] in Hrun.
    set (s0 := with_pageLoadEventsArray (sortByTs (pageLoadEventsArray s)) s) in *.
    set (P := fun s1 : State =>
                pageLoadEventsArray s1 = sortByTs (pageLoadEventsArray s) /\
                allMarkerEvents s1 = allMarkerEvents s).
    assert (H0 : P s0) by (split; reflexivity).
    assert (Hattr : forall l c s1, forEach attributePageLoadEvent l s0 = (c, s1) -> P s1).
    { intros l c s1. apply (@forEach_any _ attributePageLoadEvent P); [| exact H0].
      intros x sa ca sb [Ha1 Ha2] Hstep. apply attribute_frame in Hstep.
      destruct Hstep as [Hb1 Hb2]. split; congruence. }
    apply bind_throw in Hrun. destruct Hrun as [Hrun | ([] & s1 & H1 & Hrun)];
      [now apply Hattr in Hrun |].
    apply Hattr in H1.
    assert (Hest : forall c s2, estimateTotalBlockingTimes s1 = (c, s2) -> P s2).
    { intros c s2. unfold estimateTotalBlockingTimes, bind at 1, gets.
      apply (@forEach_any _ _ P); [| exact H1].
      intros [f n] sa ca sb [Ha1 Ha2] Hstep. cbn [fst snd] in Hstep.
      apply estimate_frame in Hstep. destruct Hstep as [Hb1 Hb2]. split; congruence. }
    apply bind_throw in Hrun. destruct Hrun as [Hrun | ([] & s2 & H2 & Hrun)];
      [now apply Hest in Hrun |].
    apply Hest in H2.
    apply bind_throw in Hrun. destruct Hrun as [Hrun | (lcps & s2' & H3 & Hrun)]; [discriminate |].
    unfold gets in H3. injection H3 as <- <-.
    apply bind_throw in Hrun. destruct Hrun as [Hrun | (evs2 & s2' & H3 & Hrun)]; [discriminate |].
    unfold gets in H3. injection H3 as <- <-.
    apply bind_throw in Hrun. destruct Hrun as [Hrun | (mains & s2' & H3 & Hrun)];
      [| discriminate].
    unfold lift in Hrun. injection Hrun as _ <-. exact H2. }
  destruct H as [H1 H2]. split; [exact H2 |]. split; [exact H1 |].
  rewrite H1. apply sortByTs_perm.
Qed.

(** ** What the estimation changes *)

Lemma navigationKeys_sset (f : string) (v v0 : MetricsByNavigation) (t : MetricTable) :
  sget f t = Some v0 -> JSMap.keys v = JSMap.keys v0 ->
  navigationKeys (sset f v t) = navigationKeys t.
Proof using.
  clear. unfold navigationKeys, sget, sset.
  induction t as [| [f' v'] t IH]; cbn [JSMap.get JSMap.set flat_map fst snd]; [discriminate |].
  destruct (String.eqb_spec f f') as [-> | Hne].
  - intros [= ->] Hk. cbn [flat_map fst snd]. f_equal.
    unfold JSMap.keys in Hk. clear - Hk. revert v0 Hk.
    induction v as [| [n m] v IHv]; intros [| [n0 m0] v0] Hk; cbn in *; try discriminate;
      [reflexivity |].
    injection Hk as -> Hk. f_equal. now apply IHv.
  - intros Hget Hk. cbn [flat_map fst snd]. f_equal. now apply IH.
Qed.

Lemma navigationKeys_store (f n : string) (sc : MetricScore) (m : Metrics) (t : MetricTable) :
  lookupMetrics f n t = Some m ->
  navigationKeys (storeMetricScoreInTable f n sc t) = navigationKeys t.
Proof using.
  clear. unfold lookupMetrics, storeMetricScoreInTable, getWithDefault.
  destruct (sget f t) as [byNav |] eqn:Ef; [| discriminate].
  intros En. rewrite En.
  apply navigationKeys_sset with (v0 := byNav); [assumption |].
  rewrite keys_sset.
  unfold sget, MetricTable, MetricsByNavigation, Metrics in *. now rewrite En.
Qed.

Lemma estimate_step_conservative (f n : string) (s s' : State) :
  estimateTotalBlockingTime f n s = (Normal tt, s') ->
  navigationKeys (metricScoresByFrameId s') = navigationKeys (metricScoresByFrameId s) /\
  (forall f' n' k sc,
     scoreAt f' n' k (metricScoresByFrameId s) = Some sc ->
     scoreAt f' n' k (metricScoresByFrameId s') = Some sc) /\
  (forall f' n' k,
     k <> TBT ->
     scoreAt f' n' k (metricScoresByFrameId s') = scoreAt f' n' k (metricScoresByFrameId s)) /\
  (forall f' n' sc,
     scoreAt f' n' TBT (metricScoresByFrameId s) = None ->
     scoreAt f' n' TBT (metricScoresByFrameId s') = Some sc ->
     estimated sc = Some true /\ event sc = None /\
     scoreAt f' n' FCP (metricScoresByFrameId s) <> None).
Proof.
  intros Hstep. apply estimate_step in Hstep.
  destruct Hstep as [-> | (fcp & tbt & Hnone & Hfcp & _ & ->)].
  { split; [reflexivity |]. split; [now intros |]. split; [now intros |].
    intros f' n' sc H1 H2. congruence. }
  cbn [metricScoresByFrameId with_metricScoresByFrameId].
  assert (Hother : forall f' n' k,
            k <> TBT ->
            scoreAt f' n' k
              (storeMetricScoreInTable f n (estimatedTBT tbt (navigation fcp))
                 (metricScoresByFrameId s)) =
            scoreAt f' n' k (metricScoresByFrameId s)).
  { intros f' n' k Hk. rewrite scoreAt_store. cbn [estimatedTBT metricName].
    destruct (MetricName_eqb k TBT) eqn:E; [| now rewrite andb_false_r].
    apply MetricName_eqb_eq in E. contradiction. }
  split; [| split; [| split]].
  - unfold scoreAt in Hfcp.
    destruct (lookupMetrics f n (metricScoresByFrameId s)) as [m |] eqn:Hm; [| discriminate].
    now apply navigationKeys_store with (m := m).
  - intros f' n' k sc Hsc. rewrite scoreAt_store. cbn [estimatedTBT metricName].
    destruct (String.eqb_spec f' f) as [-> | Hf]; cbn [andb]; [| assumption].
    destruct (String.eqb_spec n' n) as [-> | Hn]; cbn [andb]; [| assumption].
    destruct (MetricName_eqb k TBT) eqn:E; [| assumption].
    apply MetricName_eqb_eq in E. subst k. congruence.
  - exact Hother.
  - intros f' n' sc Hno. rewrite scoreAt_store. cbn [estimatedTBT metricName MetricName_eqb].
    rewrite andb_true_r.
    destruct (String.eqb_spec f' f) as [-> | Hf]; cbn [andb]; [| congruence].
    destruct (String.eqb_spec n' n) as [-> | Hn]; cbn [andb]; [| congruence].
    intros [= <-]. cbn [estimatedTBT estimated event]. split; [reflexivity |].
    split; [reflexivity | congruence].
Qed.

(** X16: a run of [estimateTotalBlockingTimes] that returns only adds TBT
    estimates: it adds no frame and no navigation to the table, so the
    maps it iterates over keep their keys while it runs; every score that
    was stored is still stored; the scores of every metric other than TBT
    are as they were; a TBT score that was not there before is marked as
    estimated, bears no event and belongs to a navigation that has an FCP
    score; and the buffer, the markers and the selected candidates are
    untouched. *)
Theorem X16_estimation_only_adds_estimates (s s' : State) :
  estimateTotalBlockingTimes s = (Normal tt, s') ->
  navigationKeys (metricScoresByFrameId s') = navigationKeys (metricScoresByFrameId s) /\
  (forall frameId navigationId k sc,
     scoreAt frameId navigationId k (metricScoresByFrameId s) = Some sc ->
     scoreAt frameId navigationId k (metricScoresByFrameId s') = Some sc) /\
  (forall frameId navigationId k,
     k <> TBT ->
     scoreAt frameId navigationId k (metricScoresByFrameId s') =
     scoreAt frameId navigationId k (metricScoresByFrameId s)) /\
  (forall frameId navigationId sc,
     scoreAt frameId navigationId TBT (metricScoresByFrameId s) = None ->
     scoreAt frameId navigationId TBT (metricScoresByFrameId s') = Some sc ->
     estimated sc = Some true /\ event sc = None /\
     scoreAt frameId navigationId FCP (metricScoresByFrameId s') <> None) /\
  pageLoadEventsArray s' = pageLoadEventsArray s /\
  allMarkerEvents s' = allMarkerEvents s /\
  selectedLCPCandidateEvents s' = selectedLCPCandidateEvents s.
Proof.
  intros Hrun.
  assert (Hframe : pageLoadEventsArray s' = pageLoadEventsArray s /\
                   allMarkerEvents s' = allMarkerEvents s).
  { revert Hrun. unfold estimateTotalBlockingTimes, bind at 1, gets.
    apply (@forEach_any _ _ (fun s1 => pageLoadEventsArray s1 = pageLoadEventsArray s /\
                                       allMarkerEvents s1 = allMarkerEvents s));
      [| now split].
    intros [f n] sa ca sb [Ha1 Ha2] Hstep. cbn [fst snd] in Hstep.
    apply estimate_frame in Hstep. destruct Hstep as [Hb1 Hb2]. split; congruence. }
  destruct (@estimates_buffer s s' Hrun) as [_ Hsel].
  revert Hrun. unfold estimateTotalBlockingTimes, bind at 1, gets. intros Hrun.
  set (P := fun s1 : State =>
    navigationKeys (metricScoresByFrameId s1) = navigationKeys (metricScoresByFrameId s) /\
    (forall f n k sc,
       scoreAt f n k (metricScoresByFrameId s) = Some sc ->
       scoreAt f n k (metricScoresByFrameId s1) = Some sc) /\
    (forall f n k,
       k <> TBT ->
       scoreAt f n k (metricScoresByFrameId s1) = scoreAt f n k (metricScoresByFrameId s)) /\
    (forall f n sc,
       scoreAt f n TBT (metricScoresByFrameId s) = None ->
       scoreAt f n TBT (metricScoresByFrameId s1) = Some sc ->
       estimated sc = Some true /\ event sc = None /\
       scoreAt f n FCP (metricScoresByFrameId s) <> None)).
  assert (HP : P s').
  { revert Hrun. apply (@forEach_preserves _ _ P).
    - intros [f n] sa sb _ (Ha1 & Ha2 & Ha3 & Ha4) Hstep. cbn [fst snd] in Hstep.
      apply estimate_step_conservative in Hstep. destruct Hstep as (Hb1 & Hb2 & Hb3 & Hb4).
      split; [congruence |]. split; [| split].
      + intros f' n' k sc H. apply Hb2. now apply Ha2.
      + intros f' n' k Hk. rewrite Hb3 by assumption. now apply Ha3.
      + intros f' n' sc Hno Hsc.
        destruct (scoreAt f' n' TBT (metricScoresByFrameId sa)) as [sc0 |] eqn:Hsa.
        * pose proof (Hb2 f' n' TBT sc0 Hsa) as Hsame.
          assert (sc0 = sc) by congruence. subst sc0. now apply (Ha4 f' n').
        * destruct (Hb4 f' n' sc Hsa Hsc) as (H1 & H2 & H3).
          split; [assumption |]. split; [assumption |].
          rewrite <- (Ha3 f' n' FCP) by discriminate. exact H3.
    - split; [reflexivity |]. split; [now intros |]. split; [now intros |].
      intros f n sc H1 H2. congruence. }
  destruct HP as (H1 & H2 & H3 & H4). destruct Hframe as [Hbuf Hmark].
  split; [exact H1 |]. split; [exact H2 |]. split; [exact H3 |].
  split; [| now repeat split].
  intros f n sc Hno Hsc. destruct (H4 f n sc Hno Hsc) as (Ha & Hb & Hc).
  split; [assumption |]. split; [assumption |]. rewrite H3 by discriminate. exact Hc.
Qed.

(** ** Which event wins *)

Lemma forEach_invariant_prefix (A : Type) (body : A -> M unit)
    (P : list A -> State -> Prop) (l : list A) :
  (forall done x rest s s',
     l = done ++ x :: rest -> P done s -> body x s = (Normal tt, s') ->
     P (done ++ [x]) s') ->
  forall s s', P [] s -> forEach body l s = (Normal tt, s') -> P l s'.
Proof using.
  clear. intros Hstep.
  assert (H : forall rest done s s',
             l = done ++ rest -> P done s ->
             forEach body rest s = (Normal tt, s') -> P (done ++ rest) s').
  { induction rest as [| x rest IH]; intros done s s' Hl HP Hrun; cbn [forEach] in Hrun.
    - injection Hrun as <-. now rewrite app_nil_r.
    - apply bind_normal in Hrun. destruct Hrun as ([] & s1 & Hx & Hrest).
      replace (done ++ x :: rest) with ((done ++ [x]) ++ rest) by now rewrite <- app_assoc.
      apply (IH _ s1); [now rewrite <- app_assoc | | assumption].
      now apply (Hstep done x rest s s1). }
  intros s s' HP Hrun. now apply (H l [] s s').
Qed.

Lemma ascending_prefix (done rest : list TraceEventData) (x e : TraceEventData) :
  ascendingByTs (done ++ x :: rest) -> In e done -> ts e <= ts x.
Proof using.
  clear. induction done as [| y done IH]; cbn [app]; intros Hs Hin; [destruct Hin |].
  inversion Hs as [| ? ? Hs' Hle]; subst. destruct Hin as [<- | Hin]; [| now apply IH].
  rewrite Forall_forall in Hle. apply Hle. apply in_or_app. right. now left.
Qed.

Lemma guardOf_LCP (k : MetricName) (x : TraceEventData) :
  guardOf k x = true -> isTraceEventLargestContentfulPaintCandidate x = true -> k = LCP.
Proof using.
  clear. intros Hg Hk. revert Hg. destruct k; cbn [guardOf]; known_kind Hk;
    intros Hg; try discriminate Hg; reflexivity.
Qed.

Lemma scoreAt_storeAll_other_key (f n f' n' : string) (k : MetricName)
    (scs : list MetricScore) (t : MetricTable) :
  (f', n') <> (f, n) -> scoreAt f' n' k (storeAll f n scs t) = scoreAt f' n' k t.
Proof using.
  clear. intros Hne. unfold storeAll. revert t.
  induction scs as [| sc scs IH]; intros t; cbn [fold_left]; [reflexivity |].
  rewrite IH. apply scoreAt_store_other. congruence.
Qed.

Lemma stored_complete (f n : string) (nav : TraceEventNavigationStart) (x : TraceEventData)
    (t : MetricTable) (k : MetricName) :
  guardOf k x = true -> k <> LCP ->
  exists sc,
    scoreAt f n k (storeAll f n (storedScores nav x) t) = Some sc /\ event sc = Some x.
Proof.
  intros Hg Hk. unfold storedScores, storeAll.
  destruct k; cbn [guardOf] in Hg; try discriminate Hg; try congruence;
    known_kind Hg; cbn [fold_left]; rewrite !scoreAt_store, !String.eqb_refl;
    cbn [elapsedScore reportedTBT metricName MetricName_eqb andb];
    eexists; split; reflexivity.
Qed.

Lemma stored_guard (nav : TraceEventNavigationStart) (x : TraceEventData)
    (sc : MetricScore) :
  In sc (storedScores nav x) -> guardOf (metricName sc) x = true.
Proof.
  unfold storedScores.
  destruct (isTraceEventFirstContentfulPaint x) eqn:E1; [now intros [<- | []] |].
  destruct (isTraceEventFirstPaint x) eqn:E2; [now intros [<- | []] |].
  destruct (isTraceEventMarkDOMContent x) eqn:E3; [now intros [<- | []] |].
  destruct (isTraceEventInteractiveTime x) eqn:E4; [now intros [<- | [<- | []]] |].
  destruct (isTraceEventMarkLoad x) eqn:E5; [now intros [<- | []] |].
  intros [].
Qed.

Lemma latestWins_step (done rest : list TraceEventData) (x : TraceEventData) (s s' : State) :
  ascendingByTs (done ++ x :: rest) ->
  latestWins done s ->
  attributePageLoadEvent x s = (Normal tt, s') ->
  latestWins (done ++ [x]) s'.
Proof.
  intros Hsorted Hinv Hrun.
  assert (Hle : forall e, In e done -> ts e <= ts x)
    by (intros e; now apply ascending_prefix with (rest := rest)).
  apply attribute_normal in Hrun.
  destruct Hrun as [[-> Hnot] | (nav & f & n & Hr & Hrun)].
  { intros e nv f' n' k Hin Hk Hg Hre. apply in_app_or in Hin.
    destruct Hin as [Hin | [<- | []]]; [eauto | exfalso; eapply Hnot; eauto]. }
  destruct (isTraceEventLargestContentfulPaintCandidate x) eqn:Hkx.
  - unfold scoreEvent in Hrun. revert Hrun. pose proof Hkx as Hk'. known_kind Hk'.
    intros Hrun e nv f' n' k Hin Hk Hg Hre.
    rewrite (@storeLCPCandidate_scoreAt f n f' n' nav x s s' k Hrun Hk).
    apply in_app_or in Hin. destruct Hin as [Hin | [<- | []]]; [eauto |].
    exfalso. apply Hk. now apply guardOf_LCP with (x := x).
  - apply scoreEvent_other in Hrun; [| assumption]. subst s'.
    unfold latestWins. cbn [metricScoresByFrameId with_metricScoresByFrameId].
    intros e nv f' n' k Hin Hk Hg Hre. apply in_app_or in Hin.
    destruct Hin as [Hin | [<- | []]].
    + destruct (Hinv e nv f' n' k Hin Hk Hg Hre) as (sc0 & e0 & Hsc0 & He0 & Hts0).
      destruct (guardOf k x) eqn:Hgx.
      * assert (Hdec : (f', n') = (f, n) \/ (f', n') <> (f, n)).
        { destruct (String.eqb_spec f' f) as [-> | Hf]; [| right; congruence].
          destruct (String.eqb_spec n' n) as [-> | Hn]; [now left | right; congruence]. }
        destruct Hdec as [[= -> ->] | Hne].
        -- destruct (@stored_complete f n nav x (metricScoresByFrameId s) k Hgx Hk)
             as (sc & Hsc & Hev).
           exists sc, x. split; [exact Hsc |]. split; [exact Hev | now apply Hle].
        -- exists sc0, e0. rewrite scoreAt_storeAll_other_key by assumption. now repeat split.
      * exists sc0, e0. rewrite scoreAt_storeAll_other; [now repeat split |].
        intros sc Hsc Hname. apply stored_guard in Hsc. congruence.
    + destruct (reachesScoring_functional Hr Hre) as (-> & -> & ->).
      destruct (@stored_complete f n nav x (metricScoresByFrameId s) k Hg Hk)
        as (sc & Hsc & Hev).
      exists sc, x. split; [exact Hsc |]. split; [exact Hev | lia].
Qed.

(** X17: for every metric but LCP the latest event wins.  After a
    [finalize] that returns from an empty table, a buffered event of the
    kind of a metric other than LCP that passed every check has left, for
    its frame and its navigation, a score of that metric; the score is not
    an estimate and bears a buffered event of the same kind that passed the
    same checks and is not earlier than the event. *)
Theorem X17_the_latest_event_wins (s s' : State) :
  metricScoresByFrameId s = [] ->
  finalize s = (Normal tt, s') ->
  forall e nav frameId navigationId k,
    In e (pageLoadEventsArray s) -> k <> LCP -> guardOf k e = true ->
    reachesScoring e nav frameId navigationId ->
    exists sc e' nav',
      scoreAt frameId navigationId k (metricScoresByFrameId s') = Some sc /\
      event sc = Some e' /\ estimated sc = None /\
      In e' (pageLoadEventsArray s) /\ guardOf k e' = true /\
      reachesScoring e' nav' frameId navigationId /\ ts e <= ts e'.
Proof.
  intros Ht Hrun e nav f n k Hin Hk Hg Hr.
  pose proof (@finalize_provenance s s' Ht Hrun) as Hprov.
  apply finalize_normal in Hrun.
  destruct Hrun as (s1 & s2 & mains & Hloop & Hest & _ & _ & ->).
  cbn [metricScoresByFrameId with_allMarkerEvents] in *.
  assert (H1 : latestWins (sortByTs (pageLoadEventsArray s)) s1).
  { revert Hloop. apply forEach_invariant_prefix.
    - intros done x rest sa sb Hl. apply latestWins_step with (rest := rest).
      rewrite <- Hl. apply sortByTs_sorted.
    - intros e0 nv f0 n0 k0 []. }
  destruct (H1 e nav f n k (proj2 (sortByTs_In e _) Hin) Hk Hg Hr) as (sc & e' & Hsc & He' & Hts).
  assert (Hkept : scoreAt f n k (metricScoresByFrameId s2) = Some sc).
  { revert Hest. unfold estimateTotalBlockingTimes, bind at 1, gets.
    apply (@forEach_preserves _ _
             (fun s2 => scoreAt f n k (metricScoresByFrameId s2) = Some sc)); [| exact Hsc].
    intros [f0 n0] sa sb _ Ha Hstep. cbn [fst snd] in Hstep.
    apply estimate_step_conservative in Hstep. destruct Hstep as (_ & Hb & _).
    now apply Hb. }
  destruct (Hprov f n k sc Hkept)
    as [(e'' & nav' & Hin' & Hg' & Hr' & _ & He'' & _ & Hest' & _) | (_ & _ & Hnone & _)];
    [| congruence].
  assert (e'' = e') by congruence. subst e''.
  exists sc, e', nav'. split; [assumption |]. split; [assumption |]. split; [assumption |].
  split; [assumption |]. split; [assumption |]. split; assumption.
Qed.

Lemma earliestOfIndex_step (done rest : list TraceEventData) (x : TraceEventData)
    (s s' : State) :
  ascendingByTs (done ++ x :: rest) ->
  candidatesInvariant done s -> earliestOfIndex done s ->
  attributePageLoadEvent x s = (Normal tt, s') ->
  earliestOfIndex (done ++ [x]) s'.
Proof.
  intros Hsorted (Hu & Hsc & Hsel & Hmax) Hinv Hrun.
  assert (Hle : forall e, In e done -> ts e <= ts x)
    by (intros e; now apply ascending_prefix with (rest := rest)).
  apply attribute_normal in Hrun.
  destruct Hrun as [[-> Hnot] | (nav & f & n & Hr & Hrun)].
  { intros f' n' e' i' e nv i Hs Hi' Hin Hke Hre Hi. apply in_app_or in Hin.
    destruct Hin as [Hin | [<- | []]]; [eauto | exfalso; eapply Hnot; eauto]. }
  destruct (isTraceEventLargestContentfulPaintCandidate x) eqn:Hk.
  2: { apply scoreEvent_other in Hrun; [| assumption]. subst s'.
       assert (Hsame : forall f' n',
                 scoreAt f' n' LCP (storeAll f n (storedScores nav x) (metricScoresByFrameId s)) =
                 scoreAt f' n' LCP (metricScoresByFrameId s)).
       { intros f' n'. apply scoreAt_storeAll_other.
         intros sc Hin. now apply (storedScores_names nav x). }
       unfold earliestOfIndex, selectedCandidate.
       cbn [metricScoresByFrameId with_metricScoresByFrameId].
       intros f' n' e' i' e nv i (sc & H1 & H2) Hi' Hin Hke Hre Hi.
       rewrite Hsame in H1. apply in_app_or in Hin.
       destruct Hin as [Hin | [<- | []]]; [| congruence].
       apply (Hinv f' n' e' i' e nv i); try assumption. now exists sc. }
  unfold scoreEvent in Hrun. pose proof Hk as Hk'. revert Hrun. known_kind Hk. intros Hrun.
  destruct (data_field data_candidateIndex x) as [ix |] eqn:Hix;
    [| unfold storeLCPCandidate in Hrun; rewrite Hix in Hrun; discriminate].
  destruct (Z.eq_dec ix 0) as [-> | Hne];
    [unfold storeLCPCandidate in Hrun; rewrite Hix in Hrun; discriminate |].
  assert (Hstored :
    forall S,
      (forall e nv i,
         In e done -> isTraceEventLargestContentfulPaintCandidate e = true ->
         reachesScoring e nv f n -> data_field data_candidateIndex e = Some i -> i < ix) ->
      earliestOfIndex (done ++ [x])
        (with_metricScoresByFrameId
           (storeMetricScoreInTable f n (candidateScore nav x) (metricScoresByFrameId s))
           (with_selectedLCPCandidateEvents S s))).
  { intros S Hlower. unfold earliestOfIndex, selectedCandidate.
    cbn [metricScoresByFrameId with_metricScoresByFrameId].
    assert (Hat : forall f' n',
              scoreAt f' n' LCP
                (storeMetricScoreInTable f n (candidateScore nav x) (metricScoresByFrameId s)) =
              if String.eqb f' f && String.eqb n' n then Some (candidateScore nav x)
              else scoreAt f' n' LCP (metricScoresByFrameId s)).
    { intros f' n'. rewrite scoreAt_store. cbn [candidateScore metricName MetricName_eqb].
      now rewrite andb_true_r. }
    intros f' n' e' i' e nv i (sc & H1 & H2) Hi' Hin Hke Hre Hi.
    rewrite Hat in H1.
    destruct (String.eqb f' f && String.eqb n' n) eqn:Efn.
    - apply andb_true_iff in Efn. destruct Efn as [Ef En].
      apply String.eqb_eq in Ef, En. subst f' n'.
      injection H1 as <-. cbn [candidateScore event] in H2. injection H2 as <-.
      assert (i' = ix) by congruence. subst i'.
      apply in_app_or in Hin. destruct Hin as [Hin | [<- | []]].
      + left. now apply (Hlower e nv i).
      + right. split; [congruence | lia].
    - apply in_app_or in Hin. destruct Hin as [Hin | [<- | []]].
      + apply (Hinv f' n' e' i' e nv i); try assumption. now exists sc.
      + destruct (reachesScoring_functional Hr Hre) as (_ & -> & ->).
        now rewrite !String.eqb_refl in Efn. }
  destruct (scoreAt f n LCP (metricScoresByFrameId s)) as [last |] eqn:Hlast.
  - destruct (Hsc f n last Hlast) as (e0 & nv0 & i0 & Hin0 & -> & Hk0 & Hr0 & Hi0 & Hne0).
    rewrite (@storeLCPCandidate_next f n nav x e0 s ix i0 (candidateScore nv0 e0))
      in Hrun by (try assumption; reflexivity).
    destruct (Z.ltb_spec i0 ix) as [Hlt | Hge]; injection Hrun as <-.
    + apply Hstored. intros e nv i Hin Hke Hre Hi.
      destruct (Hmax e nv f n i Hin Hke Hre Hi) as (e' & i' & (sc & H1 & H2) & H3 & H4).
      rewrite Hlast in H1. injection H1 as <-. cbn [candidateScore event] in H2.
      assert (e' = e0) by congruence. subst e'. assert (i' = i0) by congruence. lia.
    + intros f' n' e' i' e nv i (sc & H1 & H2) Hi' Hin Hke Hre Hi.
      apply in_app_or in Hin. destruct Hin as [Hin | [<- | []]].
      * apply (Hinv f' n' e' i' e nv i); try assumption. now exists sc.
      * destruct (reachesScoring_functional Hr Hre) as (_ & -> & ->).
        rewrite Hlast in H1. injection H1 as <-. cbn [candidateScore event] in H2.
        assert (e' = e0) by congruence. subst e'.
        assert (i' = i0) by congruence. subst i'.
        assert (i = ix) by congruence. subst i.
        destruct (Z.eq_dec ix i0) as [-> | Hneq]; [right | left; lia].
        split; [reflexivity | now apply Hle].
  - rewrite (@storeLCPCandidate_first f n nav x s ix) in Hrun by assumption.
    injection Hrun as <-. apply Hstored. intros e nv i Hin Hke Hre Hi.
    destruct (Hmax e nv f n i Hin Hke Hre Hi) as (e' & i' & (sc & H1 & _) & _).
    rewrite Hlast in H1. discriminate.
Qed.

(** X18: among the candidates of one index the earliest wins.  After a
    [finalize] that returns from an empty table and an empty set of
    selected candidates, a buffered LCP candidate that passed every check
    has a lower index than the candidate selected for its frame and its
    navigation, or the same index and a timestamp that is not earlier: a
    candidate replaces the selected one only when its index is strictly
    higher. *)
Theorem X18_the_earliest_candidate_of_the_highest_index_wins (s s' : State) :
  metricScoresByFrameId s = [] -> selectedLCPCandidateEvents s = [] ->
  finalize s = (Normal tt, s') ->
  forall frameId navigationId e' i' e nav i,
    selectedCandidate frameId navigationId (metricScoresByFrameId s') e' ->
    data_field data_candidateIndex e' = Some i' ->
    In e (pageLoadEventsArray s) -> isTraceEventLargestContentfulPaintCandidate e = true ->
    reachesScoring e nav frameId navigationId ->
    data_field data_candidateIndex e = Some i ->
    i < i' \/ (i = i' /\ ts e' <= ts e).
Proof.
  intros Ht Hs Hrun. apply finalize_normal in Hrun.
  destruct Hrun as (s1 & s2 & mains & Hloop & Hest & _ & _ & ->).
  cbn [metricScoresByFrameId with_allMarkerEvents].
  assert (H1 : candidatesInvariant (sortByTs (pageLoadEventsArray s)) s1 /\
               earliestOfIndex (sortByTs (pageLoadEventsArray s)) s1).
  { revert Hloop.
    apply (@forEach_invariant_prefix _ attributePageLoadEvent
             (fun done s1 => candidatesInvariant done s1 /\ earliestOfIndex done s1)).
    - intros done x rest sa sb Hl [Ha Hb] Hstep. split.
      + now apply candidatesInvariant_step with (s := sa).
      + apply earliestOfIndex_step with (rest := rest) (s := sa); try assumption.
        rewrite <- Hl. apply sortByTs_sorted.
    - split; [now apply candidatesInvariant_fresh |].
      intros f n e' i' e nv i _ _ []. }
  destruct H1 as [_ H1].
  assert (Hsame : forall f n,
            scoreAt f n LCP (metricScoresByFrameId s2) =
            scoreAt f n LCP (metricScoresByFrameId s1)).
  { intros f n. revert Hest. unfold estimateTotalBlockingTimes, bind at 1, gets.
    apply (@forEach_preserves _ _
             (fun s2 => scoreAt f n LCP (metricScoresByFrameId s2) =
                        scoreAt f n LCP (metricScoresByFrameId s1))); [| reflexivity].
    intros [f0 n0] sa sb _ Ha Hstep. cbn [fst snd] in Hstep.
    apply estimate_step_conservative in Hstep. destruct Hstep as (_ & _ & Hb & _).
    rewrite Hb by discriminate. exact Ha. }
  intros f n e' i' e nav i (sc & Hsc & Hev) Hi' Hin Hke Hre Hi.
  apply (H1 f n e' i' e nav i); try assumption.
  - exists sc. now rewrite <- Hsame.
  - now apply sortByTs_In.
Qed.

(** ** The maps of the table are inhabited *)

Lemma storeLCPCandidate_table (f n : string) (nav : TraceEventNavigationStart)
    (x : TraceEventData) (s s' : State) :
  storeLCPCandidate f n nav x s = (Normal tt, s') ->
  metricScoresByFrameId s' = metricScoresByFrameId s \/
  metricScoresByFrameId s' =
    storeMetricScoreInTable f n (candidateScore nav x) (metricScoresByFrameId s).
Proof.
  unfold storeLCPCandidate.
  destruct (data_field data_candidateIndex x) as [i |]; [| discriminate].
  destruct (i =? 0); [discriminate |].
  unfold bind at 1.
  pose proof (metricsWithDefault_fst f n (metricScoresByFrameId s)) as Hfst.
  pose proof (store_after_default f n (candidateScore nav x) (metricScoresByFrameId s))
    as Hafter.
  destruct (metricsWithDefault f n (metricScoresByFrameId s)) as [metrics t1] eqn:Hmwd.
  cbn [fst snd] in Hfst, Hafter.
  destruct (mget LCP metrics) as [last |] eqn:Hlast.
  - assert (Ht1 : t1 = metricScoresByFrameId s).
    { destruct (lookupMetrics f n (metricScoresByFrameId s)) as [m |] eqn:Hm.
      - rewrite (metricsWithDefault_present _ _ _ Hm) in Hmwd. now injection Hmwd as _ <-.
      - subst metrics. discriminate Hlast. }
    subst t1.
    destruct (eventOf last) as [e0 |]; [| discriminate].
    destruct (negb (isTraceEventLargestContentfulPaintCandidate e0));
      [intros [= <-]; now left |].
    destruct (data_field data_candidateIndex e0) as [i0 |]; [| intros [= <-]; now left].
    destruct (i0 =? 0); [intros [= <-]; now left |].
    destruct (i0 <? i); intros [= <-]; [now right | now left].
  - intros [= <-]. right. exact Hafter.
Qed.

Lemma sset_inhabited (V : Type) (k : string) (v : V) (m : JSMap.t string V) : sset k v m <> [].
Proof using.
  clear. unfold sset. destruct m as [| [k' v'] m]; cbn; [discriminate |].
  destruct (String.eqb k k'); discriminate.
Qed.

Lemma sget_store (f n f' : string) (sc : MetricScore) (t : MetricTable)
    (metricsByNavigation : MetricsByNavigation) :
  sget f' (storeMetricScoreInTable f n sc t) = Some metricsByNavigation ->
  metricsByNavigation <> [] \/ sget f' t = Some metricsByNavigation.
Proof using.
  clear. unfold storeMetricScoreInTable, getWithDefault.
  destruct (sget f t) as [byNav |] eqn:Ef.
  - destruct (sget n byNav) as [m |];
      (destruct (String.eqb_spec f' f) as [-> | Hf];
       [rewrite sget_sset_same; intros [= <-]; left; apply sset_inhabited |
        unfold sget, sset; rewrite (get_set_other _ String.eqb_eq) by assumption; now right]).
  - cbn [sget JSMap.get].
    destruct (String.eqb_spec f' f) as [-> | Hf].
    + rewrite sget_sset_same. intros [= <-]. left. destruct (String.eqb n n); discriminate.
    + unfold sget, sset. rewrite !(get_set_other _ String.eqb_eq) by assumption. now right.
Qed.

Lemma tableInhabited_store (f n : string) (sc : MetricScore) (t : MetricTable) :
  tableInhabited t -> n <> "" -> sget f (rendererProcessesByFrame metaHandlerData) <> None ->
  tableInhabited (storeMetricScoreInTable f n sc t).
Proof.
  intros [Hframes Hnavs] Hn Hf. split.
  - intros f' byNav H. apply sget_store in H. destruct H as [H | H]; [assumption |].
    now apply (Hframes f').
  - intros f' n' metrics. rewrite lookupMetrics_store.
    destruct (String.eqb_spec f' f) as [-> | Hf']; cbn [andb]; [| apply Hnavs].
    destruct (String.eqb_spec n' n) as [-> | Hn']; cbn [andb]; [| apply Hnavs].
    intros [= <-]. rewrite mset_mdelete. split; [| now split].
    intros H. apply app_eq_nil in H. destruct H as [_ H]. discriminate H.
Qed.

Lemma tableInhabited_step (x : TraceEventData) (s s' : State) :
  tableInhabited (metricScoresByFrameId s) ->
  attributePageLoadEvent x s = (Normal tt, s') ->
  tableInhabited (metricScoresByFrameId s').
Proof.
  intros Hinv Hrun. apply attribute_normal in Hrun.
  destruct Hrun as [[-> _] | (nav & f & n & Hr & Hrun)]; [assumption |].
  assert (Hn : n <> "") by (now destruct Hr as (_ & _ & Hn & _)).
  assert (Hf : sget f (rendererProcessesByFrame metaHandlerData) <> None).
  { destruct Hr as (_ & _ & _ & _ & procs & pd & Hp & _). congruence. }
  destruct (isTraceEventLargestContentfulPaintCandidate x) eqn:Hk.
  - unfold scoreEvent in Hrun. revert Hrun. pose proof Hk as Hk'. known_kind Hk'.
    intros Hrun. apply storeLCPCandidate_table in Hrun.
    destruct Hrun as [-> | ->]; [assumption | now apply tableInhabited_store].
  - apply scoreEvent_other in Hrun; [| assumption]. subst s'.
    cbn [metricScoresByFrameId with_metricScoresByFrameId].
    unfold storeAll. generalize (storedScores nav x) as scs.
    generalize dependent (metricScoresByFrameId s).
    intros t Ht scs. revert t Ht.
    induction scs as [| sc scs IH]; intros t Ht; cbn [fold_left]; [assumption |].
    apply IH. now apply tableInhabited_store.
Qed.

(** X19: after a [finalize] that returns from an empty table, the table
    has no empty map: every frame of the table has a navigation and every
    navigation has a score; no navigation is filed under an empty id; and
    every frame of the table is one whose renderer processes the Meta
    handler knows. *)
Theorem X19_the_table_has_no_empty_map (s s' : State) :
  metricScoresByFrameId s = [] ->
  finalize s = (Normal tt, s') ->
  (forall frameId metricsByNavigation,
     sget frameId (metricScoresByFrameId s') = Some metricsByNavigation ->
     metricsByNavigation <> []) /\
  (forall frameId navigationId metrics,
     lookupMetrics frameId navigationId (metricScoresByFrameId s') = Some metrics ->
     metrics <> [] /\ navigationId <> "" /\
     sget frameId (rendererProcessesByFrame metaHandlerData) <> None).
Proof.
  intros Ht Hrun. apply finalize_normal in Hrun.
  destruct Hrun as (s1 & s2 & mains & Hloop & Hest & _ & _ & ->).
  cbn [metricScoresByFrameId with_allMarkerEvents].
  assert (H1 : tableInhabited (metricScoresByFrameId s1)).
  { revert Hloop.
    apply forEach_preserves with (P := fun s => tableInhabited (metricScoresByFrameId s)).
    - intros x sa sb _. apply tableInhabited_step.
    - cbn [metricScoresByFrameId with_pageLoadEventsArray]. rewrite Ht.
      split; [intros f byNav | intros f n m]; discriminate. }
  revert Hest. unfold estimateTotalBlockingTimes, bind at 1, gets.
  apply forEach_preserves with (P := fun s => tableInhabited (metricScoresByFrameId s));
    [| exact H1].
  intros [f n] sa sb _ Ha Hstep. cbn [fst snd] in Hstep. apply estimate_step in Hstep.
  destruct Hstep as [-> | (fcp & tbt & _ & Hfcp & _ & ->)]; [assumption |].
  cbn [metricScoresByFrameId with_metricScoresByFrameId].
  unfold scoreAt in Hfcp.
  destruct (lookupMetrics f n (metricScoresByFrameId sa)) as [m |] eqn:Hm;
    [| discriminate Hfcp].
  destruct (proj2 Ha f n m Hm) as (_ & Hn & Hf). now apply tableInhabited_store.
Qed.


(** ** Absent identifiers *)

Lemma LCP_is_pageLoad (e : TraceEventData) :
  isTraceEventLargestContentfulPaintCandidate e = true -> eventIsPageLoadEvent e = true.
Proof using.
  clear. intros Hk.
  unfold eventIsPageLoadEvent, pageLoadEventTypeGuards, markerTypeGuards.
  cbn [existsb app]. rewrite Hk. now rewrite !orb_true_r.
Qed.

Lemma candidateIndex_error_reaches (e : TraceEventData) (s s' : State) :
  isTraceEventLargestContentfulPaintCandidate e = true ->
  attributePageLoadEvent e s =
    (Throw "Largest Contenful Paint unexpectedly had no candidateIndex.", s') ->
  exists nav f n, reachesScoring e nav f n.
Proof.
  intros Hk Hrun. pose proof (LCP_is_pageLoad e Hk) as Hpl.
  apply attribute_throw in Hrun.
  destruct Hrun as [Hnav | [(nav & _ & _ & Hmsg) | [Hfr | (nav & f & n & Hr & _)]]].
  - apply getNavigation_throw in Hnav; [| assumption].
    destruct Hnav as [(_ & _ & Hmsg) | (_ & _ & Hmsg)]; discriminate Hmsg.
  - discriminate Hmsg.
  - apply getFrameId_throw in Hfr; [| assumption].
    destruct Hfr as (_ & _ & Hmsg). discriminate Hmsg.
  - now exists nav, f, n.
Qed.

Lemma candidate_dropped (e : TraceEventData) (s : State) :
  isTraceEventLargestContentfulPaintCandidate e = true ->
  falsy_string (data_field data_navigationId e) = false ->
  (forall nav,
     getNavigationForPageLoadEvent e = Normal (Some nav) ->
     falsy_string (nav_navigationId nav) = false) ->
  (forall nav f n, ~ reachesScoring e nav f n) ->
  attributePageLoadEvent e s = (Normal tt, s).
Proof.
  intros Hk Hid Hnavid Hnot. pose proof (LCP_is_pageLoad e Hk) as Hpl.
  assert (Hkind : ~ (isTraceEventMarkDOMContent e = true \/ isTraceEventMarkLoad e = true)).
  { clear - Hk. revert Hk. unfold_guards. intros Hk. apply String.eqb_eq in Hk.
    rewrite Hk. intros [H | H]; discriminate H. }
  destruct (attributePageLoadEvent e s) as [[[] | msg] s1] eqn:Hrun.
  - apply attribute_normal in Hrun.
    destruct Hrun as [[-> _] | (nav & f & n & Hr & _)]; [reflexivity |].
    exfalso. exact (Hnot nav f n Hr).
  - exfalso. apply attribute_throw in Hrun.
    destruct Hrun as [Hnav | [(nav & Hnav & Hfalsy & _) | [Hfr | (nav & f & n & Hr & _)]]].
    + apply getNavigation_throw in Hnav; [| assumption].
      destruct Hnav as [(_ & Hfalsy & _) | (Hother & _)]; [congruence | now apply Hkind].
    + rewrite (Hnavid nav Hnav) in Hfalsy. discriminate Hfalsy.
    + apply getFrameId_throw in Hfr; [| assumption]. now apply Hkind.
    + exact (Hnot nav f n Hr).
Qed.

Lemma finalize_of_dropped (e : TraceEventData) (s : State) :
  isTraceEventLargestContentfulPaintCandidate e = true ->
  (forall s1, attributePageLoadEvent e s1 = (Normal tt, s1)) ->
  pageLoadEventsArray s = [e] -> metricScoresByFrameId s = [] ->
  finalize s =
  (Normal tt, with_allMarkerEvents [] s).
Proof.
  intros Hk Hdrop Hbuf Ht.
  unfold finalize, bind at 1, modify. rewrite Hbuf.
  change (sortByTs [e]) with [e].
  unfold bind at 1, gets. cbn [pageLoadEventsArray with_pageLoadEventsArray].
  unfold bind at 1. cbn [forEach]. unfold bind at 1. rewrite Hdrop.
  unfold ret at 1. cbv iota beta.
  unfold bind at 1, estimateTotalBlockingTimes, bind at 1, gets.
  cbn [metricScoresByFrameId with_pageLoadEventsArray]. rewrite Ht.
  cbn [navigationKeys flat_map forEach]. unfold ret at 1. cbv iota beta.
  unfold bind at 1, gets. cbn [metricScoresByFrameId with_pageLoadEventsArray]. rewrite Ht.
  unfold bind at 1. cbn [pageLoadEventsArray with_pageLoadEventsArray].
  cbn [gatherFinalLCPEvents JSMap.values List.map flat_map app filter]. rewrite Hk.
  cbn [negb filter]. unfold bind, lift, modify. cbn [filterC sortByTs fold_right].
  destruct s; cbn in *; subst; reflexivity.
Qed.

(** C5, as amended: during finalize an absent required identifier is fatal
    on the events that get as far as the check that needs it.  An FCP, FP
    or LCP-candidate event with no navigation id in its payload and a
    MarkDOMContent or MarkLoad event with no frame id in its payload throw
    when they are processed.  An LCP-candidate event with no candidate
    index throws the error of the candidate index exactly when its
    navigation has resolved and it has passed the frame, process and
    window checks.  A buffer that holds an event of one of these three
    kinds makes [finalize] throw.  An LCP-candidate event with no candidate
    index that carries a navigation id and does not get as far as the
    branch on its kind (its navigation carrying an id if it resolved) is
    dropped: processing it returns and leaves the state as it was, and
    [finalize] returns on a buffer that holds this event alone. *)
Theorem C5_absent_identifier_is_fatal :
  (forall e s,
     isTraceEventFirstContentfulPaint e = true \/ isTraceEventFirstPaint e = true \/
     isTraceEventLargestContentfulPaintCandidate e = true ->
     data_field data_navigationId e = None ->
     attributePageLoadEvent e s =
     (Throw "Trace event unexpectedly had no navigation ID.", s)) /\
  (forall e s,
     isTraceEventMarkDOMContent e = true \/ isTraceEventMarkLoad e = true ->
     data_field data_frame e = None ->
     attributePageLoadEvent e s =
     (Throw "MarkDOMContent unexpectedly had no frame ID.", s)) /\
  (forall e s navigation frameId navigationId,
     isTraceEventLargestContentfulPaintCandidate e = true ->
     data_field data_candidateIndex e = None ->
     reachesScoring e navigation frameId navigationId ->
     attributePageLoadEvent e s =
     (Throw "Largest Contenful Paint unexpectedly had no candidateIndex.", s)) /\
  (forall e s,
     In e (pageLoadEventsArray s) ->
     ((isTraceEventFirstContentfulPaint e = true \/ isTraceEventFirstPaint e = true \/
       isTraceEventLargestContentfulPaintCandidate e = true) /\
      data_field data_navigationId e = None) \/
     ((isTraceEventMarkDOMContent e = true \/ isTraceEventMarkLoad e = true) /\
      data_field data_frame e = None) \/
     (isTraceEventLargestContentfulPaintCandidate e = true /\
      data_field data_candidateIndex e = None /\
      exists navigation frameId navigationId,
        reachesScoring e navigation frameId navigationId) ->
     throws finalize s) /\
  (forall e s,
     isTraceEventLargestContentfulPaintCandidate e = true ->
     data_field data_candidateIndex e = None ->
     ((exists s',
         attributePageLoadEvent e s =
         (Throw "Largest Contenful Paint unexpectedly had no candidateIndex.", s')) <->
      exists navigation frameId navigationId,
        reachesScoring e navigation frameId navigationId)) /\
  (forall e s,
     isTraceEventLargestContentfulPaintCandidate e = true ->
     data_field data_candidateIndex e = None ->
     falsy_string (data_field data_navigationId e) = false ->
     (forall navigation,
        getNavigationForPageLoadEvent e = Normal (Some navigation) ->
        falsy_string (nav_navigationId navigation) = false) ->
     (forall navigation frameId navigationId,
        ~ reachesScoring e navigation frameId navigationId) ->
     attributePageLoadEvent e s = (Normal tt, s) /\
     (pageLoadEventsArray s = [e] -> metricScoresByFrameId s = [] ->
      finalize s = (Normal tt, with_allMarkerEvents [] s))).
Proof.
  destruct absent_identifier_throws as (Hnav & Hframe & Hindex & Hfinalize).
  split; [exact Hnav |]. split; [exact Hframe |]. split; [exact Hindex |].
  split; [exact Hfinalize |]. split.
  - intros e s Hk Hi. split.
    + intros (s' & Hrun). now apply candidateIndex_error_reaches with (s := s) (s' := s').
    + intros (nav & f & n & Hr). exists s. exact (Hindex e s nav f n Hk Hi Hr).
  - intros e s Hk _ Hid Hnavid Hnot.
    assert (Hdrop : forall s1, attributePageLoadEvent e s1 = (Normal tt, s1))
      by (intros s1; now apply candidate_dropped).
    split; [apply Hdrop |]. intros Hbuf Ht. now apply finalize_of_dropped with (e := e).
Qed.

(** ** The blocking time of a navigation whose renderer process is unknown *)

Lemma estimate_step_known (f n : string) (s s' : State) :
  estimateTotalBlockingTime f n s = (Normal tt, s') ->
  scoreAt f n TBT (metricScoresByFrameId s') <> None \/
  forall fcp e,
    scoreAt f n FCP (metricScoresByFrameId s') = Some fcp -> event fcp = Some e ->
    zget (pid e) (processes rendererHandlerData) = None.
Proof.
  unfold estimateTotalBlockingTime, bind at 1, gets, scoreAt.
  destruct (lookupMetrics f n (metricScoresByFrameId s)) as [metrics |] eqn:Hm.
  2: { intros [= <-]. right. rewrite Hm. discriminate. }
  destruct (mget TBT metrics) as [tbt0 |] eqn:Htbt.
  { intros [= <-]. left. rewrite Hm, Htbt. discriminate. }
  destruct (mget FCP metrics) as [fcp |] eqn:Hfcp.
  2: { intros [= <-]. right. rewrite Hm, Hfcp. discriminate. }
  destruct (event fcp) as [fcpEvent |] eqn:Hev.
  2: { intros [= <-]. right. rewrite Hm, Hfcp. intros fcp' e [= <-] He. congruence. }
  destruct (zget (pid fcpEvent) (processes rendererHandlerData)) as [renderer |] eqn:Hp.
  2: { intros [= <-]. right. rewrite Hm, Hfcp. intros fcp' e [= <-] He.
       rewrite Hev in He. now injection He as <-. }
  destruct (find isMainThread (JSMap.values (threads renderer))) as [mainThread |];
    [| discriminate].
  destruct (tree mainThread) as [mainThreadTree |]; [| discriminate].
  unfold bind, lift.
  destruct (blockingTimeLoop _ _ _ _ _) as [tbt | msg]; [| discriminate].
  unfold storeMetricScore, modify. intros [= <-]. left.
  cbn [metricScoresByFrameId with_metricScoresByFrameId].
  fold (scoreAt f n TBT
          (storeMetricScoreInTable f n (estimatedTBT tbt (navigation fcp))
             (metricScoresByFrameId s))).
  rewrite scoreAt_store. cbn. rewrite !String.eqb_refl. discriminate.
Qed.

(** After the estimation loop a frame and a navigation of the table have a
    TBT score unless the renderer process of the event of their FCP score,
    if they have one, is unknown. *)
Lemma estimates_known (s s' : State) (f n : string) (m : Metrics) :
  estimateTotalBlockingTimes s = (Normal tt, s') ->
  lookupMetrics f n (metricScoresByFrameId s) = Some m ->
  scoreAt f n TBT (metricScoresByFrameId s') <> None \/
  forall fcp e,
    scoreAt f n FCP (metricScoresByFrameId s') = Some fcp -> event fcp = Some e ->
    zget (pid e) (processes rendererHandlerData) = None.
Proof.
  unfold estimateTotalBlockingTimes, bind at 1, gets. intros Hrun Hm.
  apply navigationKeys_In in Hm.
  assert (H : forall key, In key (navigationKeys (metricScoresByFrameId s)) ->
                scoreAt (fst key) (snd key) TBT (metricScoresByFrameId s') <> None \/
                forall fcp e,
                  scoreAt (fst key) (snd key) FCP (metricScoresByFrameId s') = Some fcp ->
                  event fcp = Some e ->
                  zget (pid e) (processes rendererHandlerData) = None).
  { revert Hrun.
    apply (@forEach_invariant _ _
             (fun done st =>
                forall key, In key done ->
                  scoreAt (fst key) (snd key) TBT (metricScoresByFrameId st) <> None \/
                  forall fcp e,
                    scoreAt (fst key) (snd key) FCP (metricScoresByFrameId st) = Some fcp ->
                    event fcp = Some e ->
                    zget (pid e) (processes rendererHandlerData) = None)).
    - intros done key sa sb _ Hdone Hstep key' Hin. apply in_app_or in Hin.
      destruct Hin as [Hin | [<- | []]].
      + specialize (Hdone key' Hin). apply estimate_step in Hstep.
        destruct Hstep as [-> | (fcp & tbt & _ & _ & _ & ->)]; [assumption |].
        cbn [metricScoresByFrameId with_metricScoresByFrameId].
        rewrite !scoreAt_store. cbn [estimatedTBT metricName MetricName_eqb].
        rewrite andb_true_r, andb_false_r.
        destruct (String.eqb (fst key') (fst key) && String.eqb (snd key') (snd key));
          [left; discriminate | assumption].
      + now apply estimate_step_known with (s := sa).
    - intros key []. }
  exact (H (f, n) Hm).
Qed.

(** C1, as amended: after [finalize], the TBT score stored for a frame and
    a navigation is one of two, never both.  Either an InteractiveTime
    event of the buffer resolved to that navigation, and the score is the
    value of its [total_blocking_time_ms], converted to microseconds, with
    the estimated flag unset; this is the case whenever such an event
    resolved.  Or no InteractiveTime event resolved, the navigation has an
    FCP score, and the score is an estimate with the estimated flag set:
    over the root tasks of the main thread of the FCP event's process, the
    sum, for the non-instant tasks named RunTask that do not end before
    FCP and with their part before FCP clipped, of the duration beyond
    50ms.  An FCP score carries its event, and when no InteractiveTime
    event resolved the estimate is stored exactly when the Renderer
    handler knows the process of that event: with an FCP score of a
    process that it does not know, or with no FCP score, the navigation
    has no TBT score at all. *)
Theorem C1_total_blocking_time (s s' : State) :
  metricScoresByFrameId s = [] ->
  finalize s = (Normal tt, s') ->
  (forall f n sc,
     scoreAt f n TBT (metricScoresByFrameId s') = Some sc ->
     (exists e nav,
        In e (pageLoadEventsArray s) /\ isTraceEventInteractiveTime e = true /\
        reachesScoring e nav f n /\
        sc = reportedTBT nav e /\
        score sc =
          formatMicrosecondsTime
            (millisecondsToMicroseconds (args_total_blocking_time_ms (args e)))
            millisecondsFormat /\
        estimated sc = None) \/
     (~ interactiveTimeResolved (pageLoadEventsArray s) f n /\
      exists fcp tbt,
        scoreAt f n FCP (metricScoresByFrameId s') = Some fcp /\
        estimateFor fcp tbt /\
        sc = estimatedTBT tbt (navigation fcp) /\
        score sc = formatMicrosecondsTime tbt millisecondsFormat /\
        estimated sc = Some true)) /\
  (forall f n,
     interactiveTimeResolved (pageLoadEventsArray s) f n ->
     exists sc,
       scoreAt f n TBT (metricScoresByFrameId s') = Some sc /\
       authoritativeTBT (pageLoadEventsArray s) f n sc /\ estimated sc = None) /\
  (forall f n fcp tbt,
     ~ interactiveTimeResolved (pageLoadEventsArray s) f n ->
     scoreAt f n FCP (metricScoresByFrameId s') = Some fcp ->
     estimateFor fcp tbt ->
     scoreAt f n TBT (metricScoresByFrameId s') = Some (estimatedTBT tbt (navigation fcp))) /\
  (forall f n fcp,
     scoreAt f n FCP (metricScoresByFrameId s') = Some fcp ->
     exists fcpEvent, event fcp = Some fcpEvent) /\
  (forall f n fcp fcpEvent renderer,
     ~ interactiveTimeResolved (pageLoadEventsArray s) f n ->
     scoreAt f n FCP (metricScoresByFrameId s') = Some fcp ->
     event fcp = Some fcpEvent ->
     zget (pid fcpEvent) (processes rendererHandlerData) = Some renderer ->
     exists tbt,
       estimateFor fcp tbt /\
       scoreAt f n TBT (metricScoresByFrameId s') =
         Some (estimatedTBT tbt (navigation fcp))) /\
  (forall f n fcp fcpEvent,
     ~ interactiveTimeResolved (pageLoadEventsArray s) f n ->
     scoreAt f n FCP (metricScoresByFrameId s') = Some fcp ->
     event fcp = Some fcpEvent ->
     zget (pid fcpEvent) (processes rendererHandlerData) = None ->
     scoreAt f n TBT (metricScoresByFrameId s') = None) /\
  (forall f n,
     ~ interactiveTimeResolved (pageLoadEventsArray s) f n ->
     scoreAt f n FCP (metricScoresByFrameId s') = None ->
     scoreAt f n TBT (metricScoresByFrameId s') = None) /\
  (forall f n,
     (exists sc,
        scoreAt f n TBT (metricScoresByFrameId s') = Some sc /\ estimated sc = Some true) <->
     (~ interactiveTimeResolved (pageLoadEventsArray s) f n /\
      exists fcp fcpEvent renderer,
        scoreAt f n FCP (metricScoresByFrameId s') = Some fcp /\
        event fcp = Some fcpEvent /\
        zget (pid fcpEvent) (processes rendererHandlerData) = Some renderer)).
Proof.
  intros Ht Hrun.
  destruct (@finalize_total_blocking_time s s' Ht Hrun) as (Hscore & Hreported & Hestimated).
  pose proof (@finalize_provenance s s' Ht Hrun) as Hprov.
  assert (Hknown : forall f n fcp fcpEvent renderer,
            ~ interactiveTimeResolved (pageLoadEventsArray s) f n ->
            scoreAt f n FCP (metricScoresByFrameId s') = Some fcp ->
            event fcp = Some fcpEvent ->
            zget (pid fcpEvent) (processes rendererHandlerData) = Some renderer ->
            exists tbt,
              estimateFor fcp tbt /\
              scoreAt f n TBT (metricScoresByFrameId s') =
                Some (estimatedTBT tbt (navigation fcp))).
  { intros f n fcp e renderer Hno Hfcp Hev Hp.
    pose proof Hrun as Hrun'. apply finalize_normal in Hrun'.
    destruct Hrun' as (s1 & s2 & mains & _ & Hloop & _ & _ & ->).
    cbn [metricScoresByFrameId with_allMarkerEvents] in *.
    assert (Hm : exists m, lookupMetrics f n (metricScoresByFrameId s1) = Some m).
    { rewrite (@estimates_FCP s1 s2 f n Hloop) in Hfcp. unfold scoreAt in Hfcp.
      destruct (lookupMetrics f n (metricScoresByFrameId s1)) as [m |];
        [eauto | discriminate]. }
    destruct Hm as (m & Hm).
    destruct (@estimates_known s1 s2 f n m Hloop Hm) as [Hsome | Hnone].
    - destruct (scoreAt f n TBT (metricScoresByFrameId s2)) as [sc |] eqn:E; [| congruence].
      destruct (Hscore f n sc E)
        as [(e0 & nav & Hin & Hk & Hr & _) | (_ & fcp' & tbt & H1 & H2 & -> & _)].
      + exfalso. apply Hno. now exists e0, nav.
      + assert (fcp' = fcp) by congruence. subst fcp'. now exists tbt.
    - specialize (Hnone fcp e Hfcp Hev). congruence. }
  assert (Hsynth : forall f n sc,
            ~ interactiveTimeResolved (pageLoadEventsArray s) f n ->
            scoreAt f n TBT (metricScoresByFrameId s') = Some sc ->
            exists fcp fcpEvent renderer,
              scoreAt f n FCP (metricScoresByFrameId s') = Some fcp /\
              event fcp = Some fcpEvent /\
              zget (pid fcpEvent) (processes rendererHandlerData) = Some renderer).
  { intros f n sc Hno Hsc.
    destruct (Hscore f n sc Hsc)
      as [(e0 & nav & Hin & Hk & Hr & _) | (_ & fcp & tbt & H1 & H2 & _)].
    - exfalso. apply Hno. now exists e0, nav.
    - destruct H2 as (e & r & mt & tr & He & Hr & _). now exists fcp, e, r. }
  split; [exact Hscore |]. split; [exact Hreported |]. split; [exact Hestimated |].
  split; [| split; [exact Hknown | split; [| split]]].
  - intros f n fcp Hfcp.
    destruct (Hprov f n FCP fcp Hfcp) as [(e & nav & _ & _ & _ & _ & He & _) | (Hk & _)];
      [now exists e | discriminate Hk].
  - intros f n fcp e Hno Hfcp Hev Hp.
    destruct (scoreAt f n TBT (metricScoresByFrameId s')) as [sc |] eqn:E; [| reflexivity].
    destruct (Hsynth f n sc Hno E) as (fcp' & e' & r & H1 & H2 & H3). congruence.
  - intros f n Hno Hfcp.
    destruct (scoreAt f n TBT (metricScoresByFrameId s')) as [sc |] eqn:E; [| reflexivity].
    destruct (Hsynth f n sc Hno E) as (fcp' & e' & r & H1 & _). congruence.
  - intros f n. split.
    + intros (sc & Hsc & Hest).
      assert (Hno : ~ interactiveTimeResolved (pageLoadEventsArray s) f n).
      { intros Hres. destruct (Hreported f n Hres) as (sc' & Hsc' & _ & Hest').
        congruence. }
      split; [assumption |]. now apply Hsynth with (sc := sc).
    + intros (Hno & fcp & e & r & Hfcp & Hev & Hp).
      destruct (Hknown f n fcp e r Hno Hfcp Hev Hp) as (tbt & _ & Htbt).
      eexists. split; [exact Htbt | reflexivity].
Qed.

(** ** The set of selected candidates and the events gathered from the table *)

Lemma JSSet_add_NoDup (e : TraceEventData) (l : JSSet.t TraceEventData) :
  NoDup l -> NoDup (JSSet.add TraceEventData_eqb e l).
Proof using.
  clear. intros Hnd. unfold JSSet.add, JSSet.has.
  destruct (existsb (TraceEventData_eqb e) l) eqn:E; [assumption |].
  apply NoDup_snoc; [assumption |]. intros Hin.
  assert (Htrue : existsb (TraceEventData_eqb e) l = true).
  { apply existsb_exists. exists e. split; [assumption |]. now apply TraceEventData_eqb_eq. }
  congruence.
Qed.

Lemma JSSet_delete_NoDup (e : TraceEventData) (l : JSSet.t TraceEventData) :
  NoDup l -> NoDup (JSSet.delete TraceEventData_eqb e l).
Proof using. clear. unfold JSSet.delete. apply NoDup_filter. Qed.

(** What a run of [storeLCPCandidate] that returns does to the set. *)
Lemma storeLCPCandidate_selected (f n : string) (nav : TraceEventNavigationStart)
    (x : TraceEventData) (s s' : State) :
  storeLCPCandidate f n nav x s = (Normal tt, s') ->
  selectedLCPCandidateEvents s' = selectedLCPCandidateEvents s \/
  selectedLCPCandidateEvents s' =
    JSSet.add TraceEventData_eqb x (selectedLCPCandidateEvents s) \/
  exists last,
    selectedLCPCandidateEvents s' =
      JSSet.add TraceEventData_eqb x
        (JSSet.delete TraceEventData_eqb last (selectedLCPCandidateEvents s)).
Proof.
  unfold storeLCPCandidate.
  destruct (data_field data_candidateIndex x) as [i |]; [| discriminate].
  destruct (i =? 0); [discriminate |].
  unfold bind at 1.
  destruct (metricsWithDefault f n (metricScoresByFrameId s)) as [metrics t1].
  destruct (mget LCP metrics) as [last |].
  - destruct (eventOf last) as [e0 |]; [| discriminate].
    destruct (negb (isTraceEventLargestContentfulPaintCandidate e0));
      [intros [= <-]; now left |].
    destruct (data_field data_candidateIndex e0) as [i0 |]; [| intros [= <-]; now left].
    destruct (i0 =? 0); [intros [= <-]; now left |].
    destruct (i0 <? i); [| intros [= <-]; now left].
    intros [= <-]. right. right. now exists e0.
  - intros [= <-]. right. now left.
Qed.

Lemma attribute_selected_NoDup (x : TraceEventData) (s s' : State) :
  NoDup (selectedLCPCandidateEvents s) ->
  attributePageLoadEvent x s = (Normal tt, s') ->
  NoDup (selectedLCPCandidateEvents s').
Proof.
  intros Hnd Hrun. apply attribute_normal in Hrun.
  destruct Hrun as [[-> _] | (nav & f & n & _ & Hrun)]; [assumption |].
  destruct (isTraceEventLargestContentfulPaintCandidate x) eqn:Hk.
  - unfold scoreEvent in Hrun. revert Hrun. known_kind Hk. intros Hrun.
    apply storeLCPCandidate_selected in Hrun.
    destruct Hrun as [-> | [-> | (last & ->)]];
      [assumption | now apply JSSet_add_NoDup |].
    now apply JSSet_add_NoDup, JSSet_delete_NoDup.
  - apply scoreEvent_other in Hrun; [| assumption]. now subst s'.
Qed.

Lemma finalize_selected_NoDup (s s' : State) :
  selectedLCPCandidateEvents s = [] ->
  finalize s = (Normal tt, s') ->
  NoDup (selectedLCPCandidateEvents s').
Proof.
  intros Hs Hrun. apply finalize_normal in Hrun.
  destruct Hrun as (s1 & s2 & mains & Hloop & Hest & _ & _ & ->).
  cbn [selectedLCPCandidateEvents with_allMarkerEvents].
  rewrite (proj2 (@estimates_buffer s1 s2 Hest)).
  revert Hloop.
  apply forEach_preserves with (P := fun st => NoDup (selectedLCPCandidateEvents st)).
  - intros x sa sb _. apply attribute_selected_NoDup.
  - cbn [selectedLCPCandidateEvents with_pageLoadEventsArray]. rewrite Hs. constructor.
Qed.

(** The concatenation of lists without duplicates, made from entries of
    distinct keys, has no duplicates when an element determines the key of
    the entry it is made from. *)
Lemma NoDup_flat_map_keyed (E K B : Type) (key : E -> K) (g : E -> list B) (l : list E) :
  NoDup (List.map key l) ->
  (forall x, In x l -> NoDup (g x)) ->
  (forall x y b, In x l -> In y l -> In b (g x) -> In b (g y) -> key x = key y) ->
  NoDup (flat_map g l).
Proof using.
  clear. induction l as [| x l IH]; intros Hnd Hg Hkey; cbn [flat_map]; [constructor |].
  cbn [List.map] in Hnd. inversion Hnd as [| ? ? Hnotin Hnd']; subst.
  apply NoDup_app.
  - apply Hg. now left.
  - apply IH; [assumption | |].
    + intros y Hy. apply Hg. now right.
    + intros y z b Hy Hz. apply Hkey; now right.
  - intros b Hb Hb'. apply in_flat_map in Hb'. destruct Hb' as (y & Hy & Hby).
    apply Hnotin. rewrite (Hkey x y b); [now apply in_map | now left | now right | | ];
      assumption.
Qed.

Lemma gatherFinalLCPEvents_nested (t : MetricTable) :
  gatherFinalLCPEvents t =
  flat_map (fun frameEntry : string * MetricsByNavigation =>
              flat_map (fun navigationEntry : string * Metrics =>
                          match mget LCP (snd navigationEntry) with
                          | None => []
                          | Some lcpInNavigation =>
                              match event lcpInNavigation with
                              | None => []
                              | Some e => [e]
                              end
                          end)
                       (snd frameEntry))
           t.
Proof using.
  clear. unfold gatherFinalLCPEvents, JSMap.values.
  induction t as [| [f byNav] t IH]; [reflexivity |].
  cbn [List.map flat_map snd]. rewrite flat_map_app, IH. f_equal.
  clear. induction byNav as [| [n m] byNav IH]; [reflexivity |].
  cbn [List.map flat_map snd]. now rewrite IH.
Qed.

(** The table gives each event at most once when an event is that of the
    LCP score of one frame and one navigation at most. *)
Lemma gatherFinalLCPEvents_NoDup (t : MetricTable) :
  uniqueKeys t ->
  (forall f n f' n' sc sc' e,
     scoreAt f n LCP t = Some sc -> event sc = Some e ->
     scoreAt f' n' LCP t = Some sc' -> event sc' = Some e ->
     f' = f /\ n' = n) ->
  NoDup (gatherFinalLCPEvents t).
Proof using.
  clear. intros Hu Hone. pose proof Hu as [Hnd Hall].
  assert (Hat : forall f byNav n m e,
            In (f, byNav) t -> In (n, m) byNav ->
            In e match mget LCP m with
                 | None => []
                 | Some lcpInNavigation =>
                     match event lcpInNavigation with
                     | None => []
                     | Some e => [e]
                     end
                 end ->
            exists sc, scoreAt f n LCP t = Some sc /\ event sc = Some e).
  { intros f byNav n m e Hf Hn He.
    assert (Hnd' : NoDup (JSMap.keys byNav))
      by exact (proj1 (Forall_forall _ t) Hall (f, byNav) Hf).
    unfold scoreAt, lookupMetrics.
    rewrite (@In_sget _ f byNav t Hnd Hf), (@In_sget _ n m byNav Hnd' Hn).
    destruct (mget LCP m) as [sc |]; [| destruct He].
    destruct (event sc) as [e' |] eqn:Hev; [| destruct He].
    destruct He as [<- | []]. now exists sc. }
  rewrite gatherFinalLCPEvents_nested.
  apply NoDup_flat_map_keyed with (key := fst).
  - exact Hnd.
  - intros [f byNav] Hf. cbn [snd].
    apply NoDup_flat_map_keyed with (key := fst).
    + exact (proj1 (Forall_forall _ t) Hall (f, byNav) Hf).
    + intros [n m] _. cbn [snd]. destruct (mget LCP m) as [sc |]; [| constructor].
      destruct (event sc); [| constructor]. constructor; [intros [] | constructor].
    + intros [n m] [n' m'] e Hn Hn' He He'. cbn [fst snd] in *.
      destruct (Hat f byNav n m e Hf Hn He) as (sc & H1 & H2).
      destruct (Hat f byNav n' m' e Hf Hn' He') as (sc' & H1' & H2').
      now destruct (Hone f n f n' sc sc' e H1 H2 H1' H2') as [_ ->].
  - intros [f byNav] [f' byNav'] e Hf Hf' He He'. cbn [fst snd] in *.
    apply in_flat_map in He, He'.
    destruct He as ([n m] & Hn & He). destruct He' as ([n' m'] & Hn' & He').
    cbn [snd] in He, He'.
    destruct (Hat f byNav n m e Hf Hn He) as (sc & H1 & H2).
    destruct (Hat f' byNav' n' m' e Hf' Hn' He') as (sc' & H1' & H2').
    now destruct (Hone f n f' n' sc sc' e H1 H2 H1' H2') as [-> _].
Qed.

(** After [finalize] the set of selected candidates holds the events that
    [gatherFinalLCPEvents] reads from the table, each once. *)
Lemma finalize_selected_gathered (s s' : State) :
  metricScoresByFrameId s = [] -> selectedLCPCandidateEvents s = [] ->
  finalize s = (Normal tt, s') ->
  NoDup (selectedLCPCandidateEvents s') /\
  NoDup (gatherFinalLCPEvents (metricScoresByFrameId s')) /\
  forall e,
    In e (selectedLCPCandidateEvents s') <->
    In e (gatherFinalLCPEvents (metricScoresByFrameId s')).
Proof.
  intros Ht Hs Hrun.
  destruct (@finalize_candidates s s' Ht Hs Hrun) as (Hu & Hsc & Hsel & _).
  split; [now apply finalize_selected_NoDup with (s := s) |]. split.
  - apply gatherFinalLCPEvents_NoDup; [assumption |].
    intros f n f' n' sc sc' e H1 H2 H1' H2'.
    destruct (Hsc f n sc H1) as (e0 & nav & i & _ & -> & _ & Hr & _).
    destruct (Hsc f' n' sc' H1') as (e0' & nav' & i' & _ & -> & _ & Hr' & _).
    cbn [candidateScore event] in H2, H2'.
    injection H2 as ->. injection H2' as ->.
    destruct (reachesScoring_functional Hr Hr') as (_ & -> & ->). now split.
  - intros e. rewrite Hsel, (gatherFinalLCPEvents_In e Hu). unfold selectedCandidate.
    split; intros (f & n & sc & H); now exists f, n, sc.
Qed.

(** C4: after [finalize] the marker sequence is made of the finally
    selected LCP candidate events and of the buffered events that are
    markers and not LCP candidates, restricted to the events whose frame is
    the Meta handler's main frame, in ascending order of timestamp; it
    holds no candidate that is not selected, no InteractiveTime event and
    no event of another frame.  The finally selected events are those of
    the set of selected candidates, which [gatherFinalLCPEvents] reads back
    from the LCP scores of the table, each once: the marker sequence is a
    rearrangement of the main-frame events of the set followed by the
    main-frame markers of the buffer that are not LCP candidates, so every
    selected candidate of the main frame is among the markers. *)
Theorem C4_marker_assembly (s s' : State) :
  metricScoresByFrameId s = [] -> selectedLCPCandidateEvents s = [] ->
  finalize s = (Normal tt, s') ->
  let finalLCPEvents := gatherFinalLCPEvents (metricScoresByFrameId s') in
  allMarkerEvents s' =
    sortByTs (filter inMainFrame
                (finalLCPEvents ++ markersButLCP (sortByTs (pageLoadEventsArray s)))) /\
  Permutation (allMarkerEvents s')
    (filter inMainFrame (finalLCPEvents ++ markersButLCP (pageLoadEventsArray s))) /\
  ascendingByTs (allMarkerEvents s') /\
  (forall e,
     In e (allMarkerEvents s') <->
     (In e finalLCPEvents \/
      (In e (pageLoadEventsArray s) /\ isTraceEventMarkerEvent e = true /\
       isTraceEventLargestContentfulPaintCandidate e = false)) /\
     getFrameIdForPageLoadEvent e = Normal (mainFrameId metaHandlerData)) /\
  (forall e,
     In e (allMarkerEvents s') ->
     isTraceEventLargestContentfulPaintCandidate e = true ->
     In e (selectedLCPCandidateEvents s') /\ In e finalLCPEvents) /\
  (forall e, In e (allMarkerEvents s') -> isTraceEventInteractiveTime e = false) /\
  (forall e,
     In e (allMarkerEvents s') ->
     getFrameIdForPageLoadEvent e = Normal (mainFrameId metaHandlerData)) /\
  NoDup (selectedLCPCandidateEvents s') /\
  Permutation (selectedLCPCandidateEvents s') finalLCPEvents /\
  (forall e, In e (selectedLCPCandidateEvents s') <-> In e finalLCPEvents) /\
  Permutation (allMarkerEvents s')
    (filter inMainFrame
       (selectedLCPCandidateEvents s' ++ markersButLCP (pageLoadEventsArray s))) /\
  (forall e,
     In e (allMarkerEvents s') <->
     (In e (selectedLCPCandidateEvents s') \/
      (In e (pageLoadEventsArray s) /\ isTraceEventMarkerEvent e = true /\
       isTraceEventLargestContentfulPaintCandidate e = false)) /\
     getFrameIdForPageLoadEvent e = Normal (mainFrameId metaHandlerData)) /\
  (forall e,
     In e (selectedLCPCandidateEvents s') ->
     getFrameIdForPageLoadEvent e = Normal (mainFrameId metaHandlerData) ->
     In e (allMarkerEvents s')).
Proof.
  intros Ht Hs Hrun finalLCPEvents.
  destruct (@finalize_marker_assembly s s' Ht Hs Hrun)
    as (Heq & Hperm & Hasc & Hin & Hlcp & Hit & Hmain).
  fold finalLCPEvents in Heq, Hperm, Hin, Hlcp.
  destruct (@finalize_selected_gathered s s' Ht Hs Hrun) as (Hnd & Hnd' & Hsame).
  fold finalLCPEvents in Hnd', Hsame.
  assert (Hset : Permutation (selectedLCPCandidateEvents s') finalLCPEvents)
    by now apply NoDup_Permutation.
  split; [exact Heq |]. split; [exact Hperm |]. split; [exact Hasc |].
  split; [exact Hin |]. split; [exact Hlcp |]. split; [exact Hit |].
  split; [exact Hmain |]. split; [exact Hnd |]. split; [exact Hset |].
  split; [exact Hsame |]. split; [| split].
  - rewrite Hperm. apply filter_perm, Permutation_app_tail. now symmetry.
  - intros e. rewrite Hin, Hsame. reflexivity.
  - intros e He Hframe. apply Hin. split; [| assumption]. left. now apply Hsame.
Qed.

End Handler.

(** * The handler on sample traces *)

Lemma sample_reaches (e : TraceEventData) :
  getNavigationForPageLoadEvent navigationActiveAt sampleMeta e = Normal (Some sampleNavigation) ->
  getFrameIdForPageLoadEvent e = Normal "main" ->
  pid e = 1 -> 0 <= ts e <= 10000000 ->
  reachesScoring navigationActiveAt sampleMeta e sampleNavigation "main" "NAV1".
Proof.
  intros Hnav Hf Hp Hw. split; [assumption |]. split; [reflexivity |].
  split; [discriminate |]. split; [assumption |].
  exists [(1, sampleWindow)], sampleWindow. rewrite Hp. repeat split; cbn; lia.
Qed.

(** C1 fails as stated: with renderer data that do not know the process of
    the sample FCP event, [finalize] returns, the navigation has an FCP
    score and no InteractiveTime event resolved, and yet it has no TBT
    score. *)
Lemma C1_counterexample :
  finalize plainFormat navigationActiveAt sampleMeta emptyRenderer (buffered [sampleFCP]) =
    (Normal tt,
     snd (finalize plainFormat navigationActiveAt sampleMeta emptyRenderer
            (buffered [sampleFCP]))) /\
  (forall e, In e [sampleFCP] -> isTraceEventInteractiveTime e = false) /\
  scoreAt "main" "NAV1" FCP
    (metricScoresByFrameId
       (snd (finalize plainFormat navigationActiveAt sampleMeta emptyRenderer
               (buffered [sampleFCP])))) =
    Some (elapsedScore plainFormat FCP GOOD sampleNavigation sampleFCP) /\
  scoreAt "main" "NAV1" TBT
    (metricScoresByFrameId
       (snd (finalize plainFormat navigationActiveAt sampleMeta emptyRenderer
               (buffered [sampleFCP])))) = None.
Proof.
  split; [vm_compute; reflexivity |]. split; [| split; vm_compute; reflexivity].
  intros e [<- | []]. reflexivity.
Qed.

(** C1 on sample traces: an InteractiveTime event that reports 120ms gives
    a TBT of 120ms that is not estimated; without it, FCP at 1,000,000us and
    a 200ms task starting at 1,050,000us give an estimate of 150ms; and
    with renderer data that do not know the process of the FCP event there
    is no TBT score. *)
Lemma C1_witness :
  (exists sc,
     scoreAt "main" "NAV1" TBT
       (metricScoresByFrameId
          (snd (finalize plainFormat navigationActiveAt sampleMeta sampleRenderer
                  (buffered [sampleInteractiveTime; sampleFCP])))) = Some sc /\
     score sc = plainFormat (millisecondsToMicroseconds 120) millisecondsFormat /\
     estimated sc = None) /\
  scoreAt "main" "NAV1" TBT
    (metricScoresByFrameId
       (snd (finalize plainFormat navigationActiveAt sampleMeta sampleRenderer
               (buffered [sampleFCP])))) =
    Some (estimatedTBT plainFormat (millisecondsToMicroseconds 150) (Some sampleNavigation)) /\
  scoreAt "main" "NAV1" TBT
    (metricScoresByFrameId
       (snd (finalize plainFormat navigationActiveAt sampleMeta emptyRenderer
               (buffered [sampleFCP])))) = None.
Proof.
  set (finalizeSample := finalize plainFormat navigationActiveAt sampleMeta sampleRenderer).
  set (reported := snd (finalizeSample (buffered [sampleInteractiveTime; sampleFCP]))).
  set (estimate := snd (finalizeSample (buffered [sampleFCP]))).
  set (unknown := snd (finalize plainFormat navigationActiveAt sampleMeta emptyRenderer
                         (buffered [sampleFCP]))).
  split; [| split].
  - assert (Hrun : finalizeSample (buffered [sampleInteractiveTime; sampleFCP]) =
                   (Normal tt, reported)) by (vm_compute; reflexivity).
    destruct (proj1 (proj2 (@C1_total_blocking_time plainFormat navigationActiveAt sampleMeta
                sampleRenderer (buffered [sampleInteractiveTime; sampleFCP]) reported
                eq_refl Hrun)) "main" "NAV1") as (sc & Hsc & Hauth & Hest).
    + exists sampleInteractiveTime, sampleNavigation.
      split; [now left |]. split; [reflexivity |].
      apply sample_reaches; [reflexivity | reflexivity | reflexivity | cbn; lia].
    + exists sc. split; [assumption |]. split; [| assumption].
      destruct Hauth as (e & nav & [<- | [<- | []]] & Hk & Hr & ->);
        [reflexivity | discriminate Hk].
  - assert (Hrun : finalizeSample (buffered [sampleFCP]) = (Normal tt, estimate))
      by (vm_compute; reflexivity).
    apply (proj1 (proj2 (proj2 (@C1_total_blocking_time plainFormat navigationActiveAt
             sampleMeta sampleRenderer (buffered [sampleFCP]) estimate eq_refl Hrun)))
             "main" "NAV1"
             (elapsedScore plainFormat FCP GOOD sampleNavigation sampleFCP)).
    + intros (e & nav & [<- | []] & Hk & _). discriminate Hk.
    + vm_compute. reflexivity.
    + eexists _, _, _, _. repeat split; reflexivity.
  - assert (Hrun : finalize plainFormat navigationActiveAt sampleMeta emptyRenderer
                     (buffered [sampleFCP]) = (Normal tt, unknown))
      by (vm_compute; reflexivity).
    apply (proj1 (proj2 (proj2 (proj2 (proj2 (proj2
             (@C1_total_blocking_time plainFormat navigationActiveAt sampleMeta emptyRenderer
                (buffered [sampleFCP]) unknown eq_refl Hrun))))))
             "main" "NAV1" (elapsedScore plainFormat FCP GOOD sampleNavigation sampleFCP)
             sampleFCP).
    + intros (e & nav & [<- | []] & Hk & _). discriminate Hk.
    + vm_compute. reflexivity.
    + reflexivity.
    + reflexivity.
Defined.

(** C2 on a sample trace: candidates of indices 2, 1 and 3 arrive in that
    order for one navigation; the stored LCP score is that of the candidate
    of index 3, which alone is in the set of selected candidates. *)
Lemma C2_witness :
  scoreAt "main" "NAV1" LCP
    (metricScoresByFrameId
       (snd (finalize plainFormat navigationActiveAt sampleMeta emptyRenderer
               (buffered [sampleCandidate 2 3000; sampleCandidate 1 2000;
                          sampleCandidate 3 4000])))) =
    Some (candidateScore plainFormat sampleNavigation (sampleCandidate 3 4000)) /\
  (forall e,
     In e (selectedLCPCandidateEvents
             (snd (finalize plainFormat navigationActiveAt sampleMeta emptyRenderer
                     (buffered [sampleCandidate 2 3000; sampleCandidate 1 2000;
                                sampleCandidate 3 4000])))) <->
     e = sampleCandidate 3 4000) /\
  selectedLCPCandidateEvents
    (snd (finalize plainFormat navigationActiveAt sampleMeta emptyRenderer
            (buffered [sampleCandidate 2 3000; sampleCandidate 1 2000;
                       sampleCandidate 3 4000]))) = [sampleCandidate 3 4000].
Proof.
  set (s := buffered [sampleCandidate 2 3000; sampleCandidate 1 2000; sampleCandidate 3 4000]).
  set (s' := snd (finalize plainFormat navigationActiveAt sampleMeta emptyRenderer s)).
  assert (Hrun : finalize plainFormat navigationActiveAt sampleMeta emptyRenderer s =
                 (Normal tt, s')) by (vm_compute; reflexivity).
  assert (Hr : forall i t, 0 <= t <= 10000000 ->
                 reachesScoring navigationActiveAt sampleMeta (sampleCandidate i t)
                   sampleNavigation "main" "NAV1").
  { intros i t Ht. apply sample_reaches; [reflexivity | reflexivity | reflexivity | exact Ht]. }
  destruct (proj2 (proj2 (proj2 (C2_lcp_candidate_selection plainFormat navigationActiveAt
              sampleMeta emptyRenderer)))
              s s' (sampleCandidate 1 2000) (sampleCandidate 2 3000) (sampleCandidate 3 4000)
              sampleNavigation sampleNavigation sampleNavigation "main" "NAV1"
              eq_refl eq_refl) as [Hscore Hset];
    try reflexivity; try (apply Hr; lia); try exact Hrun.
  - apply perm_swap.
  - split; [exact Hscore |]. split; [exact Hset |]. vm_compute. reflexivity.
Defined.

(** C4 on a sample trace with events of two frames: the markers are the
    main frame's FCP, its selected candidate and its MarkLoad, by
    timestamp; the sub-frame's FCP, the superseded candidate and the
    InteractiveTime event are left out; the candidate of the set of
    selected candidates is among the markers. *)
Lemma C4_witness :
  allMarkerEvents
    (snd (finalize plainFormat navigationActiveAt sampleMeta emptyRenderer
            (buffered [sampleMarkLoad; sampleInteractiveTime; subFrameFCP;
                       sampleCandidate 2 3000000; sampleCandidate 1 2000000; sampleFCP]))) =
    [sampleFCP; sampleCandidate 2 3000000; sampleMarkLoad] /\
  ascendingByTs
    (allMarkerEvents
       (snd (finalize plainFormat navigationActiveAt sampleMeta emptyRenderer
               (buffered [sampleMarkLoad; sampleInteractiveTime; subFrameFCP;
                          sampleCandidate 2 3000000; sampleCandidate 1 2000000;
                          sampleFCP])))) /\
  In (sampleCandidate 2 3000000)
    (allMarkerEvents
       (snd (finalize plainFormat navigationActiveAt sampleMeta emptyRenderer
               (buffered [sampleMarkLoad; sampleInteractiveTime; subFrameFCP;
                          sampleCandidate 2 3000000; sampleCandidate 1 2000000;
                          sampleFCP])))).
Proof.
  split; [vm_compute; reflexivity |].
  set (trace := buffered [sampleMarkLoad; sampleInteractiveTime; subFrameFCP;
                          sampleCandidate 2 3000000; sampleCandidate 1 2000000; sampleFCP]).
  set (final := snd (finalize plainFormat navigationActiveAt sampleMeta emptyRenderer trace)).
  assert (Hrun : finalize plainFormat navigationActiveAt sampleMeta emptyRenderer trace =
                 (Normal tt, final)) by (vm_compute; reflexivity).
  pose proof (@C4_marker_assembly plainFormat navigationActiveAt sampleMeta emptyRenderer
                trace final eq_refl eq_refl Hrun) as H.
  cbv zeta in H.
  destruct H as (_ & _ & Hasc & _ & _ & _ & _ & _ & _ & _ & _ & _ & Hsel).
  split; [exact Hasc |].
  apply Hsel; [| reflexivity]. vm_compute. left. reflexivity.
Defined.

(** C5 fails as stated: an LCP candidate with no candidate index whose
    navigation the Meta handler filtered out is dropped, and [finalize]
    returns. *)
Lemma C5_counterexample :
  isTraceEventLargestContentfulPaintCandidate ghostCandidate = true /\
  data_field data_candidateIndex ghostCandidate = None /\
  attributePageLoadEvent plainFormat navigationActiveAt sampleMeta ghostCandidate emptyState =
    (Normal tt, emptyState) /\
  fst (finalize plainFormat navigationActiveAt sampleMeta sampleRenderer
         (buffered [ghostCandidate])) = Normal tt.
Proof. repeat split; vm_compute; reflexivity. Qed.

(** C5 on sample events: a candidate of the sample navigation without a
    candidate index throws, and so does [finalize] on a buffer holding it;
    a candidate without index of a navigation the Meta handler filtered
    out is dropped, and [finalize] returns on the buffer that holds it. *)
Lemma C5_witness :
  attributePageLoadEvent plainFormat navigationActiveAt sampleMeta candidateWithoutIndex
    emptyState =
    (Throw "Largest Contenful Paint unexpectedly had no candidateIndex.", emptyState) /\
  throws (finalize plainFormat navigationActiveAt sampleMeta sampleRenderer)
         (buffered [sampleFCP; candidateWithoutIndex]) /\
  attributePageLoadEvent plainFormat navigationActiveAt sampleMeta ghostCandidate emptyState =
    (Normal tt, emptyState) /\
  finalize plainFormat navigationActiveAt sampleMeta sampleRenderer (buffered [ghostCandidate]) =
    (Normal tt, buffered [ghostCandidate]).
Proof.
  assert (Hr : reachesScoring navigationActiveAt sampleMeta candidateWithoutIndex
                 sampleNavigation "main" "NAV1").
  { apply sample_reaches; [reflexivity | reflexivity | reflexivity | cbn; lia]. }
  pose proof (C5_absent_identifier_is_fatal plainFormat navigationActiveAt sampleMeta
                sampleRenderer) as (_ & _ & Hindex & Hfinalize & _ & Hdropped).
  assert (Hghost : forall s,
            attributePageLoadEvent plainFormat navigationActiveAt sampleMeta ghostCandidate s =
              (Normal tt, s) /\
            (pageLoadEventsArray s = [ghostCandidate] -> metricScoresByFrameId s = [] ->
             finalize plainFormat navigationActiveAt sampleMeta sampleRenderer s =
               (Normal tt, with_allMarkerEvents [] s))).
  { intros s. apply Hdropped; try reflexivity.
    - intros nav H. vm_compute in H. discriminate H.
    - intros nav f n (H & _). vm_compute in H. discriminate H. }
  split; [| split; [| split]].
  - apply (Hindex candidateWithoutIndex emptyState sampleNavigation "main" "NAV1");
      [reflexivity | reflexivity | exact Hr].
  - apply (Hfinalize candidateWithoutIndex).
    + cbn. tauto.
    + right. right. split; [reflexivity |]. split; [reflexivity |].
      exists sampleNavigation, "main", "NAV1". exact Hr.
  - apply (proj1 (Hghost emptyState)).
  - apply (proj2 (Hghost (buffered [ghostCandidate]))); reflexivity.
Defined.

(** C6 fails as stated: an FCP event of a frame the Meta handler does not
    know, which carries no navigation id, is not dropped: it throws. *)
Lemma C6_counterexample :
  isTraceEventFirstContentfulPaint ghostFrameFCP = true /\
  getFrameIdForPageLoadEvent ghostFrameFCP = Normal "ghost" /\
  sget "ghost" (rendererProcessesByFrame sampleMeta) = None /\
  attributePageLoadEvent plainFormat navigationActiveAt sampleMeta ghostFrameFCP emptyState =
    (Throw "Trace event unexpectedly had no navigation ID.", emptyState) /\
  fst (finalize plainFormat navigationActiveAt sampleMeta sampleRenderer
         (buffered [ghostFrameFCP])) =
    Throw "Trace event unexpectedly had no navigation ID.".
Proof. repeat split; vm_compute; reflexivity. Qed.

(** C6 on sample events: an FCP event of a filtered-out navigation and an
    FCP event outside its process's window are dropped. *)
Lemma C6_witness :
  attributePageLoadEvent plainFormat navigationActiveAt sampleMeta ghostNavigationFCP
    (buffered [ghostNavigationFCP]) = (Normal tt, buffered [ghostNavigationFCP]) /\
  attributePageLoadEvent plainFormat navigationActiveAt sampleMeta
    (mkEvent "firstContentfulPaint" 10000001 1 "main" (navigationData "NAV1") 0)
    emptyState = (Normal tt, emptyState).
Proof.
  split.
  - apply (proj1 (proj2 (C6_filtered_events_are_dropped plainFormat navigationActiveAt
             sampleMeta)) ghostNavigationFCP _ "GHOST");
      [reflexivity | reflexivity | discriminate | reflexivity].
  - apply (proj1 (C6_filtered_events_are_dropped plainFormat navigationActiveAt sampleMeta)).
    + reflexivity.
    + reflexivity.
    + intros nav [= <-]. reflexivity.
    + right. right. exists "main", [(1, sampleWindow)], sampleWindow.
      repeat split; try reflexivity. right. cbn. lia.
Defined.

(** C7 on sample events: a page-load event is appended, a LayoutShift event
    is not. *)
Lemma C7_witness :
  handleEvent sampleFCP (buffered [sampleInteractiveTime]) =
    (Normal tt, buffered [sampleInteractiveTime; sampleFCP]) /\
  handleEvent (mkEvent "LayoutShift" 100 1 "main" None 0) (buffered [sampleFCP]) =
    (Normal tt, buffered [sampleFCP]).
Proof.
  split.
  - apply (proj1 C7_handleEvent_buffers_page_load_events sampleFCP
             (buffered [sampleInteractiveTime])).
    reflexivity.
  - apply (proj1 (proj2 (proj2 (proj2 C7_handleEvent_buffers_page_load_events)))).
    reflexivity.
Defined.





(** X2 on a sample trace: the FCP events of the sub-frame and of the main
    frame are buffered; the first FCP read from the data is that of the
    main frame's event. *)
Lemma X2_witness :
  getFirstFCPTimestampFromModelData
    {| Meta := sampleMeta;
       PageLoadMetrics :=
         {| data_metricScoresByFrameId :=
              metricScoresByFrameId
                (snd (finalize plainFormat navigationActiveAt sampleMeta sampleRenderer
                        (buffered [subFrameFCP; sampleFCP])));
            data_allMarkerEvents :=
              allMarkerEvents
                (snd (finalize plainFormat navigationActiveAt sampleMeta sampleRenderer
                        (buffered [subFrameFCP; sampleFCP]))) |} |} = Some 1000000 /\
  exists e nav navigationId,
    In e [subFrameFCP; sampleFCP] /\ isTraceEventFirstContentfulPaint e = true /\
    args_frame (args e) = "main" /\
    reachesScoring navigationActiveAt sampleMeta e nav "main" navigationId /\
    ts e = 1000000.
Proof.
  set (s := buffered [subFrameFCP; sampleFCP]).
  set (s' := snd (finalize plainFormat navigationActiveAt sampleMeta sampleRenderer s)).
  assert (Hrun : finalize plainFormat navigationActiveAt sampleMeta sampleRenderer s =
                 (Normal tt, s')) by (vm_compute; reflexivity).
  set (d := {| data_metricScoresByFrameId := metricScoresByFrameId s';
               data_allMarkerEvents := allMarkerEvents s' |}).
  assert (Hres : getFirstFCPTimestampFromModelData
                   {| Meta := sampleMeta; PageLoadMetrics := d |} = Some 1000000)
    by (vm_compute; reflexivity).
  split; [exact Hres |].
  exact (proj2 (proj1 (@X2_first_FCP_after_finalize plainFormat navigationActiveAt sampleMeta
                         sampleRenderer s s' d eq_refl Hrun eq_refl) 1000000 Hres)).
Defined.

(** X4 on a sample trace: the FCP score stored for the sample navigation
    comes from the buffered FCP event. *)
Lemma X4_witness :
  scoreAt "main" "NAV1" FCP
    (metricScoresByFrameId
       (snd (finalize plainFormat navigationActiveAt sampleMeta sampleRenderer
               (buffered [sampleInteractiveTime; sampleFCP])))) =
    Some (elapsedScore plainFormat FCP GOOD sampleNavigation sampleFCP) /\
  ((exists e nav,
      In e [sampleInteractiveTime; sampleFCP] /\ guardOf FCP e = true /\
      reachesScoring navigationActiveAt sampleMeta e nav "main" "NAV1" /\
      event (elapsedScore plainFormat FCP GOOD sampleNavigation sampleFCP) = Some e /\
      navigation (elapsedScore plainFormat FCP GOOD sampleNavigation sampleFCP) = Some nav /\
      estimated (elapsedScore plainFormat FCP GOOD sampleNavigation sampleFCP) = None /\
      (FCP <> TBT ->
       score (elapsedScore plainFormat FCP GOOD sampleNavigation sampleFCP) =
       plainFormat (ts e - nav_ts nav) secondsFormat)) \/
   (FCP = TBT /\
    event (elapsedScore plainFormat FCP GOOD sampleNavigation sampleFCP) = None /\
    estimated (elapsedScore plainFormat FCP GOOD sampleNavigation sampleFCP) = Some true)).
Proof.
  set (s := buffered [sampleInteractiveTime; sampleFCP]).
  set (s' := snd (finalize plainFormat navigationActiveAt sampleMeta sampleRenderer s)).
  assert (Hrun : finalize plainFormat navigationActiveAt sampleMeta sampleRenderer s =
                 (Normal tt, s')) by (vm_compute; reflexivity).
  assert (Hsc : scoreAt "main" "NAV1" FCP (metricScoresByFrameId s') =
                Some (elapsedScore plainFormat FCP GOOD sampleNavigation sampleFCP))
    by (vm_compute; reflexivity).
  split; [exact Hsc |].
  exact (proj2 (proj2 (@X4_every_score_has_a_source plainFormat navigationActiveAt sampleMeta
                         sampleRenderer s s' eq_refl Hrun "main" "NAV1" FCP _ Hsc))).
Defined.

(** X5 on a sample trace: a second FCP event arrives after the
    InteractiveTime event of the navigation; the FCP entry has moved behind
    the TTI and TBT entries, and the timestamps ascend. *)
Lemma X5_witness :
  exists metrics,
    lookupMetrics "main" "NAV1"
      (metricScoresByFrameId
         (snd (finalize plainFormat navigationActiveAt sampleMeta sampleRenderer
                 (buffered [lateFCP; sampleInteractiveTime; sampleFCP])))) = Some metrics /\
    JSMap.keys metrics = [TTI; TBT; FCP] /\
    eventTimestamps metrics = [5000000; 5000000; 5500000] /\
    StronglySorted Z.le (eventTimestamps metrics).
Proof.
  set (s := buffered [lateFCP; sampleInteractiveTime; sampleFCP]).
  set (s' := snd (finalize plainFormat navigationActiveAt sampleMeta sampleRenderer s)).
  assert (Hrun : finalize plainFormat navigationActiveAt sampleMeta sampleRenderer s =
                 (Normal tt, s')) by (vm_compute; reflexivity).
  eexists. split; [vm_compute; reflexivity |].
  split; [reflexivity |]. split; [reflexivity |].
  apply (@X5_metrics_entries_ascend_by_timestamp plainFormat navigationActiveAt sampleMeta
           sampleRenderer s s' eq_refl Hrun "main" "NAV1").
  vm_compute. reflexivity.
Defined.

(** X6 on a sample trace: the InteractiveTime event arrived before the
    FCP event; after [finalize] the buffer has them in timeline order. *)
Lemma X6_witness :
  pageLoadEventsArray
    (snd (finalize plainFormat navigationActiveAt sampleMeta sampleRenderer
            (buffered [sampleInteractiveTime; sampleFCP]))) =
    sortByTs [sampleInteractiveTime; sampleFCP] /\
  sortByTs [sampleInteractiveTime; sampleFCP] = [sampleFCP; sampleInteractiveTime].
Proof.
  set (s := buffered [sampleInteractiveTime; sampleFCP]).
  set (s' := snd (finalize plainFormat navigationActiveAt sampleMeta sampleRenderer s)).
  assert (Hrun : finalize plainFormat navigationActiveAt sampleMeta sampleRenderer s =
                 (Normal tt, s')) by (vm_compute; reflexivity).
  split; [| reflexivity].
  exact (proj1 (@X6_finalize_sorts_the_buffer plainFormat navigationActiveAt sampleMeta
                  sampleRenderer s s' Hrun)).
Defined.

(** X7 on sample traces, from different states: a layout shift that one
    trace has and the other lacks; a first paint and an FCP event of one
    timestamp that arrive in this order before and after a later
    InteractiveTime event; two page-load events of distinct timestamps in
    either order. *)
Lemma X7_witness :
  (reset ;;; handleEvents [sampleFP; sampleLayoutShift; sampleFCP] ;;;
   finalize plainFormat navigationActiveAt sampleMeta sampleRenderer ;;; data) emptyState =
  (reset ;;; handleEvents [sampleFP; sampleFCP] ;;;
   finalize plainFormat navigationActiveAt sampleMeta sampleRenderer ;;; data)
    (buffered [ghostCandidate]) /\
  (reset ;;; handleEvents [sampleFP; sampleFCP; sampleLayoutShift; sampleInteractiveTime] ;;;
   finalize plainFormat navigationActiveAt sampleMeta sampleRenderer ;;; data) emptyState =
  (reset ;;; handleEvents [sampleInteractiveTime; sampleFP; sampleFCP] ;;;
   finalize plainFormat navigationActiveAt sampleMeta sampleRenderer ;;; data)
    (buffered [ghostCandidate]) /\
  (reset ;;; handleEvents [sampleInteractiveTime; sampleLayoutShift; sampleFCP] ;;;
   finalize plainFormat navigationActiveAt sampleMeta sampleRenderer ;;; data) emptyState =
  (reset ;;; handleEvents [sampleFCP; sampleInteractiveTime] ;;;
   finalize plainFormat navigationActiveAt sampleMeta sampleRenderer ;;; data)
    (buffered [ghostCandidate]).
Proof.
  pose proof (@X7_outcome_is_independent_of_arrival_order plainFormat navigationActiveAt
                sampleMeta sampleRenderer) as (Hsame & Hstable & Hdistinct).
  split; [| split].
  - apply Hsame. reflexivity.
  - apply Hstable. intros t. cbv -[Z.eqb].
    destruct (Z.eqb_spec 1000000 t), (Z.eqb_spec 5000000 t); try reflexivity. lia.
  - apply Hdistinct.
    + simpl. apply perm_swap.
    + simpl. constructor; [| constructor; [| constructor]].
      * intros [H | []]. discriminate H.
      * intros [].
Defined.

(** X8 on a sample trace: a candidate of the sample navigation without
    index makes the run fail, and is the cause the error names. *)
Lemma X8_witness :
  errorCause navigationActiveAt sampleMeta sampleRenderer [candidateWithoutIndex]
    "Largest Contenful Paint unexpectedly had no candidateIndex.".
Proof.
  set (run := (reset ;;; handleEvents [sampleLayoutShift; candidateWithoutIndex] ;;;
               finalize plainFormat navigationActiveAt sampleMeta sampleRenderer) emptyState).
  assert (Hrun : run = (Throw "Largest Contenful Paint unexpectedly had no candidateIndex.",
                        snd run)) by (vm_compute; reflexivity).
  exact (proj1 (@X8_every_error_of_a_run_has_a_cause plainFormat navigationActiveAt sampleMeta
                  sampleRenderer [sampleLayoutShift; candidateWithoutIndex] emptyState
                  (snd run) _ Hrun)).
Defined.

(** X9 on a sample trace: an FCP event, a layout shift, an InteractiveTime
    event, a candidate and a MarkLoad event of the sample navigation. *)
Lemma X9_witness :
  exists d s',
    (reset ;;;
     handleEvents [sampleFCP; sampleLayoutShift; sampleInteractiveTime;
                   sampleCandidate 1 2000000; sampleMarkLoad] ;;;
     finalize plainFormat navigationActiveAt sampleMeta sampleRenderer ;;; data) emptyState =
    (Normal d, s') /\
    data_metricScoresByFrameId d = metricScoresByFrameId s' /\
    data_allMarkerEvents d = allMarkerEvents s' /\
    pageLoadEventsArray s' =
      sortByTs (filter eventIsPageLoadEvent
                  [sampleFCP; sampleLayoutShift; sampleInteractiveTime;
                   sampleCandidate 1 2000000; sampleMarkLoad]).
Proof.
  apply (@X9_a_run_on_a_well_formed_trace_returns plainFormat navigationActiveAt sampleMeta
           sampleRenderer).
  intros e Hin. simpl in Hin.
  destruct Hin as [<- | [<- | [<- | [<- | []]]]];
    (split; [reflexivity |]);
    (split; [first [intros H; vm_compute in H; discriminate H | intros _; reflexivity] |]);
    (split; [intros nav H; vm_compute in H; injection H as <-; reflexivity |]);
    try (intros H; vm_compute in H; discriminate H).
  intros _ renderer H. vm_compute in H. injection H as <-.
  eexists. eexists. split; [reflexivity |]. split; [reflexivity |].
  intros rootId [<- | []]. eexists. eexists. split; reflexivity.
Defined.

(** X10 on the sample main thread: from a blocking time of 0 and an FCP at
    1,000,000us the loop returns, with a blocking time that has not
    decreased. *)
Lemma X10_witness :
  blockingTimeLoop [TraceEventComplete "RunTask" 1050000 200000] [(0, {| eventIndex := 0 |})]
                   1000000 0 [0] = Normal 150000 /\
  0 <= 150000.
Proof.
  assert (Hrun : blockingTimeLoop [TraceEventComplete "RunTask" 1050000 200000]
                   [(0, {| eventIndex := 0 |})] 1000000 0 [0] = Normal 150000)
    by reflexivity.
  split; [exact Hrun |].
  exact (proj1 (proj2 (proj2 (X10_blocking_time_loop
                                [TraceEventComplete "RunTask" 1050000 200000]
                                [(0, {| eventIndex := 0 |})] 1000000 0 [0])) 150000 Hrun)).
Defined.

(** X11 on sample data: the table holds the sample FCP score and the
    process of its event has no thread. *)
Lemma X11_witness :
  estimateTotalBlockingTime plainFormat threadlessRenderer "main" "NAV1" scoredFCPState =
    (Throw "Main thread not found.", scoredFCPState) /\
  throws (estimateTotalBlockingTimes plainFormat threadlessRenderer) scoredFCPState.
Proof.
  assert (Hinc : ~ rendererComplete {| threads := [] |}).
  { intros (mainThread & mainThreadTree & H & _). discriminate H. }
  destruct (@X11_incomplete_renderer_data_is_fatal plainFormat threadlessRenderer
              "main" "NAV1" scoredFCPState sampleFCPScore sampleFCP {| threads := [] |}
              eq_refl eq_refl eq_refl eq_refl Hinc) as (_ & Hthrows & Hmessage).
  split; [| exact Hthrows].
  apply Hmessage. intros mainThread H. discriminate H.
Defined.

(** X12 on sample data: the sample FCP event resolves to a navigation
    without id. *)
Lemma X12_witness :
  attributePageLoadEvent plainFormat navigationActiveAt anonymousMeta sampleFCP emptyState =
    (Throw "Navigation event unexpectedly had no navigation ID.", emptyState) /\
  throws (finalize plainFormat navigationActiveAt anonymousMeta sampleRenderer)
         (buffered [sampleFCP]).
Proof.
  destruct (@X12_navigation_without_id_is_fatal plainFormat navigationActiveAt anonymousMeta
              sampleRenderer anonymousNavigation eq_refl) as (_ & Hattribute & Hfinalize).
  split.
  - apply Hattribute. reflexivity.
  - apply (Hfinalize sampleFCP); [reflexivity | now left].
Defined.

(** X13 at the boundary of the good FCP timing. *)
Lemma X13_witness :
  rank (scoreClassificationForFirstContentfulPaint 1800000) <=
  rank (scoreClassificationForFirstContentfulPaint 1800001).
Proof.
  assert (H : 1800000 <= 1800001) by lia.
  exact (proj1 (proj1 (X13_scorers_are_monotone H))).
Defined.

(** X14 on a sample trace: the TTI score of the sample navigation comes
    with the TBT score its InteractiveTime event reported. *)
Lemma X14_witness :
  exists tbt e nav,
    scoreAt "main" "NAV1" TBT
      (metricScoresByFrameId
         (snd (finalize plainFormat navigationActiveAt sampleMeta sampleRenderer
                 (buffered [sampleInteractiveTime; sampleFCP])))) = Some tbt /\
    In e [sampleInteractiveTime; sampleFCP] /\ isTraceEventInteractiveTime e = true /\
    reachesScoring navigationActiveAt sampleMeta e nav "main" "NAV1" /\
    elapsedScore plainFormat TTI OK sampleNavigation sampleInteractiveTime =
      elapsedScore plainFormat TTI
        (scoreClassificationForTimeToInteractive (ts e - nav_ts nav)) nav e /\
    tbt = reportedTBT plainFormat nav e.
Proof.
  set (s := buffered [sampleInteractiveTime; sampleFCP]).
  set (s' := snd (finalize plainFormat navigationActiveAt sampleMeta sampleRenderer s)).
  assert (Hrun : finalize plainFormat navigationActiveAt sampleMeta sampleRenderer s =
                 (Normal tt, s')) by (vm_compute; reflexivity).
  apply (proj1 (@X14_TTI_and_reported_TBT_go_together plainFormat navigationActiveAt
                  sampleMeta sampleRenderer s s' eq_refl Hrun "main" "NAV1")).
  vm_compute. reflexivity.
Defined.

(** X15 on a sample trace: a MarkLoad event without frame id follows the
    sample FCP event; [finalize] fails, the marker list is still empty and
    the table already holds the FCP score. *)
Lemma X15_witness :
  fst (finalize plainFormat navigationActiveAt sampleMeta sampleRenderer
         (buffered [anonymousMarkLoad; sampleFCP])) =
    Throw "MarkDOMContent unexpectedly had no frame ID." /\
  allMarkerEvents
    (snd (finalize plainFormat navigationActiveAt sampleMeta sampleRenderer
            (buffered [anonymousMarkLoad; sampleFCP]))) = [] /\
  scoreAt "main" "NAV1" FCP
    (metricScoresByFrameId
       (snd (finalize plainFormat navigationActiveAt sampleMeta sampleRenderer
               (buffered [anonymousMarkLoad; sampleFCP])))) =
    Some (elapsedScore plainFormat FCP GOOD sampleNavigation sampleFCP).
Proof.
  set (s := buffered [anonymousMarkLoad; sampleFCP]).
  set (s' := snd (finalize plainFormat navigationActiveAt sampleMeta sampleRenderer s)).
  assert (Hrun : finalize plainFormat navigationActiveAt sampleMeta sampleRenderer s =
                 (Throw "MarkDOMContent unexpectedly had no frame ID.", s'))
    by (vm_compute; reflexivity).
  split; [now rewrite Hrun |]. split; [| vm_compute; reflexivity].
  exact (proj1 (@X15_failed_finalize_keeps_the_markers plainFormat navigationActiveAt
                  sampleMeta sampleRenderer s s' _ Hrun)).
Defined.

(** X16 on sample data: from a table that holds the sample FCP score the
    estimation adds a TBT estimate and leaves the FCP score as it was. *)
Lemma X16_witness :
  scoreAt "main" "NAV1" FCP
    (metricScoresByFrameId
       (snd (estimateTotalBlockingTimes plainFormat sampleRenderer scoredFCPState))) =
    Some sampleFCPScore /\
  navigationKeys
    (metricScoresByFrameId
       (snd (estimateTotalBlockingTimes plainFormat sampleRenderer scoredFCPState))) =
    [("main", "NAV1")].
Proof.
  set (s' := snd (estimateTotalBlockingTimes plainFormat sampleRenderer scoredFCPState)).
  assert (Hrun : estimateTotalBlockingTimes plainFormat sampleRenderer scoredFCPState =
                 (Normal tt, s')) by (vm_compute; reflexivity).
  destruct (@X16_estimation_only_adds_estimates plainFormat sampleRenderer scoredFCPState s'
              Hrun) as (Hkeys & Hkept & _).
  split; [apply Hkept; reflexivity | exact Hkeys].
Defined.

(** X17 on a sample trace: two FCP events of the sample navigation are
    buffered; the FCP score bears an event that is not earlier than the
    first of them. *)
Lemma X17_witness :
  exists sc e' nav',
    scoreAt "main" "NAV1" FCP
      (metricScoresByFrameId
         (snd (finalize plainFormat navigationActiveAt sampleMeta sampleRenderer
                 (buffered [lateFCP; sampleInteractiveTime; sampleFCP])))) = Some sc /\
    event sc = Some e' /\ estimated sc = None /\
    In e' [lateFCP; sampleInteractiveTime; sampleFCP] /\ guardOf FCP e' = true /\
    reachesScoring navigationActiveAt sampleMeta e' nav' "main" "NAV1" /\
    ts sampleFCP <= ts e'.
Proof.
  set (s := buffered [lateFCP; sampleInteractiveTime; sampleFCP]).
  set (s' := snd (finalize plainFormat navigationActiveAt sampleMeta sampleRenderer s)).
  assert (Hrun : finalize plainFormat navigationActiveAt sampleMeta sampleRenderer s =
                 (Normal tt, s')) by (vm_compute; reflexivity).
  apply (@X17_the_latest_event_wins plainFormat navigationActiveAt sampleMeta sampleRenderer
           s s' eq_refl Hrun sampleFCP sampleNavigation "main" "NAV1" FCP).
  - simpl. tauto.
  - discriminate.
  - reflexivity.
  - apply sample_reaches; [reflexivity | reflexivity | reflexivity | simpl; lia].
Defined.

(** X18 on a sample trace: two candidates of index 2 and one of index 1;
    the earlier candidate of index 2 is the one selected. *)
Lemma X18_witness :
  selectedLCPCandidateEvents
    (snd (finalize plainFormat navigationActiveAt sampleMeta emptyRenderer
            (buffered [sampleCandidate 2 3000; sampleCandidate 2 2000;
                       sampleCandidate 1 1000]))) = [sampleCandidate 2 2000] /\
  (2 < 2 \/ (2 = 2 /\ ts (sampleCandidate 2 2000) <= ts (sampleCandidate 2 3000))).
Proof.
  set (s := buffered [sampleCandidate 2 3000; sampleCandidate 2 2000; sampleCandidate 1 1000]).
  set (s' := snd (finalize plainFormat navigationActiveAt sampleMeta emptyRenderer s)).
  assert (Hrun : finalize plainFormat navigationActiveAt sampleMeta emptyRenderer s =
                 (Normal tt, s')) by (vm_compute; reflexivity).
  split; [vm_compute; reflexivity |].
  apply (@X18_the_earliest_candidate_of_the_highest_index_wins plainFormat navigationActiveAt
           sampleMeta emptyRenderer s s' eq_refl eq_refl Hrun "main" "NAV1"
           (sampleCandidate 2 2000) 2 (sampleCandidate 2 3000) sampleNavigation 2).
  - eexists. split; vm_compute; reflexivity.
  - reflexivity.
  - simpl. tauto.
  - reflexivity.
  - apply sample_reaches; [reflexivity | reflexivity | reflexivity | simpl; lia].
  - reflexivity.
Defined.

(** X19 on a sample trace: the metrics map of the sample navigation is
    not empty. *)
Lemma X19_witness :
  exists metrics,
    lookupMetrics "main" "NAV1"
      (metricScoresByFrameId
         (snd (finalize plainFormat navigationActiveAt sampleMeta sampleRenderer
                 (buffered [sampleInteractiveTime; sampleFCP])))) = Some metrics /\
    metrics <> [] /\ "NAV1" <> "" /\
    sget "main" (rendererProcessesByFrame sampleMeta) <> None.
Proof.
  set (s := buffered [sampleInteractiveTime; sampleFCP]).
  set (s' := snd (finalize plainFormat navigationActiveAt sampleMeta sampleRenderer s)).
  assert (Hrun : finalize plainFormat navigationActiveAt sampleMeta sampleRenderer s =
                 (Normal tt, s')) by (vm_compute; reflexivity).
  eexists. split; [vm_compute; reflexivity |].
  apply (proj2 (@X19_the_table_has_no_empty_map plainFormat navigationActiveAt sampleMeta
                  sampleRenderer s s' eq_refl Hrun) "main" "NAV1").
  vm_compute. reflexivity.
Defined.
